(* ===== verification/_CoqProject ===== *)
-Q . S2P
Prelude.v
Text.v
Decimal.v
Json.v
Encoding.v
Timestamp.v
Session.v
Logic.v
Context.v
Ledger.v
Validate.v
Diagnostics.v
Outcome.v
Workflow.v
Prompt.v
Tools.v
Checkpoint.v
Actions.v
Wire.v
Compaction.v
Store.v
Http.v
StoreLogic.v
HttpLogic.v
Rows.v
Snapshot.v
Config.v
Retention.v
Startup.v
Requests.v
AdmissionFacts.v
Commit.v
Load.v
Handlers.v
Pages.v
CommitFacts.v
SaveFacts.v
Responses.v
Run.v
Server.v
Stream.v
Channel.v
Listings.v
Router.v
Admin.v
Service.v
Frames.v
WorldFrame.v
Invariant.v
Sample.v
Authority.v
Guarantees.v
PagesFacts.v
CompactFacts.v
History.v
Dispatch.v
Cancel.v
RunFacts.v
WorkflowFacts.v
ConfigFacts.v
ArchiveFacts.v
