(* ===== verification/Prelude.v ===== *)
(** * State-driven agent (Rust runtime): verification development

    The program is an HTTP service that runs language-model agents whose whole
    state is durable in PostgreSQL ([src/agent-rust/src]).  A client creates a
    session, appends messages, starts or resumes runs and cancels them; a run
    asks a model for decisions, dispatches tool calls as durable actions,
    compacts the history when it no longer fits the context window, walks a
    configured workflow, and commits every step.  Several workers share one
    database; leases with fences, command receipts and idempotency keys keep
    them from interfering.  This development models the Rust program, not the
    Python, Go and Java ports of the same contract.

    ** Layers and files

    - Foundations: [Prelude] (record update, results, 64-bit wrap-around, lists,
      sorting, reachability), [Text] (UTF-8 strings), [Decimal], [Json] (values of
      serde_json with [preserve_order], and [Platform]: what other crates compute).
    - Pure parts: [Encoding] ([identity.rs], strict JSON of [tools.rs]),
      [Timestamp] ([transcript_timestamp]), [Context] and [Ledger] ([context.rs]),
      [Validate] ([tools.rs], schema checks), [Diagnostics] ([diagnostics.rs]),
      [Outcome], [Workflow], [Prompt] ([engine.rs]), [Config] and [Startup]
      ([main.rs], configuration and [.env] file), [Snapshot] ([integrity.rs]).
    - The engine: [Session] (the structs of [engine.rs] and the monad [M] of a
      computation on a session and a world), [Tools] ([tools.rs]), [Checkpoint]
      (the type class [Host]: checkpoint callback, HTTP, database, recipient),
      [Actions] ([actions.rs]), [Wire] (requests and decisions), [Compaction]
      ([Engine::compact]), [Run] ([Engine::run]).
    - The database: [Store] (tables as finite maps, the monad [T], transactions
      whose request or reply may be lost and before which others commit, leases), [Rows]
      (rows as JSON, the projection query), [Retention] ([retention.rs]),
      [Commit] ([save] and [save_inner]), [Load] ([load]).
    - The service: [Http] (the monad [H] of a handler on the state of a server
      process), [Requests] ([commands.rs]: admission), [Handlers], [Pages],
      [Listings] ([main.rs], [events.rs]), [Server] and [Stream] (the handlers that
      run the agent; [run_host] is the [Host] the engine runs on there), [Channel]
      ([sse.rs]), [Router], [Admin] ([reconcile.rs], operator commands), [Service]
      (the transition system of the whole).
    - Reasoning: [Logic], [StoreLogic], [HttpLogic] (weakest preconditions and
      framing for [M], [T], [H]), [Frames], [WorldFrame] (what a run leaves alone).
    - Theorems: [AdmissionFacts], [CommitFacts], [SaveFacts], [Responses],
      [Invariant], [Authority], [Guarantees], [PagesFacts], [CompactFacts],
      [History], [Dispatch], [Cancel], [RunFacts], [WorkflowFacts],
      [ConfigFacts], [ArchiveFacts], and the end of each pure file.  [Sample] is a recorded host on which the
      witnesses run the model.

    ** What the theorems show

    - The service: in every reachable state transcripts are numbered without gaps,
      and nothing that was recorded is ever lost or changed, whatever requests,
      operators, other tasks, other processes, restarts and lost messages do,
      before any transaction too ([history_is_never_lost]); an expired lease can be taken over
      ([expired_lease_is_taken_over]); a reader that follows the cursors sees every
      row once ([transcript_is_walked_once]); the watcher of a stream is notified
      exactly when the client leaves early ([stream_notifies_exactly_drops]).
    - Commits, whatever other connections commit in between: a proposal is written
      at most once and never by a stale worker
      ([save_commits_at_most_once], [stale_worker_writes_nothing],
      [takeover_fences_previous_owner]); outcomes are final ([outcomes_are_final]);
      the response sent is the stored one ([response_is_the_stored_one]); a key that
      has a command never runs a handler again ([known_command_is_not_rerun]), and a
      handler runs only under a claim that excludes all others
      ([handler_runs_under_claim]); an
      archive that was exported is accepted by the verification, and the pruning
      finds under its watermarks what was exported ([exported_archive_verifies]).
    - Runs: they end within their allowance ([run_settles_within_allowance],
      [run_loop_fuel_enough]); a completed run satisfies every configured requirement
      and has walked the workflow ([run_completion_verified],
      [completed_run_walked_workflow], [run_justifies_workflow]); every call is
      answered once, in order ([handle_tools_keeps_history_sound],
      [settle_pending_answers_in_order], [decided_calls_are_answerable]); once its
      cancellation is recorded a run takes no more action
      ([cancelled_run_acts_no_more]).
    - Actions: no effect precedes its committed record, the recipient applies it
      once, attempts are bounded, settled actions are replayed
      ([effects_follow_their_record], [recipient_applies_once],
      [recipient_refuses_other_payload], [dispatch_attempts_bounded],
      [settled_action_is_replayed]).
    - Compaction: it leaves a request that fits and removes whole interactions only
      ([compact_leaves_fitting_request], [compact_cuts_whole_interactions],
      [validate_ledger_sound]).
    - Pure parts: decision procedures against declarative definitions
      ([validate_value_iff], [validate_schema_iff], [interaction_groups_iff],
      [decimal_canonical_iff]), refinement of the diagnostics journal
      ([record_appends_journal], [hydrate_restores_journal]), bounds of the request
      estimate ([estimate_payload_fits]), confinement of configurations
      ([cfg_confined], [validated_run_stays_in_graph]), snapshots
      ([snapshot_validates]), the environment file ([dotenv_adds_variables]).

    ** Conventions

    [by_others d d'] says that only commits of other connections, and readings of
    clocks, lead from [d] to [d']; [courteous], [respects] and [FaithfulOthers]
    are what is asked of them, and [Quiet] that there are none.

    Integers are [Z]; where the code computes on [i64] the wrap-around of release
    builds is written out ([add64], [sub64], [mul64]; [add_usize]); a sum that
    PostgreSQL computes on [bigint] fails on overflow ([bigint_add]), and the CHECK
    constraints on revisions and sequence numbers refuse a number that has wrapped
    around, so that a transcript is numbered up to [i64_max] ([all_numbered]) and a
    revision never goes back.  What counts the elements of a list or the rounds of a
    bounded loop (attempts, passes, rows of an archive) is a plain sum.  Doubles are [spec_float] at
    binary64.  A panic is a value ([Panic] in [T], [Panicked] in [H], [None] in
    [set_var]); in the engine a panic of a library is an error.  Fields that the
    code mutates in place are updated with [s <| f := x |>].

    ** Fuel

    [run_loop] gets the decisions left below the limit, which is enough
    ([run_loop_fuel_enough]); [settle_calls] and [single_call_from] consume one
    element of a list per iteration; [attempt_summaries] and [compact_passes] get
    the configured numbers of attempts and passes, which the loops of the code
    count as well; [xml_loop] and [expand_from] consume input at every step
    ([xml_reader_terminates]); [fresh_from] draws one identity more than are in
    use; [attempt_save] makes the two retries of the code.  [follow], which polls
    for events as long as a run goes on, gets its number of polls as an argument.

    ** What is not modelled

    - Libraries are parameters: SHA-256, the JSON and YAML readers, the printing of
      doubles, regular expressions, Unicode tables, UUID parsing ([Platform],
      [Files], [Serde]); PostgreSQL's clock, casts and JSONB reading, and the fate of
      each transaction ([Backend]); the model's HTTP endpoint and the fixture
      database ([Host]).
    - The SQL schema is PostgreSQL's: foreign keys, most CHECK constraints and
      columns with default timestamps are left out; they could only turn a commit into a
      rollback, or are not read by the code.  Rows whose presentation is
      [to_jsonb] of all their columns are parameters of the listings and the
      export.
    - A handler is a sequential computation that others interrupt: before each of
      its transactions other connections may commit anything ([meanwhile] of
      [Backend]; what a theorem asks of them is its hypothesis), other tasks and
      workers act between the checkpoints of a run and between the batches of a
      replayed stream ([Schedule]), and other requests are served between two
      requests ([service_step]).  Within a transaction nobody interferes: its
      statements lock the rows of the session or the command they use.
    - The task of a stream is composed before the response it feeds; the bounded
      channel between them is [Channel].
    - Connecting to the databases, checking the schema with its SQL script, binding
      the socket, axum's own routing of other methods, and the pages of fixed text
      ([openapi], [docs], [redoc]) are input and output only.  The [cfg(test)]
      modules are not part of the program. *)
From stdpp Require Export base tactics option list gmap strings pretty.
From Stdlib Require Export ZArith Lia SpecFloat.
From stdpp Require sorting.
From Stdlib Require Import Permutation Sorted.

(** ** Record update

    Rust mutates a field of a struct in place ([s.status = x]); the model
    writes [s <| status := x |>].  A record declares how it is rebuilt from
    its projections ([Eta]) and [derive_upd] derives the update of any field
    from that single declaration. *)
Class Eta (R : Type) := eta : R -> R.
Class Upd {R A : Type} (proj : R -> A) := upd : (A -> A) -> R -> R.

#[export] Typeclasses Opaque Eta Upd.

Ltac derive_upd :=
  match goal with
  | |- @Upd ?R ?A ?p =>
      let i := constr:(_ : Eta R) in
      let e := eval hnf in i in
      match eval pattern p in e with
      | ?F _ =>
          let r := eval cbv beta in (fun (f : A -> A) => F (fun r : R => f (p r))) in
          exact r
      end
  end.
#[export] Hint Extern 1 (Upd _) => derive_upd : typeclass_instances.

Declare Scope agent_scope.
Delimit Scope agent_scope with agent.
Notation "s <| p := v |>" := (upd (proj := p) (fun _ => v) s)
  (at level 1, left associativity, p at level 99) : agent_scope.
Notation "s <| p ::= f |>" := (upd (proj := p) f s)
  (at level 1, left associativity, p at level 99) : agent_scope.
#[global] Open Scope agent_scope.

(** ** Results: [Result<A, E>] *)
Inductive result (E A : Type) : Type :=
| Ok (a : A)
| Err (e : E).
Arguments Ok {E A} a.
Arguments Err {E A} e.

#[export] Instance result_ret {E} : MRet (result E) := fun A a => Ok a.
#[export] Instance result_bind {E} : MBind (result E) :=
  fun A B f m => match m with Ok a => f a | Err e => Err e end.
#[export] Instance result_fmap {E} : FMap (result E) :=
  fun A B f m => match m with Ok a => Ok (f a) | Err e => Err e end.

Definition map_err {E F A} (f : E -> F) (r : result E A) : result F A :=
  match r with Ok a => Ok a | Err e => Err (f e) end.
Definition ok_or {E A} (e : E) (o : option A) : result E A :=
  match o with Some a => Ok a | None => Err e end.
Definition result_ok {E A} (r : result E A) : option A :=
  match r with Ok a => Some a | Err _ => None end.
Definition is_ok {E A} (r : result E A) : bool :=
  match r with Ok _ => true | Err _ => false end.
Definition is_err {E A} (r : result E A) : bool := negb (is_ok r).
(** Early return of an error: [if b { return Err(e) }]. *)
Definition fail_if {E} (b : bool) (e : E) : result E unit :=
  if b then Err e else Ok tt.

(** [iter().map(f).collect::<Result<Vec<_>, _>>()]. *)
Fixpoint collect {E A B} (f : A -> result E B) (l : list A) : result E (list B) :=
  match l with
  | [] => Ok []
  | x :: l' =>
      match f x with
      | Err e => Err e
      | Ok y => match collect f l' with Err e => Err e | Ok ys => Ok (y :: ys) end
      end
  end.
(** A [for] loop whose body may return an error. *)
Fixpoint for_each {E A} (f : A -> result E unit) (l : list A) : result E unit :=
  match l with
  | [] => Ok tt
  | x :: l' => match f x with Err e => Err e | Ok _ => for_each f l' end
  end.
(** The same loop with [enumerate()]. *)
Fixpoint for_each_i {E A} (f : nat -> A -> result E unit) (i : nat) (l : list A)
  : result E unit :=
  match l with
  | [] => Ok tt
  | x :: l' => match f i x with Err e => Err e | Ok _ => for_each_i f (S i) l' end
  end.

(** ** Options *)
Definition is_some {A} (o : option A) : bool := match o with Some _ => true | None => false end.
Definition is_none {A} (o : option A) : bool := negb (is_some o).
Definition is_some_and {A} (o : option A) (p : A -> bool) : bool :=
  match o with Some a => p a | None => false end.
Definition is_none_or {A} (o : option A) (p : A -> bool) : bool :=
  match o with Some a => p a | None => true end.
Definition unwrap_or {A} (o : option A) (d : A) : A := match o with Some a => a | None => d end.
Definition opt_or {A} (o p : option A) : option A := match o with Some _ => o | None => p end.
Definition opt_filter {A} (p : A -> bool) (o : option A) : option A :=
  match o with Some a => if p a then Some a else None | None => None end.

(** ** Machine integers: two's complement [i64] *)
Definition i64_min : Z := - 2 ^ 63.
Definition i64_max : Z := 2 ^ 63 - 1.
Definition wrap64 (z : Z) : Z := (z + 2 ^ 63) mod 2 ^ 64 - 2 ^ 63.
Definition add64 (a b : Z) : Z := wrap64 (a + b).
Definition sub64 (a b : Z) : Z := wrap64 (a - b).
Definition mul64 (a b : Z) : Z := wrap64 (a * b).
(** [usize] of a 64-bit target *)
Definition add_usize (a b : Z) : Z := (a + b) mod 2 ^ 64.
Definition in_i64 (z : Z) : bool := (i64_min <=? z)%Z && (z <=? i64_max)%Z.
(** [checked_add] / [checked_sub]: [None] on overflow. *)
Definition checked_add64 (a b : Z) : option Z := if in_i64 (a + b) then Some (a + b)%Z else None.
Definition checked_sub64 (a b : Z) : option Z := if in_i64 (a - b) then Some (a - b)%Z else None.

(** ** Lists *)
Definition enumerate {A} (l : list A) : list (nat * A) := imap pair l.
Fixpoint find_first {A} (p : A -> bool) (l : list A) : option A :=
  match l with [] => None | x :: l' => if p x then Some x else find_first p l' end.
Definition filter_map {A B} (f : A -> option B) (l : list A) : list B :=
  flat_map (fun x => match f x with Some y => [y] | None => [] end) l.
(** [Vec::retain]. *)
Definition retain {A} (p : A -> bool) (l : list A) : list A := List.filter p l.
(** [sort_by] is a stable sort; insertion sort is its executable model. *)
Fixpoint insert_by {A} (le : A -> A -> bool) (x : A) (l : list A) : list A :=
  match l with
  | [] => [x]
  | y :: l' => if le x y then x :: y :: l' else y :: insert_by le x l'
  end.
Definition sort_by {A} (le : A -> A -> bool) (l : list A) : list A :=
  foldr (insert_by le) [] l.
(** [Vec::dedup]: removes consecutive repeated elements. *)
Fixpoint dedup {A} (eqb : A -> A -> bool) (l : list A) : list A :=
  match l with
  | x :: ((y :: _) as l') => if eqb x y then dedup eqb l' else x :: dedup eqb l'
  | _ => l
  end.
(** [HashSet::insert] returning [false] on the first repeated element:
    [true] iff the keys are pairwise distinct. *)
Fixpoint all_distinct (l : list string) : bool :=
  match l with
  | [] => true
  | x :: l' => negb (existsb (String.eqb x) l') && all_distinct l'
  end.
Definition str_in (x : string) (l : list string) : bool := existsb (String.eqb x) l.

(** * Generic lemmas *)

Lemma wrap64_id z : (i64_min <= z <= i64_max)%Z -> wrap64 z = z.
Proof. unfold wrap64, i64_min, i64_max. intros. rewrite Z.mod_small; lia. Qed.

Lemma wrap64_range z : (i64_min <= wrap64 z <= i64_max)%Z.
Proof.
  unfold wrap64, i64_min, i64_max.
  pose proof (Z.mod_pos_bound (z + 2 ^ 63) (2 ^ 64) ltac:(lia)). lia.
Qed.

Lemma in_i64_spec z : in_i64 z = true <-> (i64_min <= z <= i64_max)%Z.
Proof. unfold in_i64. rewrite andb_true_iff, !Z.leb_le. tauto. Qed.

Lemma str_in_spec x l : str_in x l = true <-> x ∈ l.
Proof.
  unfold str_in. rewrite existsb_exists. split.
  - intros (y & Hy & ->%String.eqb_eq). by apply list_elem_of_In.
  - intros H. exists x. rewrite String.eqb_refl. split; [by apply list_elem_of_In|done].
Qed.

Lemma str_in_false x l : str_in x l = false <-> x ∉ l.
Proof. rewrite <- str_in_spec. destruct (str_in x l); naive_solver. Qed.

Lemma all_distinct_spec l : all_distinct l = true <-> NoDup l.
Proof.
  induction l as [|x l IH]; cbn; [by split; [constructor|]|].
  rewrite andb_true_iff, IH, negb_true_iff.
  change (existsb (String.eqb x) l) with (str_in x l).
  rewrite str_in_false, NoDup_cons. tauto.
Qed.

Lemma find_first_some {A} (p : A -> bool) l x :
  find_first p l = Some x -> x ∈ l /\ p x = true.
Proof.
  induction l as [|y l IH]; cbn; [done|].
  destruct (p y) eqn:E; [intros [= ->]; split; [left|done]|].
  intros [? ?]%IH. split; [by right|done].
Qed.

Lemma find_first_none {A} (p : A -> bool) l :
  find_first p l = None <-> forall x, x ∈ l -> p x = false.
Proof.
  induction l as [|y l IH]; cbn; [split; [intros _ x Hx; by apply elem_of_nil in Hx|done]|].
  destruct (p y) eqn:E.
  - split; [done|]. intros H. specialize (H y ltac:(left)). congruence.
  - rewrite IH. split.
    + intros H x [->|Hx]%elem_of_cons; auto.
    + intros H x Hx. apply H. by right.
Qed.

Lemma for_each_ok {E A} (f : A -> result E unit) l :
  for_each f l = Ok tt <-> forall x, x ∈ l -> f x = Ok tt.
Proof.
  induction l as [|y l IH]; cbn; [split; [intros _ x Hx; by apply elem_of_nil in Hx|done]|].
  destruct (f y) as [[]|e] eqn:Hy.
  - rewrite IH. split.
    + intros H x [->|Hx]%elem_of_cons; auto.
    + intros H x Hx. apply H. by right.
  - split; [done|]. intros H. rewrite H in Hy by left. done.
Qed.

Lemma for_each_i_ok {E A} (f : nat -> A -> result E unit) i l :
  for_each_i f i l = Ok tt <-> forall j x, l !! j = Some x -> f (i + j)%nat x = Ok tt.
Proof.
  revert i. induction l as [|y l IH]; intros i; cbn; [by split|].
  destruct (f i y) as [[]|e] eqn:Hy.
  - rewrite IH. split.
    + intros H [|j] x Hj; cbn in Hj; [rewrite Nat.add_0_r; congruence|].
      rewrite <- Nat.add_succ_comm. by apply H.
    + intros H j x Hj. rewrite Nat.add_succ_comm. by apply (H (S j)).
  - split; [done|]. intros H. specialize (H 0%nat y eq_refl). rewrite Nat.add_0_r in H. congruence.
Qed.

Lemma bind_ok {E A B} (f : A -> result E B) (m : result E A) b :
  m ≫= f = Ok b <-> exists a, m = Ok a /\ f a = Ok b.
Proof.
  destruct m as [a|e]; cbn.
  - split; [intros H; by exists a|]. by intros (? & [= <-] & H).
  - split; [done|]. by intros (? & ? & _).
Qed.

Lemma fail_if_ok {E} b (e : E) u : fail_if b e = Ok u <-> b = false.
Proof. destruct b, u; done. Qed.

Lemma if_err_ok {E A} (b : bool) (e : E) (r : result E A) x :
  (if b then Err e else r) = Ok x <-> b = false /\ r = Ok x.
Proof. destruct b; naive_solver. Qed.

Lemma is_some_and_false {A} (o : option A) p :
  is_some_and o p = false <-> forall x, o = Some x -> p x = false.
Proof. destruct o; cbn; naive_solver. Qed.

Lemma existsb_false_in {A} (p : A -> bool) l x : existsb p l = false -> x ∈ l -> p x = false.
Proof.
  induction l as [|y l IH]; cbn; [intros _ H; by apply elem_of_nil in H|].
  intros [Hy Hl]%orb_false_iff [->|Hx]%elem_of_cons; auto.
Qed.

Lemma collect_length {E A B} (f : A -> result E B) l l' :
  collect f l = Ok l' -> length l' = length l.
Proof.
  revert l'. induction l as [|x l IH]; cbn; intros l'; [by intros [= <-]|].
  destruct (f x); [|done]. destruct (collect f l); [|done].
  intros [= <-]. cbn. f_equal. by apply IH.
Qed.

Lemma insert_by_perm {A} (le : A -> A -> bool) x l : Permutation (insert_by le x l) (x :: l).
Proof.
  induction l as [|y l IH]; cbn; [done|]. destruct (le x y); [done|].
  rewrite IH. constructor.
Qed.

Lemma sort_by_perm {A} (le : A -> A -> bool) l : Permutation (sort_by le l) l.
Proof.
  induction l as [|x l IH]; cbn; [done|]. rewrite insert_by_perm. by rewrite IH.
Qed.

Section sorting.
Context {A : Type} (le : A -> A -> bool).
Hypothesis le_total : forall x y, le x y = true \/ le y x = true.
Hypothesis le_trans : forall x y z, le x y = true -> le y z = true -> le x z = true.

Lemma insert_by_sorted x l :
  StronglySorted (fun a b => le a b = true) l ->
  StronglySorted (fun a b => le a b = true) (insert_by le x l).
Proof.
  induction 1 as [|y l Hs IH Hall]; cbn; [repeat constructor|].
  destruct (le x y) eqn:E.
  - constructor; [by constructor|]. constructor; [done|].
    eapply List.Forall_impl; [|exact Hall]. intros z Hz; cbn in Hz. by eapply le_trans.
  - constructor; [done|]. destruct (le_total x y) as [?|Hyx]; [congruence|].
    eapply Permutation_Forall; [symmetry; apply insert_by_perm|]. by constructor.
Qed.

Lemma sort_by_sorted l : StronglySorted (fun a b => le a b = true) (sort_by le l).
Proof. induction l; cbn; [constructor|by apply insert_by_sorted]. Qed.

(** A sorted list is determined by its elements when the order separates them. *)
Lemma sorted_unique l l' :
  (forall x y, x ∈ l -> y ∈ l -> le x y = true -> le y x = true -> x = y) ->
  StronglySorted (fun a b => le a b = true) l ->
  StronglySorted (fun a b => le a b = true) l' ->
  Permutation l l' -> l = l'.
Proof.
  revert l'. induction l as [|x l IH]; intros l' Hanti Hl Hl' Hp.
  - by apply Permutation_nil in Hp.
  - destruct l' as [|y l']; [by symmetry in Hp; apply Permutation_nil in Hp|].
    assert (x = y) as ->.
    { inversion Hl as [|? ? ? Hx]; inversion Hl' as [|? ? ? Hy]; subst.
      rewrite Forall_forall in Hx, Hy.
      assert (x ∈ y :: l') as Hin by (rewrite <- Hp; left).
      assert (y ∈ x :: l) as Hin' by (rewrite Hp; left).
      apply elem_of_cons in Hin as [->|Hin]; [done|].
      apply elem_of_cons in Hin' as [->|Hin']; [done|].
      apply Hanti; [left|by right|by apply Hx|by apply Hy]. }
    f_equal. apply IH; [|by inversion Hl|by inversion Hl'|by eapply Permutation_cons_inv].
    intros a b Ha Hb. apply Hanti; by right.
Qed.

Lemma sort_by_perm_eq l l' :
  (forall x y, x ∈ l -> y ∈ l -> le x y = true -> le y x = true -> x = y) ->
  Permutation l l' -> sort_by le l = sort_by le l'.
Proof.
  intros Hanti H. apply sorted_unique; try apply sort_by_sorted.
  - intros x y. rewrite !sort_by_perm. apply Hanti.
  - by rewrite !sort_by_perm.
Qed.

(** Sorting a sorted list changes nothing. *)
Lemma sort_by_id l : StronglySorted (fun a b => le a b = true) l -> sort_by le l = l.
Proof.
  induction 1 as [|x l Hs IH Hall]; [done|].
  change (insert_by le x (sort_by le l) = x :: l). rewrite IH.
  destruct l as [|y l]; [done|]. cbn. apply Forall_cons in Hall as [-> _]. done.
Qed.
End sorting.

(** An invariant of the steps of a system holds in every reachable state. *)
Lemma rtc_invariant {A} (R : relation A) (I : A -> Prop) x y :
  (forall x y, R x y -> I x -> I y) -> rtc R x y -> I x -> I y.
Proof. intros HR. induction 1 as [|x y z H1 _ IH]; [done|]. intros Hx. by eapply IH, HR. Qed.
(** A preorder that contains the steps relates the ends of every sequence of steps. *)
Lemma rtc_within {A} (R S : relation A) `{!PreOrder S} x y :
  (forall x y, R x y -> S x y) -> rtc R x y -> S x y.
Proof. intros HR. induction 1 as [|x y z H1 _ IH]; [reflexivity|]. etrans; [by apply HR|exact IH]. Qed.

(** ** Shared hints and tactics *)
Create HintDb agent.
#[export] Hint Resolve wrap64_range : agent.
Create Rewrite HintDb agent_rw.
#[export] Hint Rewrite @str_in_spec @str_in_false all_distinct_spec : agent_rw.

(** Splits a successful chain of [Result] binds into the successes it passed. *)
Ltac inv_result :=
  repeat match goal with
  | H : Ok _ = Ok _ |- _ => injection H as H; try subst
  | H : Err _ = Err _ |- _ => injection H as H; try subst
  | H : Ok _ = Err _ |- _ => discriminate H
  | H : Err _ = Ok _ |- _ => discriminate H
  | H : Some _ = Some _ |- _ => injection H as H; try subst
  | H : Some _ = None |- _ => discriminate H
  | H : None = Some _ |- _ => discriminate H
  | H : context [match ?x with Ok _ => _ | Err _ => _ end] |- _ =>
      let E := fresh "E" in destruct x eqn:E
  end.
(** The intermediate results of a successful chain. *)
Ltac inv_bind H :=
  lazymatch type of H with
  | _ ≫= _ = Ok _ =>
      let a := fresh "a" in let Ha := fresh "Ha" in
      apply bind_ok in H as (a & Ha & H); cbv beta in H
  | fail_if _ _ = Ok _ => apply fail_if_ok in H
  end.
(** [lia] with the quotients and remainders of the goal made explicit. *)
Ltac dlia := Z.to_euclidean_division_equations; lia.
(** Case split on the conditions of the code, outermost first. *)
Ltac case_ifs :=
  repeat match goal with
  | |- context [if ?b then _ else _] => let E := fresh "E" in destruct b eqn:E
  | H : context [if ?b then _ else _] |- _ => let E := fresh "E" in destruct b eqn:E
  end.

(** ** Folds and sorted lists *)
Lemma foldl_flat_map {A B C} (f : C -> B -> C) (g : A -> list B) l c :
  foldl f c (flat_map g l) = foldl (fun c x => foldl f c (g x)) c l.
Proof. revert c. induction l as [|x l IH]; intros c; cbn; [done|]. by rewrite foldl_app. Qed.

Lemma foldl_map {A B C} (f : C -> B -> C) (g : A -> B) l c :
  foldl f c (map g l) = foldl (fun c x => f c (g x)) c l.
Proof. revert c. induction l as [|x l IH]; intros c; cbn; [done|]. apply IH. Qed.

Lemma forallb_perm {A} (p : A -> bool) l l' : Permutation l l' -> forallb p l = forallb p l'.
Proof. induction 1; cbn; [done|congruence|by destruct (p x), (p y)|congruence]. Qed.

Lemma forallb_map_eq {A} (p q : A -> bool) (f : A -> A) l :
  (forall x, x ∈ l -> p (f x) = q x) -> forallb p (map f l) = forallb q l.
Proof.
  induction l as [|x l IH]; cbn; intros H; [done|].
  rewrite (H x) by left. f_equal. apply IH. intros y Hy. apply H. by right.
Qed.

Lemma strongly_sorted_flat_map {A C} (R : C -> C -> Prop) (g : A -> list C) l :
  (forall x, x ∈ l -> StronglySorted R (g x)) ->
  (forall x y a b, x <> y -> x ∈ l -> y ∈ l -> a ∈ g x -> b ∈ g y -> R a b) ->
  NoDup l -> StronglySorted R (flat_map g l).
Proof.
  intros Hg Hx. induction 1 as [|x l Hin Hnd IH]; cbn; [constructor|].
  apply sorting.StronglySorted_app. split_and!.
  - intros a b Ha Hb. apply list_elem_of_In, in_flat_map in Hb as (y & Hy%list_elem_of_In & Hb%list_elem_of_In).
    apply (Hx x y); try done; [by intros ->|by left|by right].
  - apply Hg. by left.
  - apply IH; [intros y Hy; apply Hg; by right|].
    intros y z a b Hne Hy Hz. apply (Hx y z); [done|by right|by right].
Qed.

Lemma strongly_sorted_map {A C} (R : A -> A -> Prop) (S : C -> C -> Prop) (f : A -> C) l :
  StronglySorted R l -> (forall a b, a ∈ l -> b ∈ l -> R a b -> S (f a) (f b)) -> StronglySorted S (map f l).
Proof.
  induction 1 as [|x l Hl IH Hx]; cbn; intros HS; constructor.
  - apply IH. intros a b Ha Hb. apply HS; by right.
  - apply Forall_fmap. rewrite Forall_forall in *. intros y Hy. apply HS; [left|by right|by apply Hx].
Qed.

Lemma strongly_sorted_any {A} (l : list A) : StronglySorted (fun _ _ => True) l.
Proof. induction l; constructor; [done|]. by apply Forall_true. Qed.
