(* ===== verification/Text.v ===== *)
(** * Rust strings

    A Rust [String] is a sequence of UTF-8 bytes; the model is the Rocq string
    of those bytes, so [len()] is [String.length] and [Ord] is the bytewise
    lexicographic order.  [chars] splits a string into its characters (each
    kept as its own bytes).  The functions below are the [str] methods of the
    standard library that the agent uses, executable on concrete text. *)
From S2P Require Import Prelude.
From Stdlib Require Import Ascii Permutation.
Local Open Scope string_scope.
Local Open Scope Z_scope.

(** Characters that would be awkward to write in literals. *)
Definition dquote : string := String (ascii_of_nat 34) EmptyString.
Definition backslash : string := String (ascii_of_nat 92) EmptyString.
Definition nl : string := String (ascii_of_nat 10) EmptyString.
Definition cr : string := String (ascii_of_nat 13) EmptyString.
Definition quoted (s : string) : string := dquote +:+ s +:+ dquote.

Definition byte_val (a : ascii) : Z := Z.of_nat (nat_of_ascii a).
Definition byte_len (s : string) : Z := Z.of_nat (String.length s).
Definition is_empty (s : string) : bool := match s with EmptyString => true | _ => false end.

(** ** Characters *)
Definition is_cont (a : ascii) : bool := (128 <=? byte_val a) && (byte_val a <? 192).

(** Leading continuation bytes, then the characters. *)
Fixpoint chars_k (s : string) : string * list string :=
  match s with
  | EmptyString => ("", [])
  | String a s' =>
      let '(c, l) := chars_k s' in
      if is_cont a then (String a c, l) else ("", String a c :: l)
  end.
Definition chars (s : string) : list string :=
  let '(c, l) := chars_k s in if is_empty c then l else c :: l.
Fixpoint concat_str (l : list string) : string :=
  match l with [] => "" | c :: l' => c +:+ concat_str l' end.

(** The scalar value of one character. *)
Definition code_point (c : string) : Z :=
  match c with
  | String a EmptyString => byte_val a
  | String a (String b EmptyString) => (byte_val a - 192) * 64 + (byte_val b - 128)
  | String a (String b (String d EmptyString)) =>
      (byte_val a - 224) * 4096 + (byte_val b - 128) * 64 + (byte_val d - 128)
  | String a (String b (String d (String e EmptyString))) =>
      (byte_val a - 240) * 262144 + (byte_val b - 128) * 4096
      + (byte_val d - 128) * 64 + (byte_val e - 128)
  | _ => 0
  end.
(** UTF-8 encoding of a scalar value ([String::push]). *)
Definition byte_of (z : Z) : ascii := ascii_of_nat (Z.to_nat z).
Definition encode_char (n : Z) : string :=
  if n <? 128 then String (byte_of n) ""
  else if n <? 2048 then
    String (byte_of (192 + n / 64)) (String (byte_of (128 + n mod 64)) "")
  else if n <? 65536 then
    String (byte_of (224 + n / 4096))
      (String (byte_of (128 + (n / 64) mod 64)) (String (byte_of (128 + n mod 64)) ""))
  else
    String (byte_of (240 + n / 262144))
      (String (byte_of (128 + (n / 4096) mod 64))
        (String (byte_of (128 + (n / 64) mod 64)) (String (byte_of (128 + n mod 64)) ""))).
(** [char::from_u32]: surrogates and values above U+10FFFF are not characters. *)
Definition char_from_u32 (n : Z) : option string :=
  if (n <? 0) || (1114111 <? n) || ((55296 <=? n) && (n <=? 57343)) then None
  else Some (encode_char n).

Definition char_count (s : string) : Z := Z.of_nat (length (chars s)).

(** [char::is_whitespace]: the Unicode White_Space property. *)
Definition is_whitespace (c : string) : bool :=
  let n := code_point c in
  ((9 <=? n) && (n <=? 13)) || (n =? 32) || (n =? 133) || (n =? 160) || (n =? 5760)
  || ((8192 <=? n) && (n <=? 8202)) || (n =? 8232) || (n =? 8233) || (n =? 8239)
  || (n =? 8287) || (n =? 12288).
Definition is_ascii_digit_b (a : ascii) : bool := (48 <=? byte_val a) && (byte_val a <=? 57).
Definition is_ascii_digit (c : string) : bool :=
  match c with String a EmptyString => is_ascii_digit_b a | _ => false end.
Fixpoint all_digits (s : string) : bool :=
  match s with EmptyString => true | String a s' => is_ascii_digit_b a && all_digits s' end.
Definition is_ascii_upper_b (a : ascii) : bool := (65 <=? byte_val a) && (byte_val a <=? 90).
Definition is_ascii_lower_b (a : ascii) : bool := (97 <=? byte_val a) && (byte_val a <=? 122).
Definition is_ascii_alphanumeric (c : string) : bool :=
  match c with
  | String a EmptyString => is_ascii_digit_b a || is_ascii_upper_b a || is_ascii_lower_b a
  | _ => false
  end.
Fixpoint to_ascii_lowercase (s : string) : string :=
  match s with
  | EmptyString => ""
  | String a s' =>
      String (if is_ascii_upper_b a then byte_of (byte_val a + 32) else a) (to_ascii_lowercase s')
  end.

(** Every byte satisfies [p]. *)
Fixpoint all_bytes (p : ascii -> bool) (s : string) : bool :=
  match s with EmptyString => true | String a s' => p a && all_bytes p s' end.
(** The character is the UTF-8 encoding of a scalar value. *)
Definition utf8_char (c : string) : bool :=
  match char_from_u32 (code_point c) with Some e => String.eqb e c | None => false end.
Definition valid_utf8 (s : string) : bool := forallb utf8_char (chars s).

(** ** Trimming *)
Fixpoint drop_while {A} (p : A -> bool) (l : list A) : list A :=
  match l with [] => [] | x :: l' => if p x then drop_while p l' else l end.
Definition trim_start (s : string) : string := concat_str (drop_while is_whitespace (chars s)).
Definition trim_end (s : string) : string :=
  concat_str (rev (drop_while is_whitespace (rev (chars s)))).
Definition trim (s : string) : string := trim_end (trim_start s).
(** [trim_start_matches(c)] and [trim_end_matches(c)]. *)
Definition trim_start_matches (c : string) (s : string) : string :=
  concat_str (drop_while (String.eqb c) (chars s)).
Definition trim_end_matches (c : string) (s : string) : string :=
  concat_str (rev (drop_while (String.eqb c) (rev (chars s)))).

(** ** Prefixes, searching and splitting *)
Definition starts_with (s p : string) : bool := String.prefix p s.
Fixpoint drop_bytes (n : nat) (s : string) : string :=
  match n, s with
  | O, _ => s
  | S n', String _ s' => drop_bytes n' s'
  | S _, EmptyString => ""
  end.
Fixpoint take_bytes (n : nat) (s : string) : string :=
  match n, s with
  | S n', String a s' => String a (take_bytes n' s')
  | _, _ => ""
  end.
Definition strip_prefix (s p : string) : option string :=
  if starts_with s p then Some (drop_bytes (String.length p) s) else None.
Definition ends_with (s p : string) : bool :=
  (String.length p <=? String.length s)%nat
  && String.eqb (drop_bytes (String.length s - String.length p) s) p.
Definition strip_suffix (s p : string) : option string :=
  if ends_with s p then Some (take_bytes (String.length s - String.length p) s) else None.

(** [find]: byte offset of the first occurrence. *)
Fixpoint find_str (p s : string) : option nat :=
  if starts_with s p then Some 0%nat
  else match s with
       | EmptyString => None
       | String _ s' => match find_str p s' with Some n => Some (S n) | None => None end
       end.
Definition contains_str (s p : string) : bool := is_some (find_str p s).
Definition split_once (p s : string) : option (string * string) :=
  match find_str p s with
  | Some n => Some (take_bytes n s, drop_bytes (n + String.length p) s)
  | None => None
  end.
(** [find] with a set of ASCII characters. *)
Fixpoint find_byte (p : ascii -> bool) (s : string) : option nat :=
  match s with
  | EmptyString => None
  | String a s' =>
      if p a then Some 0%nat
      else match find_byte p s' with Some n => Some (S n) | None => None end
  end.
Definition is_exp_char (a : ascii) : bool := (byte_val a =? 101) || (byte_val a =? 69).
(** [replace] of a nonempty pattern: leftmost, non-overlapping.  [skip] counts
    the bytes of the current match still to be passed over. *)
Fixpoint replace_from (skip : nat) (p by_ s : string) : string :=
  match s with
  | EmptyString => ""
  | String a s' =>
      match skip with
      | S k => replace_from k p by_ s'
      | O => if starts_with s p
             then by_ +:+ replace_from (String.length p - 1) p by_ s'
             else String a (replace_from 0 p by_ s')
      end
  end.
Definition replace (p by_ s : string) : string := replace_from 0 p by_ s.
(** [match_indices]: byte offsets of the non-overlapping occurrences. *)
Fixpoint match_indices_from (skip pos : nat) (p s : string) : list nat :=
  match s with
  | EmptyString => []
  | String _ s' =>
      match skip with
      | S k => match_indices_from k (S pos) p s'
      | O => if starts_with s p
             then pos :: match_indices_from (String.length p - 1) (S pos) p s'
             else match_indices_from 0 (S pos) p s'
      end
  end.
Definition match_indices (p s : string) : list nat := match_indices_from 0 0 p s.

(** [split] on a character predicate: one more piece than separators. *)
Fixpoint split_chars (sep : string -> bool) (l : list string) : list (list string) :=
  match l with
  | [] => [[]]
  | c :: l' =>
      match split_chars sep l' with
      | [] => [[]]
      | w :: ws => if sep c then [] :: w :: ws else (c :: w) :: ws
      end
  end.
Definition split_on (sep : string -> bool) (s : string) : list string :=
  map concat_str (split_chars sep (chars s)).
(** [split_whitespace] drops the empty pieces. *)
Definition split_whitespace (s : string) : list string :=
  List.filter (fun w => negb (is_empty w)) (split_on is_whitespace s).
(** [lines]: pieces ended by a newline, a trailing carriage return removed;
    no piece after a final newline. *)
Definition strip_cr (s : string) : string := unwrap_or (strip_suffix s cr) s.
Definition lines (s : string) : list string :=
  match rev (split_on (String.eqb nl) s) with
  | [] => []
  | w :: ws =>
      (map strip_cr (rev ws)) ++ (if is_empty w then [] else [w])
  end.
Fixpoint join (sep : string) (l : list string) : string :=
  match l with
  | [] => ""
  | [x] => x
  | x :: l' => x +:+ sep +:+ join sep l'
  end.
Fixpoint repeat_str (n : nat) (s : string) : string :=
  match n with O => "" | S n' => s +:+ repeat_str n' s end.

(** [format!("{:04x}")] and [{:02}]. *)
Definition hex_digit (d : Z) : ascii := byte_of (if d <? 10 then 48 + d else 87 + d).
Definition hex4 (n : Z) : string :=
  String (hex_digit (n / 4096 mod 16)) (String (hex_digit (n / 256 mod 16))
    (String (hex_digit (n / 16 mod 16)) (String (hex_digit (n mod 16)) ""))).
Definition pad_left (width : nat) (s : string) : string :=
  repeat_str (width - String.length s) "0" +:+ s.

(** ** Decimal integers: [to_string] and [parse] *)
Definition show_Z (z : Z) : string := pretty z.
Definition show_nat (n : nat) : string := pretty (Z.of_nat n).
(** Value of a digit string read left to right. *)
Fixpoint digits_val (acc : Z) (s : string) : Z :=
  match s with
  | EmptyString => acc
  | String a s' => digits_val (acc * 10 + (byte_val a - 48)) s'
  end.
(** [str::parse::<i32>] / [<i64>]: an optional sign, at least one digit,
    [None] outside the width. *)
Definition parse_signed (lo hi : Z) (s : string) : option Z :=
  let '(neg, ds) :=
    match s with
    | String "-"%char r => (true, r)
    | String "+"%char r => (false, r)
    | _ => (false, s)
    end in
  if is_empty ds || negb (all_digits ds) then None
  else
    let v := if (neg : bool) then - digits_val 0 ds else digits_val 0 ds in
    if (lo <=? v) && (v <=? hi) then Some v else None.
Definition parse_i32 : string -> option Z := parse_signed (- 2 ^ 31) (2 ^ 31 - 1).
Definition parse_i64 : string -> option Z := parse_signed i64_min i64_max.
(** [str::parse::<u32>]: [+] is accepted, [-] is not. *)
Definition parse_u32 (s : string) : option Z :=
  match s with
  | String "-"%char _ => None
  | _ => parse_signed 0 (2 ^ 32 - 1) s
  end.
Definition hex_val (a : ascii) : option Z :=
  let v := byte_val a in
  if is_ascii_digit_b a then Some (v - 48)
  else if (97 <=? v) && (v <=? 102) then Some (v - 87)
  else if (65 <=? v) && (v <=? 70) then Some (v - 55) else None.
Fixpoint hex_digits_val (acc : Z) (s : string) : option Z :=
  match s with
  | EmptyString => Some acc
  | String a s' => match hex_val a with Some d => hex_digits_val (acc * 16 + d) s' | None => None end
  end.
(** [u32::from_str_radix(s, 16)]: an optional [+], no [-]. *)
Definition parse_hex_u32 (s : string) : option Z :=
  let ds := match s with String "+"%char r => r | _ => s end in
  if is_empty ds then None
  else match hex_digits_val 0 ds with
       | Some v => if v <? 2 ^ 32 then Some v else None
       | None => None
       end.

(** * Lemmas *)

Lemma app_str_cons a s t : String a s +:+ t = String a (s +:+ t).
Proof. done. Qed.

Lemma app_str_nil t : "" +:+ t = t.
Proof. done. Qed.

#[export] Hint Rewrite app_str_cons app_str_nil : agent_rw.

Lemma app_nil_r_str s : s +:+ "" = s.
Proof. induction s; [done|]. rewrite app_str_cons. congruence. Qed.

Lemma app_assoc_str a b c : (a +:+ b) +:+ c = a +:+ b +:+ c.
Proof. induction a; [done|]. rewrite !app_str_cons. congruence. Qed.

Lemma length_app_str a b : String.length (a +:+ b) = (String.length a + String.length b)%nat.
Proof. induction a; [done|]. rewrite app_str_cons. cbn. congruence. Qed.

Lemma concat_str_app l l' : concat_str (l ++ l') = concat_str l +:+ concat_str l'.
Proof. induction l; cbn; [done|]. by rewrite IHl, app_assoc_str. Qed.

Lemma chars_k_concat s : let '(c, l) := chars_k s in c +:+ concat_str l = s.
Proof.
  induction s as [|a s IH]; cbn; [done|].
  revert IH. destruct (chars_k s) as [c l]. intros <-.
  destruct (is_cont a); cbn; by rewrite ?app_str_nil, ?app_str_cons.
Qed.

(** Splitting into characters loses nothing. *)
Lemma concat_chars s : concat_str (chars s) = s.
Proof.
  unfold chars. generalize (chars_k_concat s). destruct (chars_k s) as [c l].
  intros H. by destruct c.
Qed.

Lemma prefix_app p s : String.prefix p (p +:+ s) = true.
Proof.
  induction p as [|a p IH]; [by destruct s|]. rewrite app_str_cons. cbn.
  destruct (ascii_dec a a); done.
Qed.

Lemma prefix_split p s : String.prefix p s = true <-> exists r, s = p +:+ r.
Proof.
  split.
  - revert s. induction p as [|a p IH]; intros s; [by exists s|].
    destruct s as [|b s]; [done|]. cbn. destruct (ascii_dec a b) as [->|]; [|done].
    intros [r ->]%IH. by exists r.
  - intros [r ->]. apply prefix_app.
Qed.

Lemma drop_bytes_app p s : drop_bytes (String.length p) (p +:+ s) = s.
Proof. induction p; [by destruct s|done]. Qed.

Lemma take_bytes_app p s : take_bytes (String.length p) (p +:+ s) = p.
Proof. induction p; [by destruct s|]. rewrite app_str_cons. cbn. by rewrite IHp. Qed.

Lemma take_drop_bytes n s : take_bytes n s +:+ drop_bytes n s = s.
Proof. revert s. induction n; intros [|a s]; try done. cbn. by rewrite app_str_cons, IHn. Qed.

Lemma strip_prefix_some s p r : strip_prefix s p = Some r <-> s = p +:+ r.
Proof.
  unfold strip_prefix, starts_with. split.
  - destruct (String.prefix p s) eqn:E; [|done]. intros [= <-].
    apply prefix_split in E as [r ->]. by rewrite drop_bytes_app.
  - intros ->. by rewrite prefix_app, drop_bytes_app.
Qed.

Lemma join_cons sep x y l : join sep (x :: y :: l) = x +:+ sep +:+ join sep (y :: l).
Proof. done. Qed.

Lemma join_app_ne sep l l' :
  l <> [] -> l' <> [] -> join sep (l ++ l') = join sep l +:+ sep +:+ join sep l'.
Proof.
  intros Hl Hl'. induction l as [|x l IH]; [done|]. destruct l as [|y l].
  - destruct l'; [done|]. done.
  - change ((x :: y :: l) ++ l')%list with (x :: y :: (l ++ l'))%list.
    rewrite !join_cons. change (y :: l ++ l')%list with ((y :: l) ++ l')%list.
    rewrite IH by done. by rewrite !app_assoc_str.
Qed.

(** The bytewise order is a total order. *)
Lemma string_leb_total x y : String.leb x y = true \/ String.leb y x = true.
Proof.
  unfold String.leb. rewrite (String.compare_antisym x y).
  destruct (String.compare y x); cbn; auto.
Qed.

Lemma string_leb_antisym x y : String.leb x y = true -> String.leb y x = true -> x = y.
Proof.
  unfold String.leb. rewrite (String.compare_antisym x y).
  destruct (String.compare y x) eqn:E; cbn; try done.
  intros _ _. symmetry. by apply String.compare_eq_iff.
Qed.

Lemma ascii_compare_trans (c : comparison) a b d :
  Ascii.compare a b = c -> Ascii.compare b d = c -> Ascii.compare a d = c.
Proof.
  unfold Ascii.compare. destruct c; intros H1 H2.
  - apply N.compare_eq_iff in H1, H2. apply N.compare_eq_iff. congruence.
  - apply N.compare_lt_iff in H1, H2. apply N.compare_lt_iff. by etrans.
  - apply N.compare_gt_iff in H1, H2. apply N.compare_gt_iff. by etrans.
Qed.

Lemma ascii_compare_refl b : Ascii.compare b b = Eq.
Proof. unfold Ascii.compare. apply N.compare_refl. Qed.

Lemma string_leb_cons a x b y :
  String.leb (String a x) (String b y) = true <->
  Ascii.compare a b = Lt \/ (a = b /\ String.leb x y = true).
Proof.
  unfold String.leb. cbn. destruct (Ascii.compare a b) eqn:E.
  - apply Ascii.compare_eq_iff in E as ->. split; [by auto|].
    by intros [H|[_ H]].
  - split; auto.
  - split; [done|]. intros [H|[-> _]]; [done|].
    by rewrite ascii_compare_refl in E.
Qed.

Lemma string_leb_trans x y z :
  String.leb x y = true -> String.leb y z = true -> String.leb x z = true.
Proof.
  revert y z. induction x as [|a x IH]; intros y z.
  - intros _ _. by destruct z.
  - destruct y as [|b y]; [done|]. destruct z as [|c z]; [by intros _|].
    rewrite !string_leb_cons. intros [H1|[-> H1]] [H2|[-> H2]]; eauto.
    left. by eapply ascii_compare_trans.
Qed.

#[export] Hint Resolve string_leb_total string_leb_antisym string_leb_trans : agent.

(** ** Byte predicates through the string operations *)
Section all_bytes.
Context (p : ascii -> bool).

Lemma all_bytes_app s t : all_bytes p (s +:+ t) = all_bytes p s && all_bytes p t.
Proof. induction s; [done|]. rewrite app_str_cons. cbn. by rewrite IHs, andb_assoc. Qed.

Lemma all_bytes_take n s : all_bytes p s = true -> all_bytes p (take_bytes n s) = true.
Proof.
  revert s. induction n; intros [|a s]; cbn; try done. rewrite !andb_true_iff. naive_solver.
Qed.

Lemma all_bytes_drop n s : all_bytes p s = true -> all_bytes p (drop_bytes n s) = true.
Proof.
  revert s. induction n; intros [|a s]; cbn; try done. rewrite !andb_true_iff. naive_solver.
Qed.

Lemma all_bytes_concat l : all_bytes p (concat_str l) = forallb (all_bytes p) l.
Proof. induction l; cbn; [done|]. by rewrite all_bytes_app, IHl. Qed.

Lemma all_bytes_chars s : all_bytes p s = true -> forallb (all_bytes p) (chars s) = true.
Proof. by rewrite <- all_bytes_concat, concat_chars. Qed.

Lemma all_bytes_drop_while (q : string -> bool) l :
  forallb (all_bytes p) l = true -> forallb (all_bytes p) (drop_while q l) = true.
Proof.
  induction l as [|c l IH]; cbn; [done|]. rewrite andb_true_iff. intros [H1 H2].
  destruct (q c); [by apply IH|]. cbn. by rewrite H1.
Qed.

Lemma all_bytes_trim_start_matches c s :
  all_bytes p s = true -> all_bytes p (trim_start_matches c s) = true.
Proof.
  intros H. unfold trim_start_matches. rewrite all_bytes_concat.
  by apply all_bytes_drop_while, all_bytes_chars.
Qed.

Lemma all_bytes_replace_from k x s :
  all_bytes p s = true -> all_bytes p (replace_from k x "" s) = true.
Proof.
  revert k. induction s as [|a s IH]; intros k; [done|]. cbn [all_bytes replace_from].
  rewrite andb_true_iff. intros [H1 H2]. destruct k; [|by apply IH].
  destruct (starts_with (String a s) x); [rewrite app_str_nil; by apply IH|].
  cbn [all_bytes]. rewrite H1. by apply IH.
Qed.

Lemma all_bytes_join sep l :
  all_bytes p sep = true -> forallb (all_bytes p) l = true -> all_bytes p (join sep l) = true.
Proof.
  intros Hs. induction l as [|x l IH]; [done|]. destruct l as [|y l]; cbn [forallb join].
  - by rewrite andb_true_r.
  - rewrite andb_true_iff. intros [H1 H2]. rewrite !all_bytes_app, H1, Hs. by apply IH.
Qed.

Lemma all_bytes_repeat n s : all_bytes p s = true -> all_bytes p (repeat_str n s) = true.
Proof. intros H. induction n; cbn; [done|]. by rewrite all_bytes_app, H. Qed.

Lemma all_bytes_pad n s :
  all_bytes p "0" = true -> all_bytes p s = true -> all_bytes p (pad_left n s) = true.
Proof. intros H0 H. unfold pad_left. by rewrite all_bytes_app, H, all_bytes_repeat. Qed.

Lemma all_bytes_pretty_go (x : N) s :
  (forall d, (d < 10)%N -> p (pretty_N_char d) = true) ->
  all_bytes p s = true -> all_bytes p (pretty_N_go x s) = true.
Proof.
  intros Hd. revert s. induction (N.lt_wf_0 x) as [x _ IH]; intros s Hs.
  destruct (decide (0 < x)%N) as [Hx|Hx].
  - rewrite pretty_N_go_step by done. apply IH.
    + by apply N.div_lt.
    + cbn. rewrite Hs, andb_true_r. apply Hd. by apply N.mod_lt.
  - assert (x = 0%N) as -> by lia. by rewrite pretty_N_go_0.
Qed.

Lemma all_bytes_show_Z z :
  p "-" = true -> p "0" = true -> (forall d, (d < 10)%N -> p (pretty_N_char d) = true) ->
  all_bytes p (show_Z z) = true.
Proof.
  intros Hm H0 Hd. unfold show_Z, pretty, pretty_Z.
  assert (forall x : N, all_bytes p (pretty x) = true) as HN.
  { intros x. unfold pretty, pretty_N. case_decide; [cbn; by rewrite H0|].
    by apply all_bytes_pretty_go. }
  destruct z as [|z|z]; [cbn; by rewrite H0|apply (HN (N.pos z))|].
  rewrite all_bytes_app. cbn [all_bytes]. rewrite Hm. apply (HN (N.pos z)).
Qed.
End all_bytes.

Lemma eqb_ne (k k' : string) : k <> k' -> String.eqb k k' = false.
Proof. apply String.eqb_neq. Qed.

(** * Text: a file of lines *)

Definition no_newline (a : ascii) : bool := negb (Ascii.eqb a "010").
Definition one_line (s : string) : bool := all_bytes no_newline s.
(** The text does not begin inside a character. *)
Definition whole_start (s : string) : bool :=
  match s with EmptyString => true | String a _ => negb (is_cont a) end.

Lemma chars_k_app s t :
  whole_start t = true ->
  chars_k (s +:+ t) = (fst (chars_k s), (snd (chars_k s) ++ snd (chars_k t))%list).
Proof.
  intros Ht. induction s as [|a s IH].
  - rewrite app_str_nil. destruct t as [|a t]; [done|]. cbn in *.
    destruct (chars_k t) as [c l]. by destruct (is_cont a).
  - rewrite app_str_cons. cbn [chars_k]. rewrite IH. destruct (chars_k s) as [c l]. cbn.
    by destruct (is_cont a).
Qed.

Lemma chars_app s t : whole_start t = true -> chars (s +:+ t) = (chars s ++ chars t)%list.
Proof.
  intros Ht. unfold chars. rewrite chars_k_app by done.
  assert (fst (chars_k t) = "") as E.
  { destruct t as [|a t]; [done|]. cbn in *. destruct (chars_k t). by destruct (is_cont a). }
  destruct (chars_k t) as [c' l']. cbn in E. subst. destruct (chars_k s) as [c l]. cbn.
  by destruct (is_empty c).
Qed.

Lemma split_chars_line sep l c r :
  sep c = true -> forallb (fun x => negb (sep x)) l = true ->
  split_chars sep (l ++ c :: r) = l :: split_chars sep r.
Proof.
  intros Hc. induction l as [|x l IH]; cbn; intros Hl.
  - assert (split_chars sep r <> []) as Hne.
    { destruct r as [|x r]; cbn; [done|].
      destruct (split_chars sep r); [done|]. by destruct (sep x). }
    rewrite Hc. by destruct (split_chars sep r).
  - apply andb_true_iff in Hl as [Hx Hl]. rewrite (IH Hl). apply negb_true_iff in Hx. by rewrite Hx.
Qed.

Lemma one_line_chars s : one_line s = true -> forallb (fun c => negb (String.eqb nl c)) (chars s) = true.
Proof.
  intros H. apply all_bytes_chars in H. rewrite forallb_forall in *. intros c Hc.
  specialize (H c Hc). apply negb_true_iff, eqb_ne. intros <-. done.
Qed.

Lemma split_on_line s t :
  one_line s = true -> whole_start t = true ->
  split_on (String.eqb nl) (s +:+ nl +:+ t) = s :: split_on (String.eqb nl) t.
Proof.
  intros Hs Ht. unfold split_on.
  rewrite chars_app by done. rewrite (chars_app nl t) by done.
  change (chars nl ++ chars t)%list with (nl :: chars t). rewrite split_chars_line; [|done|by apply one_line_chars].
  cbn [map]. by rewrite concat_chars.
Qed.

(** What can be a line of a file: no newline inside, no carriage return at
    the end, no first byte that belongs to a character of the line before. *)
Definition file_line (s : string) : bool :=
  one_line s && whole_start s && negb (ends_with s cr).

Lemma split_on_file ls :
  forallb file_line ls = true ->
  split_on (String.eqb nl) (concat_str (map (fun s => s +:+ nl) ls)) = (ls ++ [""])%list.
Proof.
  assert (forall l, forallb file_line l = true ->
    whole_start (concat_str (map (fun s => s +:+ nl) l)) = true) as Hw.
  { intros [|s l]; cbn; [done|]. intros [[[_ Hs]%andb_true_iff _]%andb_true_iff _]%andb_true_iff.
    by destruct s. }
  induction ls as [|s ls IH]; [done|]. cbn [forallb map concat_str].
  intros [Hs Hls]%andb_true_iff. rewrite app_assoc_str, split_on_line.
  - by rewrite IH.
  - unfold file_line in Hs. rewrite !andb_true_iff in Hs. tauto.
  - by apply Hw.
Qed.

(** Reading the lines of a file returns the lines that were written. *)
Lemma lines_of_file ls :
  forallb file_line ls = true -> lines (concat_str (map (fun s => s +:+ nl) ls)) = ls.
Proof.
  intros H. unfold lines. rewrite split_on_file by done.
  rewrite rev_app_distr. cbn. rewrite rev_involutive, app_nil_r.
  rewrite <- (List.map_id ls) at 2. apply map_ext_in. intros s Hs.
  rewrite forallb_forall in H. specialize (H s Hs). unfold file_line in H.
  apply andb_true_iff in H as [_ H]. apply negb_true_iff in H.
  unfold strip_cr, strip_suffix. by rewrite H.
Qed.
