(* ===== verification/Decimal.v ===== *)
(** * Decimal texts and their values

    Two routines of the agent normalise a decimal text (the number check of
    summaries in [context.rs], the comparison of deliverables in [engine.rs]):
    leading zeros are dropped, trailing zeros move into the exponent.  This
    file holds the shared normalisation and the theory that makes it correct:
    normal forms coincide exactly when the values do. *)
From S2P Require Import Prelude Text.
From Stdlib Require Import Ascii.
Local Open Scope string_scope.
Local Open Scope Z_scope.

(** ** Normalisation *)
(** [while digits.ends_with('0') { digits.pop(); power = power.checked_add(1)?; }],
    on the digits read from the right. *)
Fixpoint pop_zeros (checked : Z -> option Z) (rev_digits : list ascii) (power : Z)
  : option (list ascii * Z) :=
  match rev_digits with
  | "0"%char :: rest => power ← checked (power + 1); pop_zeros checked rest power
  | _ => Some (rev_digits, power)
  end.
Definition normalise (checked : Z -> option Z) (digits : string) (power : Z) : option (string * Z) :=
  power ← checked power;
  '(rev_digits, power) ← pop_zeros checked (rev (String.list_ascii_of_string digits)) power;
  Some (String.string_of_list_ascii (rev rev_digits), power).

(** ** Values *)
(** The number [m * 10 ^ e], compared at the smaller exponent. *)
Definition same_value (x y : Z * Z) : Prop :=
  let e := Z.min (snd x) (snd y) in
  fst x * 10 ^ (snd x - e) = fst y * 10 ^ (snd y - e).
Definition signed (negative : bool) (m : Z) : Z := if negative then - m else m.

Definition digit_of (a : ascii) : Z := byte_val a - 48.
Fixpoint rev_value (l : list ascii) : Z :=
  match l with [] => 0 | a :: l' => digit_of a + 10 * rev_value l' end.

Lemma digit_of_range a : is_ascii_digit_b a = true -> 0 <= digit_of a <= 9.
Proof. unfold is_ascii_digit_b, digit_of. rewrite andb_true_iff, !Z.leb_le. lia. Qed.

Lemma digit_of_zero a : digit_of a = 0 -> a = "0"%char.
Proof.
  unfold digit_of, byte_val. intros H. rewrite <- (ascii_nat_embedding a).
  by replace (nat_of_ascii a) with 48%nat by lia.
Qed.

Lemma digits_val_acc acc s : digits_val acc s = acc * 10 ^ byte_len s + digits_val 0 s.
Proof.
  unfold byte_len. revert acc. induction s as [|a s IH]; intros acc; cbn [digits_val String.length].
  - cbn. lia.
  - rewrite IH, (IH (0 * 10 + _)). rewrite Nat2Z.inj_succ, Z.pow_succ_r by lia. lia.
Qed.

Lemma rev_value_app l l' : rev_value (l ++ l') = rev_value l + 10 ^ Z.of_nat (length l) * rev_value l'.
Proof.
  induction l as [|a l IH]; cbn [rev_value app length]; [cbn; lia|].
  rewrite IH, Nat2Z.inj_succ, Z.pow_succ_r by lia. lia.
Qed.

Lemma digits_val_rev s : digits_val 0 s = rev_value (rev (String.list_ascii_of_string s)).
Proof.
  induction s as [|a s IH]; [done|]. cbn [String.list_ascii_of_string rev digits_val].
  rewrite digits_val_acc, IH, rev_value_app. cbn [rev_value]. unfold byte_len, digit_of.
  rewrite length_rev. replace (length (String.list_ascii_of_string s)) with (String.length s); [lia|].
  clear. induction s; cbn; congruence.
Qed.

Lemma all_digits_app s t : all_digits (s +:+ t) = all_digits s && all_digits t.
Proof. induction s; [done|]. rewrite app_str_cons. cbn. by rewrite IHs, andb_assoc. Qed.

Lemma all_digits_list s :
  all_digits s = forallb is_ascii_digit_b (String.list_ascii_of_string s).
Proof. induction s; cbn; congruence. Qed.

(** ** Leading zeros *)
Lemma chars_digits s :
  all_digits s = true -> chars s = map (fun a => String a "") (String.list_ascii_of_string s).
Proof.
  intros H. unfold chars. assert (chars_k s = ("", map (fun a => String a "") (String.list_ascii_of_string s)))
    as ->; [|done].
  induction s as [|a s IH]; [done|]. cbn in H |- *. apply andb_true_iff in H as [Ha Hs].
  rewrite (IH Hs). unfold is_cont. apply digit_of_range in Ha. unfold digit_of in Ha.
  by replace (128 <=? byte_val a) with false by lia.
Qed.

Lemma trim_zeros_spec s :
  all_digits s = true ->
  exists k, String.list_ascii_of_string s
    = (repeat "0"%char k ++ String.list_ascii_of_string (trim_start_matches "0" s))%list
    /\ head (String.list_ascii_of_string (trim_start_matches "0" s)) <> Some "0"%char.
Proof.
  intros H. unfold trim_start_matches. rewrite (chars_digits s H). clear H.
  induction (String.list_ascii_of_string s) as [|a l IH]; [by exists 0%nat|].
  cbn [map drop_while]. destruct (String.eqb_spec "0" (String a "")) as [[= <-]|Hne].
  - destruct IH as (k & E & Hh). exists (S k). cbn [repeat app]. by rewrite E at 1.
  - exists 0%nat. cbn [repeat app concat_str]. rewrite app_str_cons. cbn.
    assert (String.list_ascii_of_string (concat_str (map (fun a => String a "") l)) = l) as El.
    { clear. induction l as [|b l IHl]; cbn; [done|]. rewrite app_str_cons. cbn. by rewrite app_str_nil, IHl. }
    split; [by rewrite app_str_nil, El|]. intros [= ->]. done.
Qed.

Lemma trim_zeros_value s :
  all_digits s = true -> digits_val 0 (trim_start_matches "0" s) = digits_val 0 s.
Proof.
  intros H. destruct (trim_zeros_spec s H) as (k & E & _). rewrite !digits_val_rev, E, rev_app_distr.
  rewrite rev_value_app. assert (rev_value (rev (repeat "0"%char k)) = 0) as ->; [|lia].
  clear. induction k; cbn [repeat rev]; [done|]. rewrite rev_value_app, IHk. cbn [rev_value].
  change (digit_of "0") with 0. lia.
Qed.

Lemma trim_zeros_digits s :
  all_digits s = true -> all_digits (trim_start_matches "0" s) = true.
Proof.
  intros H. destruct (trim_zeros_spec s H) as (k & E & _). rewrite !all_digits_list in *.
  rewrite E, forallb_app in H. by apply andb_true_iff in H as [_ H].
Qed.

(** ** Normal forms *)
(** Digits from the right with a nonzero lowest and a nonzero highest digit. *)
Definition normal_rev (l : list ascii) : Prop :=
  forallb is_ascii_digit_b l = true /\ head l <> Some "0"%char /\ last l <> Some "0"%char.

Lemma rev_value_nonneg l : forallb is_ascii_digit_b l = true -> 0 <= rev_value l.
Proof.
  induction l as [|a l IH]; cbn; [lia|]. rewrite andb_true_iff.
  intros [Ha%digit_of_range Hl]. specialize (IH Hl). lia.
Qed.

Lemma rev_value_pos l :
  forallb is_ascii_digit_b l = true -> l <> [] -> last l <> Some "0"%char -> 0 < rev_value l.
Proof.
  induction l as [|a l IH]; [done|]. cbn [forallb]. rewrite andb_true_iff. intros [Ha Hl] _ Hlast.
  destruct l as [|b l].
  - cbn in *. apply digit_of_range in Ha. assert (digit_of a <> 0); [|lia].
    intros E%digit_of_zero. congruence.
  - cbn [rev_value]. apply digit_of_range in Ha. assert (0 < rev_value (b :: l)); [|cbn [rev_value] in *; lia].
    apply IH; [done|done|by rewrite last_cons_cons in Hlast].
Qed.

Lemma rev_value_inj l l' :
  forallb is_ascii_digit_b l = true -> forallb is_ascii_digit_b l' = true ->
  last l <> Some "0"%char -> last l' <> Some "0"%char -> rev_value l = rev_value l' -> l = l'.
Proof.
  revert l'. induction l as [|a l IH]; intros l' Hl Hl' Hz Hz' E.
  - destruct l' as [|b l']; [done|]. pose proof (rev_value_pos (b :: l') Hl' ltac:(done) Hz').
    cbn [rev_value] in *. lia.
  - destruct l' as [|b l'].
    { pose proof (rev_value_pos (a :: l) Hl ltac:(done) Hz). cbn [rev_value] in *. lia. }
    cbn in Hl, Hl'. apply andb_true_iff in Hl as [Ha Hl], Hl' as [Hb Hl'].
    cbn [rev_value] in E. pose proof (digit_of_range a Ha). pose proof (digit_of_range b Hb).
    assert (digit_of a = digit_of b /\ rev_value l = rev_value l') as [Ed Ev] by lia.
    assert (a = b) as ->.
    { unfold digit_of, byte_val in Ed. rewrite <- (ascii_nat_embedding a), <- (ascii_nat_embedding b).
      f_equal. lia. }
    f_equal. apply IH; [done|done| | |done].
    + destruct l; [done|by rewrite last_cons_cons in Hz].
    + destruct l'; [done|by rewrite last_cons_cons in Hz'].
Qed.

Lemma pow10_pos k : 0 <= k -> 0 < 10 ^ k.
Proof. intros. apply Z.pow_pos_nonneg; lia. Qed.

(** A value ending in a nonzero digit is not a multiple of a power of ten. *)
Lemma normal_mod l k : normal_rev l -> l <> [] -> 0 < k -> forall m, rev_value l <> m * 10 ^ k.
Proof.
  intros (Hd & Hh & _) Hne Hk m E. destruct l as [|a l]; [done|]. cbn in Hd.
  apply andb_true_iff in Hd as [Ha _]. pose proof (digit_of_range a Ha).
  replace k with (Z.succ (k - 1)) in E by lia. rewrite Z.pow_succ_r in E by lia.
  cbn [rev_value] in E. assert (digit_of a = 0) as Hz; [|apply digit_of_zero in Hz; cbn in Hh; congruence].
  remember (m * 10 ^ (k - 1)) as q. replace (m * (10 * 10 ^ (k - 1))) with (10 * q) in E by lia. lia.
Qed.

Lemma normal_unique l p l' p' :
  normal_rev l -> normal_rev l' -> l <> [] -> l' <> [] ->
  same_value (rev_value l, p) (rev_value l', p') -> l = l' /\ p = p'.
Proof.
  intros Hn Hn' Hne Hne'. unfold same_value. cbn. intros E.
  assert (p = p') as ->.
  { destruct (Z.lt_trichotomy p p') as [Hlt|[?|Hlt]]; [|done|]; exfalso.
    - rewrite Z.min_l, Z.sub_diag, Z.mul_1_r in E by lia.
      by eapply (normal_mod l (p' - p) Hn Hne ltac:(lia)).
    - rewrite Z.min_r, Z.sub_diag, Z.mul_1_r in E by lia.
      by eapply (normal_mod l' (p - p') Hn' Hne' ltac:(lia)). }
  split; [|done]. rewrite Z.min_id, Z.sub_diag, !Z.mul_1_r in E.
  apply rev_value_inj; [apply Hn|apply Hn'|apply Hn|apply Hn'|done].
Qed.

(** The smaller exponent may be replaced by any common lower bound. *)
Lemma same_value_at a x b y e :
  e <= x -> e <= y -> same_value (a, x) (b, y) <-> a * 10 ^ (x - e) = b * 10 ^ (y - e).
Proof.
  intros Hx Hy. unfold same_value. cbn. set (m := Z.min x y).
  replace (x - e) with ((x - m) + (m - e)) by lia. replace (y - e) with ((y - m) + (m - e)) by lia.
  rewrite !Z.pow_add_r by lia. pose proof (pow10_pos (m - e) ltac:(lia)).
  rewrite !Z.mul_assoc. split; [by intros ->|]. intros E. by apply Z.mul_reg_r in E; [|lia].
Qed.

Lemma same_value_shift a q p b y :
  p <= q -> same_value (a, q) (b, y) <-> same_value (a * 10 ^ (q - p), p) (b, y).
Proof.
  intros H. set (e := Z.min p y).
  rewrite (same_value_at a q b y e), (same_value_at _ p b y e) by lia.
  rewrite <- Z.mul_assoc, <- Z.pow_add_r by lia. by replace (q - p + (p - e)) with (q - e) by lia.
Qed.

Lemma same_value_sym x y : same_value x y <-> same_value y x.
Proof. unfold same_value. rewrite (Z.min_comm (snd y)). split; by intros ->. Qed.

Section normal_form.
Context (checked : Z -> option Z).
Hypothesis checked_exact : forall z y, checked z = Some y -> y = z.

Lemma pop_zeros_spec l p l' p' :
  pop_zeros checked l p = Some (l', p') ->
  exists k, l = (repeat "0"%char k ++ l')%list /\ p' = p + Z.of_nat k /\ head l' <> Some "0"%char.
Proof using checked_exact.
  revert p. induction l as [|a l IH]; intros p.
  { intros [= <- <-]. exists 0%nat. split_and!; [done|lia|done]. }
  destruct (Ascii.eqb_spec a "0") as [->|Hne].
  - cbn [pop_zeros]. destruct (checked (p + 1)) as [y|] eqn:E; [|done].
    apply checked_exact in E as ->. intros (k & -> & -> & Hh)%IH.
    exists (S k). split_and!; [done|lia|done].
  - intros H. exists 0%nat. cbn [repeat app Z.of_nat].
    assert (pop_zeros checked (a :: l) p = Some (a :: l, p)) as E.
    { cbn. destruct a as [[] [] [] [] [] [] [] []]; try done. }
    rewrite E in H. injection H as <- <-. split_and!; [done|lia|]. cbn. congruence.
Qed.

Lemma rev_value_zeros k l : rev_value (repeat "0"%char k ++ l) = 10 ^ Z.of_nat k * rev_value l.
Proof.
  induction k; cbn [repeat app rev_value]; [cbn; lia|]. change (digit_of "0") with 0.
  rewrite IHk, Nat2Z.inj_succ, Z.pow_succ_r by lia. lia.
Qed.

(** The normal form denotes the number it was made from. *)
Lemma normalise_spec s p d q :
  all_digits s = true -> trim_start_matches "0" s <> "" ->
  normalise checked (trim_start_matches "0" s) p = Some (d, q) ->
  exists l, d = String.string_of_list_ascii (rev l) /\ normal_rev l /\ l <> [] /\ p <= q
            /\ digits_val 0 s = rev_value l * 10 ^ (q - p).
Proof using checked_exact.
  intros Hs Hne. unfold normalise. destruct (checked p) as [p0|] eqn:Ep; [|done].
  apply checked_exact in Ep as ->. cbn -[pop_zeros].
  destruct (pop_zeros checked _ p) as [[l q']|] eqn:E; [|done]. cbn. intros [= <- <-].
  apply pop_zeros_spec in E as (k & E & -> & Hh). exists l.
  destruct (trim_zeros_spec s Hs) as (_ & _ & Hfirst).
  pose proof (trim_zeros_digits s Hs) as Hd. pose proof (trim_zeros_value s Hs) as Hv.
  set (t := trim_start_matches "0" s) in *.
  assert (String.list_ascii_of_string t = (rev l ++ repeat "0"%char k)%list) as Et.
  { rewrite <- (rev_involutive (String.list_ascii_of_string t)), E, rev_app_distr. f_equal.
    clear. induction k; cbn; [done|]. rewrite IHk. clear.
    induction k; cbn; congruence. }
  rewrite digits_val_rev, E, rev_value_zeros in Hv.
  rewrite all_digits_list, Et, forallb_app in Hd. apply andb_true_iff in Hd as [Hd _].
  assert (forallb is_ascii_digit_b l = true) as Hdl.
  { rewrite forallb_forall in *. intros x Hx. apply Hd. by apply in_rev in Hx. }
  assert (l <> []) as Hl.
  { intros ->. cbn in Et. destruct k; cbn in Et; [by destruct t|]. rewrite Et in Hfirst. done. }
  split_and!; [done|split_and!; [done|done|]|done|lia|].
  - intros Hlast. apply last_Some in Hlast as [l0 ->].
    rewrite rev_app_distr in Et. rewrite Et in Hfirst. done.
  - rewrite <- Hv. replace (p + Z.of_nat k - p) with (Z.of_nat k) by lia. lia.
Qed.

(** Normal forms coincide exactly when the numbers do. *)
Lemma normalise_iff s p d q s' p' d' q' :
  all_digits s = true -> trim_start_matches "0" s <> "" ->
  all_digits s' = true -> trim_start_matches "0" s' <> "" ->
  normalise checked (trim_start_matches "0" s) p = Some (d, q) ->
  normalise checked (trim_start_matches "0" s') p' = Some (d', q') ->
  d = d' /\ q = q' <-> same_value (digits_val 0 s, p) (digits_val 0 s', p').
Proof using checked_exact.
  intros Hs Hn Hs' Hn' H H'. apply normalise_spec in H as (l & -> & Hl & Hne & Hq & ->); [|done..].
  apply normalise_spec in H' as (l' & -> & Hl' & Hne' & Hq' & ->); [|done..].
  rewrite <- same_value_shift, same_value_sym, <- same_value_shift by done. split.
  - intros [E ->]. apply (f_equal String.list_ascii_of_string) in E.
    rewrite !String.list_ascii_of_string_of_list_ascii in E. apply rev_inj in E as ->.
    unfold same_value. done.
  - intros E. apply same_value_sym, normal_unique in E as [-> ->]; done.
Qed.

Lemma normalise_pos s p d q :
  all_digits s = true -> trim_start_matches "0" s <> "" ->
  normalise checked (trim_start_matches "0" s) p = Some (d, q) ->
  0 < digits_val 0 s /\ all_digits d = true /\ d <> "".
Proof using checked_exact.
  intros Hs Hn H. apply normalise_spec in H as (l & -> & (Hd & _ & Hz) & Hne & Hq & ->); [|done..].
  split_and!.
  - apply Z.mul_pos_pos; [by apply rev_value_pos|]. apply pow10_pos. lia.
  - rewrite all_digits_list, String.list_ascii_of_string_of_list_ascii.
    rewrite forallb_forall in *. intros x Hx. apply Hd. by apply in_rev in Hx.
  - destruct (rev l) eqn:E; [|done]. apply (f_equal (@rev ascii)) in E.
    rewrite rev_involutive in E. done.
Qed.
End normal_form.

Lemma trim_zeros_zero s :
  all_digits s = true -> trim_start_matches "0" s = "" -> digits_val 0 s = 0.
Proof. intros H E. by rewrite <- trim_zeros_value, E. Qed.

(** ** Signs and zero *)
Lemma same_value_signed n v p n' v' p' :
  0 < v -> 0 < v' ->
  same_value (signed n v, p) (signed n' v', p') <-> n = n' /\ same_value (v, p) (v', p').
Proof.
  intros Hv Hv'. unfold same_value. cbn. set (e := Z.min p p').
  pose proof (pow10_pos (p - e) ltac:(lia)). pose proof (pow10_pos (p' - e) ltac:(lia)).
  assert (0 < v * 10 ^ (p - e)) by (apply Z.mul_pos_pos; lia).
  assert (0 < v' * 10 ^ (p' - e)) by (apply Z.mul_pos_pos; lia).
  destruct n, n'; cbn [signed]; rewrite ?Z.mul_opp_l; split;
    try (intros [? ?]; congruence); try (intros ?; exfalso; lia); try (intros; split; [done|lia]).
Qed.

Lemma same_value_zero n p n' v' p' : 0 <= v' -> same_value (signed n 0, p) (signed n' v', p') <-> v' = 0.
Proof.
  intros Hv. unfold same_value. replace (signed n 0) with 0 by (by destruct n). cbn.
  set (e := Z.min p p'). pose proof (pow10_pos (p' - e) ltac:(lia)). split.
  - intros E. symmetry in E. apply Z.mul_eq_0 in E as [E|E]; [destruct n'; cbn in E; lia|lia].
  - intros ->. by destruct n'.
Qed.

Lemma digits_then_inj d r d' r' c :
  all_digits d = true -> all_digits d' = true -> is_ascii_digit_b c = false ->
  d +:+ String c r = d' +:+ String c r' -> d = d' /\ r = r'.
Proof.
  intros Hd Hd' Hc. revert d' Hd'. induction d as [|a d IH]; intros [|b d'] Hd';
    rewrite ?app_str_nil, ?app_str_cons.
  - by intros [= ->].
  - intros [= -> _]. cbn in Hd'. by rewrite Hc in Hd'.
  - intros [= -> _]. cbn in Hd. by rewrite Hc in Hd.
  - intros [= -> E]. cbn in Hd, Hd'. apply andb_true_iff in Hd as [_ Hd], Hd' as [_ Hd'].
    destruct (IH Hd d' Hd' E) as [-> ->]. done.
Qed.
