(* ===== verification/Json.v ===== *)
(** * JSON values and the platform the agent runs on

    [value] is serde_json's [Value] (the crate is built with [preserve_order],
    so an object is the ordered list of its entries and compares without
    regard to order).  Numbers keep serde_json's three representations: a
    nonnegative 64-bit integer, a negative 64-bit integer, or an IEEE double,
    the latter as the standard library's [spec_float] at binary64 precision.

    [Platform] collects the third-party functions the agent calls: SHA-256,
    serde_json's printer and reader, the regex engine, Unicode case mapping
    and UUID syntax.  Every theorem holds for any such platform;
    [plain_platform] is a concrete one, used to run the model. *)
From S2P Require Import Prelude Text.
From Stdlib Require Import Permutation.
Local Open Scope string_scope.
Local Open Scope Z_scope.

Inductive number : Type :=
| PosInt (n : Z)
| NegInt (z : Z)
| Float (f : spec_float).

#[warnings="-register-all"]
Inductive value : Type :=
| Null
| Bool (b : bool)
| Number (n : number)
| Str (s : string)
| Array (l : list value)
| Object (m : list (string * value)).

Lemma value_rect_strong (P : value -> Prop) :
  P Null -> (forall b, P (Bool b)) -> (forall n, P (Number n)) -> (forall s, P (Str s)) ->
  (forall l, (forall v, v ∈ l -> P v) -> P (Array l)) ->
  (forall m, (forall k v, (k, v) ∈ m -> P v) -> P (Object m)) ->
  forall v, P v.
Proof.
  intros HN HB HM HS HA HO. fix IH 1. intros [| b | n | s | l | m].
  - exact HN.
  - apply HB.
  - apply HM.
  - apply HS.
  - apply HA. assert (Forall P l) as HF.
    { induction l as [|x l IHl]; constructor; [apply IH|exact IHl]. }
    by apply Forall_forall.
  - apply HO. assert (Forall (fun e => P (snd e)) m) as HF.
    { induction m as [|[k x] m IHm]; constructor; [apply IH|exact IHm]. }
    intros k v Hin. rewrite Forall_forall in HF. exact (HF (k, v) Hin).
Qed.

(** ** Doubles (binary64) *)
Definition f64_of_Z (z : Z) : spec_float := binary_normalize 53 1024 z 0 false.
Definition f64_finite (f : spec_float) : bool :=
  match f with S754_zero _ | S754_finite _ _ _ => true | _ => false end.
(** [f.fract() == 0.0]. *)
Definition f64_integral (f : spec_float) : bool :=
  match f with
  | S754_zero _ => true
  | S754_finite _ m e => (0 <=? e) || (Z.pos m mod 2 ^ (- e) =? 0)
  | _ => false
  end.
(** [f as i64] of a finite double: truncation, saturating. *)
Definition f64_trunc (f : spec_float) : Z :=
  match f with
  | S754_finite s m e =>
      let a := if 0 <=? e then Z.pos m * 2 ^ e else Z.pos m / 2 ^ (- e) in
      if s then - a else a
  | _ => 0
  end.
Definition f64_to_i64 (f : spec_float) : Z :=
  match f with
  | S754_infinity s => if s then i64_min else i64_max
  | _ => Z.max i64_min (Z.min i64_max (f64_trunc f))
  end.
Definition f64_is_zero (f : spec_float) : bool :=
  match f with S754_zero _ => true | _ => false end.

(** ** Reading a value *)
Definition as_str (v : value) : option string := match v with Str s => Some s | _ => None end.
Definition as_bool (v : value) : option bool := match v with Bool b => Some b | _ => None end.
Definition as_array (v : value) : option (list value) := match v with Array l => Some l | _ => None end.
Definition as_object (v : value) : option (list (string * value)) :=
  match v with Object m => Some m | _ => None end.
Definition as_i64 (v : value) : option Z :=
  match v with
  | Number (PosInt n) => if n <=? i64_max then Some n else None
  | Number (NegInt z) => Some z
  | _ => None
  end.
Definition as_u64 (v : value) : option Z :=
  match v with Number (PosInt n) => Some n | _ => None end.
Definition number_as_f64 (n : number) : spec_float :=
  match n with PosInt z | NegInt z => f64_of_Z z | Float f => f end.
Definition as_f64 (v : value) : option spec_float :=
  match v with Number n => Some (number_as_f64 n) | _ => None end.
Definition is_null (v : value) : bool := match v with Null => true | _ => false end.
Definition is_object (v : value) : bool := is_some (as_object v).
Definition is_array (v : value) : bool := is_some (as_array v).
Definition is_string (v : value) : bool := is_some (as_str v).
Definition is_boolean (v : value) : bool := is_some (as_bool v).
Definition is_number (v : value) : bool := match v with Number _ => true | _ => false end.

Fixpoint assoc {A} (k : string) (m : list (string * A)) : option A :=
  match m with
  | [] => None
  | (k', v) :: m' => if String.eqb k k' then Some v else assoc k m'
  end.
Definition keys {A} (m : list (string * A)) : list string := map fst m.
(** [v.get(key)]: [None] when [v] is not an object. *)
Definition get (k : string) (v : value) : option value :=
  match v with Object m => assoc k m | _ => None end.
Definition get_index (i : nat) (v : value) : option value :=
  match v with Array l => l !! i | _ => None end.
(** [v[key]]: [Null] when the key is missing. *)
Definition index (v : value) (k : string) : value := unwrap_or (get k v) Null.
Definition get_str (k : string) (v : value) : option string :=
  match get k v with Some x => as_str x | None => None end.
Definition get_array (k : string) (v : value) : option (list value) :=
  match get k v with Some x => as_array x | None => None end.
Definition get_object (k : string) (v : value) : option (list (string * value)) :=
  match get k v with Some x => as_object x | None => None end.
Definition get_i64 (k : string) (v : value) : option Z :=
  match get k v with Some x => as_i64 x | None => None end.
Definition get_u64 (k : string) (v : value) : option Z :=
  match get k v with Some x => as_u64 x | None => None end.

(** ** Building and changing a value *)
Definition num (z : Z) : value := Number (if z <? 0 then NegInt z else PosInt z).
Definition of_opt_str (o : option string) : value :=
  match o with Some s => Str s | None => Null end.
Definition of_opt_num (o : option Z) : value := match o with Some z => num z | None => Null end.
(** [IndexMap::insert]: in place when the key exists, else at the end. *)
Fixpoint obj_insert {A} (k : string) (v : A) (m : list (string * A)) : list (string * A) :=
  match m with
  | [] => [(k, v)]
  | (k', v') :: m' => if String.eqb k k' then (k', v) :: m' else (k', v') :: obj_insert k v m'
  end.
(** [Map::remove] is [swap_remove] under [preserve_order]: the last entry
    takes the place of the removed one. *)
Definition obj_remove {A} (k : string) (m : list (string * A)) : list (string * A) :=
  match assoc k m with
  | None => m
  | Some _ =>
      match rev m with
      | [] => []
      | (k', v') :: rest =>
          if String.eqb k k' then rev rest
          else map (fun e => if String.eqb k (fst e) then (k', v') else e) (rev rest)
      end
  end.
(** [v[key] = x] on an object (or on null, which becomes an object). *)
Definition set (k : string) (x : value) (v : value) : value :=
  match v with
  | Object m => Object (obj_insert k x m)
  | Null => Object [(k, x)]
  | _ => v
  end.
Definition remove (k : string) (v : value) : value :=
  match v with Object m => Object (obj_remove k m) | _ => v end.
(** [obj.entry(key).or_insert(x)]. *)
Definition or_insert (k : string) (x : value) (v : value) : value :=
  match v with
  | Object m => if is_some (assoc k m) then v else Object (obj_insert k x m)
  | _ => v
  end.

(** ** Equality ([PartialEq] on [Value]) *)
Definition number_eqb (a b : number) : bool :=
  match a, b with
  | PosInt x, PosInt y => x =? y
  | NegInt x, NegInt y => x =? y
  | Float x, Float y => SFeqb x y
  | _, _ => false
  end.
Fixpoint value_eqb (a b : value) : bool :=
  match a, b with
  | Null, Null => true
  | Bool x, Bool y => Bool.eqb x y
  | Number x, Number y => number_eqb x y
  | Str x, Str y => String.eqb x y
  | Array x, Array y =>
      (fix go (x y : list value) : bool :=
         match x, y with
         | [], [] => true
         | v :: x', w :: y' => value_eqb v w && go x' y'
         | _, _ => false
         end) x y
  | Object x, Object y =>
      (length x =? length y)%nat
      && (fix go (x : list (string * value)) : bool :=
            match x with
            | [] => true
            | (k, v) :: x' =>
                match assoc k y with Some w => value_eqb v w | None => false end && go x'
            end) x
  | _, _ => false
  end.
Definition opt_value_eqb (a b : option value) : bool :=
  match a, b with
  | Some x, Some y => value_eqb x y
  | None, None => true
  | _, _ => false
  end.

(** ** The platform *)
Class Platform := {
  (** [format!("{:x}", Sha256::digest(bytes))] *)
  sha256_hex : string -> string;
  (** [serde_json::to_string] / [Value]'s [Display]: compact JSON text *)
  json_text : value -> string;
  (** [serde_json::Number::to_string] of a double *)
  f64_text : spec_float -> string;
  (** serde_json's reader: the document as the visitor sees it, objects as the
      sequence of their entries, repeated keys included *)
  json_read : string -> result string value;
  (** regex crate: [None] when the pattern does not compile *)
  regex_is_match : string -> string -> option bool;
  (** [find_iter]: byte ranges of the successive matches *)
  regex_find_iter : string -> string -> option (list (nat * nat));
  (** [captures_iter]: end of the whole match and the text of group 1 *)
  regex_captures : string -> string -> option (list (nat * string));
  (** the message of a pattern that does not compile *)
  regex_error : string -> string;
  (** [replace_all] *)
  regex_replace_all : string -> string -> string -> string;
  (** [regex::escape] *)
  regex_escape : string -> string;
  (** Unicode case mapping *)
  to_lowercase : string -> string;
  char_to_uppercase : string -> string;
  (** [char::is_alphanumeric] *)
  is_alphanumeric : string -> bool;
  (** [{:?}] of a string, which consults the Unicode tables *)
  debug_str : string -> string;
  (** [{:?}] of a JSON value *)
  debug_value : value -> string;
  (** [Uuid::parse_str(s).map(|u| u.to_string())]: the canonical spelling *)
  uuid_parse : string -> option string
}.

Definition number_text `{Platform} (n : number) : string :=
  match n with PosInt z | NegInt z => show_Z z | Float f => f64_text f end.

(** ** serde_json's default reading of a document: the last of repeated keys wins *)
Fixpoint lax (v : value) : value :=
  match v with
  | Array l => Array (map lax l)
  | Object m =>
      Object ((fix go (acc m : list (string * value)) : list (string * value) :=
                 match m with
                 | [] => acc
                 | (k, x) :: m' => go (obj_insert k (lax x) acc) m'
                 end) [] m)
  | _ => v
  end.
Definition json_from_str `{Platform} (s : string) : result string value :=
  lax <$> json_read s.

(** * A concrete platform, to run the model on

    Printing follows serde_json for everything except doubles (printed by
    their integral part); the reader knows no document; the digest is a
    placeholder that keeps the text.  Nothing is proved about it. *)
Definition plain_escape (c : string) : string :=
  if String.eqb c dquote then backslash +:+ dquote
  else if String.eqb c backslash then backslash +:+ backslash
  else if String.eqb c nl then backslash +:+ "n" else c.
Definition plain_str (s : string) : string := quoted (concat_str (map plain_escape (chars s))).
Fixpoint plain_text (v : value) : string :=
  match v with
  | Null => "null"
  | Bool b => if b then "true" else "false"
  | Number (PosInt z) | Number (NegInt z) => show_Z z
  | Number (Float f) => show_Z (f64_trunc f) +:+ ".0"
  | Str s => plain_str s
  | Array l => "[" +:+ join "," (map plain_text l) +:+ "]"
  | Object m =>
      "{" +:+ join "," (map (fun e => plain_str (fst e) +:+ ":" +:+ plain_text (snd e)) m) +:+ "}"
  end.
Definition plain_platform : Platform := {|
  sha256_hex s := "sha256:" +:+ s;
  json_text := plain_text;
  f64_text f := show_Z (f64_trunc f) +:+ ".0";
  json_read s := if String.eqb s "{}" then Ok (Object []) else Err "expected value";
  regex_is_match p s := Some (contains_str s p);
  regex_find_iter _ _ := Some [];
  regex_captures _ _ := Some [];
  regex_error p := "regex parse error";
  regex_replace_all p by_ s := s;
  regex_escape s := s;
  to_lowercase := to_ascii_lowercase;
  char_to_uppercase c := c;
  is_alphanumeric := is_ascii_alphanumeric;
  debug_str := quoted;
  debug_value := plain_text;
  uuid_parse s := if is_empty s then None else Some s
|}.

(** * Lemmas *)

Lemma assoc_insert_eq {A} k (v : A) m : assoc k (obj_insert k v m) = Some v.
Proof.
  induction m as [|[k' v'] m IH]; cbn; [by rewrite String.eqb_refl|].
  destruct (String.eqb k k') eqn:E; cbn; by rewrite E.
Qed.

Lemma assoc_insert_ne {A} k k' (v : A) m : k <> k' -> assoc k (obj_insert k' v m) = assoc k m.
Proof.
  intros Hne. induction m as [|[j w] m IH]; cbn.
  - by rewrite eqb_ne.
  - destruct (String.eqb k' j) eqn:E; cbn; [|by rewrite IH].
    apply String.eqb_eq in E as <-. by rewrite !eqb_ne.
Qed.

Lemma get_set_eq k x m : get k (set k x (Object m)) = Some x.
Proof. cbn. apply assoc_insert_eq. Qed.

Lemma get_set_ne k k' x v : k <> k' -> is_object v = true -> get k (set k' x v) = get k v.
Proof. destruct v; try done. intros. by apply assoc_insert_ne. Qed.

Lemma assoc_in {A} k (v : A) m : assoc k m = Some v -> (k, v) ∈ m.
Proof.
  induction m as [|[k' v'] m IH]; cbn; [done|].
  destruct (String.eqb k k') eqn:E; [|intros; by right; auto].
  apply String.eqb_eq in E as ->. intros [= ->]. left.
Qed.

Lemma assoc_none {A} k (m : list (string * A)) : assoc k m = None <-> k ∉ keys m.
Proof.
  induction m as [|[k' v'] m IH]; cbn; [split; [intros _ H; by apply elem_of_nil in H|done]|].
  rewrite not_elem_of_cons. destruct (String.eqb k k') eqn:E.
  - apply String.eqb_eq in E as ->. naive_solver.
  - apply String.eqb_neq in E. rewrite IH. naive_solver.
Qed.

Lemma assoc_nodup {A} k (v : A) m : NoDup (keys m) -> (k, v) ∈ m -> assoc k m = Some v.
Proof.
  induction m as [|[k' v'] m IH]; cbn; [intros _ H; by apply elem_of_nil in H|].
  intros [Hnin Hnd]%NoDup_cons [[= -> ->]|Hin]%elem_of_cons; [by rewrite String.eqb_refl|].
  destruct (String.eqb k k') eqn:E; [|by apply IH].
  apply String.eqb_eq in E as ->. destruct Hnin.
  apply list_elem_of_In, in_map_iff. exists (k', v). split; [done|by apply list_elem_of_In].
Qed.

Lemma assoc_permutation {A} (m m' : list (string * A)) k :
  NoDup (keys m) -> Permutation m m' -> assoc k m = assoc k m'.
Proof.
  intros Hnd Hp.
  assert (NoDup (keys m')) as Hnd'.
  { unfold keys. rewrite <- (Permutation_map fst Hp). exact Hnd. }
  destruct (assoc k m) as [v|] eqn:E.
  - symmetry. apply assoc_nodup; [done|]. rewrite <- Hp. by apply assoc_in.
  - symmetry. apply assoc_none. apply assoc_none in E. unfold keys in *.
    by rewrite <- (Permutation_map fst Hp).
Qed.

Lemma keys_obj_insert {A} k (v : A) m :
  keys (obj_insert k v m) = if is_some (assoc k m) then keys m else (keys m ++ [k])%list.
Proof.
  induction m as [|[k' v'] m IH]; cbn; [done|].
  destruct (String.eqb k k') eqn:E; cbn; [done|]. unfold keys in IH. rewrite IH.
  by destruct (is_some _).
Qed.

Lemma obj_insert_nodup {A} k (v : A) m : NoDup (keys m) -> NoDup (keys (obj_insert k v m)).
Proof.
  intros H. rewrite keys_obj_insert. destruct (assoc k m) eqn:E; cbn; [done|].
  apply NoDup_app. split; [done|]. split; [|by apply NoDup_singleton].
  intros x Hx ->%list_elem_of_singleton. by apply assoc_none in E.
Qed.

Lemma as_i64_num z : 0 <= z <= i64_max -> as_i64 (num z) = Some z.
Proof.
  intros H. unfold num. destruct (z <? 0) eqn:E; [lia|]. cbn -[i64_max].
  by replace (z <=? i64_max) with true by lia.
Qed.

Lemma assoc_map_snd {A B} k (f : A -> B) m :
  assoc k (map (fun e => (fst e, f (snd e))) m) = f <$> assoc k m.
Proof. induction m as [|[k' x] m IH]; cbn; [done|]. by destruct (String.eqb k k'). Qed.

Lemma forall_obj_insert {A} (p : string * A -> Prop) k v m :
  Forall p m -> (forall k', p (k', v)) -> Forall p (obj_insert k v m).
Proof.
  intros Hm Hv. induction Hm as [|[k' x] m Hx Hm IH]; cbn; [by repeat constructor|].
  case_ifs; constructor; auto.
Qed.
