(* ===== verification/Encoding.v ===== *)
(** * JSON encodings and durable identities

    Models [tools.rs] ([parse_strict_json] and its visitor, [python_json]),
    [identity.rs] (the canonical JSON that identifies commands, actions and
    commits, and the Python-compatible spelling used by snapshots) and
    [canonical_json] of [main.rs].

    Main results: the canonical texts do not depend on the order of object
    keys, so neither do the digests built on them; the strict reader accepts
    exactly the documents without repeated keys or out-of-range numbers and
    returns them unchanged; Python-style text is printable ASCII, so an SSE
    event is a single line. *)
From S2P Require Import Prelude Text Json.
From Stdlib Require Import Ascii Permutation Sorted.
Local Open Scope string_scope.
Local Open Scope Z_scope.

(** ** [parse_strict_json] *)

(** [StrictVisitor::visit_map]'s loop over the entries of one object. *)
Definition visit_number (n : number) : result string value :=
  match n with
  | PosInt z => if i64_max <? z then Err "JSON integer exceeds signed 64-bit range" else Ok (num z)
  | NegInt z => Ok (num z)
  | Float f => if f64_finite f then Ok (Number (Float f)) else Err "nonfinite JSON number"
  end.
Fixpoint StrictVisitor (v : value) : result string value :=
  match v with
  | Null => Ok Null
  | Bool b => Ok (Bool b)
  | Number n => visit_number n
  | Str s => Ok (Str s)
  | Array l => match collect StrictVisitor l with Ok out => Ok (Array out) | Err e => Err e end
  | Object m =>
      (fix visit_map (out m : list (string * value)) : result string value :=
         match m with
         | [] => Ok (Object out)
         | (k, x) :: m' =>
             if is_some (assoc k out) then Err ("duplicate JSON property: " +:+ k)
             else match StrictVisitor x with
                  | Err e => Err e
                  | Ok y => visit_map (obj_insert k y out) m'
                  end
         end) [] m
  end.
Definition parse_strict_json `{Platform} (text : string) : result string value :=
  match json_read text with
  | Ok v => StrictVisitor v
  | Err e => Err e
  end.

(** ** Decimal layout of a double *)
(** [while digits.starts_with('0') && digits.len() > 1 { digits.remove(0); point -= 1; }] *)
Fixpoint strip_leading (digits : string) (point : Z) : string * Z :=
  match digits with
  | String "0"%char (String _ _ as rest) => strip_leading rest (point - 1)
  | _ => (digits, point)
  end.
Fixpoint drop_trailing_zeros (s : string) : string :=
  match s with
  | EmptyString => ""
  | String a s' =>
      let r := drop_trailing_zeros s' in
      if Ascii.eqb a "0" && is_empty r then "" else String a r
  end.
(** [while digits.ends_with('0') && digits.len() > 1 { digits.pop(); }] *)
Definition strip_trailing (digits : string) : string :=
  match digits with
  | EmptyString => ""
  | String a s' => String a (drop_trailing_zeros s')
  end.
(** Sign, significant digits and decimal point of a printed number: the part
    that [canonical] and [python_number] have in common. *)
Definition decimal_layout (raw : string) : string * string * Z :=
  let sign := if starts_with raw "-" then "-" else "" in
  let unsigned := trim_start_matches "-" raw in
  let '(mantissa, exp) :=
    match find_byte is_exp_char unsigned with
    | Some i => (take_bytes i unsigned, unwrap_or (parse_i32 (drop_bytes (S i) unsigned)) 0)
    | None => (unsigned, 0)
    end in
  let before := Z.of_nat (unwrap_or (find_str "." mantissa) (String.length mantissa)) in
  let '(digits, point) := strip_leading (replace "." "" mantissa) (before + exp) in
  (sign, strip_trailing digits, point).
Definition positional (digits : string) (point : Z) (suffix : string) : string :=
  if point <=? 0 then "0." +:+ repeat_str (Z.to_nat (- point)) "0" +:+ digits
  else if byte_len digits <=? point then
    digits +:+ repeat_str (Z.to_nat (point - byte_len digits)) "0" +:+ suffix
  else take_bytes (Z.to_nat point) digits +:+ "." +:+ drop_bytes (Z.to_nat point) digits.
Definition scientific_mantissa (digits : string) : string :=
  if byte_len digits =? 1 then digits
  else take_bytes 1 digits +:+ "." +:+ drop_bytes 1 digits.
Definition f64_ge (a b : spec_float) : bool := SFleb b a.
Definition f64_1e_6 : spec_float := SFdiv 53 1024 (f64_of_Z 1) (f64_of_Z 1000000).
Definition f64_1e_4 : spec_float := SFdiv 53 1024 (f64_of_Z 1) (f64_of_Z 10000).

Section platform.
Context `{P : Platform}.

(** The [Value::Number] arm of [canonical]. *)
Definition canonical_number (v : number) : result string string :=
  let n := number_as_f64 v in
  let integer := match v with Float _ => false | _ => true end in
  if negb (f64_finite n) || (integer && SFltb (f64_of_Z 9007199254740991) (SFabs n))
  then Err "number outside I-JSON domain; use a string"
  else if f64_is_zero n then Ok "0"
  else
    let '(sign, digits, point) := decimal_layout (f64_text n) in
    if f64_ge (SFabs n) f64_1e_6 && SFltb (SFabs n) (f64_of_Z (10 ^ 21))
    then Ok (sign +:+ positional digits point "")
    else
      let exponent := point - 1 in
      Ok (sign +:+ scientific_mantissa digits +:+ "e"
          +:+ (if 0 <=? exponent then "+" else "") +:+ show_Z exponent).

(** The order of [encode_utf16]: code units, surrogates for the astral planes. *)
Definition utf16_units (c : string) : list Z :=
  let n := code_point c in
  if n <? 65536 then [n] else [55296 + (n - 65536) / 1024; 56320 + (n - 65536) mod 1024].
Definition encode_utf16 (s : string) : list Z := flat_map utf16_units (chars s).
Fixpoint units_leb (a b : list Z) : bool :=
  match a, b with
  | [], _ => true
  | _ :: _, [] => false
  | x :: a', y :: b' => (x <? y) || ((x =? y) && units_leb a' b')
  end.
Definition utf16_leb (a b : string) : bool := units_leb (encode_utf16 a) (encode_utf16 b).

(** [keys.sort_by(...)] followed by the printing of each entry. *)
Definition sorted_entries (le : string -> string -> bool) (m : list (string * string))
  : list (string * string) := sort_by (fun a b => le (fst a) (fst b)) m.
Definition entry_text (e : string * string) : string := json_text (Str (fst e)) +:+ ":" +:+ snd e.

(** [canonical] visits the keys in sorted order; an error in any entry is an
    error of the object. *)
Fixpoint canonical (v : value) : result string string :=
  match v with
  | Null => Ok "null"
  | Bool b => Ok (if b then "true" else "false")
  | Str s => Ok (json_text (Str s))
  | Number n => canonical_number n
  | Array l =>
      match collect canonical l with
      | Ok parts => Ok ("[" +:+ join "," parts +:+ "]")
      | Err e => Err e
      end
  | Object m =>
      match collect (fun e => e) (map snd (sort_by (fun a b => utf16_leb (fst a) (fst b))
              (map (fun e => (fst e, match canonical (snd e) with
                                     | Ok t => Ok (entry_text (fst e, t))
                                     | Err x => Err x
                                     end)) m))) with
      | Ok parts => Ok ("{" +:+ join "," parts +:+ "}")
      | Err e => Err e
      end
  end.
Definition digest (v : value) : result string string := sha256_hex <$> canonical v.
Definition action (namespace session execution : string) : result string string :=
  digest (Array [Str "agent-action-v1"; Str namespace; Str session; Str execution]).
Definition payload (tool target : string) (args : value) : result string string :=
  digest (Array [Str "agent-payload-v1"; Str tool; Str target; args]).

(** ** The Python-compatible spelling *)
Definition python_number (v : number) : string :=
  match v with
  | PosInt z | NegInt z => show_Z z
  | Float n =>
      if f64_is_zero n then
        match n with S754_zero true => "-0.0" | _ => "0.0" end
      else
        let '(sign, digits, point) := decimal_layout (f64_text n) in
        if f64_ge (SFabs n) f64_1e_4 && SFltb (SFabs n) (f64_of_Z (10 ^ 16))
        then sign +:+ positional digits point ".0"
        else
          let exponent := point - 1 in
          sign +:+ scientific_mantissa digits +:+ "e"
            +:+ (if 0 <=? exponent then "+" else "-") +:+ pad_left 2 (show_Z (Z.abs exponent))
  end.
Fixpoint python_encoded (v : value) : string :=
  match v with
  | Number n => python_number n
  | Array l => "[" +:+ join "," (map python_encoded l) +:+ "]"
  | Object m =>
      "{" +:+ join "," (map entry_text (sorted_entries String.leb
                 (map (fun e => (fst e, python_encoded (snd e))) m))) +:+ "}"
  | _ => json_text v
  end.
(** [canonical_json]'s [sort] and [sort_json] of [context.rs]: every object
    rebuilt with its keys in byte order. *)
Fixpoint sort_json (v : value) : value :=
  match v with
  | Array l => Array (map sort_json l)
  | Object m =>
      Object (sort_by (fun a b => String.leb (fst a) (fst b))
                (map (fun e => (fst e, sort_json (snd e))) m))
  | _ => v
  end.
Definition canonical_json (v : value) : string := python_encoded (sort_json v).

Definition python_json_char (c : string) : string :=
  let n := code_point c in
  if n =? 34 then backslash +:+ dquote
  else if n =? 92 then backslash +:+ backslash
  else if n =? 8 then backslash +:+ "b"
  else if n =? 12 then backslash +:+ "f"
  else if n =? 10 then backslash +:+ "n"
  else if n =? 13 then backslash +:+ "r"
  else if n =? 9 then backslash +:+ "t"
  else if n <? 32 then backslash +:+ "u" +:+ hex4 n
  else if 65535 <? n then
    let code := n - 65536 in
    backslash +:+ "u" +:+ hex4 (55296 + Z.shiftr code 10)
      +:+ backslash +:+ "u" +:+ hex4 (56320 + Z.land code 1023)
  else if 127 <? n then backslash +:+ "u" +:+ hex4 n
  else c.
Definition python_json_string (s : string) : string :=
  dquote +:+ concat_str (map python_json_char (chars s)) +:+ dquote.
Fixpoint python_json (v : value) : string :=
  match v with
  | Null => "null"
  | Bool b => if b then "true" else "false"
  | Number n => python_number n
  | Str s => python_json_string s
  | Array l => "[" +:+ join ", " (map python_json l) +:+ "]"
  | Object m =>
      "{" +:+ join ", " (map (fun e => python_json_string (fst e) +:+ ": " +:+ python_json (snd e)) m)
        +:+ "}"
  end.
End platform.

(** * Key order does not matter *)

(** Two documents that differ only in the order of the entries of their
    objects, at any depth; the keys of an object are pairwise distinct. *)
#[warnings="-register-all"]
Inductive same_json : value -> value -> Prop :=
| same_refl v : same_json v v
| same_array l l' : Forall2 same_json l l' -> same_json (Array l) (Array l')
| same_object m p m' :
    NoDup (map encode_utf16 (keys m)) -> Permutation m p ->
    Forall2 (fun a b => fst a = fst b /\ same_json (snd a) (snd b)) p m' ->
    same_json (Object m) (Object m').

Lemma units_leb_total a b : units_leb a b = true \/ units_leb b a = true.
Proof.
  revert b. induction a as [|x a IH]; intros [|y b]; cbn; auto.
  rewrite !orb_true_iff, !andb_true_iff, !Z.ltb_lt, !Z.eqb_eq.
  destruct (Z.lt_trichotomy x y) as [?|[->|?]], (IH b); tauto.
Qed.

Lemma units_leb_trans a b c :
  units_leb a b = true -> units_leb b c = true -> units_leb a c = true.
Proof.
  revert b c. induction a as [|x a IH]; intros [|y b] [|z c]; cbn; try done.
  specialize (IH b c).
  rewrite !orb_true_iff, !andb_true_iff, !Z.ltb_lt, !Z.eqb_eq.
  intros [?|[-> ?]] [?|[-> ?]]; auto; left; lia.
Qed.

Lemma units_leb_antisym a b : units_leb a b = true -> units_leb b a = true -> a = b.
Proof.
  revert b. induction a as [|x a IH]; intros [|y b]; cbn; try done.
  specialize (IH b).
  rewrite !orb_true_iff, !andb_true_iff, !Z.ltb_lt, !Z.eqb_eq.
  intros [?|[-> ?]] [?|[? ?]]; try lia. f_equal. auto.
Qed.

(** Sorting the entries of an object by key, for a key order that separates
    its keys. *)
Section by_key.
Context {B : Type} (le : string -> string -> bool).
Hypothesis le_total : forall x y, le x y = true \/ le y x = true.
Hypothesis le_trans : forall x y z, le x y = true -> le y z = true -> le x z = true.

Lemma sort_entries_perm (m m' : list (string * B)) :
  NoDup (keys m) ->
  (forall x y, x ∈ keys m -> y ∈ keys m -> le x y = true -> le y x = true -> x = y) ->
  Permutation m m' ->
  sort_by (fun a b => le (fst a) (fst b)) m = sort_by (fun a b => le (fst a) (fst b)) m'.
Proof using le_total le_trans.
  intros Hnd Hanti Hp. apply sort_by_perm_eq; [intros; apply le_total|intros ???; apply le_trans| |done].
  intros [k v] [k' v'] Hin Hin' H1 H2. cbn in *.
  assert (k ∈ keys m) by (eapply (list_elem_of_fmap_2 fst) in Hin; exact Hin).
  assert (k' ∈ keys m) by (eapply (list_elem_of_fmap_2 fst) in Hin'; exact Hin').
  assert (k = k') as <- by auto. f_equal.
  eapply assoc_nodup in Hin; [|done]. eapply assoc_nodup in Hin'; [|done]. congruence.
Qed.
End by_key.

Lemma keys_map_snd {A B} (f : A -> B) (m : list (string * A)) :
  keys (map (fun e => (fst e, f (snd e))) m) = keys m.
Proof. unfold keys. rewrite map_map. done. Qed.

Lemma forall2_map_eq {A B} (f : A -> B) (R : A -> A -> Prop) l l' :
  Forall2 R l l' -> (forall x y, x ∈ l -> R x y -> f x = f y) -> map f l = map f l'.
Proof.
  induction 1 as [|x y l l' Hxy Hl IH]; intros Hf; cbn; [done|].
  rewrite (Hf x y) by (try left; done). f_equal. apply IH. intros. apply Hf; [by right|done].
Qed.

(** The entry-wise image of an object under a function that does not see key
    order, sorted: the common core of the canonical texts. *)
Lemma sorted_image_perm {B} (le : string -> string -> bool) (f : value -> B) m p m' :
  (forall x y, le x y = true \/ le y x = true) ->
  (forall x y z, le x y = true -> le y z = true -> le x z = true) ->
  NoDup (keys m) ->
  (forall x y, x ∈ keys m -> y ∈ keys m -> le x y = true -> le y x = true -> x = y) ->
  Permutation m p ->
  Forall2 (fun a b => fst a = fst b /\ same_json (snd a) (snd b)) p m' ->
  (forall k v w, (k, v) ∈ m -> same_json v w -> f v = f w) ->
  sort_by (fun a b => le (fst a) (fst b)) (map (fun e => (fst e, f (snd e))) m)
  = sort_by (fun a b => le (fst a) (fst b)) (map (fun e => (fst e, f (snd e))) m').
Proof.
  intros Ht Htr Hnd Hanti Hp Hf2 Hf. etrans.
  - apply sort_entries_perm; [done|done|by rewrite keys_map_snd|by rewrite keys_map_snd|].
    apply (Permutation_map _ Hp).
  - f_equal. eapply forall2_map_eq; [exact Hf2|].
    intros [k v] [k' w] Hin [Hk Hs]. cbn in *. subst. f_equal.
    eapply Hf; [|exact Hs]. by rewrite Hp.
Qed.

Lemma nodup_utf16_keys (l : list string) : NoDup (map encode_utf16 l) -> NoDup l.
Proof. apply (NoDup_fmap_1 encode_utf16). Qed.

Lemma utf16_separates l x y :
  NoDup (map encode_utf16 l) -> x ∈ l -> y ∈ l ->
  utf16_leb x y = true -> utf16_leb y x = true -> x = y.
Proof.
  intros Hnd Hx Hy H1 H2. pose proof (units_leb_antisym _ _ H1 H2) as E.
  clear H1 H2. induction l as [|z l IH]; [by apply elem_of_nil in Hx|].
  cbn in Hnd. apply NoDup_cons in Hnd as [Hz Hnd].
  apply elem_of_cons in Hx as [->|Hx]; apply elem_of_cons in Hy as [->|Hy]; auto.
  - destruct Hz. rewrite E. by apply (list_elem_of_fmap_2 encode_utf16).
  - destruct Hz. rewrite <- E. by apply (list_elem_of_fmap_2 encode_utf16).
Qed.

Section encoding_lemmas.
Context `{P : Platform}.

Definition canonical_entry (k : string) (r : result string string) : result string string :=
  match r with Ok t => Ok (entry_text (k, t)) | Err x => Err x end.

Lemma sort_by_map_entry (m : list (string * result string string)) :
  sort_by (fun a b => utf16_leb (fst a) (fst b)) (map (fun e => (fst e, canonical_entry (fst e) (snd e))) m)
  = map (fun e => (fst e, canonical_entry (fst e) (snd e)))
      (sort_by (fun a b => utf16_leb (fst a) (fst b)) m).
Proof.
  assert (forall (x : string * result string string) l,
    insert_by (fun a b : string * result string string => utf16_leb (fst a) (fst b))
      (fst x, canonical_entry (fst x) (snd x))
      (map (fun e => (fst e, canonical_entry (fst e) (snd e))) l)
    = map (fun e => (fst e, canonical_entry (fst e) (snd e)))
        (insert_by (fun a b => utf16_leb (fst a) (fst b)) x l)) as Hins.
  { intros x l. induction l as [|y l IH]; cbn; [done|].
    destruct (utf16_leb (fst x) (fst y)); cbn; [done|]. by rewrite IH. }
  unfold sort_by. induction m as [|x m IH]; cbn; [done|]. rewrite IH. apply Hins.
Qed.

Lemma canonical_object m :
  canonical (Object m) =
  match collect (fun e => e)
          (map (fun e => canonical_entry (fst e) (snd e))
             (sort_by (fun a b => utf16_leb (fst a) (fst b))
                (map (fun e => (fst e, canonical (snd e))) m))) with
  | Ok parts => Ok ("{" +:+ join "," parts +:+ "}")
  | Err e => Err e
  end.
Proof.
  cbn [canonical].
  assert (map (fun e => (fst e, match canonical (snd e) with
                                | Ok t => Ok (entry_text (fst e, t))
                                | Err x => Err x
                                end)) m
          = map (fun e => (fst e, canonical_entry (fst e) (snd e)))
              (map (fun e => (fst e, canonical (snd e))) m)) as ->
    by (rewrite map_map; done).
  rewrite sort_by_map_entry, map_map. done.
Qed.

Lemma canonical_same v w : same_json v w -> canonical v = canonical w.
Proof.
  revert w. induction v using value_rect_strong; intros w Hw; inversion Hw; subst; try done.
  - cbn. replace (collect canonical l') with (collect canonical l); [done|].
    clear Hw. induction H1 as [|x y l l' Hxy Hl IH]; cbn; [done|].
    rewrite (H x (list_elem_of_here _ _) y Hxy), IH; [done|].
    intros v Hv. apply H. by right.
  - rewrite !canonical_object.
    erewrite (sorted_image_perm utf16_leb canonical m p m'); [done| | | | | | |].
    + intros; apply units_leb_total.
    + intros ???; apply units_leb_trans.
    + by apply nodup_utf16_keys.
    + intros ??. by apply utf16_separates.
    + done.
    + done.
    + intros k v w' Hin Hs. by eapply H.
Qed.

Lemma python_encoded_same v w : same_json v w -> python_encoded v = python_encoded w.
Proof.
  revert w. induction v using value_rect_strong; intros w Hw; inversion Hw; subst; try done.
  - cbn. do 2 f_equal. clear Hw. f_equal. induction H1 as [|x y l l' Hxy Hl IH]; cbn; [done|].
    rewrite (H x (list_elem_of_here _ _) y Hxy), IH; [done|].
    intros v Hv. apply H. by right.
  - cbn. unfold sorted_entries.
    erewrite (sorted_image_perm String.leb python_encoded m p m'); [done| | | | | | |];
      eauto using string_leb_total, string_leb_trans, string_leb_antisym, nodup_utf16_keys.
Qed.
End encoding_lemmas.

(** * The strict reader *)

(** The documents serde_json's reader can deliver: integers within the widths
    of their representation. *)
Fixpoint representable (v : value) : bool :=
  match v with
  | Number (PosInt z) => (0 <=? z) && (z <? 2 ^ 64)
  | Number (NegInt z) => (i64_min <=? z) && (z <? 0)
  | Array l => forallb representable l
  | Object m => forallb (fun e => representable (snd e)) m
  | _ => true
  end.
(** What the strict reader promises to accept. *)
Fixpoint strict_document (v : value) : bool :=
  match v with
  | Number (PosInt z) => z <=? i64_max
  | Number (Float f) => f64_finite f
  | Array l => forallb strict_document l
  | Object m => all_distinct (keys m) && forallb (fun e => strict_document (snd e)) m
  | _ => true
  end.

Lemma visit_number_iff n w :
  representable (Number n) = true ->
  visit_number n = Ok w <-> w = Number n /\ strict_document (Number n) = true.
Proof.
  unfold visit_number, num. destruct n as [z|z|f]; cbn.
  - intros [? ?]%andb_true_iff.
    destruct (i64_max <? z) eqn:E1; destruct (z <? 0) eqn:E2; destruct (z <=? i64_max) eqn:E3;
      try lia; (split; [by intros [= <-]|by intros [-> ?]]).
  - intros [? ?]%andb_true_iff. destruct (z <? 0) eqn:E; [|lia].
    split; [by intros [= <-]|by intros [-> ?]].
  - intros _. destruct (f64_finite f); (split; [by intros [= <-]|by intros [-> ?]]).
Qed.

Fixpoint visit_map (out m : list (string * value)) : result string value :=
  match m with
  | [] => Ok (Object out)
  | (k, x) :: m' =>
      if is_some (assoc k out) then Err ("duplicate JSON property: " +:+ k)
      else match StrictVisitor x with
           | Err e => Err e
           | Ok y => visit_map (obj_insert k y out) m'
           end
  end.

Lemma obj_insert_fresh {A} k (v : A) m : assoc k m = None -> obj_insert k v m = (m ++ [(k, v)])%list.
Proof.
  induction m as [|[k' v'] m IH]; cbn; [done|].
  destruct (String.eqb k k') eqn:E; [done|]. intros H. by rewrite IH.
Qed.

Lemma visit_map_iff out m w :
  (forall k x, (k, x) ∈ m -> forall y,
     StrictVisitor x = Ok y <-> y = x /\ strict_document x = true) ->
  visit_map out m = Ok w <->
  w = Object (out ++ m)%list /\ forallb (fun e => strict_document (snd e)) m = true
  /\ NoDup (keys m) /\ (forall k, k ∈ keys m -> k ∉ keys out).
Proof.
  revert out. induction m as [|[k x] m IH]; intros out Hx; cbn.
  - rewrite app_nil_r. split; [intros [= <-]|by intros (-> & _)].
    split_and!; [done|done|constructor|]. intros k Hk. by apply elem_of_nil in Hk.
  - destruct (assoc k out) as [v|] eqn:Ek; cbn.
    { split; [done|]. intros (_ & _ & _ & Hd). destruct (Hd k ltac:(left)).
      apply assoc_in in Ek. eapply (list_elem_of_fmap_2 fst) in Ek. exact Ek. }
    destruct (StrictVisitor x) as [y|e] eqn:Ey.
    + apply (Hx k x ltac:(left)) in Ey as [-> Hs].
      rewrite (obj_insert_fresh _ _ _ Ek), IH by (intros; eapply Hx; right; done).
      rewrite Hs, <- app_assoc. cbn. rewrite NoDup_cons. unfold keys in *. rewrite map_app. cbn.
      apply assoc_none in Ek. unfold keys in Ek.
      setoid_rewrite elem_of_cons. setoid_rewrite not_elem_of_app.
      setoid_rewrite list_elem_of_singleton. split.
      * intros (-> & Hf & Hnd & Hd). split_and!; [done|done| |done|].
        -- intros Hk. by destruct (Hd k Hk).
        -- intros j [->|Hj]; [done|]. by destruct (Hd j Hj).
      * intros (-> & Hf & [Hk Hnd] & Hd). split_and!; [done|done|done|].
        intros j Hj. split; [by auto|]. by intros ->.
    + split; [done|]. intros (_ & [Hs _]%andb_true_iff & _).
      assert (StrictVisitor x = Ok x) by (apply (Hx k x ltac:(left)); done). congruence.
Qed.

Lemma collect_strict_iff l :
  (forall x, x ∈ l -> forall y, StrictVisitor x = Ok y <-> y = x /\ strict_document x = true) ->
  forall l', collect StrictVisitor l = Ok l' <-> l' = l /\ forallb strict_document l = true.
Proof.
  induction l as [|x l IH]; intros H l'; cbn; [split; [by intros [= <-]|by intros [-> _]]|].
  pose proof (H x ltac:(left)) as Hx.
  specialize (IH (fun y Hy => H y (list_elem_of_further _ _ _ Hy))).
  rewrite andb_true_iff. destruct (StrictVisitor x) as [y|e].
  - destruct (proj1 (Hx y) eq_refl) as [-> Hsx]. destruct (collect StrictVisitor l) as [ys|e].
    + destruct (proj1 (IH ys) eq_refl) as [-> Hsl]. split; [by intros [= <-]|by intros [-> _]].
    + split; [done|]. intros (_ & _ & Hsl). by discriminate (proj2 (IH l) (conj eq_refl Hsl)).
  - split; [done|]. intros (_ & Hsx & _). by discriminate (proj2 (Hx x) (conj eq_refl Hsx)).
Qed.

Lemma StrictVisitor_iff v :
  representable v = true -> forall w,
  StrictVisitor v = Ok w <-> w = v /\ strict_document v = true.
Proof.
  induction v using value_rect_strong; intros Hr w.
  - split; [by intros [= <-]|by intros [-> _]].
  - split; [by intros [= <-]|by intros [-> _]].
  - by apply visit_number_iff.
  - split; [by intros [= <-]|by intros [-> _]].
  - cbn in Hr. rewrite forallb_forall in Hr.
    pose proof (collect_strict_iff l) as Hc. cbn.
    specialize (Hc (fun x Hx => H x Hx (Hr x (proj1 (list_elem_of_In _ _) Hx)))).
    destruct (collect StrictVisitor l) as [ys|e].
    + destruct (proj1 (Hc ys) eq_refl) as [-> Hs]. split; [by intros [= <-]|by intros [-> _]].
    + split; [done|]. intros [_ Hs]. by discriminate (proj2 (Hc l) (conj eq_refl Hs)).
  - change (visit_map [] m = Ok w <-> w = Object m /\ strict_document (Object m) = true).
    cbn in Hr. rewrite forallb_forall in Hr. rewrite visit_map_iff.
    + cbn. rewrite andb_true_iff, all_distinct_spec. unfold keys. split; [tauto|].
      intros (-> & ? & ?). split_and!; try done. intros ? _ Hk. by apply elem_of_nil in Hk.
    + intros k x Hin. eapply H; [exact Hin|]. apply (Hr (k, x)). by apply list_elem_of_In.
Qed.

(** * One event, one line *)

(** ASCII without control characters: what may appear in a [data:] line. *)
Definition line_byte (a : ascii) : bool := (32 <=? byte_val a) && (byte_val a <=? 127).
Definition line_safe (s : string) : bool := all_bytes line_byte s.

Lemma byte_val_of z : 0 <= z < 256 -> byte_val (byte_of z) = z.
Proof.
  intros H. unfold byte_val, byte_of. rewrite nat_ascii_embedding by lia. lia.
Qed.

Lemma hex4_safe n : line_safe (hex4 n) = true.
Proof.
  assert (forall d, 0 <= d < 16 -> line_byte (hex_digit d) = true) as Hd.
  { intros d H. unfold line_byte, hex_digit.
    destruct (d <? 10) eqn:E; rewrite byte_val_of by lia; lia. }
  unfold line_safe, hex4. cbn [all_bytes].
  rewrite !Hd by (apply Z.mod_pos_bound; lia). done.
Qed.

Lemma code_point_nonneg c : utf8_char c = true -> 0 <= code_point c.
Proof.
  unfold utf8_char, char_from_u32. destruct (code_point c <? 0) eqn:E; cbn; [done|lia].
Qed.

Lemma utf8_ascii_char c :
  utf8_char c = true -> code_point c < 128 -> c = String (byte_of (code_point c)) "".
Proof.
  unfold utf8_char, char_from_u32. intros H Hn.
  destruct (_ || _) in H; [done|]. apply String.eqb_eq in H. rewrite <- H at 1.
  unfold encode_char. by replace (code_point c <? 128) with true by lia.
Qed.

Lemma python_json_char_safe c : utf8_char c = true -> line_safe (python_json_char c) = true.
Proof.
  intros H. pose proof (code_point_nonneg c H) as H0.
  pose proof (utf8_ascii_char c H) as Hc. unfold python_json_char, line_safe in *.
  revert H0 Hc. generalize (code_point c) as n. intros n H0 Hc. cbv zeta.
  destruct (n =? 34); [done|]. destruct (n =? 92); [done|]. destruct (n =? 8); [done|].
  destruct (n =? 12); [done|]. destruct (n =? 10); [done|]. destruct (n =? 13); [done|].
  destruct (n =? 9); [done|].
  destruct (n <? 32) eqn:E1; [rewrite !all_bytes_app; apply hex4_safe|].
  destruct (65535 <? n) eqn:E2; [rewrite !all_bytes_app; rewrite hex4_safe; apply hex4_safe|].
  destruct (127 <? n) eqn:E3; [rewrite !all_bytes_app; apply hex4_safe|].
  rewrite Hc by lia. cbn [all_bytes]. unfold line_byte. rewrite byte_val_of by lia. lia.
Qed.

Section line_safety.
Context `{P : Platform}.
Hypothesis f64_text_safe : forall f, line_safe (f64_text f) = true.

Lemma python_json_string_safe s : valid_utf8 s = true -> line_safe (python_json_string s) = true.
Proof.
  intros H. unfold line_safe, python_json_string. rewrite !all_bytes_app, all_bytes_concat.
  cbn [andb]. change (all_bytes line_byte dquote) with true. rewrite andb_true_r. cbn [andb].
  unfold valid_utf8 in H. induction (chars s) as [|c l IH]; cbn; [done|].
  cbn in H. apply andb_true_iff in H as [H1 H2].
  change (line_safe (python_json_char c) && forallb (all_bytes line_byte) (map python_json_char l) = true).
  by rewrite python_json_char_safe, IH.
Qed.

Lemma drop_trailing_zeros_safe s :
  line_safe s = true -> line_safe (drop_trailing_zeros s) = true.
Proof.
  unfold line_safe. induction s as [|a s IH]; cbn; [done|]. rewrite andb_true_iff.
  intros [H1 H2]. destruct (_ && _); cbn; [done|]. by rewrite H1, IH.
Qed.

Lemma strip_leading_safe s k : line_safe s = true -> line_safe (fst (strip_leading s k)) = true.
Proof.
  unfold line_safe. revert k. induction s as [|a s IH]; intros k H; [done|].
  destruct (ascii_dec a "0"%char) as [->|Hne].
  - destruct s as [|b s]; [done|]. apply IH. cbn in *. by apply andb_true_iff in H as [_ ?].
  - destruct a as [[] [] [] [] [] [] [] []]; cbn in *; try done; by destruct s.
Qed.

Lemma show_Z_safe z : line_safe (show_Z z) = true.
Proof.
  apply all_bytes_show_Z; [done|done|]. intros d Hd.
  assert (d = 0 \/ d = 1 \/ d = 2 \/ d = 3 \/ d = 4 \/ d = 5 \/ d = 6 \/ d = 7 \/ d = 8 \/ d = 9)%N
    as Hcase by lia.
  destruct_or! Hcase; by subst.
Qed.

Lemma decimal_layout_safe raw :
  line_safe raw = true ->
  line_safe (fst (fst (decimal_layout raw))) = true
  /\ line_safe (snd (fst (decimal_layout raw))) = true.
Proof.
  intros H. unfold decimal_layout.
  set (m := match find_byte is_exp_char (trim_start_matches "-" raw) with Some _ => _ | None => _ end).
  assert (line_safe (fst m) = true) as Hm.
  { pose proof (all_bytes_trim_start_matches line_byte "-" _ H) as Ht. unfold m.
    destruct (find_byte _ _); cbn; [by apply all_bytes_take|done]. }
  destruct m as [mantissa exp]. cbn in Hm.
  pose proof (strip_leading_safe (replace "." "" mantissa)
    (Z.of_nat (unwrap_or (find_str "." mantissa) (String.length mantissa)) + exp)
    (all_bytes_replace_from _ _ _ _ Hm)) as Hs.
  destruct (strip_leading _ _) as [digits point]. cbn in *. split; [by destruct (starts_with raw "-")|].
  destruct digits as [|a s]; [done|]. cbn in *. apply andb_true_iff in Hs as [-> Hs].
  by apply drop_trailing_zeros_safe.
Qed.

Lemma python_number_safe n : line_safe (python_number n) = true.
Proof using f64_text_safe.
  destruct n as [z|z|f]; cbn; try apply show_Z_safe.
  destruct (f64_is_zero f); [destruct f as [[]| | |]; done|].
  destruct (decimal_layout_safe (f64_text f) (f64_text_safe f)) as [Hs Hd].
  destruct (decimal_layout (f64_text f)) as [[sign digits] point]. cbn in *.
  unfold line_safe in *.
  assert (forall k, all_bytes line_byte (take_bytes k digits) = true) by (intros; by apply all_bytes_take).
  assert (forall k, all_bytes line_byte (drop_bytes k digits) = true) by (intros; by apply all_bytes_drop).
  assert (forall k, all_bytes line_byte (repeat_str k "0") = true) by (intros; by apply all_bytes_repeat).
  assert (all_bytes line_byte (pad_left 2 (show_Z (Z.abs (point - 1)))) = true)
    by (apply all_bytes_pad; [done|apply show_Z_safe]).
  unfold positional, scientific_mantissa.
  case_ifs; rewrite ?all_bytes_app; repeat match goal with H : _ = true |- _ => rewrite H end; try done.
  all: rewrite ?H, ?H0, ?H1; done.
Qed.

Fixpoint utf8_value (v : value) : bool :=
  match v with
  | Str s => valid_utf8 s
  | Array l => forallb utf8_value l
  | Object m => forallb (fun e => valid_utf8 (fst e) && utf8_value (snd e)) m
  | _ => true
  end.

Lemma python_json_safe v : utf8_value v = true -> line_safe (python_json v) = true.
Proof using f64_text_safe.
  induction v using value_rect_strong; cbn; intros Hv.
  - done.
  - by destruct b.
  - apply python_number_safe.
  - by apply python_json_string_safe.
  - unfold line_safe in *. rewrite !all_bytes_app, all_bytes_join; [done|done|].
    rewrite forallb_forall in *. intros t (x & <- & Hx)%in_map_iff.
    apply H; [by apply list_elem_of_In|by apply Hv].
  - unfold line_safe in *. rewrite !all_bytes_app, all_bytes_join; [done|done|].
    rewrite forallb_forall in *. intros t ([k x] & <- & Hx)%in_map_iff. cbn.
    specialize (Hv _ Hx). cbn in Hv. apply andb_true_iff in Hv as [Hk Hx'].
    rewrite !all_bytes_app. rewrite (H k x) by (by apply list_elem_of_In || done).
    pose proof (python_json_string_safe k Hk) as Hs. unfold line_safe in Hs. by rewrite Hs.
Qed.
End line_safety.

Example canonical_numbers :
  let H := {| sha256_hex s := s; json_text := plain_text;
              f64_text f := if SFeqb f f64_1e_6 then "1e-6"
                            else if SFeqb f (f64_of_Z (10 ^ 21)) then "1e21"
                            else if SFeqb f (f64_of_Z (10 ^ 20)) then "100000000000000000000.0"
                            else "1.0";
              json_read _ := Err ""; regex_is_match _ _ := None; regex_find_iter _ _ := None;
              regex_captures _ _ := None; regex_error s := s; regex_replace_all _ _ s := s;
              regex_escape s := s; debug_value _ := ""; to_lowercase s := s; char_to_uppercase s := s;
              is_alphanumeric _ := false; debug_str s := s; uuid_parse _ := None |} in
  map (fun f => canonical (Number (Float f)))
    [f64_of_Z 1; S754_zero true; f64_1e_6; f64_of_Z (10 ^ 21); f64_of_Z (10 ^ 20)]
  = [Ok "1"; Ok "0"; Ok "0.000001"; Ok "1e+21"; Ok "100000000000000000000"].
Proof. vm_compute. reflexivity. Qed.

(** * Documents with sorted keys *)

Definition entry_leb {A} (a b : string * A) : bool := String.leb (fst a) (fst b).
Definition sort_entry (e : string * value) : string * value := (fst e, sort_json (snd e)).
(** What the strict reader can deliver and accepts. *)
Definition readable (v : value) : bool := representable v && strict_document v.

Lemma sort_json_object m : sort_json (Object m) = Object (sort_by entry_leb (map sort_entry m)).
Proof. done. Qed.

Lemma entry_leb_total {A} (a b : string * A) : entry_leb a b = true \/ entry_leb b a = true.
Proof. apply string_leb_total. Qed.

Lemma entry_leb_trans {A} (a b c : string * A) :
  entry_leb a b = true -> entry_leb b c = true -> entry_leb a c = true.
Proof. apply string_leb_trans. Qed.

Lemma sort_entries_sorted {A} (m : list (string * A)) :
  StronglySorted (fun a b => entry_leb a b = true) (sort_by entry_leb m).
Proof. apply sort_by_sorted; [apply entry_leb_total|apply entry_leb_trans]. Qed.

Lemma sort_json_idem v : sort_json (sort_json v) = sort_json v.
Proof.
  induction v using value_rect_strong; try done.
  - cbn. rewrite map_map. f_equal. apply map_ext_in. intros x Hx. apply H. by apply list_elem_of_In.
  - rewrite !sort_json_object. f_equal.
    assert (map sort_entry (sort_by entry_leb (map sort_entry m)) = sort_by entry_leb (map sort_entry m)) as E.
    { rewrite <- (List.map_id (sort_by entry_leb (map sort_entry m))) at 2. apply map_ext_in.
      intros e He%list_elem_of_In. rewrite sort_by_perm in He.
      apply list_elem_of_fmap in He as ([k x] & -> & Hin). unfold sort_entry. cbn. f_equal. by eapply H. }
    rewrite E. apply sort_by_id, sort_entries_sorted.
Qed.

Lemma keys_sort_entry m : keys (map sort_entry m) = keys m.
Proof. unfold keys. by rewrite map_map. Qed.

Lemma keys_sorted_perm m : Permutation (keys (sort_by entry_leb (map sort_entry m))) (keys m).
Proof. rewrite <- (keys_sort_entry m). apply (Permutation_map fst), sort_by_perm. Qed.

(** Sorting the keys changes neither which fields there are nor, up to the
    same sorting, what they hold. *)
Lemma get_sort_json k m :
  NoDup (keys m) -> get k (sort_json (Object m)) = sort_json <$> assoc k m.
Proof.
  intros Hnd. rewrite sort_json_object. cbn. rewrite <- (assoc_map_snd k sort_json).
  apply assoc_permutation; [|apply sort_by_perm].
  by rewrite keys_sorted_perm.
Qed.

Lemma readable_sort v : readable (sort_json v) = readable v.
Proof.
  unfold readable. f_equal; induction v using value_rect_strong; try done.
  - by apply forallb_map_eq.
  - rewrite sort_json_object. cbn. rewrite (forallb_perm _ _ _ (sort_by_perm _ _)).
    apply forallb_map_eq. intros [k x] Hx. by eapply H.
  - by apply forallb_map_eq.
  - rewrite sort_json_object. cbn. rewrite (forallb_perm _ _ _ (sort_by_perm _ _)). f_equal.
    + apply eq_true_iff_eq. rewrite !all_distinct_spec. by rewrite keys_sorted_perm.
    + apply forallb_map_eq. intros [k x] Hx. by eapply H.
Qed.

(** A document equals its copy with sorted keys. *)
Lemma number_eqb_refl n : strict_document (Number n) = true -> number_eqb n n = true.
Proof.
  destruct n as [z|z|f]; cbn; intros H; try apply Z.eqb_refl.
  unfold SFeqb. destruct f as [[]|[]| |[] m e]; try done; cbn;
    by rewrite Z.compare_refl, Pos.compare_refl.
Qed.

Definition entries_eqb (y : list (string * value)) : list (string * value) -> bool :=
  fix go x :=
    match x with
    | [] => true
    | (k, v) :: x' => match assoc k y with Some w => value_eqb v w | None => false end && go x'
    end.

Lemma entries_eqb_forall x y :
  entries_eqb y x = true <->
  forall k v, (k, v) ∈ x -> exists w, assoc k y = Some w /\ value_eqb v w = true.
Proof.
  induction x as [|[k v] x IH]; cbn; [split; [intros _ ? ? H; by apply elem_of_nil in H|done]|].
  rewrite andb_true_iff, IH. split.
  - intros [H Hx] k' v' [[= -> ->]|Hin]%elem_of_cons; [|by apply Hx].
    destruct (assoc k y) as [w|]; [by exists w|done].
  - intros H. split; [|intros k' v' Hin; apply H; by right].
    destruct (H k v) as (w & -> & Hw); [left|done].
Qed.

Lemma value_eqb_sort v : strict_document v = true -> value_eqb (sort_json v) v = true.
Proof.
  induction v using value_rect_strong; cbn -[sort_json]; intros Hs; try done.
  - by destruct b.
  - by apply number_eqb_refl.
  - apply String.eqb_refl.
  - cbn. revert H Hs. induction l as [|x l IH]; cbn; [done|]. intros H [Hx Hl]%andb_true_iff.
    rewrite (H x) by (try left; done). apply IH; [|done]. intros y Hy. apply H. by right.
  - rewrite sort_json_object. apply andb_true_iff in Hs as [Hk Hs].
    apply all_distinct_spec in Hk. rewrite forallb_forall in Hs.
    cbn. apply andb_true_iff. split.
    + rewrite (Permutation_length (sort_by_perm _ _)), length_map. apply Nat.eqb_refl.
    + change (entries_eqb m (sort_by entry_leb (map sort_entry m)) = true).
      apply entries_eqb_forall. intros k w Hin. rewrite sort_by_perm in Hin.
      apply list_elem_of_fmap in Hin as ([k' x] & [= -> ->] & Hin). exists x.
      split; [by apply assoc_nodup|]. eapply H; [done|]. apply (Hs (k', x)). by apply list_elem_of_In.
Qed.

(** * One document, one line *)

Section reading_lines.
Context `{P : Platform}.
(** The printer of serde_json escapes control characters, and the text of a
    double has none. *)
Hypothesis json_text_one_line : forall v, one_line (json_text v) = true.
Hypothesis f64_text_safe : forall f, line_safe (f64_text f) = true.

Lemma line_safe_one_line s : line_safe s = true -> one_line s = true.
Proof.
  unfold line_safe, one_line. induction s as [|a s IH]; cbn; [done|].
  intros [Ha Hs]%andb_true_iff. rewrite (IH Hs), andb_true_r.
  unfold no_newline. destruct (Ascii.eqb_spec a "010"); [by subst|done].
Qed.

Lemma python_encoded_one_line v : one_line (python_encoded v) = true.
Proof using json_text_one_line f64_text_safe.
  unfold one_line. induction v using value_rect_strong; cbn; try apply json_text_one_line.
  - apply line_safe_one_line, python_number_safe, f64_text_safe.
  - rewrite !all_bytes_app, all_bytes_join; [done|done|].
    rewrite forallb_forall. intros t (x & <- & Hx)%in_map_iff. apply H. by apply list_elem_of_In.
  - rewrite !all_bytes_app, all_bytes_join; [done|done|].
    rewrite forallb_forall. intros t (e & <- & He)%in_map_iff.
    apply list_elem_of_In in He. unfold sorted_entries in He. rewrite sort_by_perm in He.
    apply list_elem_of_fmap in He as ([k x] & -> & Hin). unfold entry_text. cbn.
    rewrite !all_bytes_app, (H k x Hin). cbn. rewrite !andb_true_r. apply json_text_one_line.
Qed.

Lemma ends_with_brace s : ends_with (s +:+ "}") cr = false.
Proof.
  unfold ends_with. rewrite length_app_str. cbn [String.length].
  replace (String.length s + 1 - String.length cr)%nat with (String.length s) by (cbn; lia).
  rewrite drop_bytes_app. apply andb_false_r.
Qed.

(** The line of an object is a line of a file. *)
Lemma canonical_json_file_line m : file_line (canonical_json (Object m)) = true.
Proof using json_text_one_line f64_text_safe.
  unfold file_line. rewrite !andb_true_iff. split_and!.
  - apply python_encoded_one_line.
  - done.
  - apply negb_true_iff. unfold canonical_json. rewrite sort_json_object. cbn [python_encoded].
    rewrite <- app_assoc_str. apply ends_with_brace.
Qed.

(** What serde_json prints it reads back, with the keys in the printed order. *)
Definition prints (v : value) : Prop := json_read (canonical_json v) = Ok (sort_json v).

Lemma parse_strict_canonical v :
  prints v -> readable v = true -> parse_strict_json (canonical_json v) = Ok (sort_json v).
Proof.
  intros Hp Hr. unfold parse_strict_json. rewrite Hp.
  rewrite <- readable_sort in Hr. apply andb_true_iff in Hr as [Hr Hs].
  by apply StrictVisitor_iff.
Qed.
End reading_lines.
