(* ===== verification/Timestamp.v ===== *)
(** * Transcript timestamps ([transcript_timestamp] in [main.rs])

    Seconds since the Unix epoch turned into a UTC calendar date by the
    era/day-of-era computation of the source.  The reference is the proleptic
    Gregorian calendar: [days_from_civil] counts the days from years, leap
    years and month lengths.  [civil_from_days_correct] shows the computation
    returns the one valid date with that day number. *)
From S2P Require Import Prelude Text.
Local Open Scope string_scope.
Local Open Scope Z_scope.

(** The date part: [days] since 1970-01-01 to (year, month, day).  Integer
    division of Rust truncates; every dividend here is nonnegative except the
    guarded one, so [Z.quot] is used where the sign may matter. *)
Definition civil_from_days (days : Z) : Z * Z * Z :=
  let z := days + 719468 in
  let era := Z.quot (if 0 <=? z then z else z - 146096) 146097 in
  let doe := z - era * 146097 in
  let yoe := (doe - doe / 1460 + doe / 36524 - doe / 146096) / 365 in
  let year := yoe + era * 400 in
  let doy := doe - (365 * yoe + yoe / 4 - yoe / 100) in
  let mp := (5 * doy + 2) / 153 in
  let day := doy - (153 * mp + 2) / 5 + 1 in
  let month := mp + (if mp <? 10 then 3 else -9) in
  (year + (if month <=? 2 then 1 else 0), month, day).

(** [format!("{year:04}-{month:02}-{day:02}T...Z")]; a sign counts in the width. *)
Definition pad (width : nat) (z : Z) : string := pad_left width (show_Z z).
Definition format_timestamp (seconds : Z) : string :=
  let '(year, month, day) := civil_from_days (seconds / 86400) in
  let rem := seconds mod 86400 in
  pad 4 year +:+ "-" +:+ pad 2 month +:+ "-" +:+ pad 2 day +:+ "T"
    +:+ pad 2 (rem / 3600) +:+ ":" +:+ pad 2 ((rem mod 3600) / 60) +:+ ":" +:+ pad 2 (rem mod 60)
    +:+ "Z".

(** ** The calendar, as reference *)
Definition leap (y : Z) : bool :=
  (y mod 4 =? 0) && (negb (y mod 100 =? 0) || (y mod 400 =? 0)).
Definition days_in_month (is_leap : bool) (m : Z) : Z :=
  if m =? 2 then (if is_leap then 29 else 28)
  else if (m =? 4) || (m =? 6) || (m =? 9) || (m =? 11) then 30 else 31.
Definition days_before_month (is_leap : bool) (m : Z) : Z :=
  foldr (fun k acc => days_in_month is_leap (Z.of_nat k) + acc) 0 (seq 1 (Z.to_nat (m - 1))).
(** Days in the years 1 to [y]. *)
Definition days_through (y : Z) : Z := 365 * y + y / 4 - y / 100 + y / 400.
(** Day number of a date, 1970-01-01 being day 0. *)
Definition days_from_civil (d : Z * Z * Z) : Z :=
  let '(y, m, d) := d in
  days_through (y - 1) + days_before_month (leap y) m + (d - 1) - 719162.
Definition valid_date (d : Z * Z * Z) : bool :=
  let '(y, m, d) := d in
  (1 <=? m) && (m <=? 12) && (1 <=? d) && (d <=? days_in_month (leap y) m).

(** ** Correctness *)

(** Year of the era from the day of the era, and the days before it. *)
Definition yoe_of (doe : Z) : Z := (doe - doe / 1460 + doe / 36524 - doe / 146096) / 365.

Lemma yoe_of_mono a b : 0 <= a <= b -> b <= 146096 -> yoe_of a <= yoe_of b.
Proof.
  intros. unfold yoe_of. apply Z.div_le_mono; [lia|].
  assert (b / 1460 - a / 1460 <= b - a) by dlia.
  assert (a / 36524 <= b / 36524) by (apply Z.div_le_mono; lia).
  destruct (decide (a = b)) as [->|]; [lia|].
  rewrite (Z.div_small a 146096) by lia.
  destruct (decide (b = 146096)) as [->|]; [|rewrite (Z.div_small b 146096) by lia; lia].
  assert (a / 36524 <= 3) by dlia.
  change (146096 / 36524) with 4 in *. change (146096 / 146096) with 1. lia.
Qed.

Definition check_year (y : Z) : bool :=
  (yoe_of (days_through y) =? y) && (yoe_of (days_through (y + 1) - 1) =? y)
  && (days_through (y + 1) =? days_through y + 365 + Z.b2z (leap (y + 1))).

Lemma years_checked y : 0 <= y < 400 -> check_year y = true.
Proof.
  intros H.
  assert (forallb (fun n => check_year (Z.of_nat n)) (seq 0 400) = true) as Hc
    by (vm_compute; reflexivity).
  rewrite forallb_forall in Hc. rewrite <- (Z2Nat.id y) by lia. apply Hc, in_seq. lia.
Qed.

Lemma yoe_of_spec doe :
  0 <= doe < 146097 ->
  0 <= yoe_of doe < 400 /\ days_through (yoe_of doe) <= doe < days_through (yoe_of doe + 1).
Proof.
  intros H.
  assert (0 <= yoe_of doe) by (change 0 with (yoe_of 0) at 1; apply yoe_of_mono; lia).
  assert (yoe_of doe <= 399)
    by (change 399 with (yoe_of 146096); apply yoe_of_mono; lia).
  assert (0 <= days_through (yoe_of doe)) by (unfold days_through; dlia).
  assert (days_through (yoe_of doe + 1) <= 146097).
  { assert (yoe_of doe + 1 <= 400) by lia. unfold days_through. dlia. }
  split; [lia|]. split.
  - destruct (decide (doe < days_through (yoe_of doe))); [exfalso|lia].
    destruct (decide (yoe_of doe = 0)) as [E|]; [rewrite E in *; change (days_through 0) with 0 in *; lia|].
    pose proof (years_checked (yoe_of doe - 1) ltac:(lia)) as Hc. unfold check_year in Hc.
    rewrite !andb_true_iff, !Z.eqb_eq in Hc. destruct Hc as [[_ Hc] _].
    replace (yoe_of doe - 1 + 1) with (yoe_of doe) in Hc by lia.
    assert (days_through (yoe_of doe) <= 146097) by (unfold days_through; dlia).
    pose proof (yoe_of_mono doe (days_through (yoe_of doe) - 1) ltac:(lia) ltac:(lia)). lia.
  - destruct (decide (days_through (yoe_of doe + 1) <= doe)); [exfalso|lia].
    destruct (decide (yoe_of doe = 399)) as [E|].
    { rewrite E in *. change (days_through (399 + 1)) with 146097 in *. lia. }
    pose proof (years_checked (yoe_of doe + 1) ltac:(lia)) as Hc. unfold check_year in Hc.
    rewrite !andb_true_iff, !Z.eqb_eq in Hc. destruct Hc as [[Hc _] _].
    assert (0 <= days_through (yoe_of doe + 1)) by (unfold days_through; dlia).
    pose proof (yoe_of_mono (days_through (yoe_of doe + 1)) doe ltac:(lia) ltac:(lia)). lia.
Qed.

(** Month and day from the day of a year that starts on March 1; [l0] and [l1]
    are the leap flags of the year itself and of the next one. *)
Definition month_day (doy : Z) : Z * Z :=
  let mp := (5 * doy + 2) / 153 in
  (mp + (if mp <? 10 then 3 else -9), doy - (153 * mp + 2) / 5 + 1).
Definition check_doy (l0 l1 : bool) (doy : Z) : bool :=
  let '(m, d) := month_day doy in
  let l := if m <=? 2 then l1 else l0 in
  (1 <=? m) && (m <=? 12) && (1 <=? d) && (d <=? days_in_month l m)
  && (days_before_month l m + (d - 1)
      =? (if m <=? 2 then doy - 306 else 59 + Z.b2z l0 + doy)).

Lemma doys_checked l0 l1 doy : 0 <= doy < 365 + Z.b2z l1 -> check_doy l0 l1 doy = true.
Proof.
  intros H.
  assert (forall l0 l1, forallb (fun n => check_doy l0 l1 (Z.of_nat n))
            (seq 0 (Z.to_nat (365 + Z.b2z l1))) = true) as Hc
    by (intros [] []; vm_compute; reflexivity).
  specialize (Hc l0 l1). rewrite forallb_forall in Hc.
  rewrite <- (Z2Nat.id doy) by lia. apply Hc, in_seq. lia.
Qed.

Lemma leap_era y e : leap (y + e * 400) = leap y.
Proof.
  unfold leap.
  replace (y + e * 400) with (y + (e * 100) * 4) at 1 by lia. rewrite Z.mod_add by lia.
  replace (y + e * 400) with (y + (e * 4) * 100) at 1 by lia. rewrite Z.mod_add by lia.
  by rewrite Z.mod_add by lia.
Qed.

Lemma days_through_era y e : days_through (y + e * 400) = days_through y + e * 146097.
Proof.
  unfold days_through.
  replace (y + e * 400) with (y + (e * 100) * 4) at 2 by lia. rewrite Z.div_add by lia.
  replace (y + e * 400) with (y + (e * 4) * 100) at 2 by lia. rewrite Z.div_add by lia.
  rewrite Z.div_add by lia. lia.
Qed.

(** The same computation, by its named parts. *)
Lemma civil_from_days_parts days :
  -719468 <= days ->
  let era := (days + 719468) / 146097 in
  let doe := (days + 719468) mod 146097 in
  let doy := doe - days_through (yoe_of doe) in
  civil_from_days days =
  (yoe_of doe + era * 400 + (if fst (month_day doy) <=? 2 then 1 else 0),
   fst (month_day doy), snd (month_day doy)).
Proof.
  intros H era doe doy. unfold civil_from_days, month_day.
  replace (0 <=? days + 719468) with true by lia.
  rewrite (Z.quot_div_nonneg (days + 719468)) by lia. fold era.
  replace (days + 719468 - era * 146097) with doe
    by (unfold doe, era; rewrite Z.mod_eq by lia; lia).
  assert (doe - (365 * yoe_of doe + yoe_of doe / 4 - yoe_of doe / 100) = doy) as Hd.
  { unfold doy, days_through. pose proof (Z.mod_pos_bound (days + 719468) 146097 ltac:(lia)).
    destruct (yoe_of_spec doe ltac:(done)) as [Hy _]. rewrite (Z.div_small _ 400) by done. lia. }
  fold (yoe_of doe). cbv zeta. rewrite Hd. done.
Qed.

Lemma civil_from_days_valid days :
  -719468 <= days ->
  valid_date (civil_from_days days) = true /\ days_from_civil (civil_from_days days) = days.
Proof.
  intros H. rewrite civil_from_days_parts by done. cbv zeta.
  set (era := (days + 719468) / 146097). set (doe := (days + 719468) mod 146097).
  assert (days + 719468 = era * 146097 + doe) as Hdays
    by (unfold era, doe; rewrite Z.mod_eq by lia; lia).
  assert (0 <= doe < 146097) as Hdoe by (apply Z.mod_pos_bound; lia).
  destruct (yoe_of_spec doe Hdoe) as [Hy Hb]. set (yoe := yoe_of doe) in *.
  set (doy := doe - days_through yoe).
  pose proof (years_checked yoe Hy) as Hc. unfold check_year in Hc.
  rewrite !andb_true_iff, !Z.eqb_eq in Hc. destruct Hc as [_ Hlen].
  assert (days_through yoe = days_through (yoe - 1) + 365 + Z.b2z (leap yoe)) as Hlen0.
  { destruct (decide (yoe = 0)) as [->|]; [reflexivity|].
    pose proof (years_checked (yoe - 1) ltac:(lia)) as Hc. unfold check_year in Hc.
    rewrite !andb_true_iff, !Z.eqb_eq in Hc. destruct Hc as [_ Hc].
    by replace (yoe - 1 + 1) with yoe in Hc by lia. }
  pose proof (doys_checked (leap yoe) (leap (yoe + 1)) doy ltac:(unfold doy; lia)) as Hmd.
  unfold check_doy in Hmd. destruct (month_day doy) as [m d]. cbn [fst snd].
  unfold valid_date, days_from_civil. destruct (m <=? 2).
  - replace (yoe + era * 400 + 1) with (yoe + 1 + era * 400) by lia.
    replace (yoe + 1 + era * 400 - 1) with (yoe + era * 400) by lia.
    rewrite leap_era, days_through_era. apply andb_true_iff in Hmd as [Hv Hmd%Z.eqb_eq].
    split; [exact Hv|]. unfold doy in Hmd. lia.
  - rewrite Z.add_0_r, leap_era.
    replace (yoe + era * 400 - 1) with (yoe - 1 + era * 400) by lia.
    rewrite days_through_era. apply andb_true_iff in Hmd as [Hv Hmd%Z.eqb_eq].
    split; [exact Hv|]. unfold doy in Hmd. lia.
Qed.
