(* ===== verification/Session.v ===== *)
(** * Session state and configuration ([engine.rs], data of [context.rs])

    The records are the structs of the source, field for field, except that
    a handle is reduced to what the code observes of it: the database pool
    ([repository]) to its presence, and the shared acknowledgement cell
    ([checkpoint_ack]) to its presence, the cell itself living in the world
    because engine and checkpoint callback hold the same [Arc].

    Rust methods on [&mut Session] are computations of the monad [M W]: they
    thread the session and the world [W], and may stop with an error that
    keeps every change made so far, as [?] does. *)
From S2P Require Import Prelude Text Json Timestamp.
Local Open Scope string_scope.
Local Open Scope Z_scope.

(** ** Messages and transcript *)
Record Message := {
  message_id : option string;
  sequence : option Z;
  created_at : option string;
  role : string;
  content : option string;
  name : option string;
  tool_call_id : option string;
  tool_calls : option value
}.
#[export] Instance eta_Message : Eta Message := fun m =>
  {| message_id := message_id m; sequence := sequence m; created_at := created_at m;
     role := role m; content := content m; name := name m;
     tool_call_id := tool_call_id m; tool_calls := tool_calls m |}.

Record TranscriptEntry := {
  te_sequence : Z;
  te_message_id : string;
  te_kind : string;
  te_payload : value;
  te_run_id : option string;
  te_decision_step : Z;
  te_created_at : string
}.
#[export] Instance eta_TranscriptEntry : Eta TranscriptEntry := fun e =>
  {| te_sequence := te_sequence e; te_message_id := te_message_id e; te_kind := te_kind e;
     te_payload := te_payload e; te_run_id := te_run_id e;
     te_decision_step := te_decision_step e; te_created_at := te_created_at e |}.

Record Transition := { from_phase : string; to_phase : string; reason : string }.

Record Workflow := {
  active_phase : option string;
  completed_phases : list string;
  observed_evidence : list string;
  transitions : list Transition
}.
#[export] Instance eta_Workflow : Eta Workflow := fun w =>
  {| active_phase := active_phase w; completed_phases := completed_phases w;
     observed_evidence := observed_evidence w; transitions := transitions w |}.

Record RequestBudget := {
  estimated_input_tokens : Z;
  budget_reserved_output_tokens : Z;
  budget_safety_margin_tokens : Z;
  budget_context_window_tokens : Z;
  fits : bool;
  estimator : string
}.

Record Ledger := {
  ledger_goal : string;
  model_claims : list string;
  dead_ends : list string;
  hypothesis : string;
  source_sha256 : string;
  verification : string
}.

(** [diagnostics::Record] *)
Record DiagnosticRecord := { family : string; ordinal : Z; diag_payload : value }.

Record CheckpointAck := {
  ack_needs_reload : bool;
  ack_revision : Z;
  ack_next_sequence : Z;
  ack_memory : list Message;
  ack_summaries : gset string
}.

(** ** The session *)
Record Session := {
  repository : bool;
  checkpoint_ack : bool;
  committed_summaries : gset string;
  command : option value;
  run_command_id : option string;
  attempts_pending : list value;
  needs_reload : bool;
  last_archive_id : option string;
  retention_pending : option value;
  id : string;
  goal : string;
  revision : Z;
  pending_commit_id : option string;
  pending_commit_fingerprint : option string;
  execution_owner : option string;
  execution_fence : option Z;
  next_transcript_sequence : Z;
  history_complete : bool;
  pending_transcript : list TranscriptEntry;
  config_ref : option string;
  config_sha256 : option string;
  resolved_config_sha256 : option string;
  memory : list Message;
  compacted_context : option string;
  active_ledger_id : option string;
  compaction_events : list string;
  compaction_attempts : list value;
  compaction_decisions : list value;
  diagnostic_counts : gmap string Z;
  diagnostics_complete : bool;
  diagnostic_history_complete : bool;
  diagnostic_rejections : Z;
  compaction_savings_total : Z;
  compaction_savings_known : bool;
  diagnostics_pending : list DiagnosticRecord;
  compaction_provenance : list value;
  compaction_ledger : option Ledger;
  last_compaction_step : Z;
  last_compaction_estimated_tokens : option Z;
  last_compaction_attempt_step : option Z;
  last_compaction_attempt_sha256 : option string;
  request_budget : option RequestBudget;
  workflow : option Workflow;
  step_count : Z;
  run_count : Z;
  run_id : option string;
  run_started_at : option string;
  run_ended_at : option string;
  run_termination_reason : option string;
  status : string;
  run_status : string;
  final_answer : option string;
  last_error : option value;
  consecutive_invalid_responses : Z;
  model_request_diagnostics : list value;
  executions : list value;
  pending_execution_outbox : list value;
  completion_artifacts : value;
  no_progress_steps : Z;
  progress_fingerprint : option string;
  progress_seen_outputs : list string;
  pending_tool_calls : list value;
  pending_tool_phase : option string
}.
#[export] Instance eta_Session : Eta Session := fun s =>
  {| repository := repository s; checkpoint_ack := checkpoint_ack s;
     committed_summaries := committed_summaries s; command := command s;
     run_command_id := run_command_id s; attempts_pending := attempts_pending s;
     needs_reload := needs_reload s; last_archive_id := last_archive_id s;
     retention_pending := retention_pending s; id := id s; goal := goal s;
     revision := revision s; pending_commit_id := pending_commit_id s;
     pending_commit_fingerprint := pending_commit_fingerprint s;
     execution_owner := execution_owner s; execution_fence := execution_fence s;
     next_transcript_sequence := next_transcript_sequence s;
     history_complete := history_complete s; pending_transcript := pending_transcript s;
     config_ref := config_ref s; config_sha256 := config_sha256 s;
     resolved_config_sha256 := resolved_config_sha256 s; memory := memory s;
     compacted_context := compacted_context s; active_ledger_id := active_ledger_id s;
     compaction_events := compaction_events s; compaction_attempts := compaction_attempts s;
     compaction_decisions := compaction_decisions s;
     diagnostic_counts := diagnostic_counts s;
     diagnostics_complete := diagnostics_complete s;
     diagnostic_history_complete := diagnostic_history_complete s;
     diagnostic_rejections := diagnostic_rejections s;
     compaction_savings_total := compaction_savings_total s;
     compaction_savings_known := compaction_savings_known s;
     diagnostics_pending := diagnostics_pending s;
     compaction_provenance := compaction_provenance s;
     compaction_ledger := compaction_ledger s;
     last_compaction_step := last_compaction_step s;
     last_compaction_estimated_tokens := last_compaction_estimated_tokens s;
     last_compaction_attempt_step := last_compaction_attempt_step s;
     last_compaction_attempt_sha256 := last_compaction_attempt_sha256 s;
     request_budget := request_budget s; workflow := workflow s; step_count := step_count s;
     run_count := run_count s; run_id := run_id s; run_started_at := run_started_at s;
     run_ended_at := run_ended_at s; run_termination_reason := run_termination_reason s;
     status := status s; run_status := run_status s; final_answer := final_answer s;
     last_error := last_error s;
     consecutive_invalid_responses := consecutive_invalid_responses s;
     model_request_diagnostics := model_request_diagnostics s; executions := executions s;
     pending_execution_outbox := pending_execution_outbox s;
     completion_artifacts := completion_artifacts s;
     no_progress_steps := no_progress_steps s;
     progress_fingerprint := progress_fingerprint s;
     progress_seen_outputs := progress_seen_outputs s;
     pending_tool_calls := pending_tool_calls s; pending_tool_phase := pending_tool_phase s |}.

(** ** Configuration *)
Record Memory := {
  max_tokens : Z;
  max_steps : Z;
  raw_turns_to_keep : Z;
  hybrid_reflection : bool;
  run_max_steps : option Z;
  compaction_interval_steps : option Z;
  context_window_tokens : Z;
  reserved_output_tokens : Z;
  safety_margin_tokens : Z;
  max_summary_tokens : Z;
  summary_output_tokens : Z;
  compaction_max_attempts : Z;
  compaction_max_passes : Z;
  compaction_min_growth_tokens : Z;
  compaction_min_interval_steps : Z;
  optional_compaction_min_pressure_ratio : spec_float;
  optional_compaction_min_reclaimable_tokens : Z;
  optional_compaction_min_reduction_tokens : Z;
  optional_compaction_min_reduction_ratio : spec_float
}.

Record Output := { verbose_setup : bool }.

Record Llm := {
  base_url : string;
  api_key_env : string;
  temperature : spec_float;
  timeout_seconds : spec_float;
  tool_call_mode : string;
  max_output_tokens : option Z
}.

Record Evidence := {
  ev_description : string;
  ev_tool : string;
  required : bool;
  ev_arguments : value;
  ev_result : value;
  content_contains : list string
}.

Record Edge := { to : string; when : string; edge_evidence : list Evidence }.

Record Phase := {
  phase_id : string;
  phase_name : string;
  phase_instruction : string;
  allowed_tools : option (list string);
  completion : list Evidence;
  phase_transitions : list Edge
}.

Record WorkflowConfig := { entry_phase : string; phases : list Phase }.

Record Tool := {
  tool_name : string;
  tool_description : string;
  parameters : value;
  recovery : option value
}.

Record Config := {
  config_name : string;
  system_prompt : string;
  model : string;
  llm : Llm;
  config_memory : Memory;
  output : Output;
  tools : list Tool;
  config_workflow : option WorkflowConfig;
  execution : value;
  config_completion : value
}.

(** ** Computations on a session *)
Definition M (W A : Type) : Type := Session * W -> result string A * (Session * W).

#[export] Instance M_ret W : MRet (M W) := fun A a sw => (Ok a, sw).
#[export] Instance M_bind W : MBind (M W) := fun A B f m sw =>
  match m sw with
  | (Ok a, sw') => f a sw'
  | (Err e, sw') => (Err e, sw')
  end.
#[export] Typeclasses Opaque M.
Definition throw {W A} (e : string) : M W A := fun sw => (Err e, sw).
Definition get_session {W} : M W Session := fun sw => (Ok (fst sw), sw).
Definition gets {W A} (f : Session -> A) : M W A := fun sw => (Ok (f (fst sw)), sw).
Definition modify {W} (f : Session -> Session) : M W unit := fun sw => (Ok tt, (f (fst sw), snd sw)).
Definition lift {W A} (r : result string A) : M W A := fun sw => (r, sw).
(** A primitive of the world. *)
Definition world {W A} (f : W -> A * W) : M W A := fun sw =>
  let '(a, w) := f (snd sw) in (Ok a, (fst sw, w)).
Definition when_ {W} (b : bool) (m : M W unit) : M W unit := if b then m else mret tt.
(** Runs [m] and returns its outcome as a value. *)
Definition try_ {W A} (m : M W A) : M W (result string A) := fun sw =>
  let '(r, sw') := m sw in (Ok r, sw').
Fixpoint mfor {W A} (f : A -> M W unit) (l : list A) : M W unit :=
  match l with [] => mret tt | x :: l' => mbind (fun _ => mfor f l') (f x) end.

(** ** The runtime: identities and clock *)
Class Runtime (W : Type) := {
  (** [Uuid::new_v4().to_string()] *)
  new_uuid : W -> string * W;
  (** [SystemTime::now()] in seconds since the epoch *)
  now_seconds : W -> Z * W
}.

Section runtime.
Context {W : Type} `{R : Runtime W}.

Definition uuid : M W string := world new_uuid.
Definition transcript_timestamp : M W string :=
  s ← world now_seconds; mret (format_timestamp s).

(** [context::wire_message]: the projection sent to the model and archived. *)
Definition wire_message (message : Message) : value :=
  let map0 := [("role", Str (role message))] in
  let put (k : string) (o : option value) (m : list (string * value)) :=
    match o with Some v => obj_insert k v m | None => m end in
  let map1 := put "content" (Str <$> content message) map0 in
  let map2 := put "name" (Str <$> name message) map1 in
  let map3 := put "tool_call_id" (Str <$> tool_call_id message) map2 in
  let calls := opt_filter (fun v => negb (is_null v)
                 && negb (match as_array v with Some [] => true | _ => false end))
                 (tool_calls message) in
  Object (put "tool_calls" calls map3).

(** [Session::archive_record] *)
Definition archive_record (kind : string) (payload : value) : M W unit :=
  message_id ← uuid;
  created_at ← transcript_timestamp;
  modify (fun s =>
    s <| pending_transcript := (pending_transcript s ++
           [{| te_sequence := next_transcript_sequence s; te_message_id := message_id;
               te_kind := kind; te_payload := payload; te_run_id := run_id s;
               te_decision_step := step_count s; te_created_at := created_at |}])%list |>
      <| next_transcript_sequence := add64 (next_transcript_sequence s) 1 |>).

(** [Session::append_message] *)
Definition append_message (message : Message) : M W unit :=
  message_id_ ← uuid;
  created_at_ ← transcript_timestamp;
  modify (fun s =>
    let sequence_ := Z.max (next_transcript_sequence s) 1 in
    let message := message <| message_id := Some message_id_ |>
                           <| sequence := Some sequence_ |>
                           <| created_at := Some created_at_ |> in
    s <| next_transcript_sequence := add64 sequence_ 1 |>
      <| pending_transcript := (pending_transcript s ++
           [{| te_sequence := sequence_; te_message_id := message_id_; te_kind := "message";
               te_payload := wire_message message;
               te_run_id := if String.eqb (run_status s) "running" then run_id s else None;
               te_decision_step := step_count s; te_created_at := created_at_ |}])%list |>
      <| memory := (memory s ++ [message])%list |>).

(** [msg] of [engine.rs] *)
Definition msg (role_ : string) (content_ : option string) : Message :=
  {| message_id := None; sequence := None; created_at := None; role := role_;
     content := content_; name := None; tool_call_id := None; tool_calls := None |}.

(** [Session::acknowledge_checkpoint]: the cell shared with the callback,
    present when a command is attached, carries the committed identities. *)
Definition acknowledge_checkpoint (receipt : option CheckpointAck) (s : Session) : Session :=
  match (if checkpoint_ack s then receipt else None) with
  | None => s
  | Some receipt =>
      s <| needs_reload := ack_needs_reload receipt |>
        <| revision := ack_revision receipt |>
        <| next_transcript_sequence := ack_next_sequence receipt |>
        <| memory := map (fun message =>
             match find_first (fun saved =>
                     bool_decide (message_id saved = message_id message)) (ack_memory receipt) with
             | Some saved => message <| sequence := sequence saved |>
                                     <| created_at := created_at saved |>
             | None => message
             end) (memory s) |>
        <| committed_summaries := ack_summaries receipt |>
  end.
Definition clear_outboxes (s : Session) : Session :=
  s <| pending_transcript := [] |> <| pending_execution_outbox := [] |>
    <| attempts_pending := [] |> <| diagnostics_pending := [] |>.
Definition acknowledge_committed_outboxes (receipt : option CheckpointAck) (s : Session) : Session :=
  clear_outboxes (acknowledge_checkpoint receipt s).
(** [Session::reset_resume_counters] *)
Definition reset_resume_counters (s : Session) : Session :=
  s <| consecutive_invalid_responses := 0 |> <| no_progress_steps := 0 |>
    <| progress_fingerprint := None |> <| last_error := None |>.
End runtime.

(** A session with the deserializer's defaults ([#[serde(default)]]). *)
Definition default_session (id_ goal_ status_ : string) : Session :=
  {| repository := false; checkpoint_ack := false; committed_summaries := ∅; command := None;
     run_command_id := None; attempts_pending := []; needs_reload := false;
     last_archive_id := None; retention_pending := None; id := id_; goal := goal_; revision := 0;
     pending_commit_id := None; pending_commit_fingerprint := None; execution_owner := None;
     execution_fence := None; next_transcript_sequence := 1; history_complete := true;
     pending_transcript := []; config_ref := None; config_sha256 := None;
     resolved_config_sha256 := None; memory := []; compacted_context := None;
     active_ledger_id := None; compaction_events := []; compaction_attempts := [];
     compaction_decisions := []; diagnostic_counts := ∅; diagnostics_complete := true;
     diagnostic_history_complete := true; diagnostic_rejections := 0;
     compaction_savings_total := 0; compaction_savings_known := true; diagnostics_pending := [];
     compaction_provenance := []; compaction_ledger := None; last_compaction_step := 0;
     last_compaction_estimated_tokens := None; last_compaction_attempt_step := None;
     last_compaction_attempt_sha256 := None; request_budget := None; workflow := None;
     step_count := 0; run_count := 0; run_id := None; run_started_at := None;
     run_ended_at := None; run_termination_reason := None; status := status_; run_status := "";
     final_answer := None; last_error := None; consecutive_invalid_responses := 0;
     model_request_diagnostics := []; executions := []; pending_execution_outbox := [];
     completion_artifacts := Object []; no_progress_steps := 0; progress_fingerprint := None;
     progress_seen_outputs := []; pending_tool_calls := []; pending_tool_phase := None |}.
