(* ===== verification/Logic.v ===== *)
(** * Reasoning about computations on a session

    [wp m Q E] is the weakest precondition of a computation of the monad [M]:
    a normal return establishes [Q] and an error return establishes [E], on
    the session and world it leaves.  [keeps R] says that a computation relates
    the session before and after by the preorder [R] however it ends; it is
    closed under the combinators of the monad, so frame properties of the
    engine are proved by [frame]. *)
From S2P Require Import Prelude Text Json Session.

(** ** Evaluation *)
Section run.
Context {W : Type}.
Implicit Types (s : Session) (w : W).

Lemma bind_run {A B} (m : M W A) (f : A -> M W B) sw :
  (m ≫= f) sw = match m sw with (Ok a, sw') => f a sw' | (Err e, sw') => (Err e, sw') end.
Proof. done. Qed.

Lemma ret_run {A} (a : A) (sw : Session * W) : (mret a : M W A) sw = (Ok a, sw).
Proof. done. Qed.

Lemma get_session_run s w : get_session (s, w) = (Ok s, (s, w)).
Proof. done. Qed.

Lemma gets_run {A} (f : Session -> A) s w : gets f (s, w) = (Ok (f s), (s, w)).
Proof. done. Qed.

Lemma modify_run f s w : modify f (s, w) = (Ok tt, (f s, w)).
Proof. done. Qed.

Lemma lift_run {A} (r : result string A) (sw : Session * W) : (lift r : M W A) sw = (r, sw).
Proof. done. Qed.

Lemma throw_run {A} e (sw : Session * W) : (throw e : M W A) sw = (Err e, sw).
Proof. done. Qed.

Lemma mfor_nil {A} (f : A -> M W unit) sw : mfor f [] sw = (Ok tt, sw).
Proof. done. Qed.

Lemma mfor_cons {A} (f : A -> M W unit) x l sw :
  mfor f (x :: l) sw =
  match f x sw with (Ok _, sw') => mfor f l sw' | (Err e, sw') => (Err e, sw') end.
Proof. done. Qed.
End run.

Lemma ended_ok {W A} (r : result string A * (Session * W)) a :
  fst r = Ok a -> r = (Ok a, (fst (snd r), snd (snd r))).
Proof. destruct r as [? [? ?]]. cbn. by intros ->. Qed.

Create Rewrite HintDb mrun.
#[export] Hint Rewrite @bind_run @ret_run @get_session_run @gets_run @modify_run @lift_run
  @throw_run @mfor_nil : mrun.
(** Evaluates the leading primitives of a computation. *)
Ltac mrun := repeat (progress (autorewrite with mrun; cbn beta iota)).
Ltac mrun_in H := repeat (progress (autorewrite with mrun in H; cbn beta iota in H)).

(** ** Weakest preconditions *)
Definition wp {W A} (m : M W A) (Q : A -> Session -> W -> Prop)
    (E : string -> Session -> W -> Prop) (s : Session) (w : W) : Prop :=
  match m (s, w) with
  | (Ok a, (s', w')) => Q a s' w'
  | (Err e, (s', w')) => E e s' w'
  end.

Section wp.
Context {W : Type}.
Implicit Types (s : Session) (w : W).

Lemma wp_mono {A} (m : M W A) (Q Q' : A -> Session -> W -> Prop) (E E' : string -> Session -> W -> Prop) s w :
  wp m Q E s w -> (forall a s' w', Q a s' w' -> Q' a s' w') ->
  (forall e s' w', E e s' w' -> E' e s' w') -> wp m Q' E' s w.
Proof. unfold wp. destruct (m (s, w)) as [[a|e] [s' w']]; auto. Qed.

Lemma wp_bind {A B} (m : M W A) (f : A -> M W B) Q E s w :
  wp m (fun a s' w' => wp (f a) Q E s' w') E s w -> wp (m ≫= f) Q E s w.
Proof. unfold wp. rewrite bind_run. by destruct (m (s, w)) as [[a|e] [s' w']]. Qed.

Lemma wp_ret {A} (a : A) (Q : A -> Session -> W -> Prop) E s w : Q a s w -> wp (mret a : M W A) Q E s w.
Proof. done. Qed.

Lemma wp_throw {A} e (Q : A -> Session -> W -> Prop) (E : string -> Session -> W -> Prop) s w :
  E e s w -> wp (throw e) Q E s w.
Proof. done. Qed.

Lemma wp_get (Q : Session -> Session -> W -> Prop) E s w : Q s s w -> wp get_session Q E s w.
Proof. done. Qed.

Lemma wp_gets {A} (f : Session -> A) (Q : A -> Session -> W -> Prop) E s w :
  Q (f s) s w -> wp (gets f) Q E s w.
Proof. done. Qed.

Lemma wp_modify f (Q : unit -> Session -> W -> Prop) E s w : Q tt (f s) w -> wp (modify f) Q E s w.
Proof. done. Qed.

Lemma wp_lift {A} (r : result string A) (Q : A -> Session -> W -> Prop) (E : string -> Session -> W -> Prop) s w :
  match r with Ok a => Q a s w | Err e => E e s w end -> wp (lift r) Q E s w.
Proof. unfold wp, lift. by destruct r. Qed.

Lemma wp_world {A} (f : W -> A * W) (Q : A -> Session -> W -> Prop) E s w :
  (forall a w', f w = (a, w') -> Q a s w') -> wp (world f) Q E s w.
Proof. unfold wp, world. cbn. destruct (f w) as [a w']. auto. Qed.

Lemma wp_try {A} (m : M W A) Q E s w :
  wp m (fun a s' w' => Q (Ok a) s' w') (fun e s' w' => Q (Err e) s' w') s w -> wp (try_ m) Q E s w.
Proof. unfold wp, try_. by destruct (m (s, w)) as [[a|e] [s' w']]. Qed.

(** A loop with an invariant on the session. *)
Lemma wp_mfor {A} (I : Session -> W -> Prop) (f : A -> M W unit) l Q E s w :
  I s w ->
  (forall x s w, x ∈ l -> I s w -> wp (f x) (fun _ => I) E s w) ->
  (forall s w, I s w -> Q tt s w) ->
  wp (mfor f l) Q E s w.
Proof.
  intros HI Hf HQ. revert s w HI. induction l as [|x l IH]; intros s w HI; [by apply HQ|].
  apply (wp_bind (f x) (fun _ => mfor f l)). eapply wp_mono; [apply Hf; [left|done]| |done].
  intros [] s' w' HI'. apply IH; [|done]. intros. apply Hf; [by right|done].
Qed.
End wp.

(** One step of the weakest precondition calculus. *)
Ltac wp_step :=
  lazymatch goal with
  | |- wp (mbind _ _) _ _ _ _ => apply wp_bind
  | |- wp (mret _) _ _ _ _ => apply wp_ret
  | |- wp (throw _) _ _ _ _ => apply wp_throw
  | |- wp get_session _ _ _ _ => apply wp_get
  | |- wp (gets _) _ _ _ _ => apply wp_gets
  | |- wp (modify _) _ _ _ _ => apply wp_modify
  | |- wp (lift _) _ _ _ _ => apply wp_lift
  | |- wp (try_ _) _ _ _ _ => apply wp_try
  | |- wp (when_ ?b _) _ _ _ _ => unfold when_
  | |- wp (let '(_, _) := ?p in _) _ _ _ _ => destruct p
  | |- wp (if ?b then _ else _) _ _ _ _ => let E := fresh "E" in destruct b eqn:E
  | |- wp (match ?x with _ => _ end) _ _ _ _ => let E := fresh "E" in destruct x eqn:E
  end.

(** ** Frame properties *)
Definition keeps {W A} (R : Session -> Session -> Prop) (m : M W A) : Prop :=
  forall s w r s' w', m (s, w) = (r, (s', w')) -> R s s'.

Section keeps.
Context {W : Type} (R : Session -> Session -> Prop) `{!PreOrder R}.

Lemma keeps_bind {A B} (m : M W A) (f : A -> M W B) :
  keeps R m -> (forall a, keeps R (f a)) -> keeps R (m ≫= f).
Proof using All.
  intros Hm Hf s w r s' w'. rewrite bind_run. destruct (m (s, w)) as [[a|e] [s1 w1]] eqn:E.
  - intros H. transitivity s1; [by eapply Hm|by eapply Hf].
  - intros [= <- <- <-]. by eapply Hm.
Qed.

Lemma keeps_ret {A} (a : A) : keeps (W := W) R (mret a).
Proof using All. by intros s w r s' w' [= _ <- _]. Qed.

Lemma keeps_throw {A} e : keeps (W := W) (A := A) R (throw e).
Proof using All. by intros s w r s' w' [= _ <- _]. Qed.

Lemma keeps_get : keeps (W := W) R get_session.
Proof using All. by intros s w r s' w' [= _ <- _]. Qed.

Lemma keeps_gets {A} (f : Session -> A) : keeps (W := W) R (gets f).
Proof using All. by intros s w r s' w' [= _ <- _]. Qed.

Lemma keeps_lift {A} (x : result string A) : keeps (W := W) R (lift x).
Proof using All. by intros s w r s' w' [= _ <- _]. Qed.

Lemma keeps_world {A} (f : W -> A * W) : keeps R (world f).
Proof using All. intros s w r s' w'. unfold world. cbn. by destruct (f w); intros [= _ <- _]. Qed.

Lemma keeps_modify (f : Session -> Session) : (forall s, R s (f s)) -> keeps (W := W) R (modify f).
Proof using All. by intros H s w r s' w' [= _ <- _]. Qed.

Lemma keeps_try {A} (m : M W A) : keeps R m -> keeps R (try_ m).
Proof using All.
  intros H s w r s' w'. unfold try_. destruct (m (s, w)) as [x [s1 w1]] eqn:E.
  intros [= _ <- <-]. by eapply H.
Qed.

Lemma keeps_mfor {A} (f : A -> M W unit) l : (forall x, keeps R (f x)) -> keeps R (mfor f l).
Proof using All.
  intros H. induction l; [apply keeps_ret|]. apply (keeps_bind (f a) (fun _ => mfor f l)); auto.
Qed.

Lemma keeps_when b (m : M W unit) : keeps R m -> keeps R (when_ b m).
Proof using All. destruct b; [done|]. intros _. apply keeps_ret. Qed.
End keeps.

(** A frame as a precondition. *)
Lemma wp_keeps {W A} (R : Session -> Session -> Prop) (m : M W A) (Q : A -> Session -> W -> Prop)
    (E : string -> Session -> W -> Prop) s w :
  keeps R m -> (forall a s' w', R s s' -> Q a s' w') -> (forall e s' w', R s s' -> E e s' w') ->
  wp m Q E s w.
Proof.
  intros Hk HQ HE. unfold wp. destruct (m (s, w)) as [[a|e] [s' w']] eqn:Em; eauto.
Qed.

Lemma wp_ok {W A} (m : M W A) Q E s w a s' w' :
  wp m Q E s w -> m (s, w) = (Ok a, (s', w')) -> Q a s' w'.
Proof. unfold wp. intros H Em. by rewrite Em in H. Qed.

(** Closes a frame goal; the caller's hints give the frames of the calls. *)
Create HintDb frame.
(** Updates of fields outside the relation. *)
Ltac same_fields := intros; repeat (split; cbn); done.
Ltac frame_step :=
  lazymatch goal with
  | |- forall _, keeps _ _ => intro
  | |- keeps _ (mbind _ _) => apply keeps_bind; [try typeclasses eauto| |]
  | |- keeps _ (mret _) => apply keeps_ret; try typeclasses eauto
  | |- keeps _ (throw _) => apply keeps_throw; try typeclasses eauto
  | |- keeps _ get_session => apply keeps_get; try typeclasses eauto
  | |- keeps _ (gets _) => apply keeps_gets; try typeclasses eauto
  | |- keeps _ (lift _) => apply keeps_lift; try typeclasses eauto
  | |- keeps _ (world _) => apply keeps_world; try typeclasses eauto
  | |- keeps _ (modify _) =>
      first [solve [eauto 3 with frame nocore]
            | apply keeps_modify; [try typeclasses eauto|]; solve [same_fields]]
  | |- keeps _ (try_ _) => apply keeps_try; [try typeclasses eauto|]
  | |- keeps _ (mfor _ _) => apply keeps_mfor; [try typeclasses eauto|]
  | |- keeps _ (when_ _ _) => apply keeps_when; [try typeclasses eauto|]
  | |- keeps _ (let '(_, _) := ?p in _) => destruct p
  | |- keeps _ (if ?b then _ else _) => destruct b
  | |- keeps _ (match ?x with _ => _ end) => destruct x
  | |- keeps _ (let x := _ in _) => cbv zeta
  | |- keeps _ _ => solve [eauto 3 with frame nocore]
  end.
Ltac frame := repeat frame_step.

(** ** Relations on session and world *)
(** [moves R m]: session and world before and after are related by [R]. *)
Definition moves {W A} (R : Session * W -> Session * W -> Prop) (m : M W A) : Prop :=
  forall sw r sw', m sw = (r, sw') -> R sw sw'.

Section moves.
Context {W : Type} (R : Session * W -> Session * W -> Prop) `{!PreOrder R}.

Lemma moves_bind {A B} (m : M W A) (f : A -> M W B) :
  moves R m -> (forall a, moves R (f a)) -> moves R (m ≫= f).
Proof using All.
  intros Hm Hf sw r sw'. rewrite bind_run. destruct (m sw) as [[a|e] sw1] eqn:E.
  - intros H. transitivity sw1; [by eapply Hm|by eapply Hf].
  - intros [= <- <-]. by eapply Hm.
Qed.
Lemma moves_here {A} (f : Session * W -> result string A) : moves R (fun sw => (f sw, sw)).
Proof using All. by intros sw r sw' [= _ <-]. Qed.
Lemma moves_modify f : (forall s w, R (s, w) (f s, w)) -> moves R (modify f).
Proof using All. by intros H [s w] r sw' [= _ <-]. Qed.
Lemma moves_world {A} (f : W -> A * W) : (forall s w, R (s, w) (s, snd (f w))) -> moves R (world f).
Proof using All.
  intros H [s w] r sw'. unfold world. cbn. specialize (H s w). destruct (f w). by intros [= _ <-].
Qed.
Lemma moves_try {A} (m : M W A) : moves R m -> moves R (try_ m).
Proof using All.
  intros H sw r sw'. unfold try_. destruct (m sw) as [x sw1] eqn:E. intros [= _ <-]. by eapply H.
Qed.
Lemma moves_mfor {A} (f : A -> M W unit) l : (forall x, moves R (f x)) -> moves R (mfor f l).
Proof using All.
  intros H. induction l; [exact (moves_here (fun _ => Ok tt))|].
  apply (moves_bind (f a) (fun _ => mfor f l)); auto.
Qed.
Lemma moves_when b (m : M W unit) : moves R m -> moves R (when_ b m).
Proof using All. destruct b; [done|]. intros _. exact (moves_here (fun _ => Ok tt)). Qed.
End moves.

Lemma wp_moves {W A} (R : Session * W -> Session * W -> Prop) (m : M W A) (Q : A -> Session -> W -> Prop)
    (E : string -> Session -> W -> Prop) s w :
  moves R m -> (forall a s' w', R (s, w) (s', w') -> Q a s' w') ->
  (forall e s' w', R (s, w) (s', w') -> E e s' w') -> wp m Q E s w.
Proof.
  intros Hm HQ HE. unfold wp. destruct (m (s, w)) as [[a|e] [s' w']] eqn:Em; apply Hm in Em; auto.
Qed.

Create HintDb moves.
Ltac moves_step :=
  lazymatch goal with
  | |- forall _, moves _ _ => intro
  | |- moves _ (mbind _ _) => apply moves_bind; [try typeclasses eauto..| |]
  | |- moves _ (mret _) => apply (moves_here _ (fun _ => _))
  | |- moves _ (throw _) => apply (moves_here _ (fun _ => _))
  | |- moves _ get_session => apply (moves_here _ (fun sw => Ok (fst sw)))
  | |- moves _ (gets ?f) => apply (moves_here _ (fun sw => Ok (f (fst sw))))
  | |- moves _ (lift _) => apply (moves_here _ (fun _ => _))
  | |- moves _ (modify _) =>
      first [solve [eauto 3 with moves nocore] | apply moves_modify; [try typeclasses eauto..|]; solve [done]]
  | |- moves _ (world _) =>
      first [solve [eauto 3 with moves nocore] | apply moves_world; [try typeclasses eauto..|]; solve [done]]
  | |- moves _ (try_ _) => apply moves_try; [try typeclasses eauto..|]
  | |- moves _ (mfor _ _) => apply moves_mfor; [try typeclasses eauto..|]
  | |- moves _ (when_ _ _) => apply moves_when; [try typeclasses eauto..|]
  | |- moves _ (let '(_, _) := ?p in _) => destruct p
  | |- moves _ (if ?b then _ else _) => destruct b
  | |- moves _ (match ?x with _ => _ end) => destruct x
  | |- moves _ (let x := _ in _) => cbv zeta
  | |- moves _ _ => solve [eauto 3 with moves nocore]
  end.
Ltac moves := repeat moves_step.

(** Computations on the session alone. *)
Definition same_world {W} (a b : Session * W) : Prop := snd b = snd a.
#[export] Instance same_world_preorder {W} : PreOrder (@same_world W).
Proof. unfold same_world. split; [done|]. intros ? ? ? ? ?. congruence. Qed.
Notation worldless m := (moves same_world m).
