(* ===== verification/Context.v ===== *)
(** * Request budget and history groups ([context.rs], first half)

    The history sent to a model is cut only between complete interactions: a
    plain message, or an assistant message with tool calls together with
    exactly one result per call.  [interaction_groups_iff] characterises the
    grouping completely; [split_history_spec] shows that a split keeps every
    interaction whole and keeps at least the requested raw tail. *)
From S2P Require Import Prelude Text Json Encoding Timestamp Session.
From Stdlib Require Import Permutation.
Local Open Scope string_scope.
Local Open Scope Z_scope.

Record HistoryGroup := { messages : list Message; indexes : list nat }.

Section context.
Context `{P : Platform}.

(** ** Budget *)
Definition estimate_payload (payload : value) (mem : Memory) : RequestBudget :=
  let bytes := byte_len (json_text payload) in
  let messages := match get_array "messages" payload with
                  | Some l => Z.of_nat (length l) | None => 0 end in
  let estimate := add64 bytes (mul64 32 messages) in
  let cap := unwrap_or (get_i64 "max_tokens" payload) 0 in
  let reserve := Z.max (reserved_output_tokens mem) cap in
  {| estimated_input_tokens := estimate;
     budget_reserved_output_tokens := reserve;
     budget_safety_margin_tokens := safety_margin_tokens mem;
     budget_context_window_tokens := context_window_tokens mem;
     fits := add64 (add64 estimate reserve) (safety_margin_tokens mem) <=? context_window_tokens mem;
     estimator :=
       "compact UTF-8 JSON bytes + 32 per message; conservative estimate, not provider usage" |}.

(** ** Interaction groups *)
Definition integrity_error (what : string) (i : nat) : string :=
  "context_integrity_error: " +:+ what +:+ " at history index " +:+ show_nat i.

(** The nonempty tool calls of an assistant message. *)
Definition message_calls (message : Message) : option (list value) :=
  match tool_calls message with
  | Some (Array calls) =>
      if String.eqb (role message) "assistant" && negb (length calls =? 0)%nat then Some calls else None
  | _ => None
  end.
(** The loop over [calls]: identities in order, each present and new. *)
Fixpoint call_ids (i : nat) (unique : list string) (calls : list value) : result string (list string) :=
  match calls with
  | [] => Ok []
  | call :: rest =>
      match opt_filter (fun s => negb (is_empty s)) (get_str "id" call) with
      | None => Err (integrity_error "missing tool-call ID" i)
      | Some id =>
          if str_in id unique then Err (integrity_error "duplicate tool-call ID" i)
          else match call_ids i (id :: unique) rest with
               | Ok ids => Ok (id :: ids)
               | Err e => Err e
               end
      end
  end.
(** The loop over the messages that follow: the set of answered identities. *)
Fixpoint result_ids (i : nat) (seen : list string) (ms : list Message) : result string (list string) :=
  match ms with
  | [] => Ok seen
  | m :: rest =>
      if negb (String.eqb (role m) "tool")
      then Err (integrity_error "incomplete tool-call result group" i)
      else match opt_filter (fun s => negb (is_empty s)) (tool_call_id m) with
           | None => Err (integrity_error "missing tool result ID" i)
           | Some id =>
               if str_in id seen
               then Err ("context_integrity_error: duplicate tool result ID " +:+ debug_str id)
               else result_ids i (id :: seen) rest
           end
  end.
(** One iteration of the loop: the group that starts at [index]. *)
Definition next_group (index : nat) (message : Message) (rest : list Message)
  : result string (list Message) :=
  if String.eqb (role message) "tool" then Err (integrity_error "orphaned tool result" index)
  else match message_calls message with
       | None => Ok []
       | Some calls =>
           match call_ids index [] calls with
           | Err e => Err e
           | Ok ids =>
               if (length rest <? length ids)%nat
               then Err (integrity_error "incomplete tool-call batch" index)
               else match result_ids index [] (take (length ids) rest) with
                    | Err e => Err e
                    | Ok results =>
                        if negb (length results =? length ids)%nat
                           || existsb (fun id => negb (str_in id results)) ids
                        then Err (integrity_error "tool-call results do not correlate" index)
                        else Ok (take (length ids) rest)
                    end
           end
       end.
Fixpoint groups_from (fuel index : nat) (ms : list Message) : result string (list HistoryGroup) :=
  match fuel, ms with
  | S fuel', message :: rest =>
      match next_group index message rest with
      | Err e => Err e
      | Ok results =>
          let n := S (length results) in
          match groups_from fuel' (index + n) (drop (length results) rest) with
          | Err e => Err e
          | Ok groups =>
              Ok ({| messages := message :: results; indexes := seq index n |} :: groups)
          end
      end
  | _, _ => Ok []
  end.
(** Every iteration takes at least one message: the length is enough fuel. *)
Definition interaction_groups (ms : list Message) : result string (list HistoryGroup) :=
  groups_from (length ms) 0 ms.

(** ** Splitting *)
(** [while boundary > 0 && count < minimum]: the groups in reverse, those kept
    in the tail first. *)
Fixpoint take_tail (minimum count : Z) (tail rev_groups : list HistoryGroup)
  : list HistoryGroup * list HistoryGroup :=
  match rev_groups with
  | g :: rest =>
      if count <? minimum
      then take_tail minimum (count + Z.of_nat (length (messages g))) (g :: tail) rest
      else (rev rev_groups, tail)
  | [] => ([], tail)
  end.
Definition split_history (ms : list Message) (minimum_messages : Z)
  : result string (list HistoryGroup * list HistoryGroup) :=
  match interaction_groups ms with
  | Err e => Err e
  | Ok groups => Ok (take_tail minimum_messages 0 [] (rev groups))
  end.
Definition flatten (groups : list HistoryGroup) : list Message := flat_map messages groups.

Definition source_text (goal : string) (history : list Message) (previous : option string) : string :=
  let wire := map (fun m => sort_json (wire_message m)) history in
  let encoded := python_json (Array wire) in
  "Goal: " +:+ goal +:+ nl +:+ "Previous ledger: "
    +:+ unwrap_or (opt_filter (fun x => negb (is_empty x)) previous) "none"
    +:+ nl +:+ "Historical prefix:" +:+ nl +:+ encoded.

(** * Specification of a complete interaction *)

Definition named (o : option string) (id : string) : Prop := o = Some id /\ id <> "".

Inductive interaction : list Message -> Prop :=
| interaction_plain m :
    role m <> "tool" -> message_calls m = None -> interaction [m]
| interaction_batch m calls ids results rids :
    message_calls m = Some calls ->
    Forall2 (fun call id => named (get_str "id" call) id) calls ids -> NoDup ids ->
    Forall2 (fun r rid => role r = "tool" /\ named (tool_call_id r) rid) results rids ->
    Permutation rids ids ->
    interaction (m :: results).

(** * Lemmas *)

Lemma filter_nonempty_some o id :
  opt_filter (fun s => negb (is_empty s)) o = Some id <-> named o id.
Proof.
  unfold named. destruct o as [s|]; cbn; [|naive_solver].
  destruct s; cbn; naive_solver.
Qed.

Lemma call_ids_iff i unique calls ids :
  call_ids i unique calls = Ok ids <->
  Forall2 (fun call id => named (get_str "id" call) id) calls ids
  /\ NoDup ids /\ (forall x, x ∈ ids -> x ∉ unique).
Proof.
  revert unique ids. induction calls as [|call calls IH]; intros unique ids; cbn.
  - split; [intros [= <-]|].
    + split_and!; [constructor|constructor|]. intros x Hx. by apply elem_of_nil in Hx.
    + intros (H & _). by inversion H.
  - destruct (opt_filter _ _) as [id|] eqn:E.
    + apply filter_nonempty_some in E.
      assert (forall ids', Forall2 (fun call id => named (get_str "id" call) id) (call :: calls) ids'
                <-> exists t, ids' = id :: t /\ Forall2 (fun call id => named (get_str "id" call) id) calls t)
        as Hinv.
      { intros ids'. split.
        - intros H. inversion H as [|? y ? t [Hy Hy'] Ht]; subst. exists t.
          destruct E as [E _]. rewrite E in Hy. by injection Hy as ->.
        - intros (t & -> & Ht). by constructor. }
      rewrite Hinv. destruct (str_in id unique) eqn:Eu.
      * apply str_in_spec in Eu. split; [done|]. intros ((t & -> & _) & _ & Hn).
        by destruct (Hn id ltac:(left)).
      * apply str_in_false in Eu. destruct (call_ids i (id :: unique) calls) as [ids'|e] eqn:Ec.
        -- apply IH in Ec as (H1 & H2 & H3). split.
           ++ intros [= <-]. split_and!; [by eauto| |].
              ** constructor; [|done]. intros Hin. apply (H3 id Hin). left.
              ** intros x [->|Hx]%elem_of_cons; [done|]. intros Hu. apply (H3 x Hx). by right.
           ++ intros ((t & -> & Ht) & Hnd & Hn). f_equal. f_equal.
              clear -H1 Ht. revert t Ht. induction H1 as [|c x cs xs [Hx _] _ IH']; intros t Ht;
                inversion Ht as [|? y ? t' [Hy _] Ht']; subst; [done|].
              rewrite Hx in Hy. injection Hy as ->. f_equal. by apply IH'.
        -- split; [done|]. intros ((t & -> & Ht) & Hnd%NoDup_cons & Hn).
           exfalso. enough (call_ids i (id :: unique) calls = Ok t) by congruence.
           apply IH. split_and!; [done|tauto|]. intros x Hx [->|Hu]%elem_of_cons.
           { tauto. } by apply (Hn x ltac:(by right)).
    + split; [done|]. intros (H & _). inversion H as [|? y ? t Hy Ht]; subst.
      apply filter_nonempty_some in Hy. congruence.
Qed.

Lemma result_ids_iff i seen ms out :
  NoDup seen ->
  result_ids i seen ms = Ok out <->
  exists rids, Forall2 (fun r rid => role r = "tool" /\ named (tool_call_id r) rid) ms rids
    /\ NoDup (rids ++ seen) /\ out = (rev rids ++ seen)%list.
Proof.
  revert seen. induction ms as [|m ms IH]; intros seen Hs; cbn.
  - split.
    + intros [= <-]. exists []. split_and!; [constructor|done|done].
    + intros (rids & H & _ & ->). inversion H; subst. done.
  - destruct (String.eqb (role m) "tool") eqn:Er; cbn.
    + apply String.eqb_eq in Er. destruct (opt_filter _ _) as [id|] eqn:E.
      * apply filter_nonempty_some in E. destruct (str_in id seen) eqn:Eu.
        -- apply str_in_spec in Eu. split; [done|]. intros (rids & H & Hnd & _).
           inversion H as [|? y ? t (_ & Hy & _) Ht]; subst. destruct E as [E _].
           rewrite E in Hy. injection Hy as ->. cbn in Hnd.
           apply NoDup_cons in Hnd as [Hnd _]. destruct Hnd. apply elem_of_app. by right.
        -- apply str_in_false in Eu. rewrite IH by (by constructor). split.
           ++ intros (rids & H & Hnd & ->). exists (id :: rids). split_and!.
              ** by constructor.
              ** cbn. rewrite (Permutation_middle rids seen id). done.
              ** cbn. by rewrite <- app_assoc.
           ++ intros (rids & H & Hnd & ->). inversion H as [|? y ? t (_ & Hy & _) Ht]; subst.
              destruct E as [E _]. rewrite E in Hy. injection Hy as ->. exists t. split_and!.
              ** done.
              ** by rewrite <- (Permutation_middle t seen y).
              ** cbn. by rewrite <- app_assoc.
      * split; [done|]. intros (rids & H & _). inversion H as [|? y ? t (_ & Hy) Ht]; subst.
        apply filter_nonempty_some in Hy. congruence.
    + apply String.eqb_neq in Er. split; [done|]. intros (rids & H & _).
      inversion H as [|? y ? t (Hy & _) Ht]; subst. done.
Qed.

(** One group is exactly one complete interaction at the head of the history. *)
Lemma next_group_iff index message rest results :
  next_group index message rest = Ok results <->
  interaction (message :: results) /\ exists tail, rest = (results ++ tail)%list.
Proof.
  unfold next_group. destruct (String.eqb (role message) "tool") eqn:Er.
  { apply String.eqb_eq in Er. split; [done|]. intros [H _].
    inversion H as [m Hr|m calls ids rs rids Hc]; subst; [done|].
    unfold message_calls in Hc. rewrite Er in Hc. destruct (tool_calls message) as [[]|]; done. }
  apply String.eqb_neq in Er. destruct (message_calls message) as [calls|] eqn:Ec; cycle 1.
  { split.
    - intros [= <-]. split; [by constructor|]. by exists rest.
    - intros [H _]. inversion H; subst; congruence. }
  destruct (call_ids index [] calls) as [ids|e] eqn:Ei; cycle 1.
  { split; [done|]. intros [H _]. exfalso.
    inversion H as [m Hr Hn|m calls' ids rs rids Hc Hids Hnd]; subst; [congruence|].
    rewrite Ec in Hc. injection Hc as <-.
    assert (call_ids index [] calls = Ok ids); [|congruence].
    apply call_ids_iff. split_and!; [done|done|]. intros x _ Hx. by apply elem_of_nil in Hx. }
  apply call_ids_iff in Ei as (Hids & Hnd & _).
  assert (forall rs, interaction (message :: rs) <->
    exists rids, Forall2 (fun r rid => role r = "tool" /\ named (tool_call_id r) rid) rs rids
                 /\ Permutation rids ids) as Hint.
  { intros rs. split.
    - intros H. inversion H as [m Hr Hn|m calls' ids' rs' rids Hc Hids' Hnd' Hrs Hp]; subst; [congruence|].
      rewrite Ec in Hc. injection Hc as <-. exists rids. split; [done|].
      replace ids with ids'; [done|]. clear -Hids Hids'. revert ids' Hids'.
      induction Hids as [|c x cs xs [Hx _] _ IH]; intros ids' H; inversion H as [|? y ? t [Hy _] Ht]; subst;
        [done|]. rewrite Hx in Hy. injection Hy as ->. f_equal. by apply IH.
    - intros (rids & Hrs & Hp). by econstructor. }
  rewrite Hint. destruct (Nat.ltb_spec (length rest) (length ids)) as [Hlt|Hge].
  { split; [done|]. intros [(rids & Hrs & Hp) [tail ->]].
    apply Forall2_length in Hrs. apply Permutation_length in Hp. rewrite length_app in Hlt. lia. }
  destruct (result_ids index [] (take (length ids) rest)) as [out|e] eqn:Eo; cycle 1.
  { split; [done|]. intros [(rids & Hrs & Hp) [tail ->]]. exfalso.
    assert (length results = length ids) as Hl
      by (rewrite (Forall2_length _ _ _ Hrs); by apply Permutation_length).
    rewrite <- Hl, take_app_length in Eo.
    assert (result_ids index [] results = Ok (rev rids ++ [])%list); [|congruence].
    apply result_ids_iff; [constructor|]. exists rids. split_and!; [done| |done].
    by rewrite app_nil_r, Hp. }
  apply result_ids_iff in Eo as (rids & Hrs & Hndr & ->); [|constructor].
  rewrite app_nil_r in *.
  assert (length rids = length ids) as Hl.
  { rewrite <- (Forall2_length _ _ _ Hrs), length_take. lia. }
  rewrite length_rev, Hl, Nat.eqb_refl. cbn.
  destruct (existsb _ ids) eqn:Ex.
  - split; [done|]. intros [(rids' & Hrs' & Hp) [tail ->]]. exfalso.
    apply existsb_exists in Ex as (x & Hx & Hn). apply negb_true_iff, str_in_false in Hn.
    apply Hn. assert (length results = length ids) as Hl'
      by (rewrite (Forall2_length _ _ _ Hrs'); by apply Permutation_length).
    rewrite <- Hl', take_app_length in Hrs. replace rids with rids'.
    { rewrite list_elem_of_In, <- in_rev, <- list_elem_of_In, Hp. by apply list_elem_of_In. }
    clear -Hrs Hrs'. revert rids' Hrs'. induction Hrs as [|r x rs xs (_ & Hx & _) _ IH];
      intros rids' H; inversion H as [|? y ? t (_ & Hy & _) Ht]; subst; [done|].
    rewrite Hx in Hy. injection Hy as ->. f_equal. by apply IH.
  - split.
    + intros [= <-]. split; [|exists (drop (length ids) rest); by rewrite take_drop].
      exists rids. split; [done|].
      symmetry. apply NoDup_Permutation_bis; [by apply NoDup_ListNoDup|lia|].
      intros x Hx. destruct (str_in x (rev rids)) eqn:E.
      * apply str_in_spec in E. rewrite list_elem_of_In, <- in_rev in E. done.
      * exfalso. assert (existsb (fun id => negb (str_in id (rev rids))) ids = true); [|congruence].
        apply existsb_exists. exists x. by rewrite E.
    + intros [(rids' & Hrs' & Hp) [tail ->]].
      assert (length results = length ids) as Hl'
        by (rewrite (Forall2_length _ _ _ Hrs'); by apply Permutation_length).
      by rewrite <- Hl', take_app_length.
Qed.

(** The groups, read from the position [index], partition the history into
    complete interactions. *)
Lemma groups_from_iff fuel index ms groups :
  (length ms <= fuel)%nat ->
  groups_from fuel index ms = Ok groups <->
  flatten groups = ms /\ Forall (fun g => interaction (messages g)) groups
  /\ Forall (fun g => length (indexes g) = length (messages g)) groups
  /\ flat_map indexes groups = seq index (length ms).
Proof.
  revert index ms groups. induction fuel as [|fuel IH]; intros index ms groups Hf.
  - destruct ms; [|cbn in Hf; lia]. cbn. split.
    + intros [= <-]. by split_and!; constructor.
    + intros (H & Hi & _). destruct groups as [|g gs]; [done|]. exfalso.
      apply Forall_cons in Hi as [Hi _]. inversion Hi as [m ? ? E|m ? ? ? ? ? ? ? ? ? E];
        cbn in H; rewrite <- E in H; done.
  - destruct ms as [|message rest].
    { cbn. split.
      - intros [= <-]. by split_and!; constructor.
      - intros (H & Hi & _). destruct groups as [|g gs]; [done|]. exfalso.
        apply Forall_cons in Hi as [Hi _]. inversion Hi as [m ? ? E|m ? ? ? ? ? ? ? ? ? E];
          cbn in H; rewrite <- E in H; done. }
    cbn in Hf. cbn [groups_from]. destruct (next_group index message rest) as [results|e] eqn:En.
    + apply next_group_iff in En as [Hint [tail ->]]. rewrite drop_app_length.
      assert (length tail <= fuel)%nat as Hft by (rewrite length_app in Hf; lia).
      split.
      * destruct (groups_from fuel _ tail) as [gs|e] eqn:Eg; [|done]. intros [= <-].
        apply IH in Eg as (H1 & H2 & H3 & H4); [|done]. unfold flatten in *. cbn [flat_map messages indexes].
        rewrite H1. split_and!; [done|by constructor|constructor; [cbn; by rewrite length_seq|done]|].
        rewrite H4. change (index :: seq (S index) (length results)) with (seq index (S (length results))).
        rewrite <- seq_app. f_equal. cbn. rewrite length_app. lia.
      * intros (H1 & H2 & H3 & H4). destruct groups as [|g gs]; [done|].
        apply Forall_cons in H2 as [Hg H2]. apply Forall_cons in H3 as [Hl H3].
        destruct (messages g) as [|m rs] eqn:Em; [inversion Hg|].
        unfold flatten in H1. cbn in H1. rewrite Em in H1. cbn in H1. injection H1 as -> H1.
        assert (rs = results /\ flat_map messages gs = tail) as [-> Ht].
        { assert (next_group index message (results ++ tail) = Ok rs) as E1
            by (apply next_group_iff; split; [done|by exists (flat_map messages gs)]).
          assert (next_group index message (results ++ tail) = Ok results) as E2
            by (apply next_group_iff; split; [done|by exists tail]).
          rewrite E1 in E2. injection E2 as ->. split; [done|]. by apply app_inv_head in H1. }
        cbn [flat_map] in H4.
        replace (length (message :: results ++ tail)) with (S (length results) + length tail)%nat in H4
          by (cbn; rewrite length_app; lia).
        rewrite seq_app in H4. cbn [length] in Hl.
        apply app_inj_1 in H4 as [Hi H4]; [|by rewrite Hl, length_seq].
        assert (groups_from fuel (index + S (length results)) tail = Ok gs) as ->.
        { apply IH; [done|]. by split_and!. }
        f_equal. f_equal. destruct g; cbn in *. by subst.
    + split; [done|]. intros (H1 & H2 & _). exfalso. destruct groups as [|g gs]; [done|].
      apply Forall_cons in H2 as [Hg _]. destruct (messages g) as [|m rs] eqn:Em; [inversion Hg|].
      unfold flatten in H1. cbn in H1. rewrite Em in H1. cbn in H1. injection H1 as -> H1.
      assert (next_group index message rest = Ok rs); [|congruence].
      apply next_group_iff. split; [done|]. by exists (flat_map messages gs).
Qed.

Lemma interaction_groups_spec ms groups :
  interaction_groups ms = Ok groups <->
  flatten groups = ms /\ Forall (fun g => interaction (messages g)) groups
  /\ Forall (fun g => length (indexes g) = length (messages g)) groups
  /\ flat_map indexes groups = seq 0 (length ms).
Proof. by apply groups_from_iff. Qed.

Definition message_count (groups : list HistoryGroup) : Z := Z.of_nat (length (flatten groups)).

Lemma message_count_cons g gs :
  message_count (g :: gs) = Z.of_nat (length (messages g)) + message_count gs.
Proof. unfold message_count, flatten. cbn. rewrite length_app. lia. Qed.

Lemma take_tail_spec minimum tail rg old tail' :
  (tail <> [] -> message_count (List.tl tail) < minimum) ->
  take_tail minimum (message_count tail) tail rg = (old, tail') ->
  (old ++ tail' = rev rg ++ tail)%list
  /\ (old = [] \/ minimum <= message_count tail')
  /\ (tail' <> [] -> message_count (List.tl tail') < minimum).
Proof.
  revert tail. induction rg as [|g rg IH]; intros tail Hmin; cbn [take_tail].
  - intros [= <- <-]. auto.
  - destruct (message_count tail <? minimum) eqn:E.
    + rewrite Z.add_comm, <- message_count_cons. intros H. apply IH in H as (H1 & H2 & H3).
      * split_and!; [|done|done]. rewrite H1. cbn. by rewrite <- app_assoc.
      * intros _. cbn. lia.
    + intros [= <- <-]. split_and!; [done|right; lia|done].
Qed.
End context.

(** * Properties *)
Section properties.
Context `{P : Platform}.

Lemma split_history_parts ms minimum old tail :
  split_history ms minimum = Ok (old, tail) ->
  (flatten old ++ flatten tail)%list = ms
  /\ Forall (fun g => interaction (messages g)) (old ++ tail)
  /\ (old = [] \/ minimum <= message_count tail)
  /\ (tail <> [] -> message_count (List.tl tail) < minimum).
Proof.
  unfold split_history. destruct (interaction_groups ms) as [gs|e] eqn:E; [|done].
  apply interaction_groups_spec in E as (Hf & Hi & _). intros H. injection H as H.
  change 0 with (message_count []) in H. apply take_tail_spec in H as (H1 & H2 & H3); [|done].
  rewrite rev_involutive, app_nil_r in H1. rewrite H1. split_and!; [|done|done|done].
  rewrite <- Hf, <- H1. unfold flatten. by rewrite flat_map_app.
Qed.

(** C29: grouping a history succeeds exactly when the history is a sequence of
    complete interactions, and then the groups are those interactions, in
    order, each tool-call message together with exactly one result per call;
    the recorded indexes number the messages consecutively from zero. *)
Theorem interaction_groups_iff ms groups :
  interaction_groups ms = Ok groups <->
  flatten groups = ms /\ Forall (fun g => interaction (messages g)) groups
  /\ Forall (fun g => length (indexes g) = length (messages g)) groups
  /\ flat_map indexes groups = seq 0 (length ms).
Proof. apply interaction_groups_spec. Qed.

(** C30: a split loses and reorders nothing, cuts only between complete
    interactions, and keeps in the raw tail the fewest trailing interactions
    that hold the requested number of messages (or the whole history). *)
Theorem split_history_whole ms minimum old tail :
  split_history ms minimum = Ok (old, tail) ->
  (flatten old ++ flatten tail)%list = ms
  /\ Forall (fun g => interaction (messages g)) (old ++ tail)
  /\ (old = [] \/ minimum <= message_count tail)
  /\ (tail <> [] -> message_count (List.tl tail) < minimum).
Proof. apply split_history_parts. Qed.

(** C31: within the range of [i64], a request is declared to fit exactly when
    its estimate (bytes plus 32 per message), the output reserve (the larger of
    the configured one and the request's own [max_tokens]) and the safety
    margin together stay within the context window. *)
Theorem estimate_payload_fits payload mem :
  let bytes := byte_len (json_text payload) in
  let count := match get_array "messages" payload with
               | Some l => Z.of_nat (length l) | None => 0 end in
  let reserve := Z.max (reserved_output_tokens mem)
                   (unwrap_or (get_i64 "max_tokens" payload) 0) in
  0 <= reserve -> 0 <= safety_margin_tokens mem ->
  bytes + 32 * count + reserve + safety_margin_tokens mem <= i64_max ->
  estimated_input_tokens (estimate_payload payload mem) = bytes + 32 * count
  /\ (fits (estimate_payload payload mem) = true <->
      bytes + 32 * count + reserve + safety_margin_tokens mem <= context_window_tokens mem).
Proof.
  intros bytes count reserve Hr Hm Hb.
  assert (0 <= bytes) by (unfold bytes, byte_len; lia).
  assert (0 <= count) by (unfold count; destruct (get_array "messages" payload); lia).
  unfold estimate_payload. cbn [estimated_input_tokens fits]. fold bytes count reserve.
  assert (i64_min <= 0) by (unfold i64_min; lia).
  unfold add64, mul64. rewrite (wrap64_id (32 * count)) by lia.
  rewrite (wrap64_id (bytes + 32 * count)) by lia.
  rewrite (wrap64_id (bytes + 32 * count + reserve)) by lia.
  rewrite wrap64_id by lia. split; [done|]. apply Z.leb_le.
Qed.
End properties.

(** ** Witnesses *)
Definition sample_call (call_id : string) : value :=
  Object [("id", Str call_id); ("type", Str "function");
          ("function", Object [("name", Str "probe"); ("arguments", Str "{}")])].
Definition sample_result (call_id : string) : Message :=
  (msg "tool" (Some "raw result")) <| name := Some "probe" |> <| tool_call_id := Some call_id |>.
Definition sample_batch (ids : list string) : list Message :=
  ((msg "assistant" None) <| tool_calls := Some (Array (map sample_call ids)) |>)
  :: map sample_result (rev ids).
Definition sample_history : list Message :=
  (msg "user" (Some "old raw user") :: sample_batch ["a"; "b"]
   ++ msg "assistant" (Some "between") :: sample_batch ["c"])%list.

Lemma split_history_whole_witness :
  exists old tail,
    split_history (P := plain_platform) sample_history 1 = Ok (old, tail)
    /\ length old = 3%nat /\ (flatten old ++ flatten tail)%list = sample_history.
Proof.
  eexists _, _. split; [vm_compute; reflexivity|]. split; [reflexivity|].
  refine (proj1 (split_history_whole (P := plain_platform) sample_history 1 _ _ _)).
  vm_compute; reflexivity.
Defined.

Definition sample_memory : Memory :=
  {| max_tokens := 100; max_steps := 8; raw_turns_to_keep := 2; hybrid_reflection := true;
     run_max_steps := None; compaction_interval_steps := None; context_window_tokens := 1000;
     reserved_output_tokens := 20; safety_margin_tokens := 10; max_summary_tokens := 100;
     summary_output_tokens := 40; compaction_max_attempts := 2; compaction_max_passes := 3;
     compaction_min_growth_tokens := 1; compaction_min_interval_steps := 0;
     optional_compaction_min_pressure_ratio := S754_zero false;
     optional_compaction_min_reclaimable_tokens := 0;
     optional_compaction_min_reduction_tokens := 0;
     optional_compaction_min_reduction_ratio := S754_zero false |}.
Definition sample_payload : value :=
  Object [("messages", Array [Object [("role", Str "tool")]]); ("max_tokens", num 40)].

Lemma estimate_payload_fits_witness :
  fits (estimate_payload (P := plain_platform) sample_payload sample_memory) = true.
Proof.
  refine (proj2 (proj2 (estimate_payload_fits (P := plain_platform) sample_payload sample_memory
    _ _ _)) _); vm_compute; congruence.
Defined.
