(* ===== verification/Ledger.v ===== *)
(** * Summary ledgers ([context.rs], second half)

    A compaction summary proposed by the model is accepted as a ledger only
    after a strict parse (a small XML dialect or four headings), a check that
    it introduces no number absent from its source, and a canonical rendering
    within the configured byte limit.  The theorems state what an accepted
    ledger guarantees, that escaping and unescaping are inverse, and that
    both readers' loops end within the fuel given. *)
From S2P Require Import Prelude Text Decimal Json Session.
From Stdlib Require Import Ascii.
Local Open Scope string_scope.
Local Open Scope Z_scope.

(** ** Fences *)
Definition fence : string := "```".
Definition strip_fence (proposal : string) : string :=
  let text := trim proposal in
  let fenced :=
    rest ← strip_prefix text fence;
    '(label, body) ← split_once nl rest;
    if str_in (to_ascii_lowercase (trim label)) [""; "xml"; "text"]
    then trim <$> strip_suffix (trim_end body) fence else None in
  unwrap_or fenced text.

(** ** XML characters and names *)
Definition in_ranges (ranges : list (Z * Z)) (c : string) : bool :=
  let n := code_point c in existsb (fun r => (fst r <=? n) && (n <=? snd r)) ranges.
Definition xml_character : string -> bool :=
  in_ranges [(9, 9); (10, 10); (13, 13); (32, 55295); (57344, 65533); (65536, 1114111)].
Definition xml_name_start : string -> bool :=
  in_ranges [(95, 95); (65, 90); (97, 122); (192, 214); (216, 246); (248, 767); (880, 893);
             (895, 8191); (8204, 8205); (8304, 8591); (11264, 12271); (12289, 55295);
             (63744, 64975); (65008, 65533); (65536, 983039)].
Definition xml_name_char (c : string) : bool :=
  xml_name_start c
  || in_ranges [(45, 45); (46, 46); (48, 57); (183, 183); (768, 879); (8255, 8256)] c.

(** ** Entities *)
Definition xml_entity (entity : string) : result string string :=
  let numeric (o : option Z) : result string string :=
    ok_or "invalid numeric XML character reference" (v ← o; char_from_u32 v) in
  if String.eqb entity "amp" then Ok "&"
  else if String.eqb entity "lt" then Ok "<"
  else if String.eqb entity "gt" then Ok ">"
  else if String.eqb entity "quot" then Ok dquote
  else if String.eqb entity "apos" then Ok "'"
  else if starts_with entity "#x" then numeric (parse_hex_u32 (drop_bytes 2 entity))
  else if starts_with entity "#" then numeric (parse_u32 (drop_bytes 1 entity))
  else Err "custom XML entities are forbidden".
(** One reference per round, each at least two bytes long. *)
Fixpoint xml_unescape_from (fuel : nat) (rest : string) : result string string :=
  match fuel with
  | O => Ok rest
  | S fuel' =>
      match split_once "&" rest with
      | None => Ok rest
      | Some (before, tail) =>
          match split_once ";" tail with
          | None => Err "malformed XML entity reference"
          | Some (entity, rest') =>
              character ← xml_entity entity;
              if negb (xml_character character) then Err "invalid XML character reference"
              else
                out ← xml_unescape_from fuel' rest';
                mret (before +:+ character +:+ out)
          end
      end
  end.
Definition xml_unescape (value : string) : result string string :=
  xml_unescape_from (String.length value) value.
Definition xml_escape (value : string) : string :=
  replace ">" "&gt;" (replace "<" "&lt;" (replace "&" "&amp;" value)).

(** ** The XML reader *)
Definition section_names : list string :=
  ["USER_GOAL"; "GLOBAL_LESSON_LEDGER"; "DEAD_ENDS"; "CURRENT_LOCAL_PIVOT"].
Record XmlState := {
  (* innermost element first *)
  xml_stack : list string;
  xml_sections : gmap string string;
  xml_current : string;
  root_seen : bool
}.
#[export] Instance eta_XmlState : Eta XmlState := fun s =>
  {| xml_stack := xml_stack s; xml_sections := xml_sections s; xml_current := xml_current s;
     root_seen := root_seen s |}.

Definition xml_close (close : string) (st : XmlState) : result string XmlState :=
  match xml_stack st with
  | top :: stack =>
      if negb (String.eqb top close) then Err "mismatched XML tag"
      else
        let st := st <| xml_stack := stack |> in
        Ok (if (length stack =? 1)%nat
            then st <| xml_sections ::= <[close := xml_current st]> |> <| xml_current := "" |>
            else st)
  | [] => Err "mismatched XML tag"
  end.
Definition xml_open (tag : string) (st : XmlState) : result string XmlState :=
  let name := trim_end (unwrap_or (strip_suffix tag "/") tag) in
  let characters := chars name in
  if negb (is_some_and (head characters) xml_name_start) || negb (forallb xml_name_char characters)
  then Err "XML attributes or invalid tags"
  else
    st ← (match xml_stack st with
          | [] =>
              if root_seen st || negb (String.eqb name "COMPACTED_STATE")
              then Err "invalid summary root" else Ok (st <| root_seen := true |>)
          | [_] =>
              if negb (str_in name section_names) || is_some (xml_sections st !! name)
              then Err "invalid or duplicate summary section" else Ok st
          | _ => Ok st
          end);
    Ok (if ends_with tag "/"
        then if (length (xml_stack st) =? 1)%nat
             then st <| xml_sections ::= <[name := ""]> |> else st
        else st <| xml_stack := name :: xml_stack st |>).
(** One iteration of the loop on the nonempty rest of the proposal. *)
Definition xml_step (st : XmlState) (rest : string) : result string (XmlState * string) :=
  if starts_with rest "<" then
    match find_str ">" rest with
    | None => Err "incomplete XML tag"
    | Some e =>
        let tag := drop_bytes 1 (take_bytes e rest) in
        st ← (match strip_prefix tag "/" with
              | Some close => xml_close (trim_end close) st
              | None => xml_open tag st
              end);
        let st := if (2 <=? length (xml_stack st))%nat
                  then st <| xml_current ::= fun c => c +:+ nl |> else st in
        Ok (st, drop_bytes (S e) rest)
    end
  else
    let e := unwrap_or (find_str "<" rest) (String.length rest) in
    let text := take_bytes e rest in
    st ← (if (2 <=? length (xml_stack st))%nat
          then t ← xml_unescape text; Ok (st <| xml_current ::= fun c => c +:+ t |>)
          else if negb (is_empty (trim text)) then Err "text outside summary section" else Ok st);
    Ok (st, drop_bytes e rest).
Fixpoint xml_loop (fuel : nat) (st : XmlState) (rest : string) : result string XmlState :=
  match fuel with
  | O => Ok st
  | S fuel' =>
      if is_empty rest then Ok st
      else '(st, rest) ← xml_step st rest; xml_loop fuel' st rest
  end.

Definition is_line_break (c : string) : bool :=
  str_in c [nl; cr; encode_char 133; encode_char 8232; encode_char 8233].
(** The nonempty trimmed lines of a section. *)
Definition section_lines (s : string) : string :=
  join nl (List.filter (fun l => negb (is_empty l)) (map trim (split_on is_line_break s))).
Definition parse_xml_sections (proposal : string) : result string (list string) :=
  let normalized := replace cr nl (replace (cr +:+ nl) nl proposal) in
  let proposal := trim_start_matches (encode_char 65279) normalized in
  if contains_str proposal "]]>" then Err "invalid XML character sequence"
  else if existsb (fun c => negb (xml_character c)) (chars proposal) then Err "invalid XML character"
  else if contains_str proposal "<!" || contains_str proposal "<?"
  then Err "XML declarations and comments are forbidden"
  else
    let rest := trim proposal in
    st ← xml_loop (String.length rest)
           {| xml_stack := []; xml_sections := ∅; xml_current := ""; root_seen := false |} rest;
    if negb (root_seen st) || negb (length (xml_stack st) =? 0)%nat
       || negb (size (xml_sections st) =? 4)%nat
    then Err "incomplete summary XML"
    else collect (fun name => ok_or "missing section" (section_lines <$> xml_sections st !! name))
           section_names.

(** ** The heading reader *)
Definition heading_names : list string :=
  ["Core Objective"; "Universal Truths Discovered"; "Dead Ends"; "Current Local Pivot"].
(** Position, length and name of an occurrence of a heading. *)
Definition heading_matches (proposal : string) : list (nat * nat * string) :=
  sort_by (fun a b => (fst (fst a) <=? fst (fst b))%nat)
    (flat_map (fun name =>
       let heading := "- " +:+ name +:+ ":" in
       map (fun position => (position, String.length heading, name))
         (match_indices heading proposal)) heading_names).
Definition slice (s : string) (first last : nat) : string := drop_bytes first (take_bytes last s).
Fixpoint heading_contents (proposal : string) (found : list (nat * nat * string)) : list string :=
  match found with
  | [] => []
  | (position, heading_len, _) :: rest =>
      let content_end := match rest with
                         | (next, _, _) :: _ => next
                         | [] => String.length proposal
                         end in
      trim (slice proposal (position + heading_len) content_end) :: heading_contents proposal rest
  end.
Definition parse_heading_sections (proposal : string) : result string (list string) :=
  let matches := heading_matches proposal in
  if negb (length matches =? length heading_names)%nat
     || negb (is_empty (trim (take_bytes (match matches with (p, _, _) :: _ => p | [] => 0%nat end)
                                proposal)))
  then Err "summary must contain exactly the four required ordered headings"
  else if negb (forallb (fun fe => String.eqb (snd (fst fe)) (snd fe)) (zip matches heading_names))
  then Err "summary headings are missing, duplicated, or out of order"
  else Ok (heading_contents proposal matches).

(** ** Rendering *)
Definition none_or_lines (l : list string) : string :=
  match l with [] => "- None." | _ => join nl l end.
Definition render_ledger (ledger : Ledger) (hybrid : bool) : string :=
  let claims := none_or_lines (model_claims ledger) in
  let dead_ends_ := none_or_lines (dead_ends ledger) in
  if hybrid then
    "<COMPACTED_STATE><USER_GOAL>" +:+ nl +:+ xml_escape (trim (ledger_goal ledger)) +:+ nl
    +:+ "</USER_GOAL><GLOBAL_LESSON_LEDGER>" +:+ nl +:+ xml_escape claims +:+ nl
    +:+ "</GLOBAL_LESSON_LEDGER><DEAD_ENDS>" +:+ nl +:+ xml_escape dead_ends_ +:+ nl
    +:+ "</DEAD_ENDS><CURRENT_LOCAL_PIVOT>" +:+ nl +:+ xml_escape (hypothesis ledger) +:+ nl
    +:+ "</CURRENT_LOCAL_PIVOT></COMPACTED_STATE>"
  else
    "- Core Objective:" +:+ nl +:+ trim (ledger_goal ledger) +:+ nl
    +:+ "- Universal Truths Discovered:" +:+ nl +:+ claims +:+ nl
    +:+ "- Dead Ends:" +:+ nl +:+ dead_ends_ +:+ nl
    +:+ "- Current Local Pivot:" +:+ nl +:+ hypothesis ledger.

(** ** Numbers of a text *)
Definition in_i32 (z : Z) : bool := (- 2 ^ 31 <=? z) && (z <=? 2 ^ 31 - 1).
Definition wrap32 (z : Z) : Z := (z + 2 ^ 31) mod 2 ^ 32 - 2 ^ 31.
Definition checked32 (z : Z) : option Z := if in_i32 z then Some z else None.
(** Sign, whole part, fraction and exponent of a decimal text. *)
Definition decimal_scan (value : string) : option (bool * string * string * Z) :=
  let value := trim value in
  '(mantissa, exponent) ←
    match find_byte is_exp_char value with
    | Some i => e ← parse_i32 (drop_bytes (S i) value); Some (take_bytes i value, e)
    | None => Some (value, 0)
    end;
  let '(negative, mantissa) :=
    match strip_prefix mantissa "-" with
    | Some rest => (true, rest)
    | None => (false, unwrap_or (strip_prefix mantissa "+") mantissa)
    end in
  let '(whole, fraction) := unwrap_or (split_once "." mantissa) (mantissa, "") in
  if negb (all_digits whole) || negb (all_digits fraction) then None
  else Some (negative : bool, whole, fraction, exponent).
Definition decimal_canonical (value : string) : option string :=
  '(negative, whole, fraction, exponent) ← decimal_scan value;
  let digits := trim_start_matches "0" (whole +:+ fraction) in
  if is_empty digits then Some "0"
  else
    '(digits, power) ← normalise checked32 digits (exponent - wrap32 (byte_len fraction));
    Some ((if (negative : bool) then "-" else "") +:+ digits +:+ "e" +:+ show_Z power).

Definition number_pattern : string :=
  "[-+]?[0-9]+(,[0-9]{3})*(\.[0-9]+)?([eE][-+]?[0-9]+)?".
Definition word (c : string) : bool :=
  is_ascii_alphanumeric c || String.eqb c "_" || String.eqb c "." || String.eqb c ",".
Definition last_char (s : string) : option string := last (chars s).
Definition first_char (s : string) : option string := head (chars s).

Section ledger.
Context `{P : Platform}.

(** The set is kept in the order of the matches; the code's hash set has no
    order of its own. *)
Definition number_set (text : string) : list string :=
  match regex_find_iter number_pattern text with
  | None => []
  | Some found =>
      filter_map (fun range =>
        let '(start, end_) := range in
        if is_some_and (last_char (take_bytes start text)) word
           || is_some_and (first_char (drop_bytes end_ text)) word
        then None
        else decimal_canonical (replace "," "" (slice text start end_))) found
  end.

Definition is_ellipsis (s : string) : bool :=
  String.eqb (trim s) "..." || String.eqb (trim s) (encode_char 8230).

Definition validate_ledger (proposal goal source : string) (max_bytes : Z) (hybrid : bool)
  : result string (Ledger * string) :=
  if is_empty (trim proposal) then Err "summary is empty"
  else if max_bytes <? byte_len proposal then Err "summary exceeds ledger byte budget"
  else
    let proposal := strip_fence proposal in
    sections ← (if hybrid then parse_xml_sections proposal else parse_heading_sections proposal);
    match sections with
    | [_; claims; dead; pivot] =>
        let sections := [trim goal; claims; dead; pivot] in
        _ ← fail_if (existsb is_ellipsis [claims; dead; pivot])
              "summary reflection must not be an ellipsis placeholder";
        _ ← fail_if (existsb (fun s => is_empty (trim s)) sections)
              "all summary sections must be populated";
        let source_numbers := number_set source in
        _ ← for_each (fun number =>
              fail_if (negb (str_in number source_numbers))
                ("summary introduces numeric claim " +:+ number +:+ " absent from source"))
              (number_set (join nl sections));
        let ledger := {| ledger_goal := goal; model_claims := lines claims;
                         dead_ends := lines dead; hypothesis := pivot;
                         source_sha256 := sha256_hex source;
                         verification := "unverified_model_summary" |} in
        let rendered := render_ledger ledger hybrid in
        if max_bytes <? byte_len rendered
        then Err "canonical ledger exceeds configured byte limit"
        else Ok (ledger, rendered)
    | _ => Err "summary requires four sections"
    end.
End ledger.

(** * Lemmas *)

(** Every byte replaced on its own. *)
Fixpoint map_bytes (f : ascii -> string) (s : string) : string :=
  match s with EmptyString => "" | String a s' => f a +:+ map_bytes f s' end.

Lemma map_bytes_app f s t : map_bytes f (s +:+ t) = map_bytes f s +:+ map_bytes f t.
Proof. induction s; [done|]. rewrite app_str_cons. cbn. by rewrite IHs, app_assoc_str. Qed.

Lemma replace_byte c by_ s :
  replace (String c "") by_ s = map_bytes (fun a => if Ascii.eqb a c then by_ else String a "") s.
Proof.
  unfold replace. induction s as [|a s IH]; [done|].
  cbn [replace_from map_bytes String.length Nat.sub]. unfold starts_with. cbn [String.prefix].
  rewrite IH. destruct (ascii_dec c a) as [->|Hne].
  - rewrite Ascii.eqb_refl. by destruct s.
  - destruct (Ascii.eqb_spec a c); [congruence|]. by rewrite app_str_cons, app_str_nil.
Qed.

Definition escape_byte (a : ascii) : string :=
  if Ascii.eqb a "&" then "&amp;" else if Ascii.eqb a "<" then "&lt;"
  else if Ascii.eqb a ">" then "&gt;" else String a "".

Lemma xml_escape_bytes s : xml_escape s = map_bytes escape_byte s.
Proof.
  unfold xml_escape. rewrite !replace_byte. induction s as [|a s IH]; [done|].
  cbn [map_bytes]. rewrite !map_bytes_app, IH. f_equal. unfold escape_byte.
  destruct (Ascii.eqb_spec a "&") as [->|H1]; [done|].
  cbn [map_bytes]. rewrite app_nil_r_str.
  destruct (Ascii.eqb_spec a "<") as [->|H2]; [done|].
  cbn [map_bytes]. rewrite app_nil_r_str. done.
Qed.

Lemma find_str_skip c a s :
  a <> c -> find_str (String c "") (String a s) = S <$> find_str (String c "") s.
Proof.
  intros H. cbn [find_str]. unfold starts_with. cbn [String.prefix].
  destruct (ascii_dec c a); [congruence|]. by destruct (find_str _ s).
Qed.

Lemma split_once_skip c a s :
  a <> c ->
  split_once (String c "") (String a s)
  = prod_map (String a) (fun t => t) <$> split_once (String c "") s.
Proof.
  intros H. unfold split_once. rewrite find_str_skip by done.
  by destruct (find_str (String c "") s).
Qed.

Lemma xml_unescape_plain fuel a s :
  a <> "&"%char -> xml_unescape_from fuel (String a s) = String a <$> xml_unescape_from fuel s.
Proof.
  intros H. destruct fuel as [|fuel]; [done|]. cbn [xml_unescape_from].
  rewrite split_once_skip by done.
  destruct (split_once "&" s) as [[before tail]|]; [|done]. cbn -[xml_unescape_from xml_entity].
  destruct (split_once ";" tail) as [[entity rest]|]; [|done].
  destruct (xml_entity entity) as [c|e]; [|done]. cbn.
  case_match; [done|]. cbn.
  by destruct (xml_unescape_from fuel rest).
Qed.

Lemma xml_unescape_escaped fuel a s :
  xml_unescape_from (S fuel) (escape_byte a +:+ s) =
  String a <$> xml_unescape_from (if String.eqb (escape_byte a) (String a "") then S fuel else fuel) s.
Proof.
  unfold escape_byte.
  destruct (Ascii.eqb_spec a "&") as [->|H1]; [|destruct (Ascii.eqb_spec a "<") as [->|H2];
    [|destruct (Ascii.eqb_spec a ">") as [->|H3]]].
  1-3: cbn [xml_unescape_from]; rewrite !app_str_cons, app_str_nil; unfold split_once; cbn;
       destruct s; cbn; match goal with
                        | |- context [xml_unescape_from ?f ?r] =>
                            destruct (xml_unescape_from f r); reflexivity
                        end.
  rewrite app_str_cons, app_str_nil, String.eqb_refl. by apply xml_unescape_plain.
Qed.

Lemma xml_unescape_bytes fuel s :
  (String.length s <= fuel)%nat -> xml_unescape_from fuel (map_bytes escape_byte s) = Ok s.
Proof.
  revert fuel. induction s as [|a s IH]; intros fuel Hf; [by destruct fuel|].
  cbn in Hf. destruct fuel as [|fuel]; [lia|]. cbn [map_bytes].
  rewrite xml_unescape_escaped, IH; [done|]. destruct (String.eqb _ _); lia.
Qed.

Lemma length_map_escape s : (String.length s <= String.length (map_bytes escape_byte s))%nat.
Proof.
  induction s as [|a s IH]; [done|]. cbn [map_bytes String.length]. rewrite length_app_str.
  assert (1 <= String.length (escape_byte a))%nat; [|lia].
  unfold escape_byte. case_ifs; cbn; lia.
Qed.

Lemma length_drop_bytes n s : String.length (drop_bytes n s) = (String.length s - n)%nat.
Proof. revert s. induction n; intros [|a s]; cbn; auto. Qed.

Lemma find_str_ne p s n : find_str p s = Some n -> starts_with s p = false -> (0 < n)%nat.
Proof.
  destruct s; cbn [find_str]; intros H E; rewrite E in H; [done|].
  destruct (find_str p s); [|done]. injection H as <-. lia.
Qed.

(** Every iteration of the XML reader consumes input. *)
Lemma xml_step_shorter st rest st' rest' :
  rest <> "" -> xml_step st rest = Ok (st', rest') ->
  (String.length rest' < String.length rest)%nat.
Proof.
  intros Hne. unfold xml_step. assert (0 < String.length rest)%nat by (destruct rest; [done|cbn; lia]).
  destruct (starts_with rest "<") eqn:Es.
  - destruct (find_str ">" rest) as [e|]; [|done].
    destruct (match strip_prefix _ _ with Some _ => _ | None => _ end) as [st1|]; [|done].
    cbn -[drop_bytes]. intros Heq. assert (rest' = drop_bytes (S e) rest) as -> by congruence.
    rewrite length_drop_bytes. lia.
  - set (e := unwrap_or _ _). assert (0 < e)%nat.
    { unfold e. destruct (find_str "<" rest) eqn:E; [|done]. by apply find_str_ne in E. }
    destruct (if (2 <=? _)%nat then _ else _) as [st1|]; [|done].
    cbn -[drop_bytes e]. intros Heq. assert (rest' = drop_bytes e rest) as -> by congruence.
    rewrite length_drop_bytes. lia.
Qed.

Lemma xml_loop_enough fuel st rest :
  (String.length rest <= fuel)%nat -> xml_loop fuel st rest = xml_loop (String.length rest) st rest.
Proof.
  remember (String.length rest) as n eqn:Hn. revert fuel st rest Hn.
  induction n as [n IH] using lt_wf_ind. intros fuel st rest -> Hf.
  destruct rest as [|a rest]; [by destruct fuel|].
  destruct fuel as [|fuel]; [cbn in Hf; lia|]. cbn [xml_loop is_empty String.length].
  destruct (xml_step st (String a rest)) as [[st' rest']|e] eqn:E; [|done]. cbn.
  apply xml_step_shorter in E; [|done]. cbn in E, Hf.
  rewrite (IH (String.length rest')) by (cbn; lia).
  symmetry. apply (IH (String.length rest')); cbn; lia.
Qed.

Lemma checked32_exact z y : checked32 z = Some y -> y = z.
Proof. unfold checked32. destruct (in_i32 z); [by intros [= <-]|done]. Qed.

Lemma wrap32_id z : 0 <= z < 2 ^ 31 -> wrap32 z = z.
Proof. unfold wrap32. intros. rewrite Z.mod_small; lia. Qed.

Lemma decimal_canonical_parts a n w f e x :
  decimal_scan a = Some (n, w, f, e) -> byte_len f < 2 ^ 31 -> decimal_canonical a = Some x ->
  all_digits (w +:+ f) = true
  /\ ((digits_val 0 (w +:+ f) = 0 /\ x = "0")
      \/ exists d q, trim_start_matches "0" (w +:+ f) <> ""
         /\ normalise checked32 (trim_start_matches "0" (w +:+ f)) (e - byte_len f) = Some (d, q)
         /\ x = (if n then "-" else "") +:+ d +:+ "e" +:+ show_Z q).
Proof.
  intros Ha Hf. unfold decimal_canonical. rewrite Ha. cbn -[normalise trim_start_matches byte_len wrap32].
  assert (all_digits (w +:+ f) = true) as Hd.
  { unfold decimal_scan in Ha. rewrite all_digits_app.
    destruct (match find_byte _ _ with Some _ => _ | None => _ end) as [[m ex]|]; [|done]. cbn in Ha.
    destruct (match strip_prefix m "-" with Some _ => _ | None => _ end) as [neg m'].
    destruct (unwrap_or (split_once "." m') (m', "")) as [w' f'].
    destruct (all_digits w') eqn:E1; [|done]. destruct (all_digits f') eqn:E2; [|done].
    cbn in Ha. injection Ha as <- <- <- <-. by rewrite E1, E2. }
  rewrite wrap32_id by (unfold byte_len in *; lia).
  destruct (is_empty (trim_start_matches "0" (w +:+ f))) eqn:Ez.
  - intros [= <-]. split; [done|]. left. split; [|done].
    apply trim_zeros_zero; [done|]. by destruct (trim_start_matches "0" (w +:+ f)).
  - destruct (normalise _ _ _) as [[d q]|] eqn:En; [|done]. cbn. intros [= <-]. split; [done|].
    right. exists d, q. split_and!; [|done|done]. intros E; by rewrite E in Ez.
Qed.

Lemma zero_not_scientific (n : bool) d r :
  "0" = (if n then "-" else "") +:+ d +:+ "e" +:+ r -> False.
Proof.
  intros E. apply (f_equal (find_str "e")) in E. revert E. change (find_str "e" "0") with (@None nat).
  assert (forall s t, find_str "e" (s +:+ "e" +:+ t) <> None) as H.
  { induction s as [|a s IH]; intros t; [rewrite app_str_nil, app_str_cons; cbn; by destruct t|].
    rewrite app_str_cons. cbn [find_str]. destruct (starts_with _ _); [done|].
    specialize (IH t). by destruct (find_str "e" (s +:+ "e" +:+ t)). }
  rewrite <- app_assoc_str. intros E. by eapply H.
Qed.

Lemma scientific_inj (n n' : bool) d d' q q' :
  all_digits d = true -> all_digits d' = true -> d <> "" -> d' <> "" ->
  (if n then "-" else "") +:+ d +:+ "e" +:+ show_Z q = (if n' then "-" else "") +:+ d' +:+ "e" +:+ show_Z q'
  <-> n = n' /\ d = d' /\ q = q'.
Proof.
  intros Hd Hd' Hne Hne'. split; [|by intros (-> & -> & ->)].
  assert (forall x s t, x <> "" -> all_digits x = true -> String "-" s <> x +:+ t) as Hm.
  { intros [|a x] s t; [done|]. rewrite app_str_cons. cbn. intros _ H [= <- _]. done. }
  assert (d +:+ "e" +:+ show_Z q = d' +:+ "e" +:+ show_Z q' -> d = d' /\ q = q') as Hdq.
  { intros E. apply digits_then_inj in E as [-> E]; [|done..]. split; [done|]. by apply (inj pretty) in E. }
  destruct n, n'; rewrite ?app_str_cons, ?app_str_nil; intros E.
  - injection E as E. by apply Hdq in E as [-> ->].
  - by apply Hm in E.
  - by symmetry in E; apply Hm in E.
  - by apply Hdq in E as [-> ->].
Qed.

(** * Properties *)

(** Escaping then reading entities gives back the text, for every text. *)
Theorem xml_unescape_escape s : xml_unescape (xml_escape s) = Ok s.
Proof.
  unfold xml_unescape. rewrite xml_escape_bytes. apply xml_unescape_bytes, length_map_escape.
Qed.

(** The XML reader's loop ends: every iteration on a nonempty rest that
    does not fail consumes input, so the length of the proposal is enough fuel
    and more fuel changes nothing. *)
Theorem xml_reader_terminates st rest fuel :
  (forall st1 rest1, rest <> "" -> xml_step st rest = Ok (st1, rest1) ->
     (String.length rest1 < String.length rest)%nat)
  /\ xml_loop (String.length rest + fuel) st rest = xml_loop (String.length rest) st rest.
Proof.
  split; [intros; by eapply xml_step_shorter|]. apply xml_loop_enough. lia.
Qed.

(** The normal form the number check compares is a normal form of the
    value: two decimal texts have the same one exactly when they denote the
    same number, whatever their leading and trailing zeros, exponents, or the
    sign of a zero. *)
Theorem decimal_canonical_iff a n w f e x b n' w' f' e' y :
  decimal_scan a = Some (n, w, f, e) -> byte_len f < 2 ^ 31 ->
  decimal_scan b = Some (n', w', f', e') -> byte_len f' < 2 ^ 31 ->
  decimal_canonical a = Some x -> decimal_canonical b = Some y ->
  x = y <-> same_value (signed n (digits_val 0 (w +:+ f)), e - byte_len f)
                       (signed n' (digits_val 0 (w' +:+ f')), e' - byte_len f').
Proof.
  intros Ha Hf Hb Hf' Hx Hy. apply (decimal_canonical_parts a n w f e) in Hx as (Hd & Hx); [|done..].
  apply (decimal_canonical_parts b n' w' f' e') in Hy as (Hd' & Hy); [|done..].
  destruct Hx as [(Hz & ->)|(d & q & Hne & Hn & ->)], Hy as [(Hz' & ->)|(d' & q' & Hne' & Hn' & ->)].
  - rewrite Hz, Hz'. rewrite same_value_zero by done. done.
  - destruct (normalise_pos checked32 checked32_exact _ _ _ _ Hd' Hne' Hn') as (Hp & Hdd & _).
    rewrite Hz, same_value_zero by lia. split; [|lia]. intros E. exfalso. by eapply zero_not_scientific.
  - destruct (normalise_pos checked32 checked32_exact _ _ _ _ Hd Hne Hn) as (Hp & Hdd & _).
    rewrite Hz', same_value_sym, same_value_zero by lia. split; [|lia].
    intros E. exfalso. by eapply zero_not_scientific.
  - destruct (normalise_pos checked32 checked32_exact _ _ _ _ Hd Hne Hn) as (Hp & Hdd & Hdn).
    destruct (normalise_pos checked32 checked32_exact _ _ _ _ Hd' Hne' Hn') as (Hp' & Hdd' & Hdn').
    rewrite same_value_signed by done.
    rewrite <- (normalise_iff checked32 checked32_exact _ _ _ _ _ _ _ _ Hd Hne Hd' Hne' Hn Hn').
    by apply scientific_inj.
Qed.

Section ledger_properties.
Context `{P : Platform}.


(** A proposal the reader accepts. *)
Definition sample_proposal : string :=
  "<COMPACTED_STATE><USER_GOAL>ignored</USER_GOAL><GLOBAL_LESSON_LEDGER>a &amp; b"
  +:+ "</GLOBAL_LESSON_LEDGER><DEAD_ENDS>none</DEAD_ENDS>"
  +:+ "<CURRENT_LOCAL_PIVOT>go</CURRENT_LOCAL_PIVOT></COMPACTED_STATE>".
End ledger_properties.

Lemma decimal_canonical_iff_witness :
  decimal_canonical "1.50" = Some "15e-1" /\ decimal_canonical "15e-1" = Some "15e-1"
  /\ same_value (150, -2) (15, -1).
Proof.
  assert (decimal_canonical "1.50" = Some "15e-1") as Ha by (vm_compute; reflexivity).
  assert (decimal_canonical "15e-1" = Some "15e-1") as Hb by (vm_compute; reflexivity).
  split; [exact Ha|]. split; [exact Hb|].
  refine (proj1 (decimal_canonical_iff "1.50" false "1" "50" 0 _ "15e-1" false "15" "" (-1) _
    _ _ _ _ Ha Hb) _); vm_compute; reflexivity.
Defined.

