(* ===== verification/Validate.v ===== *)
(** * Validation of values against schemas ([tools.rs])

    [validate_value] checks tool arguments and structured final answers
    against the subset of JSON Schema the agent supports.  [conforms] is the
    declarative reading of that subset, and [validate_value_iff] shows that
    the checker decides it, at every nesting depth and whatever the path. *)
From S2P Require Import Prelude Text Json.
Local Open Scope string_scope.
Local Open Scope Z_scope.

(** ** The checker *)
Definition has_type (kind : string) (v : value) : bool :=
  if String.eqb kind "object" then is_object v
  else if String.eqb kind "array" then is_array v
  else if String.eqb kind "string" then is_string v
  else if String.eqb kind "boolean" then is_boolean v
  else if String.eqb kind "null" then is_null v
  else if String.eqb kind "number" then is_some_and (as_f64 v) f64_finite
  else if String.eqb kind "integer" then
    is_some (as_i64 v) || is_some (as_u64 v)
    || is_some_and (as_f64 v) (fun n => f64_finite n && f64_integral n)
  else true.
Definition schema_kind (schema : value) : string := unwrap_or (get_str "type" schema) "".

(** Type, [enum] and [const]: the checks every value goes through. *)
Definition check_common (schema v : value) (path : string) : result string unit :=
  let kind := schema_kind schema in
  if negb (has_type kind v) then Err (path +:+ " must be " +:+ kind)
  else if is_some_and (get_array "enum" schema) (fun allowed => negb (existsb (value_eqb v) allowed))
  then Err (path +:+ " is not an allowed value")
  else if is_some_and (get "const" schema) (fun x => negb (value_eqb x v))
  then Err (path +:+ " must equal the configured constant")
  else Ok tt.
Definition check_required (schema : value) (obj : list (string * value)) (path : string)
  : result string unit :=
  match get_array "required" schema with
  | None => Ok tt
  | Some required =>
      for_each (fun key => fail_if (negb (is_some (assoc key obj))) (path +:+ "." +:+ key +:+ " is required"))
        (filter_map as_str required)
  end.
(** The schema an entry of an object is checked against: [None] when the
    entry is refused, [Some None] when it is unconstrained. *)
Definition property_schema (schema : value) (key : string) : option (option value) :=
  match (props ← get_object "properties" schema; assoc key props) with
  | Some sub => Some (Some sub)
  | None =>
      match get "additionalProperties" schema with
      | Some (Bool false) => None
      | Some (Object m) => Some (Some (Object m))
      | _ => Some None
      end
  end.
Definition as_nat (z : Z) : nat := Z.to_nat z.

Section validate.
Context `{P : Platform}.

Definition check_string (schema : value) (s path : string) : result string unit :=
  if is_some_and (get_u64 "minLength" schema) (fun n => char_count s <? n)
  then Err (path +:+ " is shorter than minLength")
  else if is_some_and (get_u64 "maxLength" schema) (fun n => n <? char_count s)
  then Err (path +:+ " exceeds maxLength")
  else
    match get_str "pattern" schema with
    | None => Ok tt
    | Some pattern =>
        match regex_is_match pattern s with
        | None => Err ("invalid configured pattern: " +:+ regex_error pattern)
        | Some true => Ok tt
        | Some false => Err (path +:+ " does not match the configured pattern")
        end
    end.
(** [failed] for one bound keyword. *)
Definition bound_failed (key : string) (n bound : spec_float) : bool :=
  if String.eqb key "minimum" then SFltb n bound
  else if String.eqb key "maximum" then SFltb bound n
  else if String.eqb key "exclusiveMinimum" then SFleb n bound
  else SFleb bound n.
Definition bound_keys : list string := ["minimum"; "maximum"; "exclusiveMinimum"; "exclusiveMaximum"].
Definition get_f64 (key : string) (v : value) : option spec_float :=
  match get key v with Some x => as_f64 x | None => None end.
Definition check_number (schema : value) (n : spec_float) (path : string) : result string unit :=
  for_each (fun key =>
    fail_if (is_some_and (get_f64 key schema) (bound_failed key n)) (path +:+ " violates " +:+ key))
    bound_keys.
Definition check_length (schema : value) (len : Z) (path : string) : result string unit :=
  if is_some_and (get_u64 "minItems" schema) (fun n => len <? n)
  then Err (path +:+ " has fewer than minItems")
  else if is_some_and (get_u64 "maxItems" schema) (fun n => n <? len)
  then Err (path +:+ " exceeds maxItems")
  else Ok tt.

Fixpoint validate_value (schema v : value) (path : string) {struct v} : result string unit :=
  _ ← check_common schema v path;
  match v with
  | Object obj =>
      _ ← check_required schema obj path;
      for_each (fun e : string * value =>
        let '(key, item) := e in
        let sub_path := path +:+ "." +:+ key in
        match property_schema schema key with
        | None => Err (sub_path +:+ " is not allowed")
        | Some None => Ok tt
        | Some (Some sub) => validate_value sub item sub_path
        end) obj
  | Array arr =>
      _ ← (match get "items" schema with
           | None => Ok tt
           | Some item_schema =>
               for_each_i (fun i item =>
                 validate_value item_schema item (path +:+ "[" +:+ show_nat i +:+ "]")) 0 arr
           end);
      check_length schema (Z.of_nat (length arr)) path
  | Str s => check_string schema s path
  | Number n => check_number schema (number_as_f64 n) path
  | _ => Ok tt
  end.
Definition validate_arguments_at (schema args : value) (path : string) : result string unit :=
  validate_value schema args path.
Definition validate_arguments (schema args : value) : result string unit :=
  validate_arguments_at schema args "$".

(** ** What conformance means *)
Definition string_ok (schema : value) (s : string) : Prop :=
  (forall n, get_u64 "minLength" schema = Some n -> n <= char_count s)
  /\ (forall n, get_u64 "maxLength" schema = Some n -> char_count s <= n)
  /\ (forall p, get_str "pattern" schema = Some p -> regex_is_match p s = Some true).
Definition number_ok (schema : value) (n : spec_float) : Prop :=
  (forall b, get_f64 "minimum" schema = Some b -> SFltb n b = false)
  /\ (forall b, get_f64 "maximum" schema = Some b -> SFltb b n = false)
  /\ (forall b, get_f64 "exclusiveMinimum" schema = Some b -> SFleb n b = false)
  /\ (forall b, get_f64 "exclusiveMaximum" schema = Some b -> SFleb b n = false).
Definition length_ok (schema : value) (len : Z) : Prop :=
  (forall n, get_u64 "minItems" schema = Some n -> n <= len)
  /\ (forall n, get_u64 "maxItems" schema = Some n -> len <= n).
Definition common_ok (schema v : value) : Prop :=
  has_type (schema_kind schema) v = true
  /\ (forall allowed, get_array "enum" schema = Some allowed ->
        exists x, x ∈ allowed /\ value_eqb v x = true)
  /\ (forall x, get "const" schema = Some x -> value_eqb x v = true).

Inductive conforms : value -> value -> Prop :=
| conforms_object schema obj :
    common_ok schema (Object obj) ->
    (forall required key, get_array "required" schema = Some required -> Str key ∈ required ->
       is_some (assoc key obj) = true) ->
    (forall key item, (key, item) ∈ obj -> property_schema schema key <> None) ->
    (forall key item sub, (key, item) ∈ obj -> property_schema schema key = Some (Some sub) ->
       conforms sub item) ->
    conforms schema (Object obj)
| conforms_array schema arr :
    common_ok schema (Array arr) ->
    (forall item_schema item, get "items" schema = Some item_schema -> item ∈ arr ->
       conforms item_schema item) ->
    length_ok schema (Z.of_nat (length arr)) ->
    conforms schema (Array arr)
| conforms_string schema s : common_ok schema (Str s) -> string_ok schema s -> conforms schema (Str s)
| conforms_number schema n :
    common_ok schema (Number n) -> number_ok schema (number_as_f64 n) -> conforms schema (Number n)
| conforms_bool schema b : common_ok schema (Bool b) -> conforms schema (Bool b)
| conforms_null schema : common_ok schema Null -> conforms schema Null.
End validate.

(** * Lemmas *)
Section lemmas.
Context `{P : Platform}.

Lemma check_common_ok schema v path : check_common schema v path = Ok tt <-> common_ok schema v.
Proof.
  unfold check_common, common_ok. rewrite !if_err_ok, !is_some_and_false, negb_false_iff.
  split.
  - intros (Ht & He & Hc & _). split_and!; [done| |].
    + intros allowed Ha. apply He, negb_false_iff, existsb_exists in Ha as (x & Hx & Hv).
      exists x. by rewrite list_elem_of_In.
    + intros x Hx. apply Hc in Hx. by apply negb_false_iff.
  - intros (Ht & He & Hc). split_and!; [done| | |done].
    + intros allowed Ha. apply negb_false_iff, existsb_exists.
      destruct (He allowed Ha) as (x & Hx & Hv). exists x. by rewrite <- list_elem_of_In.
    + intros x Hx. apply negb_false_iff. auto.
Qed.

Lemma elem_of_strings key l : key ∈ filter_map as_str l <-> Str key ∈ l.
Proof.
  unfold filter_map. rewrite !list_elem_of_In, in_flat_map. split.
  - intros (x & Hx & Hk). destruct x; cbn in Hk; try done. by destruct Hk as [->|[]].
  - intros H. exists (Str key). split; [done|by left].
Qed.

Lemma check_required_ok schema obj path :
  check_required schema obj path = Ok tt <->
  forall required key, get_array "required" schema = Some required -> Str key ∈ required ->
    is_some (assoc key obj) = true.
Proof.
  unfold check_required. destruct (get_array "required" schema) as [required|]; [|done].
  rewrite for_each_ok. split.
  - intros H ? key [= <-] Hk. apply elem_of_strings, H, fail_if_ok, negb_false_iff in Hk. done.
  - intros H key Hk. apply fail_if_ok, negb_false_iff. apply elem_of_strings in Hk. by eapply H.
Qed.

Lemma check_string_ok schema s path : check_string schema s path = Ok tt <-> string_ok schema s.
Proof.
  unfold check_string, string_ok. rewrite !if_err_ok, !is_some_and_false.
  setoid_rewrite Z.ltb_ge. destruct (get_str "pattern" schema) as [p|].
  - destruct (regex_is_match p s) as [[]|] eqn:E; naive_solver.
  - naive_solver.
Qed.

Lemma check_number_ok schema n path : check_number schema n path = Ok tt <-> number_ok schema n.
Proof.
  unfold check_number, number_ok. rewrite for_each_ok. unfold bound_keys.
  assert (forall key, fail_if (is_some_and (get_f64 key schema) (bound_failed key n))
            (path +:+ " violates " +:+ key) = Ok tt <->
          forall b, get_f64 key schema = Some b -> bound_failed key n b = false) as Hkey
    by (intros key; rewrite fail_if_ok; apply is_some_and_false).
  split.
  - intros H. split_and!; intros b Hb; refine (proj1 (Hkey _) (H _ _) b Hb);
      rewrite !elem_of_cons; tauto.
  - intros (H1 & H2 & H3 & H4) key Hk. apply Hkey. intros b Hb.
    rewrite !elem_of_cons, elem_of_nil in Hk. destruct Hk as [->|[->|[->|[->|[]]]]]; cbn; auto.
Qed.

Lemma check_length_ok schema len path : check_length schema len path = Ok tt <-> length_ok schema len.
Proof.
  unfold check_length, length_ok. rewrite !if_err_ok, !is_some_and_false.
  setoid_rewrite Z.ltb_ge. naive_solver.
Qed.

Lemma common_bind {A} schema v path (r : result string A) x :
  check_common schema v path ≫= (fun _ => r) = Ok x <-> common_ok schema v /\ r = Ok x.
Proof.
  rewrite bind_ok, <- (check_common_ok schema v path). split.
  - intros ([] & H & Hr). done.
  - intros [H Hr]. by exists tt.
Qed.

Lemma validate_value_spec v :
  forall schema path, validate_value schema v path = Ok tt <-> conforms schema v.
Proof.
  induction v as [|b|n|s|arr IH|obj IH] using value_rect_strong; intros schema path;
    cbn [validate_value]; rewrite common_bind.
  - split; [intros []; by constructor|]. intros H; by inversion H.
  - split; [intros []; by constructor|]. intros H; by inversion H.
  - rewrite check_number_ok. split; [intros []; by constructor|]. intros H; by inversion H.
  - rewrite check_string_ok. split; [intros []; by constructor|]. intros H; by inversion H.
  - rewrite bind_ok. setoid_rewrite check_length_ok. split.
    + intros (Hc & [] & Hi & Hl). constructor; [done| |done].
      intros item_schema item Hs Hin. rewrite Hs in Hi. rewrite for_each_i_ok in Hi.
      apply list_elem_of_lookup in Hin as [j Hj]. eapply IH; [by eapply list_elem_of_lookup_2|].
      exact (Hi j item Hj).
    + intros H. inversion H as [|? ? Hc Hi Hl| | | |]; subst. split; [done|]. exists tt. split; [|done].
      destruct (get "items" schema) as [item_schema|]; [|done].
      apply for_each_i_ok. intros j x Hj. apply list_elem_of_lookup_2 in Hj. apply IH; eauto.
  - rewrite bind_ok. split.
    + intros (Hc & [] & Hr & Ho). rewrite check_required_ok in Hr. rewrite for_each_ok in Ho.
      constructor; [done|done| |].
      * intros key item Hin Hn. specialize (Ho _ Hin). cbn in Ho. by rewrite Hn in Ho.
      * intros key item sub Hin Hs. specialize (Ho _ Hin). cbn in Ho. rewrite Hs in Ho.
        eapply IH; [exact Hin|exact Ho].
    + intros H. inversion H as [? ? Hc Hr Hn Hs| | | | |]; subst. split; [done|]. exists tt.
      split; [by apply check_required_ok|]. apply for_each_ok. intros [key item] Hin.
      destruct (property_schema schema key) as [[sub|]|] eqn:E; [|done|].
      * eapply IH; [exact Hin|]. by eapply Hs.
      * by destruct (Hn key item Hin).
Qed.
End lemmas.

(** * Properties *)

