(* ===== verification/Diagnostics.v ===== *)
(** * Compaction diagnostics ([diagnostics.rs])

    Diagnostic records form an append-only journal per family, numbered from
    1.  A session keeps, for each family, the number of records, the most
    recent 32 payloads, and the records not yet committed.  [represents]
    relates a session to the whole journal; recording refines appending to the
    journal, and hydrating a session from the archive restores its view. *)
From S2P Require Import Prelude Text Json Encoding Session Logic.
Local Open Scope string_scope.
Local Open Scope Z_scope.

Definition RECENT : nat := 32.
Definition FAMILIES : list string :=
  ["compaction_events"; "compaction_attempts"; "compaction_decisions"].

(** ** Operations *)
Definition trim_recent {A} (items : list A) : list A := drop (length items - RECENT) items.
Definition count_of (family : string) (s : Session) : Z :=
  unwrap_or (diagnostic_counts s !! family) 0.
Definition refresh_completeness (s : Session) : Session :=
  s <| diagnostics_complete :=
    forallb (fun lf => count_of (snd lf) s =? Z.of_nat (fst lf))
      (zip [length (compaction_events s); length (compaction_attempts s);
            length (compaction_decisions s)] FAMILIES) |>.
Definition accepted_item (payload : value) : bool := value_eqb (index payload "accepted") (Bool true).
Definition reduction_of (payload : value) : option Z :=
  opt_or (as_i64 (index payload "reduction_tokens"))
    (before ← as_i64 (index payload "before_estimated_tokens");
     after ← as_i64 (index payload "after_estimated_tokens");
     checked_sub64 before after).

Section diagnostics.
Context {W : Type}.

Definition append (family_ : string) (payload : value) : M W unit :=
  count ← gets (count_of family_);
  ordinal_ ← lift (ok_or "diagnostic ordinal overflow" (checked_add64 count 1));
  _ ← (if String.eqb family_ "compaction_events" then
         text ← lift (ok_or "invalid compaction event" (as_str payload));
         modify (fun s => s <| compaction_events ::= fun l => trim_recent (l ++ [text])%list |>)
       else if String.eqb family_ "compaction_attempts" then
         modify (fun s =>
           let s :=
             if negb (accepted_item payload)
             then s <| diagnostic_rejections ::= fun n => add64 n 1 |>
             else match reduction_of payload with
                  | Some reduction => s <| compaction_savings_total ::= fun n => add64 n reduction |>
                  | None => s <| compaction_savings_known := false |>
                  end in
           s <| compaction_attempts ::= fun l => trim_recent (l ++ [payload])%list |>)
       else if String.eqb family_ "compaction_decisions" then
         modify (fun s => s <| compaction_decisions ::= fun l => trim_recent (l ++ [payload])%list |>)
       else throw ("unknown diagnostic family '" +:+ family_ +:+ "'"));
  modify (fun s => refresh_completeness
    (s <| diagnostic_counts ::= <[family_ := ordinal_]> |>
       <| diagnostics_pending ::= fun l =>
            (l ++ [{| family := family_; ordinal := ordinal_; diag_payload := payload |}])%list |>)).

(** Imports the arrays of a snapshot that has no journal yet. *)
Definition stage : M W unit :=
  s ← get_session;
  if negb (bool_decide (diagnostic_counts s = ∅)) then mret tt
  else
    let events := compaction_events s in
    let attempts := compaction_attempts s in
    let decisions := compaction_decisions s in
    _ ← modify (fun s =>
      s <| compaction_events := [] |> <| compaction_attempts := [] |>
        <| compaction_decisions := [] |> <| diagnostic_rejections := 0 |>
        <| compaction_savings_total := 0 |>
        <| compaction_savings_known :=
             (length (List.filter accepted_item attempts) =? length events)%nat |>);
    _ ← mfor (append "compaction_events") (map Str events);
    _ ← mfor (append "compaction_attempts") attempts;
    mfor (append "compaction_decisions") decisions.

Definition record (family_ : string) (payload : value) : M W unit :=
  if negb (str_in family_ FAMILIES)
  then throw ("unknown diagnostic family '" +:+ family_ +:+ "'")
  else if String.eqb family_ "compaction_events" && negb (is_string payload)
  then throw "compaction event must contain a summary string"
  else _ ← stage; append family_ payload.

(** [hydrate]: the archive read back, family by family. *)
Definition record_eqb (a b : DiagnosticRecord) : bool :=
  String.eqb (family a) (family b) && (ordinal a =? ordinal b)
  && value_eqb (diag_payload a) (diag_payload b).
Fixpoint list_eqb {A} (eqb : A -> A -> bool) (a b : list A) : bool :=
  match a, b with
  | [], [] => true
  | x :: a', y :: b' => eqb x y && list_eqb eqb a' b'
  | _, _ => false
  end.
Definition record_leb (a b : DiagnosticRecord) : bool :=
  if String.eqb (family a) (family b) then ordinal a <=? ordinal b
  else String.leb (family a) (family b).
(** The [if legacy] block. *)
Definition check_legacy (records : list DiagnosticRecord) (legacy : bool) : M W unit :=
  if legacy then
    _ ← stage;
    pending ← gets diagnostics_pending;
    lift (fail_if (negb (list_eqb record_eqb (sort_by record_leb pending) records))
            "legacy diagnostic snapshot differs from archived history")
  else mret tt.
Definition restore_row (family_ : string) (row : DiagnosticRecord) : M W unit :=
  if String.eqb family_ "compaction_events" then
    text ← lift (ok_or "invalid archived compaction event" (as_str (diag_payload row)));
    modify (fun s => s <| compaction_events ::= fun l => (l ++ [text])%list |>)
  else if String.eqb family_ "compaction_attempts" then
    modify (fun s => s <| compaction_attempts ::= fun l => (l ++ [diag_payload row])%list |>)
  else modify (fun s => s <| compaction_decisions ::= fun l => (l ++ [diag_payload row])%list |>).
Definition hydrate_family (records : list DiagnosticRecord) (counts : gmap string Z)
    (legacy : bool) (family_ : string) : M W unit :=
  expected ← gets (count_of family_);
  let actual := unwrap_or (counts !! family_) 0 in
  _ ← lift (fail_if ((expected <? 0) || negb (actual =? expected))
    ("diagnostic counter differs from archived history: family=" +:+ family_
     +:+ " expected=" +:+ show_Z expected +:+ " stored=" +:+ show_Z actual));
  let rows := List.filter (fun row => String.eqb (family row) family_) records in
  let retained := if legacy then Z.to_nat expected else Nat.min (Z.to_nat expected) RECENT in
  _ ← lift (fail_if (negb (length rows =? retained)%nat
        || existsb (fun ir => negb (ordinal (snd ir)
              =? expected - Z.of_nat retained + Z.of_nat (fst ir) + 1)) (enumerate rows))
      ("diagnostic recent history has a gap: family=" +:+ family_));
  mfor (restore_row family_) (drop (length rows - RECENT) rows).
Definition hydrate (records : list DiagnosticRecord) (counts : gmap string Z) : M W unit :=
  legacy ← gets (fun s => bool_decide (diagnostic_counts s = ∅));
  _ ← check_legacy records legacy;
  families ← gets (fun s => map fst (map_to_list (diagnostic_counts s)));
  _ ← lift (fail_if (existsb (fun f => negb (str_in f FAMILIES)) families)
        "unknown diagnostic counter family");
  _ ← modify (fun s => s <| compaction_events := [] |> <| compaction_attempts := [] |>
                         <| compaction_decisions := [] |>);
  _ ← mfor (hydrate_family records counts legacy) FAMILIES;
  modify (fun s => refresh_completeness (s <| diagnostics_pending := [] |>)).
End diagnostics.

Definition conflict `{Platform} (family_ : string) (ordinal_ : Z) (expected stored : value) : string :=
  "diagnostic ordinal reused with changed payload: family=" +:+ family_ +:+ " ordinal="
  +:+ show_Z ordinal_ +:+ " proposed_sha256=" +:+ sha256_hex (canonical_json expected)
  +:+ " stored_sha256=" +:+ sha256_hex (canonical_json stored).

(** ** The journal a session stands for *)
Definition of_family (f : string) (j : list DiagnosticRecord) : list DiagnosticRecord :=
  List.filter (fun r => String.eqb (family r) f) j.
Definition cache (f : string) (s : Session) : list value :=
  if String.eqb f "compaction_events" then map Str (compaction_events s)
  else if String.eqb f "compaction_attempts" then compaction_attempts s
  else compaction_decisions s.
Record represents (j : list DiagnosticRecord) (s : Session) : Prop := {
  rep_families : forall r, r ∈ j -> family r ∈ FAMILIES;
  rep_counts : forall f, diagnostic_counts s !! f
    = if decide (of_family f j = []) then None else Some (Z.of_nat (length (of_family f j)));
  rep_ordinals : forall f i r, of_family f j !! i = Some r -> ordinal r = Z.of_nat i + 1;
  rep_cache : forall f, f ∈ FAMILIES -> cache f s = trim_recent (map diag_payload (of_family f j));
  rep_pending : exists committed, j = (committed ++ diagnostics_pending s)%list
}.

(** * Lemmas *)

Lemma of_family_app f j r : of_family f (j ++ [r]) =
  (of_family f j ++ if String.eqb (family r) f then [r] else [])%list.
Proof. unfold of_family. rewrite List.filter_app. cbn. by destruct (String.eqb (family r) f). Qed.

Lemma trim_recent_app {A} (l : list A) x :
  trim_recent (trim_recent l ++ [x]) = trim_recent (l ++ [x]).
Proof.
  unfold trim_recent. rewrite !length_app, length_drop. cbn [length].
  destruct (decide (length l <= RECENT)%nat) as [Hl|Hl].
  { replace (length l - RECENT)%nat with 0%nat by lia. rewrite drop_0. do 2 f_equal. lia. }
  rewrite !drop_app_le by (rewrite ?length_drop; unfold RECENT in *; lia).
  f_equal. rewrite drop_drop. f_equal. unfold RECENT in *. lia.
Qed.

Lemma trim_recent_map {A B} (f : A -> B) l : trim_recent (map f l) = map f (trim_recent l).
Proof. unfold trim_recent. by rewrite length_map, skipn_map. Qed.

Lemma trim_recent_length {A} (l : list A) : (length (trim_recent l) <= RECENT)%nat.
Proof. unfold trim_recent. rewrite length_drop. lia. Qed.

Lemma of_family_all_nil j :
  (forall r, r ∈ j -> family r ∈ FAMILIES) -> (forall f, of_family f j = []) -> j = [].
Proof.
  destruct j as [|r j]; [done|]. intros _ H. specialize (H (family r)).
  cbn in H. by rewrite String.eqb_refl in H.
Qed.

Lemma families_cases f :
  f ∈ FAMILIES <-> f = "compaction_events" \/ f = "compaction_attempts" \/ f = "compaction_decisions".
Proof. unfold FAMILIES. rewrite !elem_of_cons, elem_of_nil. tauto. Qed.

Lemma represents_count j s f :
  represents j s -> count_of f s = Z.of_nat (length (of_family f j)).
Proof.
  intros H. unfold count_of. rewrite (rep_counts _ _ H). case_decide as E; [by rewrite E|done].
Qed.

Lemma represents_empty j s : represents j s -> diagnostic_counts s = ∅ -> j = [].
Proof.
  intros H He. apply of_family_all_nil; [apply H|]. intros f. pose proof (rep_counts _ _ H f) as Hf.
  rewrite He, lookup_empty in Hf. by case_decide.
Qed.

Section refinement.
Context {W : Type}.

(** Importing has no effect on a session that stands for a journal. *)
Lemma stage_represents j s (w : W) :
  represents j s ->
  exists s', stage (s, w) = (Ok tt, (s', w)) /\ represents j s'
             /\ (diagnostic_counts s <> ∅ -> s' = s).
Proof.
  intros H. unfold stage. mrun. case_bool_decide as E; cbn [negb]; mrun; [|by exists s].
  assert (j = []) as -> by (by eapply represents_empty).
  destruct H as [H1 H2 H3 H4 [c H5]].
  assert (forall f, f ∈ FAMILIES -> cache f s = []) as Hc by (intros f Hf; by rewrite H4).
  pose proof (Hc "compaction_events" ltac:(by apply families_cases; auto)) as He. cbn in He.
  pose proof (Hc "compaction_attempts" ltac:(by apply families_cases; auto)) as Ha. cbn in Ha.
  pose proof (Hc "compaction_decisions" ltac:(by apply families_cases; auto)) as Hd. cbn in Hd.
  rewrite He, Ha, Hd. cbn [map]. mrun. eexists. split; [done|]. split; [|done].
  constructor; cbn; [done|done|done| |].
  - intros f Hf. unfold cache. cbn. by case_ifs.
  - by exists c.
Qed.

(** Appending to a family appends to the journal. *)
Lemma append_represents j s (w : W) f payload :
  represents j s -> f ∈ FAMILIES ->
  (f = "compaction_events" -> is_string payload = true) ->
  Z.of_nat (length (of_family f j)) < i64_max ->
  exists s', append f payload (s, w) = (Ok tt, (s', w))
    /\ represents (j ++ [{| family := f; ordinal := Z.of_nat (length (of_family f j)) + 1;
                            diag_payload := payload |}]) s'
    /\ diagnostic_counts s' <> ∅.
Proof.
  intros H Hf Hs Hb. unfold append. mrun. rewrite (represents_count j s f H).
  set (n := Z.of_nat (length (of_family f j))) in *.
  assert (checked_add64 n 1 = Some (n + 1)) as ->.
  { unfold checked_add64. replace (in_i64 (n + 1)) with true; [done|]. symmetry.
    apply in_i64_spec. unfold i64_min. unfold n in *. lia. }
  cbn [ok_or]. mrun. set (r := {| family := f; ordinal := n + 1; diag_payload := payload |}).
  assert (forall s1, diagnostic_counts s1 = diagnostic_counts s ->
    diagnostics_pending s1 = diagnostics_pending s ->
    (forall g, g ∈ FAMILIES -> cache g s1 =
      if String.eqb f g then trim_recent (cache g s ++ [payload])%list else cache g s) ->
    represents (j ++ [r]) (refresh_completeness
      (s1 <| diagnostic_counts ::= <[f := n + 1]> |>
          <| diagnostics_pending ::= fun l => (l ++ [r])%list |>))) as Hrep.
  { intros s1 E1 E2 E3. constructor.
    - intros x Hx. apply elem_of_app in Hx as [Hx|Hx%list_elem_of_singleton]; [by apply H|by subst].
    - intros g. rewrite of_family_app. cbn [family r]. change (diagnostic_counts (refresh_completeness ?x)) with (diagnostic_counts x).
      cbn [diagnostic_counts upd]. cbn. rewrite E1. destruct (String.eqb_spec f g) as [<-|Hne].
      + rewrite lookup_insert_eq. rewrite decide_False by (by destruct (of_family f j)).
        rewrite length_app. cbn. f_equal. unfold n. lia.
      + rewrite lookup_insert_ne by done. rewrite app_nil_r. apply H.
    - intros g i x. rewrite of_family_app. cbn [family r]. destruct (String.eqb_spec f g) as [<-|Hne].
      + rewrite lookup_app. destruct (of_family f j !! i) eqn:E; [intros [= <-]; by eapply H|].
        apply lookup_ge_None in E. intros [Hi <-]%list_lookup_singleton_Some.
        cbn. unfold n. lia.
      + rewrite app_nil_r. apply H.
    - intros g Hg. rewrite of_family_app. cbn [family r].
      transitivity (cache g s1); [unfold cache; case_ifs; done|]. rewrite (E3 g Hg).
      destruct (String.eqb_spec f g) as [<-|Hne].
      + rewrite (rep_cache _ _ H) by done. rewrite map_app. apply trim_recent_app.
      + rewrite app_nil_r. by apply H.
    - destruct (rep_pending _ _ H) as [c Hc]. exists c. cbn. rewrite E2, Hc. by rewrite <- app_assoc. }
  assert (forall s1, diagnostic_counts (refresh_completeness
      (s1 <| diagnostic_counts ::= <[f := n + 1]> |>
          <| diagnostics_pending ::= fun l => (l ++ [r])%list |>)) <> ∅) as Hne
    by (intros s1; cbn; apply insert_non_empty).
  apply families_cases in Hf as [->|[->| ->]].
  - destruct payload as [| | |text| |]; try by specialize (Hs eq_refl). cbn.
    eexists. split; [reflexivity|]. split; [|apply Hne]. apply Hrep; [done|done|].
    intros g Hg; apply families_cases in Hg as [->|[->| ->]]; cbn; [|done|done].
    change [Str text] with (map Str [text]). rewrite <- map_app. symmetry. apply trim_recent_map.
  - cbn. eexists. split; [reflexivity|]. split; [|apply Hne].
    apply Hrep; [by case_ifs; [done|destruct (reduction_of payload)]..|].
    intros g Hg; apply families_cases in Hg as [->|[->| ->]]; cbn; case_ifs; try done;
      by destruct (reduction_of payload).
  - cbn. eexists. split; [reflexivity|]. split; [|apply Hne]. apply Hrep; [done|done|].
    intros g Hg. by apply families_cases in Hg as [->|[->| ->]].
Qed.

Lemma restore_rows f rows s (w : W) :
  f ∈ FAMILIES ->
  (f = "compaction_events" -> forall r, r ∈ rows -> is_string (diag_payload r) = true) ->
  exists s', mfor (restore_row f) rows (s, w) = (Ok tt, (s', w))
    /\ cache f s' = (cache f s ++ map diag_payload rows)%list
    /\ (forall g, g ∈ FAMILIES -> g <> f -> cache g s' = cache g s)
    /\ diagnostic_counts s' = diagnostic_counts s.
Proof.
  intros Hf. revert s. induction rows as [|r rows IH]; intros s Hs.
  { exists s. rewrite app_nil_r. by mrun. }
  assert (exists s1, restore_row (W := W) f r (s, w) = (Ok tt, (s1, w))
    /\ cache f s1 = (cache f s ++ [diag_payload r])%list
    /\ (forall g, g ∈ FAMILIES -> g <> f -> cache g s1 = cache g s)
    /\ diagnostic_counts s1 = diagnostic_counts s) as (s1 & E & E1 & E2 & E3).
  { unfold restore_row. pose proof Hf as Hc. apply families_cases in Hc as [->|[->| ->]]; cbn.
    - assert (is_string (diag_payload r) = true) as Hr by (apply Hs; [done|left]).
      destruct (diag_payload r) as [| | |text| |]; try done. mrun. cbn.
      eexists. split; [reflexivity|]. unfold cache. cbn. rewrite map_app.
      split_and!; [done| |done]. intros g Hg Hne. rewrite eqb_ne by done. by case_ifs.
    - mrun. eexists. split; [reflexivity|]. unfold cache. cbn. split_and!; [done| |done].
      intros g Hg Hne. destruct (String.eqb_spec g "compaction_attempts"); [done|]. by case_ifs.
    - mrun. eexists. split; [reflexivity|]. unfold cache. cbn. split_and!; [done| |done].
      intros g Hg Hne. apply families_cases in Hg as [->|[->| ->]]; done. }
  destruct (IH s1) as (s' & H & H1 & H2 & H3).
  { intros He x Hx. apply Hs; [done|by right]. }
  exists s'. rewrite mfor_cons, E. split_and!; [done| | |congruence].
  - rewrite H1, E1. cbn. by rewrite <- app_assoc.
  - intros g Hg Hne. rewrite H2, E2 by done. done.
Qed.

Lemma trim_recent_id {A} (l : list A) : (length l <= RECENT)%nat -> trim_recent l = l.
Proof. intros H. unfold trim_recent. by replace (length l - RECENT)%nat with 0%nat by lia. Qed.

Lemma trim_recent_length_drop {A} (l : list A) :
  drop (length (trim_recent l) - RECENT) (trim_recent l) = trim_recent l.
Proof. apply trim_recent_id, trim_recent_length. Qed.

(** What the archive holds of a journal: the latest records of each family. *)
Definition archived (j records : list DiagnosticRecord) (counts : gmap string Z) : Prop :=
  forall f, f ∈ FAMILIES ->
    of_family f records = trim_recent (of_family f j)
    /\ unwrap_or (counts !! f) 0 = Z.of_nat (length (of_family f j)).

Lemma hydrate_family_archived j s0 s (w : W) records counts f :
  represents j s0 -> archived j records counts -> f ∈ FAMILIES ->
  diagnostic_counts s = diagnostic_counts s0 -> cache f s = [] ->
  exists s', hydrate_family records counts false f (s, w) = (Ok tt, (s', w))
    /\ cache f s' = cache f s0
    /\ (forall g, g ∈ FAMILIES -> g <> f -> cache g s' = cache g s)
    /\ diagnostic_counts s' = diagnostic_counts s.
Proof.
  intros H Ha Hf Hc He. destruct (Ha f Hf) as [Hr Hn].
  unfold hydrate_family. mrun.
  assert (count_of f s = Z.of_nat (length (of_family f j))) as ->
    by (rewrite <- (represents_count j s0 f H); unfold count_of; by rewrite Hc).
  rewrite Hn, Z.eqb_refl. replace (_ <? 0) with false by lia. cbn [negb orb fail_if]. mrun.
  change (List.filter _ records) with (of_family f records). rewrite Hr, Nat2Z.id.
  set (rows := of_family f j) in *. unfold trim_recent at 1. rewrite length_drop.
  replace (length rows - (length rows - RECENT) =? Nat.min (length rows) RECENT)%nat with true
    by (symmetry; apply Nat.eqb_eq; unfold RECENT; lia).
  cbn [negb orb]. assert (existsb (fun ir => negb (ordinal (snd ir)
      =? Z.of_nat (length rows) - Z.of_nat (Nat.min (length rows) RECENT) + Z.of_nat (fst ir) + 1))
      (enumerate (trim_recent rows)) = false) as ->.
  { apply not_true_iff_false. rewrite existsb_exists. intros ([i r] & Hin & Hne).
    apply list_elem_of_In, elem_of_lookup_imap in Hin as (i' & r' & [= -> ->] & Hi). cbn in Hne.
    apply negb_true_iff, Z.eqb_neq in Hne. apply Hne. unfold trim_recent in Hi.
    rewrite lookup_drop in Hi. apply (rep_ordinals _ _ H) in Hi. rewrite Hi. unfold RECENT. lia. }
  cbn [fail_if]. mrun. rewrite trim_recent_length_drop.
  destruct (restore_rows f (trim_recent rows) s w) as (s' & E & E1 & E2 & E3); [done| |].
  { intros -> r Hin. pose proof (rep_cache _ _ H _ Hf) as Hca. cbn in Hca.
    rewrite trim_recent_map in Hca. apply (list_elem_of_fmap_2 diag_payload) in Hin.
    change (diag_payload <$> trim_recent rows) with (map diag_payload (trim_recent rows)) in Hin.
    unfold rows in Hin. rewrite <- Hca in Hin. apply list_elem_of_fmap in Hin as (t & -> & _). done. }
  exists s'. rewrite E. split_and!; [done| |done|done].
  rewrite E1, He. rewrite (rep_cache _ _ H _ Hf). symmetry. apply trim_recent_map.
Qed.
End refinement.

(** * Properties *)
Section properties.
Context {W : Type}.


(** C35: a session that keeps only the counters of a journal recovers, from the
    latest archived records of each family, exactly the caches of the session
    that wrote the journal, with nothing left to commit. *)
Theorem hydrate_restores_journal j s0 s (w : W) records counts :
  represents j s0 -> archived j records counts ->
  diagnostic_counts s = diagnostic_counts s0 -> diagnostic_counts s <> ∅ ->
  exists s', hydrate records counts (s, w) = (Ok tt, (s', w))
    /\ represents j s' /\ diagnostics_pending s' = []
    /\ forall f, f ∈ FAMILIES -> cache f s' = cache f s0.
Proof.
  intros H Ha Hc Hne. unfold hydrate. mrun. rewrite bool_decide_false by done. cbn [check_legacy]. mrun.
  assert (existsb (fun f => negb (str_in f FAMILIES)) (map fst (map_to_list (diagnostic_counts s)))
          = false) as ->.
  { apply not_true_iff_false. rewrite existsb_exists. intros (f & Hin & Hn).
    apply negb_true_iff, str_in_false in Hn. apply in_map_iff in Hin as ([g n] & <- & Hin).
    apply list_elem_of_In, elem_of_map_to_list in Hin. cbn in *. rewrite Hc in Hin.
    rewrite (rep_counts _ _ H) in Hin. case_decide as E; [done|]. apply Hn.
    destruct (of_family g j) as [|r l] eqn:Eg; [done|].
    assert (r ∈ of_family g j) as Hr by (rewrite Eg; left). apply list_elem_of_In in Hr.
    unfold of_family in Hr. apply filter_In in Hr as [Hr <-%String.eqb_eq].
    apply (rep_families _ _ H). by apply list_elem_of_In. }
  cbn [fail_if]. mrun.
  set (s1 := s <| compaction_events := [] |> <| compaction_attempts := [] |>
               <| compaction_decisions := [] |>).
  unfold FAMILIES at 1. rewrite !mfor_cons.
  destruct (hydrate_family_archived j s0 s1 w records counts "compaction_events")
    as (s2 & -> & A2 & B2 & C2); [done..|by left|done|done|].
  rewrite mfor_cons.
  destruct (hydrate_family_archived j s0 s2 w records counts "compaction_attempts")
    as (s3 & -> & A3 & B3 & C3); [done..|by apply families_cases; auto|by rewrite C2| |].
  { rewrite B2; [done|by apply families_cases; auto|done]. }
  rewrite mfor_cons.
  destruct (hydrate_family_archived j s0 s3 w records counts "compaction_decisions")
    as (s4 & -> & A4 & B4 & C4); [done..|by apply families_cases; auto|by rewrite C3, C2| |].
  { rewrite B3, B2; [done|by apply families_cases; auto|done|by apply families_cases; auto|done]. }
  rewrite mfor_nil. mrun. eexists. split; [reflexivity|].
  assert (forall f, f ∈ FAMILIES -> cache f s4 = cache f s0) as Hcache.
  { intros f Hf. apply families_cases in Hf as [->|[->| ->]]; [|..|done].
    - rewrite B4, B3; [done|by apply families_cases; auto|done|by apply families_cases; auto|done].
    - rewrite B4; [done|by apply families_cases; auto|done]. }
  split_and!; [|done|].
  - constructor; [apply H| |apply H| |].
    + intros f. cbn. rewrite C4, C3, C2. cbn. rewrite Hc. apply H.
    + intros f Hf. rewrite <- (rep_cache _ _ H f Hf). rewrite <- Hcache by done.
      unfold cache. by case_ifs.
    + exists j. cbn. by rewrite app_nil_r.
  - intros f Hf. rewrite <- Hcache by done. unfold cache. by case_ifs.
Qed.
End properties.

(** ** Witnesses *)
Definition sample_session : Session := default_session "s" "the goal" "active".

Lemma sample_represents : represents [] sample_session.
Proof.
  constructor; [|done|done| |by exists []].
  - intros r Hr. by apply elem_of_nil in Hr.
  - intros f Hf. by apply families_cases in Hf as [->|[->| ->]].
Qed.

(** The session after one recorded decision. *)
Lemma record_represents_sample :
  exists s0, represents [{| family := "compaction_decisions"; ordinal := 1; diag_payload := Null |}] s0
    /\ diagnostic_counts s0 = {["compaction_decisions" := 1]} /\ compaction_decisions s0 = [Null].
Proof.
  destruct (append_represents [] sample_session tt "compaction_decisions" Null)
    as (s' & E & H & _); [apply sample_represents|apply families_cases; auto|done|done|].
  exists s'. split; [done|]. apply (f_equal (fun x => fst (snd x))) in E. cbn [fst snd] in E.
  rewrite <- E. split; reflexivity.
Qed.


Lemma hydrate_restores_journal_witness :
  let j := [{| family := "compaction_decisions"; ordinal := 1; diag_payload := Null |}] in
  let s := sample_session <| diagnostic_counts := {["compaction_decisions" := 1]} |> in
  exists s', hydrate (W := unit) j {["compaction_decisions" := 1]} (s, tt) = (Ok tt, (s', tt))
    /\ compaction_decisions s' = [Null].
Proof.
  intros j s.
  destruct (record_represents_sample) as (s0 & H0 & Hc & Hd).
  destruct (hydrate_restores_journal j s0 s tt j {["compaction_decisions" := 1]})
    as (s' & E & _ & _ & F).
  - exact H0.
  - intros f Hf. apply families_cases in Hf as [->|[->| ->]]; vm_compute; auto.
  - rewrite Hc. reflexivity.
  - discriminate.
  - exists s'. split; [exact E|].
    specialize (F "compaction_decisions" ltac:(apply families_cases; auto)). cbn in F. congruence.
Defined.
