(* ===== verification/Outcome.v ===== *)
(** * Evidence and deliverables ([engine.rs], final helpers)

    How an executed tool call is matched against configured evidence, how a
    deliverable is extracted from a tool result, and how a final answer is
    checked against it.  Numbers are compared by decimal value;
    [decimal_equal_iff] shows that the textual normalisation decides exactly
    that. *)
From S2P Require Import Prelude Text Decimal Json Encoding Session.
From Stdlib Require Import Ascii.
Local Open Scope string_scope.
Local Open Scope Z_scope.

(** ** Decimal comparison *)
Definition checked_i64 (z : Z) : option Z := if in_i64 z then Some z else None.
(** [mantissa.split('.')]: the pieces between dots. *)
Definition split_dots (s : string) : list string := split_on (String.eqb ".") s.
(** Sign, whole part, fraction and exponent: the reading part of
    [decimal_equal::canonical]. *)
Definition scan_decimal (value : string) : option (bool * string * string * Z) :=
  let value := trim value in
  '(mantissa, exponent) ←
    match find_byte is_exp_char value with
    | Some i => e ← parse_i64 (drop_bytes (S i) value); Some (take_bytes i value, e)
    | None => Some (value, 0)
    end;
  let '(negative, mantissa) :=
    match strip_prefix mantissa "-" with
    | Some rest => (true, rest)
    | None => (false, unwrap_or (strip_prefix mantissa "+") mantissa)
    end in
  '(whole, fraction) ←
    match split_dots mantissa with
    | [whole] => Some (whole, "")
    | [whole; fraction] => Some (whole, fraction)
    | _ => None
    end;
  if (is_empty whole && is_empty fraction) || negb (all_digits whole && all_digits fraction) then None
  else Some (negative : bool, whole, fraction, exponent).
(** [decimal_equal::canonical] *)
Definition decimal_parts (value : string) : option (bool * string * Z) :=
  '(negative, whole, fraction, exponent) ← scan_decimal value;
  let digits := trim_start_matches "0" (whole +:+ fraction) in
  if is_empty digits then Some (false, "0", 0)
  else
    '(digits, power) ← normalise checked_i64 digits (exponent - byte_len fraction);
    Some (negative : bool, digits, power).
Definition decimal_equal (left right : string) : bool :=
  match decimal_parts left, decimal_parts right with
  | Some (n1, d1, p1), Some (n2, d2, p2) => Bool.eqb n1 n2 && String.eqb d1 d2 && (p1 =? p2)
  | _, _ => false
  end.

(** ** Paths *)
Definition get_value (part : value) (v : value) : option value :=
  match as_str part with
  | Some key => get key v
  | None => match as_u64 part with Some i => get_index (Z.to_nat i) v | None => None end
  end.
Definition value_at_path (v : value) (path : option (list value)) : option value :=
  foldl (fun acc part => v ← acc; get_value part v) (Some v) (unwrap_or path []).

Section outcome.
Context `{P : Platform}.

(** ** Matching *)
Fixpoint typed_equal (a b : value) {struct a} : bool :=
  match a, b with
  | Bool x, Bool y => Bool.eqb x y
  | Number x, Number y => decimal_equal (number_text x) (number_text y)
  | Array x, Array y =>
      (length x =? length y)%nat
      && (fix all2 (x y : list value) : bool :=
            match x, y with
            | v :: x', w :: y' => typed_equal v w && all2 x' y'
            | _, _ => true
            end) x y
  | Object x, Object y =>
      (length x =? length y)%nat
      && forallb (fun e => match assoc (fst e) y with
                           | Some other => typed_equal (snd e) other
                           | None => false
                           end) x
  | _, _ => value_eqb a b
  end.
Fixpoint contains (a b : value) {struct b} : bool :=
  match b with
  | Object m =>
      match a with
      | Object x => forallb (fun e => match assoc (fst e) x with
                                      | Some q => contains q (snd e)
                                      | None => false
                                      end) m
      | _ => false
      end
  | Array l =>
      match a with
      | Array x => forallb (fun q => existsb (fun z => contains z q) x) l
      | _ => false
      end
  | _ => typed_equal a b
  end.
Definition empty_object_value (v : value) : bool := match v with Object [] => true | _ => false end.
Definition matches (e : Evidence) (n : string) (a : list (string * value)) (o : string) : bool :=
  String.eqb (ev_tool e) n
  && contains (Object a) (ev_arguments e)
  && forallb (fun x => contains_str (to_lowercase o) (to_lowercase x)) (content_contains e)
  && (is_null (ev_result e) || empty_object_value (ev_result e)
      || match json_from_str o with Ok x => contains x (ev_result e) | Err _ => false end).

(** ** Markdown tables *)
(** [Regex::new(pattern).unwrap().is_match(text)] for a literal pattern. *)
Definition literal_match (pattern text : string) : bool := unwrap_or (regex_is_match pattern text) false.
Definition rule_pattern : string := "^:?-{3,}:?$".
Definition drop_first_empty (cells : list string) : list string :=
  match cells with c :: rest => if is_empty c then rest else cells | [] => [] end.
Definition table_cells (trimmed : string) : list string :=
  let cells := drop_first_empty (map trim (split_on (String.eqb "|") trimmed)) in
  rev (drop_first_empty (rev cells)).
(** The loop over the lines, [rows] being those collected so far. *)
Fixpoint table_rows (rows : list (list string)) (ls : list string) : list (list string) :=
  match ls with
  | [] => rows
  | line :: rest =>
      let trimmed := trim line in
      if contains_str trimmed "|" then
        let cells := table_cells trimmed in
        if negb (length cells =? 0)%nat && forallb (literal_match rule_pattern) cells
        then table_rows rows rest
        else table_rows (if (length cells =? 0)%nat then rows else rows ++ [cells])%list rest
      else if negb (length rows =? 0)%nat then rows else table_rows rows rest
  end.
Definition row_value (row : list string) : value := Array (map Str row).
Definition parse_markdown_table (text : string) : option value :=
  match table_rows [] (lines text) with
  | header :: body =>
      if (length body <? 1)%nat
         || existsb (fun row => negb (length row =? length header)%nat) (header :: body)
      then None
      else if all_distinct (map (fun row => unwrap_or (head row) "") body)
      then Some (Array (map row_value (header :: body))) else None
  | [] => None
  end.

(** ** Extraction *)
Definition kind_of (check : value) : string := unwrap_or (get_str "kind" check) "".
Definition extract_result (check : value) (out : string) : option value :=
  let kind := kind_of check in
  if String.eqb kind "markdown_table" then parse_markdown_table out
  else
    parsed ← result_ok (parse_strict_json out);
    v ← value_at_path parsed (get_array "path" check);
    if String.eqb kind "number" && negb (is_number v) then None else Some v.

(** ** Checking an answer *)
Definition integer_pattern : string := "^[-+]?\d+$".
Definition numeric_cell_equal (actual expected : string) : bool :=
  if literal_match integer_pattern expected && negb (literal_match integer_pattern actual) then false
  else decimal_equal (replace "," "" actual) (replace "," "" expected) || String.eqb actual expected.
(** The closure [rows]: cells by row key; a repeated key is refused. *)
Fixpoint keyed_rows (acc : gmap string (list string)) (values : list value)
  : option (gmap string (list string)) :=
  match values with
  | [] => Some acc
  | row :: rest =>
      cells ← as_array row;
      first ← head cells;
      key ← as_str first;
      vals ← result_ok (collect (fun v => ok_or tt (as_str v)) (tail cells));
      match acc !! key with
      | Some _ => None
      | None => keyed_rows (<[key := vals]> acc) rest
      end
  end.
Definition cells_equal (found expected : list string) : bool :=
  (length found =? length expected)%nat
  && forallb (fun ab => numeric_cell_equal (fst ab) (snd ab)) (zip found expected).
Definition rows_equal (actual wanted : gmap string (list string)) : bool :=
  (size actual =? size wanted)%nat
  && forallb (fun ke => match actual !! fst ke with
                        | Some found => cells_equal found (snd ke)
                        | None => false
                        end) (map_to_list wanted).
Definition check_table (answer : string) (artifact : value) : bool :=
  let rows_ok :=
    table ← parse_markdown_table answer;
    actual_rows ← as_array table;
    wanted_rows ← as_array artifact;
    if negb (opt_value_eqb (head actual_rows) (head wanted_rows)) then None
    else
      actual ← keyed_rows ∅ (tail actual_rows);
      wanted ← keyed_rows ∅ (tail wanted_rows);
      Some (rows_equal actual wanted) in
  unwrap_or rows_ok false.
(** The loop over [answer_path]: a string part that is not a key is retried as
    nothing else; only an index may follow. *)
Definition answer_step (v part : value) : option value :=
  match (k ← as_str part; get k v) with
  | Some x => Some x
  | None => i ← as_u64 part; get_index (Z.to_nat i) v
  end.
Definition check_json_value (check : value) (answer : string) (artifact : value) : bool :=
  match parse_strict_json answer with
  | Err _ => false
  | Ok parsed =>
      match foldl (fun acc part => v ← acc; answer_step v part) (Some parsed)
              (unwrap_or (get_array "answer_path" check) []) with
      | Some v => typed_equal v artifact
      | None => false
      end
  end.
Definition number_answer_pattern (label : string) : string :=
  regex_escape label +:+ "\s*\$?\s*([-+]?(?:\d{1,3}(?:,\d{3})+|\d+)(?:\.\d+)?)".
(** The number is not the head of a longer one. *)
Definition boundary_ok (suffix : string) : bool :=
  match chars suffix with
  | [] => true
  | first :: rest =>
      negb (is_ascii_digit first || String.eqb first ",")
      && negb (String.eqb first "." && is_some_and (head rest) is_ascii_digit)
  end.
Definition check_number_answer (check : value) (answer : string) (artifact : value) : bool :=
  let label := unwrap_or (get_str "label" check) "" in
  match regex_captures (number_answer_pattern label) answer with
  | Some [(end_, number)] =>
      boundary_ok (drop_bytes end_ answer)
      && match artifact with
         | Number expected => decimal_equal (replace "," "" number) (number_text expected)
         | _ => false
         end
  | _ => false
  end.
Definition check_answer (check : value) (answer : string) (artifact : value) : bool :=
  let kind := kind_of check in
  if String.eqb kind "markdown_table" then check_table answer artifact
  else if String.eqb kind "json_value" then check_json_value check answer artifact
  else if String.eqb kind "number" then check_number_answer check answer artifact
  else false.

(** ** Describing a deliverable *)
Definition table_line (cells : list string) : string := "| " +:+ join " | " cells +:+ " |".
Definition describe_row (index : nat) (row : value) : list string :=
  let cells := map (fun c => unwrap_or (as_str c) "") (unwrap_or (as_array row) []) in
  table_line cells
  :: (if (index =? 0)%nat then [table_line (map (fun _ => "---") cells)] else []).
Definition describe_artifact (check artifact : value) : string :=
  let kind := kind_of check in
  if String.eqb kind "markdown_table" then
    match as_array artifact with
    | None => json_text artifact
    | Some rows => join nl (flat_map (fun ir => describe_row (fst ir) (snd ir)) (enumerate rows))
    end
  else if String.eqb kind "number" then
    unwrap_or (get_str "label" check) "Result" +:+ " " +:+ json_text artifact
  else
    "Expected JSON value at " +:+ debug_value (unwrap_or (get "answer_path" check) Null)
    +:+ ": " +:+ json_text artifact.
End outcome.

(** * Lemmas *)
Lemma checked_i64_exact z y : checked_i64 z = Some y -> y = z.
Proof. unfold checked_i64. destruct (in_i64 z); [by intros [= <-]|done]. Qed.

Lemma scan_decimal_digits a n w f e :
  scan_decimal a = Some (n, w, f, e) -> all_digits (w +:+ f) = true.
Proof.
  unfold scan_decimal. rewrite all_digits_app.
  destruct (match find_byte _ _ with Some _ => _ | None => _ end) as [[m ex]|]; [|done]. cbn.
  destruct (match strip_prefix m "-" with Some _ => _ | None => _ end) as [neg m'].
  destruct (match split_dots m' with [] => _ | _ => _ end) as [[w' f']|]; [|done]. cbn.
  destruct (all_digits w') eqn:E1, (all_digits f') eqn:E2; rewrite ?orb_true_r; try done.
  destruct (_ && _); [done|]. cbn. intros [= <- <- <- <-]. by rewrite E1, E2.
Qed.

Lemma decimal_parts_cases a n w f e x :
  scan_decimal a = Some (n, w, f, e) -> decimal_parts a = Some x ->
  all_digits (w +:+ f) = true
  /\ ((digits_val 0 (w +:+ f) = 0 /\ x = (false, "0", 0))
      \/ exists d q, trim_start_matches "0" (w +:+ f) <> ""
         /\ normalise checked_i64 (trim_start_matches "0" (w +:+ f)) (e - byte_len f) = Some (d, q)
         /\ x = (n, d, q)).
Proof.
  intros Ha. pose proof (scan_decimal_digits _ _ _ _ _ Ha) as Hd. unfold decimal_parts.
  rewrite Ha. cbn -[normalise trim_start_matches byte_len].
  destruct (is_empty (trim_start_matches "0" (w +:+ f))) eqn:Ez.
  - intros [= <-]. split; [done|]. left. split; [|done].
    apply trim_zeros_zero; [done|]. by destruct (trim_start_matches "0" (w +:+ f)).
  - destruct (normalise _ _ _) as [[d q]|] eqn:En; [|done]. cbn. intros [= <-]. split; [done|].
    right. exists d, q. split_and!; [|done|done]. intros E. by rewrite E in Ez.
Qed.

Lemma decimal_equal_parts a b x y :
  decimal_parts a = Some x -> decimal_parts b = Some y -> decimal_equal a b = true <-> x = y.
Proof.
  unfold decimal_equal. intros -> ->. destruct x as [[n d] p], y as [[n' d'] p'].
  rewrite !andb_true_iff, eqb_true_iff, String.eqb_eq, Z.eqb_eq. naive_solver.
Qed.

(** The normal form of a nonzero number is not the one of zero. *)
Lemma normal_not_zero s p d q :
  all_digits s = true -> trim_start_matches "0" s <> "" ->
  normalise checked_i64 (trim_start_matches "0" s) p = Some (d, q) -> d <> "0".
Proof.
  intros Hs Hn H ->. apply normalise_spec in H as (l & E & (_ & Hh & _) & _ & _); [|apply checked_i64_exact|done..].
  apply (f_equal String.list_ascii_of_string) in E.
  rewrite String.list_ascii_of_string_of_list_ascii in E. cbn in E.
  apply (f_equal (@rev ascii)) in E. rewrite rev_involutive in E. by rewrite <- E in Hh.
Qed.

(** * Properties *)

(** Deliverables are compared by decimal value: two texts that read as
    decimals within the exponent range compare equal exactly when they denote
    the same number. *)
Theorem decimal_equal_iff a n w f e b n' w' f' e' :
  scan_decimal a = Some (n, w, f, e) -> decimal_parts a <> None ->
  scan_decimal b = Some (n', w', f', e') -> decimal_parts b <> None ->
  decimal_equal a b = true
  <-> same_value (signed n (digits_val 0 (w +:+ f)), e - byte_len f)
                 (signed n' (digits_val 0 (w' +:+ f')), e' - byte_len f').
Proof.
  intros Ha Hx Hb Hy. destruct (decimal_parts a) as [x|] eqn:Ex; [|done].
  destruct (decimal_parts b) as [y|] eqn:Ey; [|done]. rewrite (decimal_equal_parts a b x y) by done.
  apply (decimal_parts_cases a n w f e) in Ex as (Hd & Ex); [|done].
  apply (decimal_parts_cases b n' w' f' e') in Ey as (Hd' & Ey); [|done].
  pose proof (normalise_pos checked_i64 checked_i64_exact) as Hpos.
  destruct Ex as [(Hz & ->)|(d & q & Hne & Hn & ->)], Ey as [(Hz' & ->)|(d' & q' & Hne' & Hn' & ->)].
  - rewrite Hz, Hz', same_value_zero by lia. done.
  - destruct (Hpos _ _ _ _ Hd' Hne' Hn') as (Hp & _). rewrite Hz, same_value_zero by lia.
    split; [|lia]. intros [= _ <- _]. exfalso. exact (normal_not_zero _ _ _ _ Hd' Hne' Hn' eq_refl).
  - destruct (Hpos _ _ _ _ Hd Hne Hn) as (Hp & _). rewrite Hz', same_value_sym, same_value_zero by lia.
    split; [|lia]. intros [= _ -> _]. exfalso. exact (normal_not_zero _ _ _ _ Hd Hne Hn eq_refl).
  - destruct (Hpos _ _ _ _ Hd Hne Hn) as (Hp & _), (Hpos _ _ _ _ Hd' Hne' Hn') as (Hp' & _).
    rewrite same_value_signed by done.
    rewrite <- (normalise_iff checked_i64 checked_i64_exact _ _ _ _ _ _ _ _ Hd Hne Hd' Hne' Hn Hn').
    naive_solver.
Qed.

Lemma decimal_equal_iff_witness : decimal_equal "92500.00" "9.25e4" = true.
Proof.
  refine (proj2 (decimal_equal_iff "92500.00" false "92500" "00" 0 "9.25e4" false "9" "25" 4 _ _ _ _) _);
    vm_compute; congruence.
Defined.
