(* ===== verification/Workflow.v ===== *)
(** * Workflow, evidence and completion ([engine.rs])

    The configured workflow is a graph of phases; a session carries the active
    phase, the phases left, the evidence observed and the transitions taken.
    This file holds the decisions the engine takes from that state: which tools
    are allowed, what is missing, when a phase is left, what a final answer
    lacks, what counts as progress, and the prompt that states it all. *)
From S2P Require Import Prelude Text Json Encoding Session Validate Outcome.
Local Open Scope string_scope.
Local Open Scope Z_scope.

Definition str_eqb (a b : string) : bool := String.eqb a b.
Definition opt_str_is (o : option string) (s : string) : bool := is_some_and o (String.eqb s).
Definition key (p c : string) (i : nat) : string := p +:+ ":" +:+ c +:+ ":" +:+ show_nat i.
Definition transition_label (n : nat) : string := "transition-" +:+ show_nat n.
Definition default_workflow (phase_ : string) : Workflow :=
  {| active_phase := Some phase_; completed_phases := []; observed_evidence := []; transitions := [] |}.

Section engine.
Context `{P : Platform} (config : Config).

(** ** The workflow graph *)
Definition phase (id_ : string) : option Phase :=
  w ← config_workflow config; find_first (fun p => String.eqb (phase_id p) id_) (phases w).
Definition complete (s : Session) : bool :=
  is_none (config_workflow config) || is_some_and (workflow s) (fun w => is_none (active_phase w)).
Definition observed (s : Session) (k : string) : bool :=
  is_some_and (workflow s) (fun w => str_in k (observed_evidence w)).
Definition has_workflow : bool := is_some (config_workflow config).

Definition allowed_names (s : Session) : list string :=
  match (w ← workflow s; id_ ← active_phase w; phase id_) with
  | None => []
  | Some p =>
      dedup String.eqb (sort_by String.leb
        (unwrap_or (allowed_tools p) (map ev_tool (completion p))))
  end.
Definition allowed_in_phase (phase_ name_ : string) : bool :=
  match phase phase_ with
  | None => false
  | Some p =>
      match allowed_tools p with
      | Some names => existsb (fun candidate => String.eqb candidate name_) names
      | None => existsb (fun e => String.eqb (ev_tool e) name_) (completion p)
      end
  end.
Definition tools_disabled : bool := opt_str_is (get_str "tool_policy" (execution config)) "none".
Definition allowed_in_phase_for_session (s : Session) (phase_ : option string) (name_ : string) : bool :=
  if tools_disabled then false
  else match phase_ with
       | Some p => allowed_in_phase p name_
       | None => negb has_workflow && is_none (workflow s)
       end.

Definition missing_text (e : Evidence) : string :=
  ev_description e +:+ " Call " +:+ ev_tool e +:+ "; required argument constraints: "
  +:+ json_text (ev_arguments e) +:+ "; expected result constraints: " +:+ json_text (ev_result e)
  +:+ "; required output text: " +:+ json_text (Array (map Str (content_contains e)))
  +:+ ". Configured diagnostic errors count as evidence.".
Definition missing_evidence (s : Session) (p : Phase) : list (nat * Evidence) :=
  List.filter (fun ie => required (snd ie)
      && negb (observed s (key (phase_id p) "completion" (fst ie))))
    (enumerate (completion p)).
Definition missing (s : Session) (p : Phase) : list string :=
  map (fun ie => missing_text (snd ie)) (missing_evidence s p).

Definition instruction (s : Session) : option string :=
  w ← workflow s;
  id_ ← active_phase w;
  p ← phase id_;
  let missing_ := join nl (map (fun text => "- " +:+ text) (missing s p)) in
  let allowed := join ", " (allowed_names s) in
  Some ("[WORKFLOW STATE]" +:+ nl
    +:+ "This is the current authoritative execution state. Historical summaries do not override it."
    +:+ nl +:+ "Active phase: " +:+ phase_name p +:+ " (" +:+ phase_id p +:+ ")." +:+ nl
    +:+ "Allowed function names: " +:+ (if is_empty allowed then "none" else allowed)
    +:+ ". Phase IDs are workflow labels, not function names." +:+ nl
    +:+ "Phase instruction: " +:+ phase_instruction p +:+ nl
    +:+ "Do not provide prose progress updates or a final answer while this phase is incomplete; make a tool call instead."
    +:+ nl
    +:+ "Choose a call that supplies outstanding required evidence; repeating an observed outcome does not satisfy a different argument constraint."
    +:+ nl +:+ "Outstanding required evidence:" +:+ nl +:+ missing_).

(** ** Moving along the graph *)
Definition edge_ready (s : Session) (p : Phase) (n : nat) (e : Edge) : bool :=
  if String.eqb (when e) "always" then true
  else if String.eqb (when e) "phase_complete" then (length (missing s p) =? 0)%nat
  else forallb (fun i => observed s (key (phase_id p) (transition_label n) i))
         (seq 0 (length (edge_evidence e))).
(** The workflow state is created at the first call. *)
Definition enter_workflow (s : Session) : Session :=
  match workflow s, config_workflow config with
  | None, Some w => s <| workflow := Some (default_workflow (entry_phase w)) |>
  | _, _ => s
  end.
Definition leave_phase (p : Phase) (e : Edge) (w : Workflow) : Workflow :=
  w <| completed_phases ::= fun l => if str_in (phase_id p) l then l else (l ++ [phase_id p])%list |>
    <| active_phase := if String.eqb (to e) "complete" then None else Some (to e) |>
    <| transitions ::= fun l =>
         (l ++ [{| from_phase := phase_id p; to_phase := to e; reason := when e |}])%list |>.
Definition advance (s : Session) : option Transition * Session :=
  if negb has_workflow then (None, s)
  else
    let s := enter_workflow s in
    match (w ← workflow s; id_ ← active_phase w; p ← phase id_;
           ne ← find_first (fun ne => edge_ready s p (fst ne) (snd ne)) (enumerate (phase_transitions p));
           Some (w, p, snd ne)) with
    | None => (None, s)
    | Some (w, p, e) =>
        (Some {| from_phase := phase_id p; to_phase := to e; reason := when e |},
         s <| workflow := Some (leave_phase p e w) |>)
    end.

(** The evidence a phase watches, with its place. *)
Definition watched (p : Phase) : list (string * Evidence) :=
  (map (fun ie => (key (phase_id p) "completion" (fst ie), snd ie)) (enumerate (completion p))
   ++ flat_map (fun ne => map (fun ie => (key (phase_id p) (transition_label (fst ne)) (fst ie), snd ie))
                            (enumerate (edge_evidence (snd ne))))
        (enumerate (phase_transitions p)))%list.
Definition observe_one (name_ : string) (args : list (string * value)) (out : string)
    (seen : list string) (ke : string * Evidence) : list string :=
  if negb (str_in (fst ke) seen) && matches (snd ke) name_ args out
  then (seen ++ [fst ke])%list else seen.
Definition record (s : Session) (name_ : string) (args : list (string * value)) (out : string) : Session :=
  match (w ← workflow s; id_ ← active_phase w; p ← phase id_; Some (w, p)) with
  | None => s
  | Some (w, p) =>
      s <| workflow := Some (w <| observed_evidence ::=
             fun seen => foldl (observe_one name_ args out) seen (watched p) |>) |>
  end.

(** ** Deliverables *)
Definition result_checks : list value := unwrap_or (get_array "result_checks" (config_completion config)) [].
Definition bindings : list value := unwrap_or (get_array "argument_bindings" (execution config)) [].
Definition artifact (s : Session) (index : nat) : option value :=
  get (show_nat index) (completion_artifacts s).
Definition artifact_for_label (s : Session) (label : string) : option (nat * value) :=
  match find_first (fun ic => opt_str_is (get_str "label" (snd ic)) label) (enumerate result_checks) with
  | Some (i, _) => match artifact s i with Some v => Some (i, v) | None => None end
  | None => None
  end.
Definition is_error_output (out : string) : bool :=
  starts_with out "ERROR:" || starts_with out "AssertionError:".
(** One iteration of [capture_artifacts]. *)
Definition capture_one (call_id name_ : string) (args : value) (out : string) (s : Session)
    (ic : nat * value) : Session :=
  let '(index, check) := ic in
  if negb (opt_str_is (get_str "tool" check) name_)
     || negb (contains args (unwrap_or (get "arguments" check) (Object [])))
  then s
  else
    let expected_ok :=
      match get "result" check with
      | Some (Object (e :: m)) =>
          match parse_strict_json out with
          | Ok parsed => contains parsed (Object (e :: m))
          | Err _ => false
          end
      | _ => true
      end in
    if negb expected_ok then s
    else match extract_result check out with
         | None => s
         | Some v =>
             let artifacts := if is_object (completion_artifacts s)
                              then completion_artifacts s else Object [] in
             s <| completion_artifacts := set (show_nat index)
                    (Object [("tool", Str name_); ("arguments", args);
                             ("tool_call_id", Str call_id); ("step", num (step_count s));
                             ("value", v)]) artifacts |>
         end.
Definition capture_artifacts (s : Session) (call_id name_ : string) (args : list (string * value))
    (out : string) : Session :=
  if is_error_output out then s
  else foldl (capture_one call_id name_ (Object args) out) s (enumerate result_checks).

(** The loop over the bindings of one tool. *)
Definition binding_check (s : Session) (name_ : string) (args : list (string * value)) (binding : value)
  : option string :=
  let argument := unwrap_or (get_str "argument" binding) "" in
  let label := unwrap_or (get_str "source_label" binding) "" in
  match artifact_for_label s label with
  | None => Some ("Obtain executed result " +:+ debug_str label +:+ " before calling " +:+ name_ +:+ ".")
  | Some (_, art) =>
      match (v ← get "value" art; value_at_path v (get_array "path" binding)) with
      | None => Some ("Bound result path for " +:+ debug_str label +:+ " is unavailable.")
      | Some expected =>
          if is_some_and (assoc argument args) (fun actual => negb (typed_equal actual expected))
          then Some (argument +:+ " must equal its bound executed result: " +:+ json_text expected +:+ ".")
          else None
      end
  end.
Fixpoint first_some {A B} (f : A -> option B) (l : list A) : option B :=
  match l with [] => None | x :: l' => match f x with Some y => Some y | None => first_some f l' end end.
Definition binding_error (s : Session) (name_ : string) (args : list (string * value)) : option string :=
  first_some (binding_check s name_ args)
    (List.filter (fun binding => opt_str_is (get_str "tool" binding) name_) bindings).

Definition action_rejection (s : Session) (phase_ : option string) (name_ : string)
    (args : list (string * value)) (invalid : option string) : option string :=
  match invalid with
  | Some error => Some error
  | None =>
      if tools_disabled then Some "tools are disabled for this task"
      else
        let allowed := match phase_ with
                       | Some p => allowed_in_phase p name_
                       | None => negb has_workflow
                       end in
        if negb allowed then Some "tool is not allowed in the active workflow phase"
        else binding_error s name_ args
  end.
End engine.
