(* ===== verification/Tools.v ===== *)
(** * The fixture tools ([tools.rs])

    The deterministic PostgreSQL tools a workflow may call.  A tool reads rows
    of fixture tables and renders text; a failure is rendered as text too, for
    the model to read.  SQL runs in the database: [sql_fetch] is the query
    primitive, and every query is the text the source sends.

    A column is read with the Rust type of the source; a column of another
    type (a panic in the source) is read as that type's default. *)
From S2P Require Import Prelude Text Json Encoding.
From Stdlib Require Import Ascii.
Local Open Scope string_scope.
Local Open Scope Z_scope.

(** ** The database *)
Inductive sql_error : Type :=
| DatabaseError (code message : string)
| PoolOrIo (text : string)
| OtherError (text : string).
Class Database (W : Type) := {
  (** [sqlx::query(sql).bind(..).fetch_all(db)]: the rows, column by column *)
  sql_fetch : string -> list value -> W -> result sql_error (list (list value)) * W
}.
(** Computations that may fail with a message and read the world. *)
Definition Db (W A : Type) : Type := W -> result string A * W.
#[export] Instance Db_ret W : MRet (Db W) := fun A a w => (Ok a, w).
#[export] Instance Db_bind W : MBind (Db W) := fun A B f m w =>
  match m w with
  | (Ok a, w') => f a w'
  | (Err e, w') => (Err e, w')
  end.
#[export] Typeclasses Opaque Db.
Definition db_lift {W A} (r : result string A) : Db W A := fun w => (r, w).

(** [error]: the Python exception names the model is used to. *)
Definition error (e : sql_error) : string :=
  match e with
  | DatabaseError code message =>
      let kind :=
        if String.eqb code "22P02" then "InvalidTextRepresentation"
        else if String.eqb code "42P01" then "UndefinedTable"
        else if String.eqb code "42703" then "UndefinedColumn"
        else if String.eqb code "23505" then "UniqueViolation"
        else if String.eqb code "23503" then "ForeignKeyViolation"
        else if String.eqb code "23502" then "NotNullViolation"
        else if String.eqb code "22003" then "NumericValueOutOfRange"
        else if String.eqb code "22012" then "DivisionByZero"
        else if String.eqb code "42601" then "SyntaxError"
        else if starts_with code "08" then "OperationalError"
        else if starts_with code "23" then "IntegrityError"
        else if starts_with code "22" then "DataError" else "DatabaseError" in
      kind +:+ ": " +:+ message
  | PoolOrIo text => "OperationalError: " +:+ text
  | OtherError text => text
  end.

(** ** Columns *)
Definition column (i : nat) (row : list value) : value := unwrap_or (row !! i) Null.
Definition column_str (i : nat) (row : list value) : string := unwrap_or (as_str (column i row)) "".
Definition column_int (i : nat) (row : list value) : Z := unwrap_or (as_i64 (column i row)) 0.
Definition column_f64 (i : nat) (row : list value) : spec_float :=
  unwrap_or (as_f64 (column i row)) (S754_zero false).

(** ** Doubles *)
Definition f64_add : spec_float -> spec_float -> spec_float := SFadd 53 1024.
Definition f64_sub : spec_float -> spec_float -> spec_float := SFsub 53 1024.
Definition f64_div : spec_float -> spec_float -> spec_float := SFdiv 53 1024.
(** The double nearest to [m * 10 ^ e]: the quotient keeps 64 bits more than
    the divisor and a sticky bit, so that rounding it rounds the exact value. *)
Definition f64_of_decimal (m e : Z) : spec_float :=
  if 0 <=? e then f64_of_Z (m * 10 ^ e)
  else
    let d := 10 ^ (- e) in
    let k := Z.log2 d + 64 in
    let n := Z.abs m * 2 ^ k in
    let q := 2 * (n / d) + (if n mod d =? 0 then 0 else 1) in
    binary_normalize 53 1024 (if m <? 0 then - q else q) (- (k + 1)) false.
(** [str::parse::<f64>] *)
Definition parse_f64 (s : string) : option spec_float :=
  let '(neg, u) := match s with
                   | String "-"%char r => (true, r)
                   | String "+"%char r => (false, r)
                   | _ => (false, s)
                   end in
  let l := to_ascii_lowercase u in
  if String.eqb l "inf" || String.eqb l "infinity" then Some (S754_infinity neg)
  else if String.eqb l "nan" then Some S754_nan
  else
    '(mantissa, exponent) ← match find_byte is_exp_char u with
      | Some i => e ← parse_i64 (drop_bytes (S i) u); Some (take_bytes i u, e)
      | None => Some (u, 0)
      end;
    let '(whole, fraction) := unwrap_or (split_once "." mantissa) (mantissa, "") in
    if (is_empty whole && is_empty fraction) || negb (all_digits whole && all_digits fraction) then None
    else
      let m := digits_val 0 (whole +:+ fraction) in
      if m =? 0 then Some (S754_zero neg)
      else Some (f64_of_decimal (if (neg : bool) then - m else m) (exponent - byte_len fraction)).
(** [format!("{:.2}")] of a finite double: the exact value, ties to even. *)
Definition show_fixed2 (f : spec_float) : string :=
  match f with
  | S754_finite s m e =>
      let cents :=
        if 0 <=? e then Z.pos m * 2 ^ e * 100
        else
          let n := Z.pos m * 100 in
          let d := 2 ^ (- e) in
          let q := n / d in
          let r := n mod d in
          if (d <? 2 * r) || ((2 * r =? d) && Z.odd q) then q + 1 else q in
      (if s then "-" else "") +:+ show_Z (cents / 100) +:+ "." +:+ pad_left 2 (show_Z (cents mod 100))
  | S754_zero s => (if s then "-" else "") +:+ "0.00"
  | S754_infinity s => if s then "-inf" else "inf"
  | S754_nan => "NaN"
  end.
(** [f64::total_cmp] *)
Definition f64_total_leb (a b : spec_float) : bool :=
  match a, b with
  | _, S754_nan => true
  | S754_nan, _ => false
  | S754_zero s, S754_zero t => s || negb t
  | _, _ => SFleb a b
  end.
(** [json!(f)]: a double that is not finite has no JSON number. *)
Definition f64_value (f : spec_float) : value := if f64_finite f then Number (Float f) else Null.
Definition close_enough (a b : spec_float) : bool :=
  SFltb (SFabs (f64_sub a b)) (f64_of_decimal 5 (-3)).

(** ** Arguments *)
Definition args_t : Type := list (string * value).
Definition number_arg (a : args_t) (k : string) : spec_float :=
  unwrap_or (v ← assoc k a; opt_or (as_f64 v) (s ← as_str v; parse_f64 s)) (S754_zero false).
Definition boolean_arg (a : args_t) (k : string) : bool :=
  match assoc k a with
  | None | Some Null => false
  | Some (Bool x) => x
  | Some (Number n) => negb (SFeqb (number_as_f64 n) (S754_zero false))
  | Some (Str x) => negb (is_empty x)
  | Some (Array x) => negb (length x =? 0)%nat
  | Some (Object x) => negb (length x =? 0)%nat
  end.
Definition normalize_slice (index len : Z) : Z :=
  if index <? 0 then Z.max (add64 len index) 0 else Z.max (Z.min index len) 0.
Definition saturating_add64 (a b : Z) : Z := Z.max i64_min (Z.min i64_max (a + b)).

(** ** Access logs *)
Definition ip_regex_match (s : string) : bool :=
  let parts := split_on (String.eqb ".") s in
  (length parts =? 4)%nat
  && forallb (fun x => negb (is_empty x) && (byte_len x <=? 3) && all_digits x) parts.
(** Occurrences by address, each with the place it was first seen. *)
Definition counts_t : Type := list (string * (Z * nat)).
Definition count_ip (ip : string) (index : nat) (counts : counts_t) : counts_t :=
  let entry := unwrap_or (assoc ip counts) (0, index) in
  obj_insert ip (fst entry + 1, snd entry) counts.
Definition robust_hit (line : string) : option string :=
  let fields := split_whitespace line in
  match fields with
  | ip :: _ =>
      if (2 <=? length fields)%nat && ip_regex_match ip && is_some_and (last fields) (String.eqb "500")
      then Some ip else None
  | [] => None
  end.
Fixpoint count_robust (index : nat) (ls : list string) (counts : counts_t) : counts_t :=
  match ls with
  | [] => counts
  | line :: rest =>
      count_robust (S index) rest
        (match robust_hit line with Some ip => count_ip ip index counts | None => counts end)
  end.
(** The naive reader: it fails at the first line with fewer than 8 fields. *)
Fixpoint count_naive (index : nat) (ls : list string) (counts : counts_t) : result string counts_t :=
  match ls with
  | [] => Ok counts
  | line :: rest =>
      let fields := split_on (String.eqb " ") line in
      match fields !! 7%nat with
      | None =>
          Err ("ERROR: naive parser failed at line " +:+ show_nat (S index)
               +:+ ": IndexError: list index out of range. Try robust_parser=true.")
      | Some status =>
          count_naive (S index) rest
            (if String.eqb status "500" then count_ip (unwrap_or (head fields) "") index counts else counts)
      end
  end.
(** More occurrences first, then first seen first. *)
Definition top_leb (a b : string * (Z * nat)) : bool :=
  let '(_, (n, i)) := a in let '(_, (m, j)) := b in
  (m <? n) || ((n =? m) && (i <=? j)%nat).

Definition log_query : string := "SELECT line FROM agent_fixture_access_logs ORDER BY line_number".
Definition numbered_log_query : string :=
  "SELECT line_number,line FROM agent_fixture_access_logs ORDER BY line_number".
Definition columns_query : string :=
  "SELECT column_name,data_type FROM information_schema.columns WHERE table_name=$1 ORDER BY ordinal_position".
Definition chicago_query : string :=
  "SELECT id,name,city FROM agent_fixture_customers WHERE lower(city)='chicago' LIMIT 6".
Definition bad_keys_query : string :=
  "SELECT order_id,cust_id,amount::text,ordered_at::text FROM agent_fixture_orders WHERE cust_id LIKE 'ID_%%' LIMIT 6".
Definition employees_query : string :=
  "SELECT emp_id,name,age,salary,city FROM agent_fixture_employees ORDER BY emp_id".
Definition revenue_query (keys city : bool) : string :=
  let join := if keys then "CAST(REPLACE(o.cust_id, 'ID_', '') AS INTEGER)" else "o.cust_id::INTEGER" in
  let city_filter := if city then "lower(c.city) = 'chicago'" else "c.city = 'Chicago'" in
  "SELECT ROUND(COALESCE(SUM(o.amount),0),2)::float8 FROM agent_fixture_orders o JOIN agent_fixture_customers c ON c.id="
  +:+ join +:+ " WHERE " +:+ city_filter
  +:+ " AND o.ordered_at >= DATE '2026-01-01' AND o.ordered_at < DATE '2026-04-01'".

Record Employee := { emp_id : Z; emp_name : string; emp_age : string; emp_salary : string; emp_city : string }.
Definition employee_value (e : Employee) : value :=
  Array [num (emp_id e); Str (emp_name e); Str (emp_age e); Str (emp_salary e); Str (emp_city e)].
Definition employee_failure (row : Z) (field v : string) : string :=
  let window := join nl (map (fun k =>
        let n := Z.max (row - 8) 1 + Z.of_nat k in
        "  " +:+ repeat_str (4 - String.length (show_Z n)) " " +:+ show_Z n +:+ " | parsed_" +:+ field
        +:+ "[" +:+ show_Z n +:+ "] = " +:+ field +:+ "_parser(record[" +:+ show_Z n +:+ "])")
      (seq 0 (Z.to_nat (row + 8 - Z.max (row - 8) 1)))) in
  "ERROR: Phase 1 parser crashed at employee " +:+ show_Z row +:+ "; " +:+ field +:+ "='" +:+ v +:+ "'." +:+ nl
  +:+ "Traceback (most recent call last):" +:+ nl +:+ "  File " +:+ quoted "/simulated/audit.py"
  +:+ ", line 84, in parse_employee_batch" +:+ nl
  +:+ "    normalized_" +:+ field +:+ " = " +:+ field +:+ "_parser(raw_" +:+ field +:+ ")" +:+ nl
  +:+ "  File " +:+ quoted "/simulated/audit.py" +:+ ", line 39, in " +:+ field +:+ "_parser" +:+ nl
  +:+ "    raise ValueError('unsupported " +:+ field +:+ " representation')" +:+ nl
  +:+ "ValueError: unsupported " +:+ field +:+ " representation '" +:+ v +:+ "'" +:+ nl
  +:+ "Parser window (not a successful audit):" +:+ nl +:+ window +:+ nl
  +:+ "Revise only the parser assumption exposed by this failure, then retry incrementally.".
Definition metric_failure (message : string) : string :=
  let frames := join nl (map (fun i =>
        "  assertion-frame " +:+ pad_left 2 (show_nat i)
        +:+ ": candidate=[raw salary values]; city predicate and invalid-value filter under test")
      (seq 1 32)) in
  message +:+ nl +:+ "Metric test runner context:" +:+ nl +:+ frames +:+ nl
  +:+ "Revise the stated normalization rule and retry the metric.".
Definition bad_parser : string := "ERROR: parser must be naive, currency_cleaned, null_cleaned, or robust.".
Definition invalid_age (e : Employee) : bool := String.eqb (emp_age e) "NULL" || contains_str (emp_age e) ";".
Definition invalid_salary (e : Employee) : bool :=
  String.eqb (emp_salary e) "UNKNOWN" || starts_with (emp_salary e) "$".
Definition sorted_ids (ids : list Z) : list Z := dedup Z.eqb (sort_by Z.leb ids).

Section tools.
Context {W : Type} `{P : Platform} `{D : Database W}.

Definition fetch_all (sql : string) (binds : list value) : Db W (list (list value)) := fun w =>
  let '(r, w') := sql_fetch sql binds w in (map_err error r, w').

Definition log_lines : Db W (list string) := rows ← fetch_all log_query []; mret (map (column_str 0) rows).

Definition inspect_log (a : args_t) : Db W string :=
  let start_line := f64_to_i64 (number_arg a "start_line") in
  let start := sub64 start_line 1 in
  let count := f64_to_i64 (number_arg a "line_count") in
  rows ← fetch_all numbered_log_query [];
  let len := Z.of_nat (length rows) in
  let first := normalize_slice start len in
  let last := normalize_slice (saturating_add64 start count) len in
  let shown := take (Z.to_nat (Z.max (last - first) 0)) (drop (Z.to_nat first) rows) in
  mret (join nl (map (fun ir =>
    show_Z (add64 start_line (Z.of_nat (fst ir))) +:+ ": " +:+ column_str 1 (snd ir)) (enumerate shown))).

Definition analyze_ips (robust : bool) : Db W string :=
  ls ← log_lines;
  match (if robust then Ok (count_robust 0 ls []) else count_naive 0 ls []) with
  | Err failure => mret failure
  | Ok counts =>
      mret (python_json (Object
        [("top", Array (map (fun e => Array [Str (fst e); num (fst (snd e))])
                    (take 5 (sort_by top_leb counts))));
         ("malformed_records_ignored", num (if robust then 10 else 0))]))
  end.
Definition top_ip : Db W (string * Z) :=
  ls ← log_lines;
  match sort_by top_leb (count_robust 0 ls []) with
  | (ip, (count, _)) :: _ => mret (ip, count)
  | [] => db_lift (Err "no matching access log records")
  end.
Definition validate_top_offending_ip (a : args_t) : Db W string :=
  expected ← top_ip;
  let valid := is_some_and (v ← assoc "ip" a; as_str v) (String.eqb (fst expected))
               && (f64_to_i64 (number_arg a "count") =? snd expected) in
  mret (python_json (Object [("valid", Bool valid);
    ("message", Str (if valid then "Validated." else "Incorrect; inspect parsing and retry."))])).

Definition table_schema (short : string) : Db W (string * value) :=
  rows ← fetch_all columns_query [Str ("agent_fixture_" +:+ short)];
  mret (short, Array (map (fun r => Array [Str (column_str 0 r); Str (column_str 1 r)]) rows)).
Definition inspect_sql_schema : Db W string :=
  customers ← table_schema "customers";
  orders ← table_schema "orders";
  chicago ← fetch_all chicago_query [];
  bad_keys ← fetch_all bad_keys_query [];
  mret (python_json (Object
    [("schema", Object [customers; orders]);
     ("chicago_examples", Array (map (fun r =>
        Array [num (column_int 0 r); Str (column_str 1 r); Str (column_str 2 r)]) chicago));
     ("string_key_examples", Array (map (fun r =>
        Array [num (column_int 0 r); Str (column_str 1 r); Str (column_str 2 r); Str (column_str 3 r)])
        bad_keys))])).

Definition query_revenue (keys city : bool) : Db W string :=
  rows ← fetch_all (revenue_query keys city) [];
  match rows with
  | row :: _ =>
      mret (python_json (Object [("total", f64_value (column_f64 0 row));
        ("normalize_keys", Bool keys); ("normalize_city", Bool city)]))
  | [] => db_lift (Err "no rows returned by a query that expected to return at least one row")
  end.
Definition validate_chicago_q1_revenue (a : args_t) : Db W string :=
  text ← query_revenue true true;
  expected ← db_lift (json_from_str text);
  let valid := close_enough (number_arg a "total")
                 (unwrap_or (as_f64 (index expected "total")) (S754_zero false)) in
  mret (python_json (Object [("valid", Bool valid);
    ("expected_hint", Str (if valid then "Validated." else "Normalize city case and ID_ foreign keys."))])).

Definition employee_rows : Db W (list Employee) :=
  rows ← fetch_all employees_query [];
  mret (map (fun r => {| emp_id := column_int 0 r; emp_name := column_str 1 r; emp_age := column_str 2 r;
                         emp_salary := column_str 3 r; emp_city := column_str 4 r |}) rows).
Definition inspect_employee_schema : Db W string :=
  rows ← employee_rows;
  let examples := filter_map (fun i => rows !! i) [8; 9; 14; 21; 27]%nat in
  mret (python_json (Object
    [("schema", Object [("table", Str "employees");
        ("columns", Array (map Str ["emp_id INTEGER"; "name TEXT"; "age TEXT"; "salary TEXT"; "city TEXT"]))]);
     ("record_count", num (Z.of_nat (length rows)));
     ("examples", Array (map employee_value examples));
     ("rules", Str "age is invalid when NULL or semicolon-delimited; salary is invalid when currency-formatted or UNKNOWN; city matching is case-insensitive.")])).

Definition audit_employee (a : args_t) : Db W string :=
  match assoc "parser" a with
  | None => mret "ERROR: KeyError: 'parser'"
  | Some (Str parser) =>
      if String.eqb parser "naive" then mret (employee_failure 10 "salary" "$80,000")
      else if String.eqb parser "currency_cleaned" then mret (employee_failure 15 "age" "NULL")
      else if String.eqb parser "null_cleaned" then mret (employee_failure 22 "age" "41; extra_field_corrupted")
      else if negb (String.eqb parser "robust") then mret bad_parser
      else
        rows ← employee_rows;
        let ages := map emp_id (List.filter invalid_age rows) in
        let salaries := map emp_id (List.filter invalid_salary rows) in
        mret (python_json (Object
          [("phase", Str "Phase 1"); ("corrupted_age_ids", Array (map num ages));
           ("corrupted_salary_ids", Array (map num salaries));
           ("corrupted_row_ids", Array (map num (sorted_ids (ages ++ salaries)%list)));
           ("status", Str "logged")]))
  | Some _ => mret bad_parser
  end.

(** The median of the sorted values; [None] where the source would index an
    empty vector. *)
Definition median (values : list spec_float) : option spec_float :=
  let h := (length values / 2)%nat in
  if Nat.even (length values) then
    lo ← (if (h =? 0)%nat then None else values !! (h - 1)%nat);
    hi ← values !! h;
    Some (f64_div (f64_add lo hi) (f64_of_Z 2))
  else values !! h.
Definition employee_median (a : args_t) : Db W string :=
  if negb (boolean_arg a "exclude_invalid_salary") then
    mret (metric_failure
      "AssertionError: salary array contains UNKNOWN; filter invalid salary fields before median().")
  else if negb (boolean_arg a "normalize_city") then
    mret (metric_failure
      "AssertionError: Expected median 92500, but your script calculated 71000. Match city case-insensitively.")
  else
    rows ← employee_rows;
    let values := sort_by f64_total_leb (filter_map (fun r => parse_f64 (emp_salary r))
          (List.filter (fun r => String.eqb (to_lowercase (emp_city r)) "new york"
                                 && negb (String.eqb (emp_salary r) "UNKNOWN")
                                 && negb (starts_with (emp_salary r) "$")) rows)) in
    m ← db_lift (ok_or "index out of bounds" (median values));
    mret (python_json (Object
      [("phase", Str "Phase 2"); ("median_salary", f64_value m);
       ("valid_new_york_employees", num (Z.of_nat (length values))); ("status", Str "calculated")])).

Definition validate_employee_audit (a : args_t) : Db W string :=
  text ← employee_median [("normalize_city", Bool true); ("exclude_invalid_salary", Bool true)];
  expected ← db_lift (json_from_str text);
  let med := unwrap_or (as_f64 (index expected "median_salary")) (S754_zero false) in
  let valid := boolean_arg a "phase_1_logged" && boolean_arg a "normalize_city"
               && boolean_arg a "drop_invalid_age" && close_enough (number_arg a "median_salary") med in
  mret (python_json (Object
    [("valid", Bool valid); ("expected_median_salary", f64_value med);
     ("hint", Str (if valid then "Validated all three phases."
                   else "Log Phase 1, normalize city casing, and drop invalid ages."))])).

(** [title_case]: [word_start] is threaded through the characters. *)
Fixpoint title_case_from (word_start : bool) (cs : list string) : string :=
  match cs with
  | [] => ""
  | ch :: rest =>
      if is_alphanumeric ch
      then (if word_start then char_to_uppercase ch else to_lowercase ch) +:+ title_case_from false rest
      else ch +:+ title_case_from true rest
  end.
Definition title_case (input : string) : string := title_case_from true (chars input).

Definition wrap_i32 (z : Z) : Z := (z + 2 ^ 31) mod 2 ^ 32 - 2 ^ 31.
(** The ages by city; rows with an invalid age are left out. *)
Definition city_groups (rows : list Employee) : list (string * list Z) :=
  foldl (fun groups r =>
    if invalid_age r then groups
    else match parse_i32 (emp_age r) with
         | Some age =>
             let city := title_case (emp_city r) in
             obj_insert city (unwrap_or (assoc city groups) [] ++ [age])%list groups
         | None => groups
         end) [] rows.
Definition city_line (g : string * list Z) : string :=
  let '(city, ages) := g in
  let total := foldl (fun a b => wrap_i32 (a + b)) 0 ages in
  let mean := f64_div (f64_of_Z total) (f64_of_Z (Z.of_nat (length ages))) in
  "| " +:+ city +:+ " | " +:+ show_nat (length ages) +:+ " | " +:+ show_fixed2 mean +:+ " |" +:+ nl.
Definition trace_line (i : nat) : string :=
  (if (1 <? i)%nat then nl else "") +:+ "normalization-check " +:+ pad_left 2 (show_nat i)
  +:+ ": city=lowercase, age=NULL-or-semicolon excluded, salary=UNKNOWN-or-currency excluded, aggregate=verified".
Definition employee_report (a : args_t) : Db W string :=
  if negb (boolean_arg a "normalize_city") then
    mret "ERROR: Phase 3 would split New York and new york. Set normalize_city=true."
  else if negb (boolean_arg a "drop_invalid_age") then
    mret "ERROR: Phase 3 cannot average age while NULL and semicolon-corrupted ages remain. Set drop_invalid_age=true."
  else
    rows ← employee_rows;
    let cities := sort_by (fun a b => String.leb (fst a) (fst b)) (city_groups rows) in
    mret ("Phase 3 — clean city audit" +:+ nl +:+ "| City | Valid headcount | Average age |" +:+ nl
          +:+ "| --- | ---: | ---: |" +:+ nl +:+ concat_str (map city_line cities) +:+ nl
          +:+ "Phase 3 normalization trace (diagnostic evidence):" +:+ nl
          +:+ concat_str (map trace_line (seq 1 48))).

(** ** Dispatch *)
Definition inner (name : string) (a : args_t) : Db W string :=
  if String.eqb name "inspect_log" then inspect_log a
  else if String.eqb name "analyze_500_ips" then analyze_ips (boolean_arg a "robust_parser")
  else if String.eqb name "validate_top_offending_ip" then validate_top_offending_ip a
  else if String.eqb name "inspect_sql_schema" then inspect_sql_schema
  else if String.eqb name "query_chicago_q1_revenue" then
    query_revenue (boolean_arg a "normalize_keys") (boolean_arg a "normalize_city")
  else if String.eqb name "validate_chicago_q1_revenue" then validate_chicago_q1_revenue a
  else if String.eqb name "inspect_employee_audit_schema" then inspect_employee_schema
  else if String.eqb name "audit_employee_phase_1" then audit_employee a
  else if String.eqb name "calculate_new_york_median_salary" then employee_median a
  else if String.eqb name "generate_employee_phase_3_report" then employee_report a
  else if String.eqb name "validate_employee_audit" then validate_employee_audit a
  else mret ("ERROR: unknown tool '" +:+ name +:+ "'.").
Definition execute (name : string) (args : args_t) (w : W) : string * W :=
  match inner name args w with
  | (Ok v, w') => (v, w')
  | (Err e, w') => ("ERROR: " +:+ e, w')
  end.
End tools.

Definition is_supported (name : string) : bool :=
  str_in name ["fixture_idempotent_write"; "inspect_log"; "analyze_500_ips";
    "validate_top_offending_ip"; "inspect_sql_schema"; "query_chicago_q1_revenue";
    "validate_chicago_q1_revenue"; "inspect_employee_audit_schema"; "audit_employee_phase_1";
    "calculate_new_york_median_salary"; "generate_employee_phase_3_report"; "validate_employee_audit"].
