(* ===== verification/Checkpoint.v ===== *)
(** * Checkpoints and the host ([engine.rs], [actions.rs])

    The engine is a client of its host: it hands every event with a snapshot
    of the session to the checkpoint callback, calls the model over HTTP,
    queries the database and runs tools.  [Host] is that interface, over an
    abstract world [W]; a checkpoint commits the outboxes of the session, and
    only a successful one clears them. *)
From S2P Require Import Prelude Text Json Encoding Session Logic Diagnostics Tools.
Local Open Scope string_scope.
Local Open Scope Z_scope.

(** What [reqwest] reports of one request. *)
Inductive http_result : Type :=
| HttpSendError (timeout : bool)
| HttpBodyError (status_code : Z) (timeout : bool)
| HttpResponse (status_code : Z) (body : string).

Class Host (W : Type) := {
  host_runtime :: Runtime W;
  host_database :: Database W;
  (** the checkpoint callback, given the event and a clone of the session *)
  emit : value -> Session -> W -> result string unit * W;
  (** the acknowledgement cell shared with the callback *)
  ack_cell : W -> option CheckpointAck;
  (** [env::var] *)
  env_var : string -> W -> option string;
  (** one POST of a JSON payload, with the bearer token *)
  http_post : string -> string -> value -> W -> http_result * W;
  (** milliseconds since the request was started *)
  elapsed_ms : W -> Z * W;
  (** a line on standard error *)
  log_line : value -> W -> W;
  (** [SELECT call_id FROM agent_session_calls WHERE session_id=$1::uuid AND call_id=ANY($2)] *)
  historical_calls : string -> list string -> W -> result string (list string) * W;
  (** [SELECT payload_sha256,result FROM agent_fixture_action_receipts
       WHERE namespace=$1 AND idempotency_key=$2], outside a transaction *)
  receipt_query : string -> string -> W -> result string (option (string * value)) * W;
  (** the recipient's transaction: [INSERT ... ON CONFLICT DO NOTHING] of a
      receipt, then [SELECT ... FOR UPDATE] of the one stored under the key;
      the code commits only when the fingerprints agree *)
  receipt_insert : string -> string -> string -> value -> value -> W ->
    result string (string * value) * W;
  receipt_commit : W -> result string unit * W;
  receipt_rollback : W -> W
}.

Section checkpoint.
Context {W : Type} `{H : Host W}.

(** [emit(event, state.clone()).await?] *)
Definition emit_event (event : value) : M W unit := fun sw =>
  let '(r, w) := emit event (fst sw) (snd sw) in (r, (fst sw, w)).
Definition acknowledge : M W unit := fun sw =>
  (Ok tt, (acknowledge_checkpoint (ack_cell (snd sw)) (fst sw), snd sw)).
Definition commit_outboxes : M W unit :=
  _ ← acknowledge;
  reload ← gets needs_reload;
  _ ← lift (fail_if reload "historical commit receipt requires reload");
  modify clear_outboxes.

(** What the engine's checkpoint settles of a run that is no longer active. *)
Definition settle_run (s : Session) (now : string) : Session :=
  let s := if String.eqb (run_status s) "running"
           then s <| run_status := if String.eqb (status s) "complete" then "complete" else "failed" |>
           else s in
  let s := if is_none (run_ended_at s) then s <| run_ended_at := Some now |> else s in
  if is_none (run_termination_reason s)
  then s <| run_termination_reason :=
         Some (unwrap_or (e ← last_error s; as_str (index e "code")) (run_status s)) |>
  else s.
(** [engine::checkpoint] *)
Definition checkpoint (event : value) : M W unit :=
  active ← gets (fun s => String.eqb (status s) "active");
  _ ← when_ (negb active) (
         ended ← gets run_ended_at;
         now ← (if is_none ended then transcript_timestamp else gets (fun _ => ""));
         modify (fun s => settle_run s now));
  _ ← stage;
  _ ← emit_event event;
  commit_outboxes.

(** [actions::checkpoint] *)
Definition action_checkpoint (event : value) : M W unit :=
  blocked ← gets (fun s => String.eqb (run_status s) "blocked" && is_none (run_ended_at s));
  _ ← when_ blocked (
         now ← transcript_timestamp;
         modify (fun s => s <| run_ended_at := Some now |>
                            <| run_termination_reason := Some "recovery_required" |>));
  _ ← emit_event event;
  commit_outboxes.
End checkpoint.
