(* ===== verification/Actions.v ===== *)
(** * Durable actions ([actions.rs])

    A tool call becomes a durable action: its intent and every attempt are
    checkpointed before the effect, its identity and payload are frozen by
    digests, a terminal action is replayed from its record, an attempt without
    a recorded outcome is settled as uncertain, and the number of dispatches is
    bounded by the action's recovery policy. *)
From S2P Require Import Prelude Text Json Encoding Session Logic Tools Checkpoint Workflow.
Local Open Scope string_scope.
Local Open Scope Z_scope.

(** ** Fields of an execution *)
(** [value == "text"]. *)
Definition is_str (v : value) (s : string) : bool := match v with Str t => String.eqb t s | _ => false end.
Definition field_is (k s : string) (v : value) : bool := is_str (index v k) s.
Definition idempotent_write : string := "fixture_idempotent_write".
Definition recipient_target : string := "fixture://action-receipts".
Definition target_of (tool : string) : string :=
  if String.eqb tool idempotent_write then recipient_target else "tool://" +:+ tool.
Definition same_execution (e v : value) : bool :=
  value_eqb (index v "execution_id") (index e "execution_id").
(** [*old = e] for the first match, or [push]. *)
Fixpoint replace_first (p : value -> bool) (e : value) (l : list value) : list value :=
  match l with
  | [] => [e]
  | v :: l' => if p v then e :: l' else v :: replace_first p e l'
  end.
Definition stage_execution (e : value) (s : Session) : Session :=
  s <| executions ::= replace_first (same_execution e) e |>
    <| pending_execution_outbox ::= fun l => (retain (fun v => negb (same_execution e v)) l ++ [e])%list |>.
Definition namespace_of (command_ : value) : string := unwrap_or (as_str (index command_ "namespace")) "regression".
Definition command_of (s : Session) : value :=
  match command s with
  | Some c => c
  | None => Object [("id", of_opt_str (run_command_id s)); ("namespace", Str "regression")]
  end.
Definition default_policy (tool : string) : value :=
  Object [("mode", Str (if String.eqb tool idempotent_write then "idempotent" else "read_only"));
          ("max_attempts", num 2)].
Definition policy_of (config : Config) (tool : string) : value :=
  match (t ← find_first (fun t => String.eqb (tool_name t) tool) (tools config); recovery t) with
  | Some policy => policy
  | None => default_policy tool
  end.
Definition terminal (execution_ : value) : bool :=
  match index execution_ "status" with
  | Str st => String.eqb st "succeeded" || String.eqb st "failed"
  | _ => false
  end.
Definition mode_of (execution_ : value) : string :=
  unwrap_or (as_str (index (index execution_ "policy") "mode")) "reconcile".
Definition attempts_of (execution_ : value) : Z := unwrap_or (as_i64 (index execution_ "attempts")) 0.
Definition max_attempts_of (execution_ : value) : Z :=
  unwrap_or (as_i64 (index (index execution_ "policy") "max_attempts")) 2.
Definition attempt_records (execution_ : value) : list value :=
  unwrap_or (as_array (index execution_ "attempt_records")) [].
Definition last_ordinal (execution_ : value) : Z :=
  match filter_map (fun a => as_i64 (index a "attempt_number")) (attempt_records execution_) with
  | [] => attempts_of execution_
  | n :: l => foldl Z.max n l
  end.
(** A started action that may not simply be dispatched again. *)
Definition unrecoverable (execution_ : value) (tool : string) : bool :=
  let mode := mode_of execution_ in
  negb (field_is "status" "pending" execution_)
  && negb (String.eqb mode "read_only" || String.eqb mode "repeatable")
  && negb (String.eqb mode "idempotent" && String.eqb tool idempotent_write).
Definition recovery_error (message : string) : value :=
  Object [("code", Str "recovery_required"); ("message", Str message); ("recoverable", Bool true)].
Definition error_event (message : string) : value :=
  Object [("type", Str "error"); ("code", Str "recovery_required"); ("message", Str message);
          ("recoverable", Bool true)].
Definition status_event (message : string) : value :=
  Object [("type", Str "status"); ("message", Str message)].

Section frozen.
Context `{P : Platform}.
(** The execution is the one the ledger derives for this call: any difference
    from the frozen identity or payload stops the dispatch. *)
Definition check_identity (session namespace tool : string) (args execution_ : value) : result string unit :=
  if negb (field_is "namespace" namespace execution_)
     || negb (field_is "target" (target_of tool) execution_)
     || negb (field_is "key_algorithm" "agent-action-v1" execution_)
  then Err "frozen action identity differs from its ledger-derived key"
  else
    execution_id ← ok_or "missing action identity" (as_str (index execution_ "execution_id"));
    key ← action namespace session execution_id;
    if negb (field_is "idempotency_key" key execution_)
    then Err "frozen action identity differs from its ledger-derived key"
    else if negb (field_is "tool" tool execution_) || negb (value_eqb (index execution_ "arguments") args)
    then Err "frozen action payload changed"
    else
      digest_ ← payload tool (unwrap_or (as_str (index execution_ "target")) "") args;
      fail_if (negb (field_is "payload_sha256" digest_ execution_)) "frozen action payload changed".
End frozen.

Section actions.
Context {W : Type} `{P : Platform} `{H : Host W} (config : Config).

Definition audit (kind : string) (payload_ : value) : M W unit := archive_record kind payload_.
Definition push_attempt (a : value) : M W unit :=
  modify (fun s => s <| attempts_pending ::= fun l => (l ++ [a])%list |>).

(** A new execution for the call, its intent checkpointed. *)
Definition create_execution (command_ : value) (call tool : string) (args : value) : M W value :=
  id_ ← uuid;
  s ← get_session;
  let namespace := namespace_of command_ in
  let target := target_of tool in
  key ← lift (action namespace (id s) id_);
  digest_ ← lift (payload tool target args);
  let e := Object
    [("execution_id", Str id_); ("run_id", of_opt_str (run_id s));
     ("command_id", of_opt_str (run_command_id s)); ("namespace", Str namespace);
     ("target", Str target); ("call_id", Str call); ("tool", Str tool); ("arguments", args);
     ("policy", policy_of config tool); ("idempotency_key", Str key); ("payload_sha256", Str digest_);
     ("key_algorithm", Str "agent-action-v1"); ("attempts", num 0); ("status", Str "pending");
     ("result", Null)] in
  let e := if String.eqb tool idempotent_write
           then set "recipient" (Object [("target", Str recipient_target); ("key_scope", Str "deployment");
                                         ("retention_seconds", Null); ("outcome_query", Bool true)]) e
           else e in
  _ ← modify (stage_execution e);
  _ ← audit "tool_intent" e;
  _ ← action_checkpoint (Object [("type", Str "tool_intent"); ("execution_id", Str id_);
                                 ("tool_call_id", Str call)]);
  mret e.
Definition open_execution (command_ : value) (call tool : string) (args : value) : M W value :=
  s ← get_session;
  match find_first (field_is "call_id" call) (executions s) with
  | Some e => gets (fun _ => e)
  | None => create_execution command_ call tool args
  end.

(** Attempts a former owner started are settled as uncertain. *)
Definition settle_started (previous : value) : M W unit :=
  now ← transcript_timestamp;
  let previous := set "evidence" (Object [("reason", Str "previous_owner_did_not_record_an_outcome")])
                    (set "finished_at" (Str now) (set "status" (Str "uncertain") previous)) in
  _ ← push_attempt previous;
  audit "tool_attempt_settled" previous.
Definition settle_former_attempts (execution_ : value) : M W unit :=
  _ ← mfor settle_started (List.filter (field_is "status" "started") (attempt_records execution_));
  pending ← gets (fun s => negb (length (attempts_pending s) =? 0)%nat);
  when_ pending (action_checkpoint (status_event "Recorded prior attempt uncertainty.")).

(** A new attempt record. *)
Definition attempt_record (s : Session) (command_ execution_ : value) (attempt_id : string) (number_ : Z)
    (kind now : string) : value :=
  Object
    [("attempt_id", Str attempt_id); ("execution_id", index execution_ "execution_id");
     ("command_id", index command_ "id"); ("attempt_number", num number_); ("kind", Str kind);
     ("status", Str "started"); ("owner", of_opt_str (execution_owner s));
     ("fence", of_opt_num (execution_fence s)); ("payload_sha256", index execution_ "payload_sha256");
     ("started_at", Str now); ("finished_at", Null); ("evidence", Null)].

Definition world_result {A} (f : W -> result string A * W) : M W (result string A) := world f.

Definition unknown_receipt (verification : value) : M W (option string) :=
  let verification :=
    set "evidence" (Object [("source", Str "recipient-primary"); ("outcome", Str "unknown")])
      (set "status" (Str "uncertain") verification) in
  _ ← push_attempt verification;
  _ ← audit "tool_attempt_settled" verification;
  _ ← action_checkpoint (status_event "Recipient evidence did not establish an outcome.");
  mret None.
(** Looks the action up at its recipient: [Some result] when the recipient
    holds the outcome. *)
Definition verify_receipt (command_ execution_ : value) (namespace : string) (ordinal_ : Z)
  : M W (option string) :=
  attempt_id ← uuid;
  now ← transcript_timestamp;
  s ← get_session;
  let verification := attempt_record s command_ execution_ attempt_id ordinal_ "verify" now in
  _ ← push_attempt verification;
  _ ← audit "tool_attempt" verification;
  _ ← action_checkpoint (status_event "Verifying the original recipient receipt.");
  receipt ← world_result (receipt_query namespace
              (unwrap_or (as_str (index execution_ "idempotency_key")) ""));
  finished ← transcript_timestamp;
  let verification := set "finished_at" (Str finished) verification in
  match receipt with
  | Ok (Some (fingerprint, result_)) =>
      if field_is "payload_sha256" fingerprint execution_ then
        text ← lift (canonical result_);
        let verification :=
          set "evidence" (Object [("source", Str "recipient-primary"); ("receipt_present", Bool true);
                                  ("result", Str text)])
            (set "external_reference" (index execution_ "idempotency_key")
              (set "status" (Str "succeeded") verification)) in
        let execution_ := set "finished_at" (index verification "finished_at")
              (set "result" (Str text) (set "status" (Str "succeeded") execution_)) in
        _ ← push_attempt verification;
        _ ← audit "tool_attempt_settled" verification;
        _ ← modify (stage_execution execution_);
        _ ← action_checkpoint (status_event "Recovered the committed recipient outcome.");
        mret (Some text)
      else unknown_receipt verification
  | _ => unknown_receipt verification
  end.

(** The session is blocked until an operator resolves the action. *)
Definition block_session (message : string) (s : Session) : Session :=
  s <| status := "failed" |> <| run_status := "blocked" |>
    <| last_error := Some (recovery_error message) |>.
Definition block_recovery (execution_ : value) : M W string :=
  let blocked := set "status" (Str "blocked") execution_ in
  _ ← modify (block_session "Safe recovery requires operator resolution");
  _ ← modify (stage_execution blocked);
  _ ← audit "tool_recovery_required" blocked;
  _ ← action_checkpoint (error_event "Authoritative reconciliation is required");
  throw "recovery_required".

(** [recipient]: the idempotent write, one receipt per namespace and key. *)
Definition recipient (namespace key : string) (args : value) (w : W) : result string string * W :=
  match payload idempotent_write recipient_target args with
  | Err e => (Err e, w)
  | Ok fingerprint =>
      let result_ := Object [("effect_id", Str key); ("value", index args "value")] in
      match receipt_insert namespace key fingerprint args result_ w with
      | (Err e, w) => (Err e, receipt_rollback w)
      | (Ok (stored, result_), w) =>
          if negb (String.eqb stored fingerprint)
          then (Err "recipient payload mismatch", receipt_rollback w)
          else match receipt_commit w with
               | (Err e, w) => (Err e, w)
               | (Ok _, w) => (canonical result_, w)
               end
      end
  end.

(** The effect itself. *)
Definition perform (namespace tool : string) (args execution_ : value) (w : W) : result string string * W :=
  if String.eqb tool idempotent_write
  then recipient namespace (unwrap_or (as_str (index execution_ "idempotency_key")) "") args w
  else let '(out, w) := execute tool (unwrap_or (as_object args) []) w in (Ok out, w).

(** The attempt is recorded as started, and checkpointed, before the effect. *)
Definition start_attempt (command_ execution_ : value) (ordinal_ : Z) : M W (value * value) :=
  now ← transcript_timestamp;
  attempt_id ← uuid;
  s ← get_session;
  let attempt := attempt_record s command_ execution_ attempt_id (add64 ordinal_ 1) "dispatch" now in
  let attempts := attempts_of execution_ in
  let execution_ := set "attempts" (num (add64 attempts 1)) (set "status" (Str "started") execution_) in
  let execution_ := if is_none (get "started_at" execution_)
                    then set "started_at" (Str now) execution_ else execution_ in
  _ ← push_attempt attempt;
  _ ← modify (stage_execution execution_);
  _ ← audit "tool_attempt" attempt;
  _ ← action_checkpoint (Object [("type", Str "tool_started");
        ("execution_id", index execution_ "execution_id"); ("attempt", num (add64 attempts 1))]);
  mret (attempt, execution_).
Definition outcome_status (result_ : string) : string :=
  if is_error_output result_ then "failed" else "succeeded".
Definition settle_known (attempt execution_ : value) (finished result_ : string) : M W string :=
  let status_ := outcome_status result_ in
  let settled := set "evidence" (Object [("result", Str result_)])
                   (set "status" (Str status_) (set "finished_at" (Str finished) attempt)) in
  let execution_ := set "finished_at" (Str finished)
                      (set "result" (Str result_) (set "status" (Str status_) execution_)) in
  _ ← push_attempt settled;
  _ ← audit "tool_attempt_settled" settled;
  _ ← modify (stage_execution execution_);
  _ ← audit "tool_outcome" (Object [("execution_id", index execution_ "execution_id");
                                    ("status", Str status_); ("result", Str result_)]);
  _ ← action_checkpoint (Object [("type", Str "tool_settled");
                                 ("execution_id", index execution_ "execution_id")]);
  mret result_.
Definition settle_unknown (attempt execution_ : value) (finished error_ : string) : M W string :=
  let settled := set "error" (Object [("message", Str error_)])
                   (set "status" (Str "uncertain") (set "finished_at" (Str finished) attempt)) in
  _ ← modify (block_session "Action outcome is uncertain");
  _ ← push_attempt settled;
  _ ← audit "tool_attempt_settled" settled;
  _ ← modify (stage_execution (set "status" (Str "uncertain") execution_));
  _ ← action_checkpoint (error_event "Action outcome is uncertain");
  throw "recovery_required".
Definition dispatch_attempt (command_ execution_ : value) (namespace tool : string) (args : value)
    (ordinal_ : Z) : M W string :=
  '(attempt, execution_) ← start_attempt command_ execution_ ordinal_;
  out ← world_result (perform namespace tool args execution_);
  finished ← transcript_timestamp;
  match out with
  | Ok result_ => settle_known attempt execution_ finished result_
  | Err error_ => settle_unknown attempt execution_ finished error_
  end.

(** What remains once the recipient did not settle the action. *)
Definition dispatch_or_block (command_ execution_ : value) (namespace tool : string) (args : value)
    (ordinal_ : Z) : M W string :=
  if unrecoverable execution_ tool then block_recovery execution_
  else if max_attempts_of execution_ <=? attempts_of execution_
  then throw "recovery_required: action dispatch bound reached"
  else if String.eqb (mode_of execution_) "idempotent" && negb (String.eqb tool idempotent_write)
  then throw "recovery_required: no trusted recipient guarantee"
  else dispatch_attempt command_ execution_ namespace tool args ordinal_.
Definition needs_verification (execution_ : value) (tool : string) : bool :=
  negb (field_is "status" "pending" execution_) && String.eqb (mode_of execution_) "reconcile"
  && String.eqb tool idempotent_write.

Definition dispatch (call tool : string) (args : value) : M W string :=
  command_ ← gets command_of;
  let namespace := namespace_of command_ in
  execution_ ← open_execution command_ call tool args;
  session ← gets id;
  _ ← lift (check_identity session namespace tool args execution_);
  if terminal execution_
  then lift (ok_or "terminal action lacks result" (as_str (index execution_ "result")))
  else
    let ordinal_ := last_ordinal execution_ in
    _ ← settle_former_attempts execution_;
    if needs_verification execution_ tool then
      let ordinal_ := add64 ordinal_ 1 in
      recovered ← verify_receipt command_ execution_ namespace ordinal_;
      match recovered with
      | Some result_ => mret result_
      | None => dispatch_or_block command_ execution_ namespace tool args ordinal_
      end
    else dispatch_or_block command_ execution_ namespace tool args ordinal_.
End actions.
