(* ===== verification/Wire.v ===== *)
(** * The model's wire ([engine.rs])

    The request sent to the model, the routes it is tried on, the diagnostics
    of every attempt, and the reading of the response into a decision. *)
From S2P Require Import Prelude Text Json Encoding Session Logic Context Validate Outcome Workflow Prompt Tools Checkpoint Actions.
Local Open Scope string_scope.
Local Open Scope Z_scope.

(** ** One call per assistant message *)
Definition wire_error (what : string) : string := "context_integrity_error: " +:+ what.
Fixpoint wire_call_ids (unique : list string) (calls : list value) : result string (list string) :=
  match calls with
  | [] => Ok []
  | call :: rest =>
      let id := unwrap_or (get_str "id" call) "" in
      if is_empty id || str_in id unique
      then Err (wire_error "tool-call history has missing or duplicate IDs")
      else ids ← wire_call_ids (id :: unique) rest; Ok (id :: ids)
  end.
Fixpoint wire_results (acc : list (string * value)) (results : list value)
  : result string (list (string * value)) :=
  match results with
  | [] => Ok acc
  | r :: rest =>
      if negb (is_some_and (get_str "role" r) (String.eqb "tool"))
      then Err (wire_error "tool-call results are incomplete")
      else
        let id := unwrap_or (get_str "tool_call_id" r) "" in
        if is_empty id || is_some (assoc id acc)
        then Err (wire_error "duplicate or missing tool result ID")
        else wire_results (acc ++ [(id, r)])%list rest
  end.
(** One call and its result, as a pair of messages. *)
Definition wire_pair (message : value) (results : list (string * value)) (pci : nat * (value * string))
  : list value :=
  let '(position, (call, id)) := pci in
  let assistant := set "tool_calls" (Array [call]) message in
  let assistant := if (0 <? position)%nat then remove "content" assistant else assistant in
  [assistant; unwrap_or (assoc id results) Null].
Definition wire_message_calls (message : value) : option (list value) :=
  if is_some_and (get_str "role" message) (String.eqb "assistant")
  then opt_filter (fun calls => negb (length calls =? 0)%nat) (get_array "tool_calls" message)
  else None.
Fixpoint single_call_from (fuel : nat) (messages_ : list value) : result string (list value) :=
  match fuel, messages_ with
  | S fuel', message :: rest =>
      match wire_message_calls message with
      | None =>
          if is_some_and (get_str "role" message) (String.eqb "tool")
          then Err (wire_error "orphaned tool result in retained history; no model request was sent")
          else out ← single_call_from fuel' rest; Ok (message :: out)
      | Some calls =>
          ids ← wire_call_ids [] calls;
          if (length rest <? length calls)%nat
          then Err (wire_error "tool-call history is missing results")
          else
            results ← wire_results [] (take (length calls) rest);
            if negb (length results =? length ids)%nat
               || existsb (fun id => negb (is_some (assoc id results))) ids
            then Err (wire_error "tool-call results do not match their calls")
            else
              out ← single_call_from fuel' (drop (length calls) rest);
              Ok (flat_map (wire_pair message results) (enumerate (zip calls ids)) ++ out)%list
      end
  | _, _ => Ok []
  end.
(** Every iteration takes at least one message. *)
Definition single_call_wire (messages_ : list value) : result string (list value) :=
  single_call_from (length messages_) messages_.

(** ** The payload *)
Section payload.
Context `{P : Platform} (config : Config).

Definition single_mode : bool := String.eqb (tool_call_mode (llm config)) "single".
Definition decision_payload (messages_ : list value) (s : Session) : result string value :=
  wire ← (if single_mode then single_call_wire messages_ else Ok messages_);
  let cap := Z.max (unwrap_or (max_output_tokens (llm config))
                     (reserved_output_tokens (config_memory config))) 1 in
  let terminal_workflow := has_workflow config && complete config s in
  let system_ (text : string) := Object [("role", Str "system"); ("content", Str text)] in
  let body := Object [("model", Str (model config)); ("messages", Array wire);
                      ("temperature", f64_value (temperature (llm config)));
                      ("max_tokens", num cap)] in
  Ok (if tools_disabled config || terminal_workflow then
        let text := if terminal_workflow
          then "All required workflow phases are complete. Return the verified final deliverables now. Do not call tools."
          else "Tools are disabled for this task. Return the requested final answer directly." in
        set "messages" (Array (system_ text :: wire)) (set "tool_choice" (Str "none") body)
      else
        let body := set "tools" (Array (map (fun t =>
              Object [("type", Str "function");
                      ("function", Object [("name", Str (tool_name t));
                                           ("description", Str (tool_description t));
                                           ("parameters", parameters t)])]) (tools config)))
            (set "tool_choice" (Str "auto") body) in
        if single_mode then
          set "messages" (Array (system_
              "Call at most one configured function per response. Workflow phase labels are not function names."
              :: wire)) (set "parallel_tool_calls" (Bool false) body)
        else body).
Definition complete_request_payload (s : Session) : result string value :=
  decision_payload (map wire_message (prompt config s)) s.
Definition request_budget_of (s : Session) : result string RequestBudget :=
  _ ← (if (1 <? length (memory s))%nat
       then groups ← interaction_groups (drop 1 (memory s)); Ok tt else Ok tt);
  payload_ ← complete_request_payload s;
  Ok (estimate_payload payload_ (config_memory config)).
Definition completion_urls : list string :=
  let base := trim_end_matches "/" (base_url (llm config)) in
  let suffix := "/chat/completions" in
  if ends_with base suffix then [base]
  else match strip_suffix base "/v1" with
       | Some root => [base +:+ suffix; root +:+ suffix]
       | None => [base +:+ suffix]
       end.

Definition put_opt (k : string) (o : option value) (v : value) : value :=
  match o with Some x => set k x v | None => v end.
Definition request_diagnostic (kind : string) (request_bytes max_tokens_ elapsed : Z)
    (status_code : option Z) (failure : option string) (usage : option value) : value :=
  let mem := config_memory config in
  let input_budget := sub64 (sub64 (context_window_tokens mem) (reserved_output_tokens mem))
                        (safety_margin_tokens mem) in
  let known := is_some_and usage (fun x =>
        is_some (get_u64 "prompt_tokens" x) && is_some (get_u64 "completion_tokens" x)) in
  let v := Object [("kind", Str kind); ("serialized_request_bytes", num request_bytes);
                   ("elapsed_ms", num elapsed); ("tool_call_mode", Str (tool_call_mode (llm config)));
                   ("input_budget_tokens", num input_budget); ("max_output_tokens", num max_tokens_);
                   ("usage_known", Bool known)] in
  let v := put_opt "failure" (Str <$> failure) (put_opt "http_status" (num <$> status_code) v) in
  foldl (fun v field => put_opt field (u ← usage; get field u) v) v
    ["prompt_tokens"; "completion_tokens"; "total_tokens"].

(** [Value::pointer] along object keys and array indexes. *)
Definition pointer_step (k : string) (v : value) : option value :=
  match v with
  | Object m => assoc k m
  | Array l => i ← (if all_digits k then parse_u32 k else None); l !! Z.to_nat i
  | _ => None
  end.
Definition pointer (path : list string) (v : value) : option value :=
  foldl (fun acc k => v ← acc; pointer_step k v) (Some v) path.
Definition pointer_str (path : list string) (v : value) : option string :=
  x ← pointer path v; as_str x.

(** How an HTTP response that is an error, or not JSON, is classified. *)
Definition provider_message (parsed : result string value) : string :=
  to_lowercase (unwrap_or
    (x ← result_ok parsed; opt_or (pointer_str ["error"; "message"] x) (get_str "error" x)) "").
Definition is_template_error (text : string) : bool :=
  contains_str text "single tool-call" || contains_str text "single tool call"
  || contains_str text "jinja" || contains_str text "rendering prompt".
Definition is_http_error (status_code : Z) : bool := (400 <=? status_code) && (status_code <? 600).
Definition response_failure (status_code : Z) (parsed : result string value) : option string :=
  if is_http_error status_code then
    Some (if is_template_error (provider_message parsed) then "model_template_error" else "model_http_error")
  else if is_err parsed then Some "invalid_model_response" else None.
Definition failure_message (code : string) : string :=
  if String.eqb code "model_template_error" then "Model prompt template could not render the request."
  else if String.eqb code "model_http_error" then "Model service returned an HTTP error."
  else "Model service returned invalid JSON.".
Definition transport_failure (timeout : bool) : string * string :=
  if timeout then ("model_timeout", "Upstream model request timed out.")
  else ("model_transport_error", "Upstream model transport failed.").

(** ** The summary request *)
Definition summary_payload (goal_ source : string) (correction : option string) : value :=
  let mem := config_memory config in
  let structure :=
    if hybrid_reflection mem then
      let escaped := replace ">" "&gt;" (replace "<" "&lt;" (replace "&" "&amp;" (trim goal_))) in
      "Return one XML document with root COMPACTED_STATE and exactly four text-only child elements, in this order: USER_GOAL, GLOBAL_LESSON_LEDGER, DEAD_ENDS, CURRENT_LOCAL_PIVOT. Use this complete first child verbatim: <USER_GOAL>"
      +:+ escaped
      +:+ "</USER_GOAL>. Write concise source-grounded lessons in GLOBAL_LESSON_LEDGER, failed approaches in DEAD_ENDS, and a provisional next direction in CURRENT_LOCAL_PIVOT. Close every element and the root with its matching closing tag. Escape XML special characters in section text. Do not emit Markdown fences, tool calls, JSON messages, nested elements, or placeholder text."
    else
      "Return exactly four ordered headings: '- Core Objective:', '- Universal Truths Discovered:', '- Dead Ends:', '- Current Local Pivot:'. Put the original goal verbatim below the first heading, then source-grounded lessons, failed approaches, and a provisional next direction below the others. Do not emit placeholder text or tool calls." in
  let instruction_ :=
    "Summarize only the supplied historical prefix and previous ledger. Copy the original goal exactly. Do not reconstruct recent raw messages. Carry forward prior useful lessons and dead ends. Keep provisional hypotheses separate from observations; do not present guesses as verified facts. Use only numbers appearing in the source. Do not calculate or invent statistics. Fill every section, using '- None.' if empty. No prose outside the structure. Escape XML special characters when using the XML format. Keep output short, within "
    +:+ show_Z (max_summary_tokens mem) +:+ " UTF-8 bytes. " +:+ structure in
  let instruction_ :=
    match opt_filter (fun v => negb (is_empty v)) correction with
    | Some feedback =>
        instruction_ +:+ " Previous replacement rejected: " +:+ feedback
        +:+ ". Generate a complete corrected replacement from the source. Preserve the full original goal; replace every placeholder with source-grounded text or '- None.' and check all closing tags."
    | None => instruction_
    end in
  Object [("model", Str (model config));
          ("messages", Array [Object [("role", Str "system"); ("content", Str instruction_)];
                              Object [("role", Str "user"); ("content", Str source)]]);
          ("temperature", num 0); ("max_tokens", num (summary_output_tokens mem))].
Definition summary_budget (s : Session) (historical : list Message) (correction : option string)
  : RequestBudget :=
  estimate_payload (summary_payload (goal s) (source_text (goal s) historical (compacted_context s)) correction)
    (config_memory config).
End payload.

(** ** Call identities *)
Definition message_call_ids (m : Message) : list string :=
  (match tool_calls m with
   | Some (Array calls) => filter_map (get_str "id") calls
   | _ => []
   end ++ match tool_call_id m with Some id => [id] | None => [] end)%list.
Definition historical_call_ids (s : Session) : list string := flat_map message_call_ids (memory s).

Section wire.
Context {W : Type} `{P : Platform} `{H : Host W} (config : Config).

(** ** Posting a request *)
Definition chat_result : Type := result (string * string * list value) (value * list value).
Definition elapsed : M W Z := world elapsed_ms.
Definition log_provider (record_ : value) : M W unit := world (fun w => (tt, log_line record_ w)).

(** Redaction of a provider failure ([provider_log.rs]). *)
Definition redaction_patterns : list string :=
  [dquote +:+ "[^" +:+ dquote +:+ "\r\n]{0,2000}" +:+ dquote; "'[^'\r\n]{0,2000}'"; "`[^`\r\n]{0,2000}`";
   "(?i)\b(messages?|prompt|request|body|content)\b.*$";
   "(?i)\b(authorization|api[_-]?key|access[_-]?token|refresh[_-]?token|password|secret)\b\s*[:=]\s*[^\s,;]+";
   "(?i)\bbearer\s+[A-Za-z0-9._~+/-]+=*"; "(?i)\b(sk|pk|rk|xox[baprs])-[-A-Za-z0-9_]{8,}\b";
   "(?i)https?://[^\s\])}>]+"].
Definition is_control (c : string) : bool :=
  let n := code_point c in (n <? 32) || ((127 <=? n) && (n <=? 159)).
Definition redact (input : string) : string :=
  let text := foldl (fun text pattern => regex_replace_all pattern "[REDACTED]" text)
                (join " " (split_whitespace input)) redaction_patterns in
  concat_str (take 500 (List.filter (fun c => negb (is_control c)) (chars text))).
Definition provider_record (status_code : Z) (body : value) : value :=
  let fields := foldl (fun fields k =>
        match opt_filter (literal_match "^[A-Za-z0-9_.\[\]/:-]{1,160}$")
                (as_str (index (index body "error") k)) with
        | Some v => set k (Str v) fields
        | None => fields
        end) (Object []) ["type"; "code"; "param"] in
  let fields := match opt_or (as_str (index (index body "error") "message"))
                        (as_str (index body "error")) with
                | Some v => set "message" (Str (redact v)) fields
                | None => fields
                end in
  Object [("event", Str "model_provider_failure"); ("http_status", num status_code);
          ("provider_error", fields)].

Definition failed_request (kind : string) (bytes max_tokens_ : Z) (status_code : option Z) (timeout : bool)
    (diagnostics : list value) : M W chat_result :=
  let '(code, message) := transport_failure timeout in
  ms ← elapsed;
  mret (Err (code, message,
    (diagnostics ++ [request_diagnostic config kind bytes max_tokens_ ms status_code (Some code) None])%list)).
(** The routes in order; a 404 falls through to the next one. *)
Fixpoint post_urls (urls : list string) (token kind : string) (payload_ : value) (bytes max_tokens_ : Z)
    (diagnostics : list value) : M W chat_result :=
  match urls with
  | [] => mret (Err ("model_http_error", "Model completion route unavailable.", diagnostics))
  | url :: rest =>
      response ← world (http_post url token payload_);
      match response with
      | HttpSendError timeout => failed_request kind bytes max_tokens_ None timeout diagnostics
      | HttpBodyError status_code timeout =>
          failed_request kind bytes max_tokens_ (Some status_code) timeout diagnostics
      | HttpResponse status_code body =>
          let parsed := json_from_str body in
          let failure := response_failure status_code parsed in
          _ ← when_ (is_http_error status_code)
                (log_provider (provider_record status_code (unwrap_or (result_ok parsed) Null)));
          ms ← elapsed;
          let diagnostics := (diagnostics ++ [request_diagnostic config kind bytes max_tokens_ ms
                (Some status_code) failure (x ← result_ok parsed; get "usage" x)])%list in
          if (status_code =? 404) && negb (length rest =? 0)%nat
          then post_urls rest token kind payload_ bytes max_tokens_ diagnostics
          else match failure with
               | Some code => mret (Err (code, failure_message code, diagnostics))
               | None => mret (match parsed with
                               | Ok v => Ok (v, diagnostics)
                               | Err _ => Err ("invalid_model_response",
                                               failure_message "invalid_model_response", diagnostics)
                               end)
               end
      end
  end.
Definition post_chat (payload_ : value) : M W chat_result := fun sw =>
  let token := unwrap_or (env_var (api_key_env (llm config)) (snd sw)) "local-not-required" in
  let max_tokens_ := unwrap_or (get_i64 "max_tokens" payload_)
        (unwrap_or (max_output_tokens (llm config)) (reserved_output_tokens (config_memory config))) in
  let kind := if is_some (get "tool_choice" payload_) then "decision" else "summary" in
  post_urls (completion_urls config) token kind payload_ (byte_len (json_text payload_)) max_tokens_ [] sw.

(** ** Reading the decision *)
(** [fresh_call_id]: identities are drawn until one is new; the fuel bounds
    the draws, the pigeonhole bound [length used + 1] being enough for
    distinct draws. *)
Fixpoint fresh_from (fuel : nat) (used : list string) : M W string :=
  u ← uuid;
  let id := "call_" +:+ u in
  match fuel with
  | O => mret id
  | S fuel' => if str_in id used then fresh_from fuel' used else mret id
  end.
Definition fresh_call_id (used : list string) : M W string := fresh_from (length used) used.

Definition invalid_decision (code content_ : string) (diagnostics : list value) : value :=
  Object [("type", Str "invalid"); ("code", Str code); ("content", Str content_);
          ("_diagnostics", Array diagnostics)].
(** Arguments of one call: the value to run with, or an error. *)
Definition call_arguments (name_ raw_arguments : string) : value * option string :=
  match parse_strict_json raw_arguments with
  | Ok (Object m) =>
      match find_first (fun t => String.eqb (tool_name t) name_) (tools config) with
      | Some t =>
          match validate_arguments (parameters t) (Object m) with
          | Ok _ => (Object m, None)
          | Err e => (Object [], Some ("invalid arguments: " +:+ e))
          end
      | None => (Object [], Some ("unknown tool '" +:+ name_ +:+ "'"))
      end
  | Ok _ => (Object [], Some "tool arguments must be a JSON object")
  | Err e => (Object [], Some ("malformed tool arguments: " +:+ e))
  end.
Definition known_tool (name_ : string) : bool :=
  existsb (fun t => String.eqb (tool_name t) name_) (tools config).
(** The body of the loop over the raw calls, its identity chosen. *)
Definition parse_call (raw : value) (id : string) : value :=
  let function := get "function" raw in
  let name_ := unwrap_or (f ← function; get_str "name" f) "invalid_tool_call" in
  let type_error := if is_some_and (get_str "type" raw) (fun x => negb (String.eqb x "function"))
                    then Some "tool call type is not function" else None in
  let raw_arguments := unwrap_or (f ← function; get_str "arguments" f) "" in
  let '(args, args_error) := call_arguments name_ raw_arguments in
  let error := opt_or args_error type_error in
  let error := if String.eqb name_ "invalid_tool_call" then Some "function name is missing" else error in
  let error := if negb (known_tool name_) && is_none error
               then Some ("unknown tool '" +:+ name_ +:+ "'") else error in
  let name_ := if is_empty name_ then "invalid_tool_call" else name_ in
  Object [("id", Str id); ("name", Str name_); ("raw_arguments", Str raw_arguments);
          ("arguments", args); ("error", of_opt_str error)].
Definition call_identity (used : list string) (raw : value) : M W string :=
  let raw_id := opt_filter (fun x => negb (is_empty (trim x))) (get_str "id" raw) in
  id ← match raw_id with Some id => gets (fun _ => id) | None => fresh_call_id used end;
  if str_in id used then fresh_call_id used else mret id.
Fixpoint parse_calls (used : list string) (raw_calls : list value) : M W (list value) :=
  match raw_calls with
  | [] => mret []
  | raw :: rest =>
      id ← call_identity used raw;
      calls ← parse_calls (id :: used) rest;
      mret (parse_call raw id :: calls)
  end.
Definition final_decision (content_ : option string) (diagnostics : list value) : value :=
  match opt_filter (fun x => negb (is_empty (trim x))) content_ with
  | Some text => Object [("type", Str "final"); ("content", Str text); ("_diagnostics", Array diagnostics)]
  | None => invalid_decision "empty_model_response"
              "Return a nonempty final answer or a valid tool call." diagnostics
  end.
Definition parse_decision (v : value) (diagnostics : list value) : M W value :=
  let choices := get "choices" v in
  match (c ← choices; l ← as_array c; head l) with
  | None =>
      mret (if is_some_and choices (fun x => match x with Array [] => true | _ => false end)
            then invalid_decision "empty_model_response" "Model returned an empty choices array." diagnostics
            else invalid_decision "invalid_model_response"
                   "Model response must contain choices[0].message." diagnostics)
  | Some choice =>
      match opt_filter is_object (get "message" choice) with
      | None => mret (invalid_decision "invalid_model_response"
                        "Model response choices[0].message must be an object." diagnostics)
      | Some message =>
          let content_ := get_str "content" message in
          match opt_filter (fun x => negb (is_null x)) (get "tool_calls" message) with
          | None | Some (Array []) => mret (final_decision content_ diagnostics)
          | Some (Array raw_calls) =>
              used ← gets historical_call_ids;
              calls ← parse_calls used raw_calls;
              mret (Object [("type", Str "tools"); ("content", of_opt_str content_);
                            ("calls", Array calls); ("_diagnostics", Array diagnostics)])
          | Some _ => mret (invalid_decision "invalid_model_response" "tool_calls must be an array." diagnostics)
          end
      end
  end.
Definition decide (messages_ : list Message) : M W value :=
  s ← get_session;
  b ← lift (decision_payload config (map wire_message messages_) s);
  r ← post_chat b;
  match r with
  | Ok (v, diagnostics) => parse_decision v diagnostics
  | Err (code, message, diagnostics) => mret (invalid_decision code message diagnostics)
  end.

(** ** Asking for a summary *)
Definition mark_truncated (diagnostics : list value) : list value :=
  match rev diagnostics with
  | last_ :: rest => rev (set "failure" (Str "summary_truncated") last_ :: rest)
  | [] => []
  end.
Definition compact_client (goal_ source : string) (correction : option string)
  : M W (option string * list value) :=
  r ← post_chat (summary_payload config goal_ source correction);
  mret (match r with
        | Err (_, _, diagnostics) => (None, diagnostics)
        | Ok (v, diagnostics) =>
            let text := pointer_str ["choices"; "0"; "message"; "content"] v in
            if is_some_and (pointer_str ["choices"; "0"; "finish_reason"] v) (String.eqb "length")
            then (text, mark_truncated diagnostics)
            else (opt_filter (fun t => negb (is_empty (trim t))) text, diagnostics)
        end).
End wire.
