(* ===== verification/Compaction.v ===== *)
(** * Compaction ([Engine::compact])

    When the complete request would exceed the context budget (or a softer
    policy asks for it), the oldest complete interactions are replaced by a
    validated ledger.  A pass selects the largest affordable prefix, asks the
    model for a summary a bounded number of times, and accepts a replacement
    only if it shrinks the request; the engine goes on only when the request
    fits. *)
From S2P Require Import Prelude Text Json Encoding Session Logic Context Ledger Diagnostics Workflow Prompt Tools Checkpoint Actions Wire.
Local Open Scope string_scope.
Local Open Scope Z_scope.

(** ** JSON of the structs recorded in diagnostics *)
Definition message_value (m : Message) : value :=
  Object [("message_id", of_opt_str (message_id m)); ("sequence", of_opt_num (sequence m));
          ("created_at", of_opt_str (created_at m)); ("role", Str (role m));
          ("content", of_opt_str (content m)); ("name", of_opt_str (name m));
          ("tool_call_id", of_opt_str (tool_call_id m)); ("tool_calls", unwrap_or (tool_calls m) Null)].
Definition ledger_value (l : Ledger) : value :=
  Object [("goal", Str (ledger_goal l)); ("model_claims", Array (map Str (model_claims l)));
          ("dead_ends", Array (map Str (dead_ends l))); ("hypothesis", Str (hypothesis l));
          ("source_sha256", Str (source_sha256 l)); ("verification", Str (verification l))].
Definition budget_value (b : RequestBudget) : value :=
  Object [("estimated_input_tokens", num (estimated_input_tokens b));
          ("reserved_output_tokens", num (budget_reserved_output_tokens b));
          ("safety_margin_tokens", num (budget_safety_margin_tokens b));
          ("context_window_tokens", num (budget_context_window_tokens b));
          ("fits", Bool (fits b)); ("estimator", Str (estimator b))].
Definition memory_value (ms : list Message) : value := Array (map message_value ms).
Definition index_values (l : list nat) : value := Array (map (fun i => num (Z.of_nat i)) l).
Definition group_indexes (groups : list HistoryGroup) : value :=
  index_values (flat_map (fun g => map S (indexes g)) groups).
Definition message_ids (ms : list Message) : value := Array (filter_map (fun m => Str <$> message_id m) ms).

(** ** Doubles *)
Definition f64_mul : spec_float -> spec_float -> spec_float := SFmul 53 1024.
(** [f.ceil() as i64] *)
Definition f64_ceil_i64 (f : spec_float) : Z :=
  match f with
  | S754_finite s _ _ =>
      let t := f64_trunc f in
      Z.max i64_min (Z.min i64_max (if s || f64_integral f then t else t + 1))
  | _ => f64_to_i64 f
  end.
Definition ratio_value (a b : Z) : value := f64_value (f64_div (f64_of_Z a) (f64_of_Z (Z.max b 1))).

(** ** Selecting the source *)
Section compaction.
Context {W : Type} `{P : Platform} `{H : Host W} (config : Config).
Definition budget_error (b : RequestBudget) : string :=
  "context_budget_exceeded: complete request exceeds configured context budget; no model request was sent ("
  +:+ json_text (budget_value b) +:+ ")".
Definition policy : Memory := config_memory config.
(** Groups are given up from the end, the latest first, until the summary
    request for the rest is affordable; nothing is left if even one is not. *)
Fixpoint select_prefix (s : Session) (rev_old tail : list HistoryGroup)
  : list HistoryGroup * list HistoryGroup * list Message :=
  let old := rev rev_old in
  let historical := flatten old in
  if (length historical =? 0)%nat || fits (summary_budget config s historical None)
  then (old, tail, historical)
  else match rev_old with
       | dropped :: ((_ :: _) as rest) => select_prefix s rest (dropped :: tail)
       | _ => (old, tail, [])
       end.
(** The session with its history cut down to the goal and [retained]. *)
Definition with_history (retained : list Message) (ledger : option string) (s : Session) : Session :=
  s <| memory := (take 1 (memory s) ++ retained)%list |> <| compacted_context := ledger |>.

(** ** One pass *)
Record PassContext := {
  pass : Z;
  measured : RequestBudget;
  hard : bool;
  required_reduction : Z;
  old_groups : list HistoryGroup;
  tail_groups : list HistoryGroup;
  historical : list Message;
  source : string;
  source_hash : string;
  before_memory : value;
  before_ledger : option string;
  before_step : Z;
  previous_ledger_hash : option string
}.
Definition decision_record (p : value) : M W unit := Diagnostics.record "compaction_decisions" p.
Definition skipped (assessment : value) (reason_ : string) : M W unit :=
  decision_record (Object [("assessment", assessment); ("outcome", Str "skipped"); ("reason", Str reason_)]).

(** The replacement of the history by an accepted ledger, with its records. *)
Definition accept (ctx : PassContext) (attempts_used : Z) (text : string) (ledger : Ledger)
    (canonical_ : string) (after : RequestBudget) (reduction : Z) : M W unit :=
  s ← get_session;
  let previous_ledger_id := active_ledger_id s in
  summary_id ← uuid;
  let before := estimated_input_tokens (measured ctx) in
  let source_messages := memory_value (historical ctx) in
  let previous := of_opt_str (previous_ledger_hash ctx) in
  let ratio := ratio_value reduction before in
  _ ← modify (fun s => with_history (flatten (tail_groups ctx)) (Some canonical_) s
        <| compaction_ledger := Some ledger |> <| active_ledger_id := Some summary_id |>);
  _ ← Diagnostics.record "compaction_events" (Str canonical_);
  _ ← modify (fun s => s <| last_compaction_step := step_count s |>
        <| last_compaction_estimated_tokens := Some (estimated_input_tokens after) |>
        <| last_compaction_attempt_sha256 := None |> <| request_budget := Some after |>);
  step ← gets step_count;
  _ ← Diagnostics.record "compaction_attempts" (Object
    [("step", num step); ("pass", num (pass ctx + 1)); ("attempt", num attempts_used);
     ("source_sha256", Str (source_hash ctx)); ("source_indexes", group_indexes (old_groups ctx));
     ("source_messages", source_messages); ("retained_indexes", group_indexes (tail_groups ctx));
     ("accepted", Bool true); ("before_estimated_tokens", num before);
     ("after_estimated_tokens", num (estimated_input_tokens after)); ("reduction_tokens", num reduction);
     ("reduction_ratio", ratio); ("proposal", Str text); ("ledger", ledger_value ledger);
     ("previous_ledger_sha256", previous)]);
  retained_ids ← gets (fun s => message_ids (drop 1 (memory s)));
  let efficiency := Object
    [("step", num step); ("pass", num (pass ctx + 1)); ("attempt", num attempts_used);
     ("source_sha256", Str (source_hash ctx)); ("before_estimated_tokens", num before);
     ("after_estimated_tokens", num (estimated_input_tokens after)); ("reduction_tokens", num reduction);
     ("reduction_ratio", ratio)] in
  let transcript_payload := Object
    [("content", Str canonical_); ("proposal", Str text); ("ledger", ledger_value ledger);
     ("source_sha256", Str (source_hash ctx)); ("source_message_ids", message_ids (historical ctx));
     ("retained_message_ids", retained_ids); ("previous_ledger_id", of_opt_str previous_ledger_id);
     ("efficiency", efficiency)] in
  _ ← modify (fun s => s <| compaction_provenance ::= fun l => (l ++ [Object
    [("source_sha256", Str (source_hash ctx)); ("source_indexes", group_indexes (old_groups ctx));
     ("source_messages", source_messages); ("retained_indexes", group_indexes (tail_groups ctx));
     ("previous_ledger_sha256", previous); ("accepted", Bool true);
     ("before_estimated_tokens", num before);
     ("after_estimated_tokens", num (estimated_input_tokens after)); ("reduction_tokens", num reduction);
     ("transcript_record_id", Str summary_id); ("transcript_payload", transcript_payload)]])%list |>);
  decision_record (Object
    [("step", num step); ("outcome", Str "accepted"); ("source_sha256", Str (source_hash ctx));
     ("before_estimated_tokens", num before);
     ("after_estimated_tokens", num (estimated_input_tokens after)); ("reduction_tokens", num reduction)]).

(** Judges one proposal: [None] when it was accepted, else the reason. *)
Definition judge_text (ctx : PassContext) (attempts_used : Z) (text : string) : M W (option string) :=
  s ← get_session;
  match validate_ledger text (goal s) (source ctx) (Z.max (max_summary_tokens policy) 1)
          (hybrid_reflection policy) with
  | Err reason_ => mret (Some reason_)
  | Ok (ledger, canonical_) =>
      let proposed := with_history (flatten (tail_groups ctx)) (Some canonical_) s in
      after ← lift (request_budget_of config proposed);
      let reduction := sub64 (estimated_input_tokens (measured ctx)) (estimated_input_tokens after) in
      if reduction <=? 0
      then mret (Some "replacement does not reduce the complete decision request")
      else if negb (hard ctx) && (reduction <? required_reduction ctx)
      then mret (Some "replacement reduction is below the configured optional minimum")
      else _ ← accept ctx attempts_used text ledger canonical_ after reduction; mret None
  end.
Definition stale (ctx : PassContext) (s : Session) : bool :=
  negb (value_eqb (memory_value (memory s)) (before_memory ctx))
  || negb (bool_decide (compacted_context s = before_ledger ctx))
  || negb (step_count s =? before_step ctx).
(** [diagnostics.iter().rev().find_map(...)] *)
Definition provider_failure (diagnostics : list value) : option string :=
  first_some (get_str "failure") (rev diagnostics).
Definition judge (ctx : PassContext) (attempts_used : Z) (proposal : option string)
    (diagnostics : list value) : M W (option string) :=
  s ← get_session;
  let failure := provider_failure diagnostics in
  if opt_str_is failure "summary_truncated" then mret (Some "summary_truncated")
  else if stale ctx s then mret (Some "summary proposal is stale because protected context changed")
  else match proposal with
       | Some text => judge_text ctx attempts_used text
       | None => mret (Some (unwrap_or failure "summary model returned no usable proposal"))
       end.
Definition reject (ctx : PassContext) (attempts_used : Z) (proposal : option string) (reason_ : string)
  : M W unit :=
  let attempt := Object
    [("step", num (before_step ctx)); ("pass", num (pass ctx + 1)); ("attempt", num attempts_used);
     ("source_sha256", Str (source_hash ctx)); ("source_indexes", group_indexes (old_groups ctx));
     ("source_messages", memory_value (historical ctx));
     ("retained_indexes", group_indexes (tail_groups ctx)); ("accepted", Bool false);
     ("reason", Str reason_); ("proposal", of_opt_str proposal);
     ("previous_ledger_sha256", of_opt_str (previous_ledger_hash ctx))] in
  _ ← archive_record "compaction_rejected" attempt;
  Diagnostics.record "compaction_attempts" attempt.
(** The loop over the attempts; the fuel is the number of attempts left. *)
Fixpoint attempt_summaries (fuel : nat) (ctx : PassContext) (attempts_used : Z)
    (correction : option string) (last_reason : string) : M W (bool * Z * string) :=
  match fuel with
  | O => mret (false, attempts_used, last_reason)
  | S fuel' =>
      s ← get_session;
      if negb (fits (summary_budget config s (historical ctx) correction))
      then mret (false, attempts_used, "summary request exceeds configured context budget")
      else
        let attempts_used := attempts_used + 1 in
        _ ← modify (fun s => s <| last_compaction_attempt_step := Some (step_count s) |>
                               <| last_compaction_attempt_sha256 := Some (source_hash ctx) |>);
        goal_ ← gets goal;
        '(proposal, diagnostics) ← compact_client config goal_ (source ctx) correction;
        _ ← modify (fun s => s <| model_request_diagnostics ::= fun l => (l ++ diagnostics)%list |>);
        verdict ← judge ctx attempts_used proposal diagnostics;
        match verdict with
        | None => mret (true, attempts_used, last_reason)
        | Some reason_ =>
            _ ← reject ctx attempts_used proposal reason_;
            attempt_summaries fuel' ctx attempts_used (Some reason_) reason_
        end
  end.
Definition attempts_left (attempts_used : Z) : nat :=
  Z.to_nat (compaction_max_attempts policy - attempts_used).

Inductive pass_end : Type :=
| Break (changed : bool) (attempts_used : Z)
| Continue (changed : bool) (attempts_used : Z).

(** The part of a pass after its source is chosen. *)
Definition run_pass (ctx : PassContext) (assessment : value) (attempts_used : Z) : M W pass_end :=
  _ ← decision_record (Object [("assessment", assessment); ("outcome", Str "triggered");
                               ("source_sha256", Str (source_hash ctx))]);
  '(accepted, attempts_used, last_reason) ←
    attempt_summaries (attempts_left attempts_used) ctx attempts_used None "";
  if negb accepted then
    _ ← modify (fun s => s <| last_compaction_attempt_sha256 := Some (source_hash ctx) |>
      <| compaction_provenance ::= fun l => (l ++ [Object
        [("source_sha256", Str (source_hash ctx)); ("source_indexes", group_indexes (old_groups ctx));
         ("source_messages", memory_value (historical ctx));
         ("retained_indexes", group_indexes (tail_groups ctx));
         ("previous_ledger_sha256", of_opt_str (previous_ledger_hash ctx)); ("accepted", Bool false);
         ("before_estimated_tokens", num (estimated_input_tokens (measured ctx)));
         ("reason", Str last_reason)]])%list |>);
    step ← gets step_count;
    _ ← decision_record (Object [("step", num step); ("outcome", Str "rejected");
                                 ("source_sha256", Str (source_hash ctx)); ("reason", Str last_reason)]);
    mret (if (compaction_max_attempts policy <=? attempts_used) || (length (old_groups ctx) <=? 1)%nat
          then Break false attempts_used else Continue false attempts_used)
  else
    fitting ← gets (fun s => is_some_and (request_budget s) fits);
    mret (if (fitting : bool) then Break true attempts_used else Continue true attempts_used).

(** What the assessment of a pass records. *)
Definition assess (s : Session) (pass_ : Z) (b : RequestBudget) : value :=
  let is_hard := negb (fits b) in
  let interval := interval_due config s in
  let input_limit := sub64 (sub64 (context_window_tokens policy) (budget_reserved_output_tokens b))
                       (safety_margin_tokens policy) in
  let reasons := ((if is_hard then ["hard_budget"] else []) ++ (if interval then ["cadence"] else [])
    ++ (if threshold_due config s (estimated_input_tokens b) then ["soft_threshold"] else []))%list in
  Object [("step", num (step_count s)); ("pass", num (pass_ + 1));
          ("trigger", Str (if is_hard then "hard_budget" else if interval then "cadence" else "soft_threshold"));
          ("trigger_reasons", Array (map Str reasons));
          ("before_estimated_tokens", num (estimated_input_tokens b));
          ("input_budget_tokens", num input_limit);
          ("headroom_tokens", num (sub64 input_limit (estimated_input_tokens b)));
          ("pressure_ratio", ratio_value (estimated_input_tokens b) input_limit)].
Definition pressure (b : RequestBudget) : spec_float :=
  let input_limit := sub64 (sub64 (context_window_tokens policy) (budget_reserved_output_tokens b))
                       (safety_margin_tokens policy) in
  f64_div (f64_of_Z (estimated_input_tokens b)) (f64_of_Z (Z.max input_limit 1)).
Definition minimum_reduction (is_hard : bool) (b : RequestBudget) : Z :=
  if is_hard then 1
  else Z.max (Z.max 1 (optional_compaction_min_reduction_tokens policy))
         (f64_ceil_i64 (f64_mul (f64_of_Z (estimated_input_tokens b))
                          (optional_compaction_min_reduction_ratio policy))).
(** Why an optional compaction is not attempted, before the source is known. *)
Definition optional_skip (s : Session) : option string :=
  if has_workflow config && complete config s then Some "completed_workflow"
  else if is_some_and (last_compaction_attempt_step s)
            (fun last => sub64 (step_count s) last <? compaction_min_interval_steps policy)
  then Some "minimum_spacing" else None.
Definition optional_decline (b : RequestBudget) (reclaimable required : Z) : option string :=
  if SFltb (pressure b) (optional_compaction_min_pressure_ratio policy) then Some "low_pressure"
  else if reclaimable <? Z.max (optional_compaction_min_reclaimable_tokens policy) required
  then Some "insufficient_reclaimable_history" else None.

(** The pass once a prefix of the history is selected. *)
Definition pass_selected (pass_ : Z) (b : RequestBudget) (assessment : value)
    (selected : list HistoryGroup * list HistoryGroup * list Message) (attempts_used : Z)
  : M W pass_end :=
  let '(old, tail, historical_) := selected in
  let is_hard := negb (fits b) in
  s ← get_session;
  floor ← lift (request_budget_of config (with_history (flatten tail) None s));
  let reclaimable := Z.max (sub64 (estimated_input_tokens b) (estimated_input_tokens floor)) 0 in
  let required := minimum_reduction is_hard b in
  let assessment := set "required_reduction_tokens" (num required)
        (set "reclaimable_estimated_tokens" (num reclaimable)
          (set "protected_estimated_tokens" (num (estimated_input_tokens floor)) assessment)) in
  match (if is_hard then None else optional_decline b reclaimable required) with
  | Some reason_ => _ ← skipped assessment reason_; mret (Break false attempts_used)
  | None =>
      let source_ := source_text (goal s) historical_ (compacted_context s) in
      let hash := sha256_hex source_ in
      if opt_str_is (last_compaction_attempt_sha256 s) hash then
        _ ← decision_record (Object [("assessment", assessment); ("outcome", Str "skipped");
              ("reason", Str "unchanged_failed_source"); ("source_sha256", Str hash)]);
        mret (Break false attempts_used)
      else
        run_pass {| pass := pass_; measured := b; hard := is_hard; required_reduction := required;
                    old_groups := old; tail_groups := tail; historical := historical_;
                    source := source_; source_hash := hash;
                    before_memory := memory_value (memory s); before_ledger := compacted_context s;
                    before_step := step_count s;
                    previous_ledger_hash := source_sha256 <$> compaction_ledger s |}
          assessment attempts_used
  end.
(** A pass that finds nothing to summarize ends the compaction: with the
    budget error when the request cannot be sent as it is. *)
Definition decline_pass (b : RequestBudget) (assessment : value) (reason_ : string) (attempts_used : Z)
  : M W pass_end :=
  _ ← skipped assessment reason_;
  if negb (fits b) then throw (budget_error b) else mret (Break false attempts_used).
Definition compact_pass (pass_ attempts_used : Z) : M W pass_end :=
  s ← get_session;
  b ← lift (request_budget_of config s);
  _ ← modify (fun s => s <| request_budget := Some b |>);
  if fits b && negb (compaction_due config s (estimated_input_tokens b))
  then mret (Break false attempts_used)
  else
    let assessment := assess s pass_ b in
    '(old, tail) ← lift (split_history (drop 1 (memory s)) (raw_turns_to_keep policy));
    match old with
    | [] => decline_pass b assessment "no_historical_groups" attempts_used
    | _ =>
        match (if fits b then optional_skip s else None) with
        | Some reason_ => _ ← skipped assessment reason_; mret (Break false attempts_used)
        | None =>
            s ← get_session;
            let selected := select_prefix s (rev old) tail in
            match snd selected with
            | [] => decline_pass b assessment "summarizer_source_unaffordable" attempts_used
            | _ => pass_selected pass_ b assessment selected attempts_used
            end
        end
    end.
Fixpoint compact_passes (fuel : nat) (pass_ : Z) (changed : bool) (attempts_used : Z) : M W bool :=
  match fuel with
  | O => mret changed
  | S fuel' =>
      e ← compact_pass pass_ attempts_used;
      match e with
      | Break c _ => mret (changed || c)
      | Continue c n => compact_passes fuel' (pass_ + 1) (changed || c) n
      end
  end.
Definition compact : M W bool :=
  changed ← compact_passes (Z.to_nat (Z.max (compaction_max_passes policy) 1)) 0 false 0;
  s ← get_session;
  b ← lift (request_budget_of config s);
  _ ← modify (fun s => s <| request_budget := Some b |>);
  if negb (fits b) then throw (budget_error b) else mret changed.
End compaction.
