(* ===== verification/Store.v ===== *)
(** * The PostgreSQL authority: tables, transactions, leases ([main.rs], [commands.rs])

    The tables of the session database are finite maps, one per table, and a
    statement is the function its SQL text denotes on them; [clock_timestamp()]
    reads the next value of a clock, so that time passes between two statements
    of a transaction.  A transaction runs its statements on the tables and
    either commits or leaves them as they were: sessions, commands and their
    rows are locked by the statements themselves ([FOR UPDATE], the advisory
    lock), so transactions on one session are serialized, and what other
    connections commit takes effect before a transaction begins ([meanwhile]).
    The network may fail, before a commit reaches the server or after it was
    carried out.

    Foreign keys, CHECK constraints and uniqueness constraints of the schema
    are not modelled, as they could only turn a commit into a rollback, other than
    the keys used by [ON CONFLICT] and the constraints that keep revisions and
    sequence numbers from wrapping around ([add_transcript], [commit_seal]). *)
From S2P Require Import Prelude Text Json Session Logic.
Local Open Scope string_scope.
Local Open Scope Z_scope.

(** ** Errors ([sqlx::Error]) *)
Inductive db_error : Type :=
| Protocol (message : string)
| Io (message : string)
| Tls (message : string)
| PoolTimedOut
| Database (message : string)
| RowNotFound
| Panic (message : string).
(** The errors after which the outcome is retried. *)
Definition is_transient (e : db_error) : bool :=
  match e with Io _ | Tls _ | PoolTimedOut => true | _ => false end.

(** ** Rows *)
Record SessionRow := {
  row_state : value;
  row_config : value;
  row_config_ref : option string;
  row_config_sha256 : option string;
  row_resolved_config_sha256 : option string;
  row_revision : Z;
  last_commit_id : option string;
  last_commit_sha256 : option string;
  storage_version : Z;
  lease_owner : option string;
  lease_fence : Z;
  lease_expires_at : option Z
}.
#[export] Instance eta_SessionRow : Eta SessionRow := fun r =>
  {| row_state := row_state r; row_config := row_config r; row_config_ref := row_config_ref r;
     row_config_sha256 := row_config_sha256 r;
     row_resolved_config_sha256 := row_resolved_config_sha256 r; row_revision := row_revision r;
     last_commit_id := last_commit_id r; last_commit_sha256 := last_commit_sha256 r;
     storage_version := storage_version r; lease_owner := lease_owner r; lease_fence := lease_fence r;
     lease_expires_at := lease_expires_at r |}.

Record CommandRow := {
  command_namespace : string;
  command_key : string;
  command_route : string;
  command_request : value;
  request_sha256 : string;
  command_session : option string;
  command_status : string;
  command_owner : option string;
  command_fence : Z;
  command_expires_at : option Z;
  response_status : option Z;
  response_body : option value
}.
#[export] Instance eta_CommandRow : Eta CommandRow := fun r =>
  {| command_namespace := command_namespace r; command_key := command_key r;
     command_route := command_route r; command_request := command_request r;
     request_sha256 := request_sha256 r; command_session := command_session r;
     command_status := command_status r; command_owner := command_owner r;
     command_fence := command_fence r; command_expires_at := command_expires_at r;
     response_status := response_status r; response_body := response_body r |}.

Record TranscriptRow := {
  tr_sequence : Z;
  tr_kind : string;
  tr_payload : value;
  tr_run_id : option string;
  tr_decision_step : Z;
  tr_created_at : string
}.
Record RunRow := {
  run_owner : string;
  run_fence : Z;
  run_row_status : string;
  run_row_started_at : string;
  run_row_ended_at : option string;
  run_row_reason : option string;
  run_last_step : Z;
  run_cancel_requested : bool;
  run_metadata : value;
  run_command : option string
}.
#[export] Instance eta_RunRow : Eta RunRow := fun r =>
  {| run_owner := run_owner r; run_fence := run_fence r; run_row_status := run_row_status r;
     run_row_started_at := run_row_started_at r; run_row_ended_at := run_row_ended_at r;
     run_row_reason := run_row_reason r; run_last_step := run_last_step r;
     run_cancel_requested := run_cancel_requested r; run_metadata := run_metadata r;
     run_command := run_command r |}.
Record ExecutionRow := {
  ex_run_id : option string;
  ex_call_id : option string;
  ex_tool : option string;
  ex_arguments : value;
  ex_policy : value;
  ex_idempotency_key : option string;
  ex_attempts : Z;
  ex_status : option string;
  ex_result : option string;
  ex_owner : option string;
  ex_fence : option Z;
  ex_payload : value;
  ex_command_id : option string;
  ex_namespace : option string;
  ex_target : option string;
  ex_payload_sha256 : option string;
  ex_started_at : option string;
  ex_finished_at : option string
}.
Record AttemptRow := {
  at_session : string;
  at_execution_id : option string;
  at_command_id : option string;
  at_number : Z;
  at_kind : option string;
  at_status : option string;
  at_payload_sha256 : option string;
  at_owner : option string;
  at_fence : option Z;
  at_started_at : option string;
  at_finished_at : option string;
  at_evidence : option value;
  at_error : option value;
  at_external_reference : option string
}.
Record ContextRow := {
  cx_revision : Z;
  cx_goal_message_id : string;
  cx_ledger_record_id : option string;
  cx_raw_message_ids : value;
  cx_ledger_state : value
}.
Record ReceiptRow := {
  rc_command : string;
  rc_fingerprint : string;
  rc_expected_revision : Z;
  rc_committed_revision : Z
}.
Record EventRow := {
  event_id : Z;
  event_created_at : Z;
  event_session : string;
  event_value : value;
  event_revision : Z;
  event_commit : string;
  event_command : string
}.
Record ArchiveRow := {
  ar_archive_id : option string;
  ar_session : string;
  ar_snapshot_revision : option Z;
  ar_sha256 : option string;
  ar_manifest : value
}.

(** ** The database *)
Record Db := {
  sessions : gmap string SessionRow;
  commands : gmap string CommandRow;
  transcript : gmap (string * string) TranscriptRow;
  session_calls : gmap (string * string) (list string);
  diagnostics : gmap (string * string * Z) value;
  runs : gmap (string * string) RunRow;
  tool_executions : gmap (string * string) ExecutionRow;
  action_attempts : gmap string AttemptRow;
  session_context : gmap string ContextRow;
  commit_receipts : gmap (string * string) ReceiptRow;
  session_events : list EventRow;
  archive_receipts : list ArchiveRow;
  (** the sequence behind [BIGSERIAL] *)
  event_serial : Z;
  (** readings of the clocks, identifiers and network outcomes consumed *)
  time_reads : nat;
  wall_reads : nat;
  uuid_reads : nat;
  network_reads : nat
}.
#[export] Instance eta_Db : Eta Db := fun d =>
  {| sessions := sessions d; commands := commands d; transcript := transcript d;
     session_calls := session_calls d; diagnostics := diagnostics d; runs := runs d;
     tool_executions := tool_executions d; action_attempts := action_attempts d;
     session_context := session_context d; commit_receipts := commit_receipts d;
     session_events := session_events d; archive_receipts := archive_receipts d;
     event_serial := event_serial d; time_reads := time_reads d; wall_reads := wall_reads d; uuid_reads := uuid_reads d;
     network_reads := network_reads d |}.
Definition empty_db : Db :=
  {| sessions := ∅; commands := ∅; transcript := ∅; session_calls := ∅; diagnostics := ∅; runs := ∅;
     tool_executions := ∅; action_attempts := ∅; session_context := ∅; commit_receipts := ∅;
     session_events := []; archive_receipts := []; event_serial := 0; time_reads := 0; wall_reads := 0; uuid_reads := 0;
     network_reads := 0 |}.

(** ** The server and the network *)
(** How a transaction's round trips fare: delivered; lost on the way, so that
    the server rolls back; or carried out with the acknowledgement lost. *)
Inductive loss : Type :=
| ConnectionLost (message : string)
| TlsLost (message : string)
| NoConnection.
Definition loss_error (l : loss) : db_error :=
  match l with ConnectionLost m => Io m | TlsLost m => Tls m | NoConnection => PoolTimedOut end.
Inductive delivery : Type :=
| Delivered
| LostRequest (l : loss)
| LostReply (l : loss).
Class Backend := {
  (** successive readings of [clock_timestamp()], in milliseconds *)
  time_at : nat -> Z;
  (** successive readings of the worker's clock, in seconds *)
  wall_at : nat -> Z;
  (** successive [Uuid::new_v4()] *)
  uuid_at : nat -> string;
  (** the fate of each transaction *)
  network : nat -> delivery;
  (** what reading back a JSONB column yields *)
  jsonb : value -> value;
  (** [to_jsonb] of a timestamp written as RFC 3339 text, of a reading of the
      clock, and [to_char(t AT TIME ZONE 'UTC', ...)] in whole seconds *)
  timestamp_json : string -> string;
  clock_json : Z -> string;
  timestamp_text : string -> string;
  (** the cast of a text to [uuid] *)
  uuid_cast : string -> option string;
  (** the message of [Uuid::parse_str] *)
  uuid_error : string -> string;
  (** the row [fetch_one] returns among those a query without order finds *)
  first_row : list string -> option string;
  (** what other connections commit before each transaction begins *)
  meanwhile : nat -> Db -> Db
}.
(** Nobody else uses the database while a computation runs. *)
Class Quiet `(B : Backend) : Prop := quiet : forall n d, meanwhile n d = d.
(** The same database with other users, and with none. *)
Definition with_others (act : nat -> Db -> Db) (B : Backend) : Backend := {|
  time_at := time_at; wall_at := wall_at; uuid_at := uuid_at; network := network; jsonb := jsonb;
  timestamp_json := timestamp_json; clock_json := clock_json; timestamp_text := timestamp_text;
  uuid_cast := uuid_cast; uuid_error := uuid_error; first_row := first_row; meanwhile := act |}.
Definition calm : Backend -> Backend := with_others (fun _ d => d).
#[export] Instance calm_quiet (B : Backend) : Quiet (calm B).
Proof. done. Qed.
#[export] Instance db_runtime `{Backend} : Runtime Db := {|
  new_uuid d := (uuid_at (uuid_reads d), d <| uuid_reads ::= S |>);
  now_seconds d := (wall_at (wall_reads d), d <| wall_reads ::= S |>)
|}.

(** ** Computations on a session and the database *)
Definition T (A : Type) : Type := Session * Db -> result db_error A * (Session * Db).
#[export] Instance T_ret : MRet T := fun A a sd => (Ok a, sd).
#[export] Instance T_bind : MBind T := fun A B f m sd =>
  match m sd with
  | (Ok a, sd') => f a sd'
  | (Err e, sd') => (Err e, sd')
  end.
#[export] Typeclasses Opaque T.
Definition fail {A} (e : db_error) : T A := fun sd => (Err e, sd).
Definition protocol {A} (m : string) : T A := fail (Protocol m).
Definition from_result {A} (r : result db_error A) : T A := fun sd => (r, sd).
Definition require_ok {A} (m : string) (o : option A) : T A := from_result (ok_or (Protocol m) o).
Definition reject_if (b : bool) (m : string) : T unit := if b then protocol m else mret tt.
Definition unwrap {A} (o : option A) : T A := from_result (ok_or (Panic "unwrap") o).
Definition read {A} (f : Db -> A) : T A := fun sd => (Ok (f (snd sd)), sd).
Definition write (f : Db -> Db) : T unit := fun sd => (Ok tt, (fst sd, f (snd sd))).
Definition this {A} (f : Session -> A) : T A := fun sd => (Ok (f (fst sd)), sd).
Definition update (f : Session -> Session) : T unit := fun sd => (Ok tt, (f (fst sd), snd sd)).
(** A computation of the engine's monad, its error converted. *)
Definition engine {A} (f : string -> db_error) (m : M Db A) : T A := fun sd =>
  let '(r, sd') := m sd in (map_err f r, sd').
Definition when_t (b : bool) (m : T unit) : T unit := if b then m else mret tt.
Fixpoint tfor {A} (f : A -> T unit) (l : list A) : T unit :=
  match l with [] => mret tt | x :: l' => mbind (fun _ => tfor f l') (f x) end.

Section store.
Context `{Backend}.

(** A text bound to a [uuid] parameter. *)
Definition bind_uuid (o : option string) : result db_error (option string) :=
  match o with
  | None => Ok None
  | Some s => Some <$> ok_or (Database "invalid input syntax for type uuid") (uuid_cast s)
  end.
Definition bind_key (o : option string) : result db_error string :=
  o ← bind_uuid o; ok_or (Database "null value violates not-null constraint") o.

(** [clock_timestamp()] *)
Definition clock_timestamp : T Z := fun sd =>
  (Ok (time_at (time_reads (snd sd))), (fst sd, (snd sd) <| time_reads ::= S |>)).
(** The consumed readings and serial numbers are not undone by a rollback. *)
Definition roll_back (before after : Db) : Db :=
  before <| event_serial := event_serial after |> <| time_reads := time_reads after |> <| wall_reads := wall_reads after |>
         <| uuid_reads := uuid_reads after |> <| network_reads := network_reads after |>.
(** The tables as the others have left them; the readings are those of this
    computation. *)
Definition intervene (d : Db) : Db :=
  (meanwhile (network_reads d) d) <| time_reads := time_reads d |> <| wall_reads := wall_reads d |>
    <| uuid_reads := uuid_reads d |> <| network_reads := network_reads d |>.
(** [db.begin()], the statements, [tx.commit()]: an error before the commit, or
    a request lost on the way, leaves the tables as they were when the
    transaction began; the changes the body made to the session are not undone. *)
Definition transaction {A} (m : T A) : T A := fun sd =>
  let before := intervene (snd sd) in
  let '(r, (s, d)) := m (fst sd, before) in
  let d' := d <| network_reads ::= S |> in
  match r with
  | Err e => (Err e, (s, roll_back before d'))
  | Ok a =>
      match network (network_reads d) with
      | Delivered => (Ok a, (s, d'))
      | LostRequest l => (Err (loss_error l), (s, roll_back before d'))
      | LostReply l => (Err (loss_error l), (s, d'))
      end
  end.

(** The sum of two [bigint]s: an overflow is an error of the server. *)
Definition bigint_add (a b : Z) : result db_error Z :=
  if in_i64 (a + b) then Ok (a + b) else Err (Database "bigint out of range").

(** ** Leases on a session *)
(** 30 seconds *)
Definition lease_interval : Z := 30000.
(** [x <= now], unknown when [x] is null *)
Definition expired (x : option Z) (now : Z) : bool := is_some_and x (fun t => t <=? now).
(** [x > now], unknown when [x] is null *)
Definition unexpired (x : option Z) (now : Z) : bool := is_some_and x (fun t => now <? t).
Definition put_session (session : string) (r : SessionRow) (d : Db) : Db :=
  d <| sessions ::= <[session := r]> |>.
(** [UPDATE agent_sessions SET lease_owner=$2, lease_fence=lease_fence+1, ...
    WHERE session_id=$1 AND (lease_owner IS NULL OR lease_expires_at<=now)
    RETURNING lease_fence] *)
Definition grant_lease (session owner : string) (now : Z) (d : Db) : result db_error (option Z * Db) :=
  match sessions d !! session with
  | None => Ok (None, d)
  | Some r =>
      if is_none (lease_owner r) || expired (lease_expires_at r) now
      then fence ← bigint_add (lease_fence r) 1;
           Ok (Some fence, put_session session
              (r <| lease_owner := Some owner |> <| lease_fence := fence |>
                 <| lease_expires_at := Some (now + lease_interval) |>) d)
      else Ok (None, d)
  end.
Definition holds_lease (r : SessionRow) (owner : string) (fence : Z) : bool :=
  bool_decide (lease_owner r = Some owner) && (lease_fence r =? fence).
(** the renewal, and the number of rows it affected *)
Definition extend_lease (session owner : string) (fence now : Z) (d : Db) : Z * Db :=
  match sessions d !! session with
  | None => (0, d)
  | Some r =>
      if holds_lease r owner fence && unexpired (lease_expires_at r) now
      then (1, put_session session (r <| lease_expires_at := Some (now + lease_interval) |>) d)
      else (0, d)
  end.
Definition drop_lease (session owner : string) (fence : Z) (d : Db) : Db :=
  match sessions d !! session with
  | None => d
  | Some r =>
      if holds_lease r owner fence
      then put_session session (r <| lease_owner := None |> <| lease_expires_at := None |>) d
      else d
  end.

(** [f] applied to the tables. *)
Definition apply_db {A} (f : Db -> A * Db) : T A := fun sd =>
  let '(a, d) := f (snd sd) in (Ok a, (fst sd, d)).
(** A statement outside a transaction commits on its own. *)
Definition statement {A} (f : Z -> Db -> A * Db) : T A :=
  transaction (now ← clock_timestamp; apply_db (f now)).
(** A statement that may fail, and one that may violate a constraint. *)
Definition try_db {A} (f : Db -> result db_error (A * Db)) : T A := fun sd =>
  match f (snd sd) with
  | Ok (a, d) => (Ok a, (fst sd, d))
  | Err e => (Err e, sd)
  end.
Definition fallible {A} (f : Z -> Db -> result db_error (A * Db)) : T A :=
  transaction (now ← clock_timestamp; try_db (f now)).
Definition insertion {A} (f : Db -> result db_error (A * Db)) : T A := transaction (try_db f).
(** [let _ = ...] *)
Definition ignore {A} (m : T A) : T unit := fun sd => (Ok tt, snd (m sd)).
Definition acquire_execution_lease (session : string) : T (string * Z) :=
  owner ← engine Protocol uuid;
  fence ← fallible (grant_lease session owner);
  match fence with
  | Some f => mret (owner, f)
  | None => protocol "session ownership conflict: lease held by another worker"
  end.
Definition renew_execution_lease (session owner : string) (fence : Z) : T unit :=
  rows ← statement (extend_lease session owner fence);
  reject_if (negb (rows =? 1)) "lease lost: owner or fence changed".
Definition release_execution_lease (session owner : string) (fence : Z) : T unit :=
  ignore (statement (fun _ d => (tt, drop_lease session owner fence d))).
(** The heartbeat task: one renewal per period, until one fails. *)
Fixpoint start_execution_heartbeat (periods : nat) (session owner : string) (fence : Z) : T unit :=
  match periods with
  | O => mret tt
  | S n => fun sd =>
      match renew_execution_lease session owner fence sd with
      | (Ok _, sd') => start_execution_heartbeat n session owner fence sd'
      | (Err _, sd') => (Ok tt, sd')
      end
  end.

(** ** Commands *)
Definition put_command (id_ : string) (r : CommandRow) (d : Db) : Db :=
  d <| commands ::= <[id_ := r]> |>.
Definition find_command (namespace key : string) (d : Db) : option (string * CommandRow) :=
  find_first (fun e => String.eqb (command_namespace (snd e)) namespace
                       && String.eqb (command_key (snd e)) key) (map_to_list (commands d)).
(** [INSERT INTO agent_commands ...]: the identity is the primary key, and the
    idempotency key is unique *)
Definition add_command (id_ : string) (r : CommandRow) (d : Db) : result db_error (unit * Db) :=
  match commands d !! id_, find_command (command_namespace r) (command_key r) d with
  | None, None => Ok (tt, put_command id_ r d)
  | _, _ => Err (Database "duplicate key value violates unique constraint")
  end.
(** [... ON CONFLICT(namespace,client_scope,idempotency_key) DO NOTHING] *)
Definition insert_command (id_ : string) (r : CommandRow) (d : Db) : result db_error (unit * Db) :=
  match find_command (command_namespace r) (command_key r) d with
  | Some _ => Ok (tt, d)
  | None => add_command id_ r d
  end.
(** [status IN ('pending','started') AND (owner IS NULL OR lease_expires_at<=now)] *)
Definition claimable (r : CommandRow) (now : Z) : bool :=
  (String.eqb (command_status r) "pending" || String.eqb (command_status r) "started")
  && (is_none (command_owner r) || expired (command_expires_at r) now).
Definition claim_command (id_ owner : string) (now : Z) (d : Db) : result db_error (option Z * Db) :=
  match commands d !! id_ with
  | None => Ok (None, d)
  | Some r =>
      if claimable r now
      then fence ← bigint_add (command_fence r) 1;
           Ok (Some fence, put_command id_
              (r <| command_owner := Some owner |> <| command_fence := fence |>
                 <| command_expires_at := Some (now + lease_interval) |>
                 <| command_status := "started" |>) d)
      else Ok (None, d)
  end.
Definition holds_command (r : CommandRow) (owner : option string) (fence : option Z) : bool :=
  is_some owner && bool_decide (command_owner r = owner)
  && is_some_and fence (fun f => command_fence r =? f).
(** [owner=$2 AND fence=$3 AND status='started' AND lease_expires_at>now] *)
Definition command_held (r : CommandRow) (owner : option string) (fence : option Z) (now : Z) : bool :=
  holds_command r owner fence && String.eqb (command_status r) "started"
  && unexpired (command_expires_at r) now.
Definition extend_command (id_ owner : string) (fence now : Z) (d : Db) : Z * Db :=
  match commands d !! id_ with
  | None => (0, d)
  | Some r =>
      if command_held r (Some owner) (Some fence) now
      then (1, put_command id_ (r <| command_expires_at := Some (now + lease_interval) |>) d)
      else (0, d)
  end.
(** [SET owner=NULL,lease_expires_at=NULL] *)
Definition disown (r : CommandRow) : CommandRow :=
  r <| command_owner := None |> <| command_expires_at := None |>.
Definition mark_uncertain (r : CommandRow) : CommandRow := disown r <| command_status := "uncertain" |>.
Definition settled_status (status_ : Z) : string := if 400 <=? status_ then "failed" else "succeeded".
Definition respond (status_ : Z) (body : value) (r : CommandRow) : CommandRow :=
  disown r <| command_status := settled_status status_ |> <| response_status := Some status_ |>
           <| response_body := Some (jsonb body) |>.
Definition alter_command (id_ : string) (f : CommandRow -> CommandRow) (p : CommandRow -> bool) (d : Db) : Db :=
  match commands d !! id_ with
  | Some r => if p r then put_command id_ (f r) d else d
  | None => d
  end.

(** The attached command: its identity, owner and fence. *)
Definition command_id_of (c : value) : option string := as_str (index c "id").
Definition command_owner_of (c : value) : option string := as_str (index c "owner").
Definition command_fence_of (c : value) : option Z := as_i64 (index c "fence").
(** [commands::guard] *)
Definition guard (c : value) : T unit :=
  now ← clock_timestamp;
  k ← from_result (bind_uuid (command_id_of c));
  owner ← from_result (bind_uuid (command_owner_of c));
  row ← read (fun d => k ← k; commands d !! k);
  reject_if (negb (is_some_and row (fun r => command_held r owner (command_fence_of c) now)))
    "command lease lost".
(** [commands::finish] *)
Definition finish (c : value) (status_ : Z) (body : value) : T unit :=
  _ ← guard c;
  k ← from_result (bind_uuid (command_id_of c));
  owner ← from_result (bind_uuid (command_owner_of c));
  match k with
  | Some k => write (alter_command k (respond status_ body)
                (fun r => holds_command r owner (command_fence_of c)))
  | None => mret tt
  end.
End store.
