(* ===== verification/Http.v ===== *)
(** * Requests and responses ([main.rs], [commands.rs])

    The state of a server process is the database, the locks it holds on
    sessions, and the world outside.  A handler is a computation on that state
    that may return its response early, or panic.  The checks of request bodies
    and the translation of database errors are here. *)
From S2P Require Import Prelude Text Json Session Store.
Local Open Scope string_scope.
Local Open Scope Z_scope.

(** ** Responses *)
Inductive payload_of : Type :=
| JsonBody (v : value)
| EventBody (events : list value)
| NoBody.
Record Response := {
  response_code : Z;
  response_headers : list (string * string);
  response_payload : payload_of
}.
#[export] Instance eta_Response : Eta Response := fun r =>
  {| response_code := response_code r; response_headers := response_headers r;
     response_payload := response_payload r |}.
(** [(StatusCode, Json(..))] *)
Definition json_response (code : Z) (v : value) : Response :=
  {| response_code := code; response_headers := []; response_payload := JsonBody v |}.
Definition with_header (k v : string) (r : Response) : Response :=
  r <| response_headers ::= obj_insert k v |>.
Definition detail (m : string) : value := Object [("detail", Str m)].
Definition not_found : Response := json_response 404 (detail "Session not found").
Definition body_of (r : Response) : option value :=
  match response_payload r with JsonBody v => Some v | _ => None end.

(** ** The server process *)
Record Server (X : Type) := {
  db : Db;
  held_locks : gset string;
  outside : X
}.
Arguments db {X} _.
Arguments held_locks {X} _.
Arguments outside {X} _.
#[export] Instance eta_Server X : Eta (Server X) := fun w =>
  {| db := db w; held_locks := held_locks w; outside := outside w |}.
(** How a handler stops early. *)
Inductive stop : Type :=
| Returned (r : Response)
| Panicked.
Definition H (X A : Type) : Type := Server X -> result stop A * Server X.
#[export] Instance H_ret X : MRet (H X) := fun A a w => (Ok a, w).
#[export] Instance H_bind X : MBind (H X) := fun A B f m w =>
  match m w with
  | (Ok a, w') => f a w'
  | (Err e, w') => (Err e, w')
  end.
#[export] Typeclasses Opaque H.

Section handlers.
Context {X : Type}.
Definition answer {A} (r : Response) : H X A := fun w => (Err (Returned r), w).
Definition answer_if (b : bool) (r : Response) : H X unit := if b then answer r else mret tt.
Definition panic {A} : H X A := fun w => (Err Panicked, w).
Definition answer_none {A} (r : Response) (o : option A) : H X A :=
  match o with Some a => mret a | None => answer r end.
Definition answer_err {E A} (f : E -> Response) (x : result E A) : H X A :=
  match x with Ok a => mret a | Err e => answer (f e) end.
(** [unwrap()] *)
Definition unwrap_h {A} (o : option A) : H X A := match o with Some a => mret a | None => panic end.
Definition from_tables {A} (f : Db -> A) : H X A := fun w => (Ok (f (db w)), w).
(** A computation of the database on behalf of no session. *)
Definition no_session : Session := default_session "" "" "".
Definition tables_only {A} (m : T A) (d : Db) : result db_error A * Db :=
  let '(r, (_, d')) := m (no_session, d) in (r, d').
Definition on_tables {A} (m : T A) : H X (result db_error A) := fun w =>
  let '(r, d') := tables_only m (db w) in
  (match r with Err (Panic _) => Err Panicked | _ => Ok r end, w <| db := d' |>).
(** A computation on a session; both the outcome and the session are kept. *)
Definition in_session {A} (m : T A) (s : Session) : H X (result db_error A * Session) := fun w =>
  let '(r, (s', d')) := m (s, db w) in
  (match r with Err (Panic _) => Err Panicked | _ => Ok (r, s') end, w <| db := d' |>).
(** The response of a handler that ran to its end. *)
Definition responded (m : H X Response) (w : Server X) : option Response * Server X :=
  match m w with
  | (Ok r, w') | (Err (Returned r), w') => (Some r, w')
  | (Err Panicked, w') => (None, w')
  end.
(** A handler called by another: its early return is its response. *)
Definition call (m : H X Response) : H X Response := fun w =>
  match m w with
  | (Err (Returned r), w') => (Ok r, w')
  | x => x
  end.

(** ** The lock on a session within the process ([session_lock]) *)
Definition session_lock (id_ : string) : H X bool := fun w =>
  if bool_decide (id_ ∈ held_locks w) then (Ok false, w)
  else (Ok true, w <| held_locks ::= fun l => {[id_]} ∪ l |>).
Definition unlock (id_ : string) (w : Server X) : Server X := w <| held_locks ::= fun l => l ∖ {[id_]} |>.
(** The guard is dropped however the handler ends. *)
Definition with_lock {A} (id_ : string) (refused : Response) (m : H X A) : H X A :=
  mbind (M := H X) (fun got : bool =>
    if got then (fun w => let '(r, w') := m w in (r, unlock id_ w')) else answer refused)
    (session_lock id_).
End handlers.

(** [internal] *)
Definition conflict_texts : list string := ["revision conflict"; "ownership conflict"; "lease lost"; "fenced worker"].
Definition internal (text : db_error -> string) (e : db_error) : Response :=
  let message := text e in
  json_response (if existsb (contains_str message) conflict_texts then 409 else 500) (detail message).

(** ** Request bodies *)
Definition validation_error (errors : list value) : Response :=
  json_response 422 (Object [("detail", Array errors)]).
Definition field_error (field : string) (value_ : option value) (kind message : string) (ctx : option value)
  : value :=
  let error := Object [("loc", Array [Str "body"; Str field]); ("msg", Str message); ("type", Str kind)] in
  let error := match value_ with Some v => set "input" v error | None => error end in
  match ctx with Some c => set "ctx" c error | None => error end.
(** [f as i64] after the range test on doubles; the bounds are [i64::MIN] and
    [i64::MAX] as doubles. *)
Definition integral_f64 (f : spec_float) : option Z :=
  if f64_integral f && SFleb (f64_of_Z i64_min) f && SFleb f (f64_of_Z i64_max)
  then Some (f64_to_i64 f) else None.
Definition coerce_integer (v : value) : option Z :=
  match as_i64 v with
  | Some n => Some n
  | None =>
      match as_f64 v with
      | Some f => integral_f64 f
      | None =>
          match as_str v with
          | Some s => parse_i64 (trim s)
          | None => (fun b : bool => if b then 1 else 0) <$> as_bool v
          end
      end
  end.
Definition validate_max_steps (q : value) : option value :=
  v ← get "max_steps" q;
  if is_null v then None
  else
    match coerce_integer v with
    | None => Some (field_error "max_steps" (Some v)
                (if is_string v then "int_parsing" else "int_type")
                (if is_string v then "Input should be a valid integer, unable to parse string as an integer"
                 else "Input should be a valid integer") None)
    | Some x =>
        if x <? 1 then Some (field_error "max_steps" (Some v) "greater_than_equal"
                               "Input should be greater than or equal to 1" (Some (Object [("ge", num 1)])))
        else if 50 <? x then Some (field_error "max_steps" (Some v) "less_than_equal"
                               "Input should be less than or equal to 50" (Some (Object [("le", num 50)])))
        else None
    end.
Definition validate_body (q : value) : option value :=
  if is_object q then None
  else Some (Object [("loc", Array [Str "body"]);
                     ("msg", Str "Input should be a valid dictionary or object to extract fields from");
                     ("type", Str "model_attributes_type"); ("input", q)]).
(** A field that must be a string of at least one character. *)
Definition string_error (field : string) (v : value) : option value :=
  if negb (is_string v)
  then Some (field_error field (Some v) "string_type" "Input should be a valid string" None)
  else if bool_decide (as_str v = Some "")
  then Some (field_error field (Some v) "string_too_short" "String should have at least 1 character"
               (Some (Object [("min_length", num 1)])))
  else None.
Definition missing_field (field : string) : value :=
  field_error field None "missing" "Field required" None.
