(* ===== verification/StoreLogic.v ===== *)
(** * Reasoning about transactions

    [twp m Q E] is the weakest precondition of a computation of [T]: a normal
    return establishes [Q] and an error [E], on the session and database it
    leaves.  [tkeeps R] says that a computation relates the states before and
    after by the preorder [R] however it ends; [tkeeps (same_on f)] that it
    leaves the part [f] of session and database alone.  [tframe] proves such facts by
    following the combinators.  [by_others] relates two databases between which
    only other connections committed anything. *)
From S2P Require Import Prelude Text Json Session Logic Store.
From stdpp Require Import fin_maps.

Definition twp {A} (m : T A) (Q : A -> Session -> Db -> Prop) (E : db_error -> Session -> Db -> Prop)
    (s : Session) (d : Db) : Prop :=
  match m (s, d) with
  | (Ok a, (s', d')) => Q a s' d'
  | (Err e, (s', d')) => E e s' d'
  end.

Section twp.
Implicit Types (s : Session) (d : Db).

Lemma twp_mono {A} (m : T A) (Q Q' : A -> Session -> Db -> Prop) (E E' : db_error -> Session -> Db -> Prop) s d :
  twp m Q E s d -> (forall a s' d', Q a s' d' -> Q' a s' d') ->
  (forall e s' d', E e s' d' -> E' e s' d') -> twp m Q' E' s d.
Proof. unfold twp. destruct (m (s, d)) as [[a|e] [s' d']]; auto. Qed.
Lemma twp_bind {A B} (m : T A) (f : A -> T B) Q E s d :
  twp m (fun a s' d' => twp (f a) Q E s' d') E s d -> twp (m ≫= f) Q E s d.
Proof. unfold twp, mbind, T_bind. by destruct (m (s, d)) as [[a|e] [s' d']]. Qed.
Lemma twp_ret {A} (a : A) (Q : A -> Session -> Db -> Prop) E s d : Q a s d -> twp (mret a) Q E s d.
Proof. done. Qed.
Lemma twp_fail {A} e (Q : A -> Session -> Db -> Prop) (E : db_error -> Session -> Db -> Prop) s d :
  E e s d -> twp (fail e) Q E s d.
Proof. done. Qed.
Lemma twp_from_result {A} (r : result db_error A) (Q : A -> Session -> Db -> Prop)
    (E : db_error -> Session -> Db -> Prop) s d :
  (forall a, r = Ok a -> Q a s d) -> (forall e, r = Err e -> E e s d) -> twp (from_result r) Q E s d.
Proof. unfold twp, from_result. destruct r; auto. Qed.
Lemma twp_require_ok {A} m (o : option A) (Q : A -> Session -> Db -> Prop)
    (E : db_error -> Session -> Db -> Prop) s d :
  (forall a, o = Some a -> Q a s d) -> (o = None -> E (Protocol m) s d) -> twp (require_ok m o) Q E s d.
Proof. unfold twp, require_ok, from_result. destruct o; cbn; auto. Qed.
Lemma twp_unwrap {A} (o : option A) (Q : A -> Session -> Db -> Prop)
    (E : db_error -> Session -> Db -> Prop) s d :
  (forall a, o = Some a -> Q a s d) -> (o = None -> E (Panic "unwrap") s d) -> twp (unwrap o) Q E s d.
Proof. unfold twp, unwrap, from_result. destruct o; cbn; auto. Qed.
Lemma twp_reject_if b m (Q : unit -> Session -> Db -> Prop) (E : db_error -> Session -> Db -> Prop) s d :
  (b = false -> Q tt s d) -> (b = true -> E (Protocol m) s d) -> twp (reject_if b m) Q E s d.
Proof. unfold twp, reject_if. destruct b; cbn; auto. Qed.
Lemma twp_read {A} (f : Db -> A) (Q : A -> Session -> Db -> Prop) E s d : Q (f d) s d -> twp (read f) Q E s d.
Proof. done. Qed.
Lemma twp_write f (Q : unit -> Session -> Db -> Prop) E s d : Q tt s (f d) -> twp (write f) Q E s d.
Proof. done. Qed.
Lemma twp_this {A} (f : Session -> A) (Q : A -> Session -> Db -> Prop) E s d : Q (f s) s d -> twp (this f) Q E s d.
Proof. done. Qed.
Lemma twp_update f (Q : unit -> Session -> Db -> Prop) E s d : Q tt (f s) d -> twp (update f) Q E s d.
Proof. done. Qed.
Lemma twp_engine {A} g (m : M Db A) (Q : A -> Session -> Db -> Prop) (E : db_error -> Session -> Db -> Prop) s d :
  wp m Q (fun e => E (g e)) s d -> twp (engine g m) Q E s d.
Proof. unfold twp, wp, engine. by destruct (m (s, d)) as [[a|e] [s' d']]. Qed.
(** The outcome of one run. *)
Lemma twp_run {A} (m : T A) (Q : A -> Session -> Db -> Prop) E s d r s' d' :
  twp m Q E s d -> m (s, d) = (r, (s', d')) ->
  match r with Ok a => Q a s' d' | Err e => E e s' d' end.
Proof. unfold twp. intros H Eq. rewrite Eq in H. by destruct r. Qed.
End twp.

(** The reading of the clock. *)
Lemma twp_clock `{Backend} (Q : Z -> Session -> Db -> Prop) E s d :
  (forall now d', d' = d <| time_reads ::= S |> -> Q now s d') -> twp clock_timestamp Q E s d.
Proof. unfold twp, clock_timestamp. cbn. auto. Qed.

(** ** Framing *)
Definition tkeeps {A} (R : Session * Db -> Session * Db -> Prop) (m : T A) : Prop :=
  forall sd r sd', m sd = (r, sd') -> R sd sd'.
(** A part of the state that is left alone. *)
Definition same_on {X} (f : Session * Db -> X) (sd sd' : Session * Db) : Prop := f sd' = f sd.
#[export] Instance same_on_equiv {X} (f : Session * Db -> X) : Equivalence (same_on f).
Proof. unfold same_on. split; [intros ?|intros ? ?|intros ? ? ?]; congruence. Qed.

Section tkeeps.
Context (R : Session * Db -> Session * Db -> Prop) `{!PreOrder R}.

Lemma tkeeps_bind {A B} (m : T A) (f : A -> T B) :
  tkeeps R m -> (forall a, tkeeps R (f a)) -> tkeeps R (m ≫= f).
Proof.
  intros Hm Hf sd r sd'. unfold mbind, T_bind.
  destruct (m sd) as [[a|e] sd1] eqn:E.
  - intros E'. etrans; [by eapply Hm|by eapply Hf].
  - intros [= _ <-]. by eapply Hm.
Qed.
Lemma tkeeps_ret {A} (a : A) : tkeeps R (mret a).
Proof. intros sd r sd' [= _ <-]. done. Qed.
Lemma tkeeps_fail {A} e : tkeeps R (fail (A := A) e).
Proof. intros sd r sd' [= _ <-]. done. Qed.
Lemma tkeeps_from_result {A} (x : result db_error A) : tkeeps R (from_result x).
Proof. intros sd r sd' [= _ <-]. done. Qed.
Lemma tkeeps_read {A} (f : Db -> A) : tkeeps R (read f).
Proof. intros sd r sd' [= _ <-]. done. Qed.
Lemma tkeeps_this {A} (f : Session -> A) : tkeeps R (this f).
Proof. intros sd r sd' [= _ <-]. done. Qed.
Lemma tkeeps_update f : (forall s d, R (s, d) (f s, d)) -> tkeeps R (update f).
Proof. intros Hf [s d] r sd' [= _ <-]. apply Hf. Qed.
Lemma tkeeps_write f : (forall s d, R (s, d) (s, f d)) -> tkeeps R (write f).
Proof. intros Hf [s d] r sd' [= _ <-]. apply Hf. Qed.
Lemma tkeeps_reject_if b m : tkeeps R (reject_if b m).
Proof. unfold reject_if. destruct b; [apply tkeeps_fail|apply tkeeps_ret]. Qed.
Lemma tkeeps_when b m : tkeeps R m -> tkeeps R (when_t b m).
Proof. intros Hm. destruct b; [done|apply tkeeps_ret]. Qed.
Lemma tkeeps_tfor {A} (f : A -> T unit) l : (forall x, tkeeps R (f x)) -> tkeeps R (tfor f l).
Proof.
  intros Hf. induction l as [|x l IH]; [apply tkeeps_ret|]. cbn [tfor]. by apply tkeeps_bind.
Qed.
Lemma tkeeps_engine {A} g (m : M Db A) :
  (forall sd r sd', m sd = (r, sd') -> R sd sd') -> tkeeps R (engine g m).
Proof.
  intros Hm sd r sd'. unfold engine. destruct (m sd) as [x sd1] eqn:E.
  intros [= _ <-]. by eapply Hm.
Qed.
Lemma tkeeps_clock `{Backend} : (forall s d, R (s, d) (s, d <| time_reads ::= S |>)) -> tkeeps R clock_timestamp.
Proof. intros Ht [s d] r sd' [= _ <-]. apply Ht. Qed.
Lemma twp_keeps {A} (m : T A) (Q : A -> Session -> Db -> Prop) (E : db_error -> Session -> Db -> Prop) s d :
  tkeeps R m -> (forall a s' d', R (s, d) (s', d') -> Q a s' d') ->
  (forall e s' d', R (s, d) (s', d') -> E e s' d') -> twp m Q E s d.
Proof.
  unfold tkeeps, twp. intros Hm HQ HE. destruct (m (s, d)) as [[a|e] [s' d']] eqn:Eq; eauto.
Qed.
End tkeeps.
Lemma tkeeps_weaken {A} (R R' : Session * Db -> Session * Db -> Prop) (m : T A) :
  (forall sd sd', R sd sd' -> R' sd sd') -> tkeeps R m -> tkeeps R' m.
Proof. unfold tkeeps. eauto. Qed.
Lemma tkeeps_on {A X Y} (f : Session * Db -> X) (g : X -> Y) (m : T A) :
  tkeeps (same_on f) m -> tkeeps (same_on (fun sd => g (f sd))) m.
Proof. apply tkeeps_weaken. unfold same_on. by intros ? ? ->. Qed.

(** Computations of the engine's monad that only read the clocks. *)
Lemma uuid_frame `{Backend} sd r sd' :
  uuid (W := Db) sd = (r, sd') -> sd' = (fst sd, (snd sd) <| uuid_reads ::= Datatypes.S |>).
Proof. by intros [= _ <-]. Qed.
Lemma timestamp_frame `{Backend} sd r sd' :
  transcript_timestamp (W := Db) sd = (r, sd') -> sd' = (fst sd, (snd sd) <| wall_reads ::= Datatypes.S |>).
Proof. by intros [= _ <-]. Qed.

(** ** The tables, without the counters *)
(** Two databases with the same tables. *)
Definition same_tables (d d' : Db) : Prop := d' = roll_back d d'.
Lemma same_tables_iff d d' : same_tables d d' <->
  sessions d' = sessions d /\ commands d' = commands d /\ transcript d' = transcript d
  /\ session_calls d' = session_calls d /\ diagnostics d' = diagnostics d /\ runs d' = runs d
  /\ tool_executions d' = tool_executions d /\ action_attempts d' = action_attempts d
  /\ session_context d' = session_context d /\ commit_receipts d' = commit_receipts d
  /\ session_events d' = session_events d /\ archive_receipts d' = archive_receipts d.
Proof.
  unfold same_tables. split.
  - intros E. rewrite E. by destruct d.
  - destruct d, d'. cbn. by intros (-> & -> & -> & -> & -> & -> & -> & -> & -> & -> & -> & ->).
Qed.
#[export] Instance same_tables_equiv : Equivalence same_tables.
Proof.
  split.
  - intros d. by apply same_tables_iff.
  - intros d d'. rewrite !same_tables_iff. intuition congruence.
  - intros d1 d2 d3. rewrite !same_tables_iff. intuition congruence.
Qed.
Lemma roll_back_same d d' : same_tables d (roll_back d d').
Proof. apply same_tables_iff. by destruct d. Qed.

(** ** What the others do *)
(** [by_others d d']: from [d] to [d'] only the readings of this computation and
    the commits of other connections changed anything. *)
Definition others_turn `{Backend} (d d' : Db) : Prop := same_tables d d' \/ d' = intervene d.
Definition by_others `{Backend} : Db -> Db -> Prop := rtc others_turn.
#[export] Instance by_others_preorder `{Backend} : PreOrder by_others.
Proof. unfold by_others. apply _. Qed.
Lemma by_others_same `{Backend} d d' : same_tables d d' -> by_others d d'.
Proof. intros Hs. by apply rtc_once; left. Qed.
Lemma by_others_turn `{Backend} d : by_others d (intervene d).
Proof. by apply rtc_once; right. Qed.
(** A property of the tables that the others respect survives their commits. *)
Lemma by_others_keeps `{Backend} (I : Db -> Prop) d d' :
  (forall x y, same_tables x y -> I x -> I y) -> (forall x, I x -> I (intervene x)) ->
  by_others d d' -> I d -> I d'.
Proof.
  intros Hs Ht. induction 1 as [|x y z [Hxy| ->] _ IH]; intros Hx; [done| |]; apply IH.
  - by eapply Hs.
  - by apply Ht.
Qed.
Lemma intervene_same `{Backend} d : same_tables (meanwhile (network_reads d) d) (intervene d).
Proof. apply same_tables_iff. unfold intervene. by destruct (meanwhile _ d). Qed.
Lemma intervene_quiet `{B : Backend} `{!Quiet B} d : intervene d = d.
Proof. unfold intervene. rewrite quiet. by destruct d. Qed.
Lemma by_others_quiet `{B : Backend} `{!Quiet B} d d' : by_others d d' -> same_tables d d'.
Proof.
  induction 1 as [|x y z [Hxy| ->] _ IH]; [done| |]; [by etrans|by rewrite intervene_quiet in IH].
Qed.

(** A transaction begins on the tables the others have left, and either commits
    what its body did, whose effect on the tables then is the body's, or leaves
    the tables alone. *)
Lemma transaction_cases `{Backend} {A} (m : T A) s d r s' d' :
  transaction m (s, d) = (r, (s', d')) ->
  (same_tables (intervene d) d' /\ exists e, r = Err e)
  \/ exists a d1, m (s, intervene d) = (Ok a, (s', d1)) /\ same_tables d1 d' /\ (r = Ok a \/ exists e, r = Err e).
Proof.
  unfold transaction. cbn [fst snd]. destruct (m (s, intervene d)) as [[a|e] [s1 d1]].
  - destruct (network (network_reads d1)) as [|e|e]; intros [= <- <- <-].
    + right. exists a, d1. split_and!; [done| |by left]. by apply same_tables_iff; destruct d1.
    + left. split; [apply roll_back_same|eauto].
    + right. exists a, d1. split_and!; [done| |eauto]. by apply same_tables_iff; destruct d1.
  - intros [= <- <- <-]. left. split; [apply roll_back_same|eauto].
Qed.

Lemma bigint_add_ok a b c : bigint_add a b = Ok c -> (c = a + b /\ i64_min <= a + b <= i64_max)%Z.
Proof. unfold bigint_add. destruct (in_i64 (a + b)%Z) eqn:E; [|done]. intros [= <-]. split; [done|by apply in_i64_spec]. Qed.

(** ** Automation *)
Create HintDb tframe.
Ltac tframe_leaf := intros; try (destruct_and?); solve [reflexivity | repeat case_match; reflexivity].
Ltac tframe_step :=
  match goal with
  | |- tkeeps _ (_ ≫= _) => apply tkeeps_bind; [apply _| |intros ?]
  | |- tkeeps _ (mret _) => apply tkeeps_ret; apply _
  | |- tkeeps _ (fail _) => apply tkeeps_fail; apply _
  | |- tkeeps _ (protocol _) => apply tkeeps_fail; apply _
  | |- tkeeps _ (from_result _) => apply tkeeps_from_result; apply _
  | |- tkeeps _ (require_ok _ _) => apply tkeeps_from_result; apply _
  | |- tkeeps _ (unwrap _) => apply tkeeps_from_result; apply _
  | |- tkeeps _ (reject_if _ _) => apply tkeeps_reject_if; apply _
  | |- tkeeps _ (read _) => apply tkeeps_read; apply _
  | |- tkeeps _ (this _) => apply tkeeps_this; apply _
  | |- tkeeps _ (update _) => apply tkeeps_update; tframe_leaf
  | |- tkeeps _ (when_t _ _) => apply tkeeps_when; [apply _|]
  | |- tkeeps _ (tfor _ _) => apply tkeeps_tfor; [apply _|intros ?]
  | |- tkeeps _ clock_timestamp => apply tkeeps_clock; tframe_leaf
  | |- tkeeps _ (engine _ transcript_timestamp) =>
      apply tkeeps_engine; intros ? ? ? ->%timestamp_frame; reflexivity
  | |- tkeeps _ (write _) => apply tkeeps_write; tframe_leaf
  | |- tkeeps _ (match ?x with _ => _ end) => destruct x
  | _ => solve [eauto with tframe]
  end.
Ltac tframe := repeat tframe_step.
Lemma twp_tfor {A} (I : Session -> Db -> Prop) (f : A -> T unit) l (Q : unit -> Session -> Db -> Prop) s d :
  I s d -> (forall x s d, I s d -> twp (f x) (fun _ => I) (fun _ _ _ => True) s d) ->
  (forall s d, I s d -> Q tt s d) -> twp (tfor f l) Q (fun _ _ _ => True) s d.
Proof.
  intros HI Hf HQ. revert s d HI. induction l as [|x l IH]; intros s d HI; [by apply HQ|].
  cbn [tfor]. apply twp_bind. eapply twp_mono; [by apply Hf| |done]. intros ? s' d' HI'. by apply IH.
Qed.
(** One step of a computation, the errors being of no interest. *)
Notation any_error := (fun _ _ _ => True).
Ltac twp_step :=
  match goal with
  | |- twp (_ ≫= _) _ _ _ _ => apply twp_bind
  | |- twp (mret _) _ _ _ _ => apply twp_ret
  | |- twp (from_result _) _ _ _ _ => apply twp_from_result; [intros|done]
  | |- twp (require_ok _ _) _ _ _ _ => apply twp_require_ok; [intros|done]
  | |- twp (unwrap _) _ _ _ _ => apply twp_unwrap; [intros|done]
  | |- twp (reject_if _ _) _ _ _ _ => apply twp_reject_if; [intros|done]
  | |- twp (read _) _ _ _ _ => apply twp_read
  | |- twp (write _) _ _ _ _ => apply twp_write
  | |- twp (this _) _ _ _ _ => apply twp_this
  | |- twp (update _) _ _ _ _ => apply twp_update
  | |- twp clock_timestamp _ _ _ _ => apply twp_clock; intros
  | |- twp (protocol _) _ _ _ _ => apply twp_fail; done
  | |- twp (fail _) _ _ _ _ => apply twp_fail; done
  | |- twp (when_t ?b _) _ _ _ _ => destruct b; cbn [when_t]
  end.
