(* ===== verification/HttpLogic.v ===== *)
(** * Reasoning about handlers

    [hwp m Q E] is the weakest precondition of a handler: a value establishes
    [Q], an early response or a panic [E].  A statement of the database either
    commits, or leaves the tables alone, or commits and loses its reply; in the
    two latter cases the error is one of the network.  [untouched] relates two
    states of a server with the same tables, locks and outside world,
    [spectated] two between which only other connections committed anything. *)
From S2P Require Import Prelude Text Json Session Logic Store StoreLogic Http.
Local Open Scope string_scope.
Local Open Scope Z_scope.

Definition hwp {X A} (m : H X A) (Q : A -> Server X -> Prop) (E : stop -> Server X -> Prop) (w : Server X) : Prop :=
  match m w with
  | (Ok a, w') => Q a w'
  | (Err e, w') => E e w'
  end.

Section hwp.
Context {X : Type}.
Implicit Types w : Server X.

Lemma hwp_mono {A} (m : H X A) (Q Q' : A -> Server X -> Prop) (E E' : stop -> Server X -> Prop) w :
  hwp m Q E w -> (forall a w', Q a w' -> Q' a w') -> (forall e w', E e w' -> E' e w') -> hwp m Q' E' w.
Proof. unfold hwp. destruct (m w) as [[a|e] w']; auto. Qed.
Lemma hwp_bind {A C} (m : H X A) (f : A -> H X C) Q E w :
  hwp m (fun a w' => hwp (f a) Q E w') E w -> hwp (m ≫= f) Q E w.
Proof. unfold hwp, mbind, H_bind. by destruct (m w) as [[a|e] w']. Qed.
Lemma hwp_ret {A} (a : A) (Q : A -> Server X -> Prop) E w : Q a w -> hwp (mret a) Q E w.
Proof. done. Qed.
Lemma hwp_answer {A} r (Q : A -> Server X -> Prop) (E : stop -> Server X -> Prop) w :
  E (Returned r) w -> hwp (answer r) Q E w.
Proof. done. Qed.
Lemma hwp_answer_if b r (Q : unit -> Server X -> Prop) (E : stop -> Server X -> Prop) w :
  (b = false -> Q tt w) -> (b = true -> E (Returned r) w) -> hwp (answer_if b r) Q E w.
Proof. unfold hwp, answer_if. destruct b; cbn; auto. Qed.
Lemma hwp_answer_none {A} r (o : option A) (Q : A -> Server X -> Prop) (E : stop -> Server X -> Prop) w :
  (forall a, o = Some a -> Q a w) -> (o = None -> E (Returned r) w) -> hwp (answer_none r o) Q E w.
Proof. unfold hwp, answer_none. destruct o; cbn; auto. Qed.
Lemma hwp_answer_err {F A} g (x : result F A) (Q : A -> Server X -> Prop) (E : stop -> Server X -> Prop) w :
  (forall a, x = Ok a -> Q a w) -> (forall e, x = Err e -> E (Returned (g e)) w) -> hwp (answer_err g x) Q E w.
Proof. unfold hwp, answer_err. destruct x; cbn; auto. Qed.
Lemma hwp_unwrap {A} (o : option A) (Q : A -> Server X -> Prop) (E : stop -> Server X -> Prop) w :
  (forall a, o = Some a -> Q a w) -> (o = None -> E Panicked w) -> hwp (unwrap_h o) Q E w.
Proof. unfold hwp, unwrap_h. destruct o; cbn; auto. Qed.
Lemma hwp_panic {A} (Q : A -> Server X -> Prop) (E : stop -> Server X -> Prop) w : E Panicked w -> hwp panic Q E w.
Proof. done. Qed.
Lemma hwp_call m (Q : Response -> Server X -> Prop) (E : stop -> Server X -> Prop) w :
  hwp m Q (fun e w' => match e with Returned r => Q r w' | Panicked => E Panicked w' end) w -> hwp (call m) Q E w.
Proof. unfold hwp, call. by destruct (m w) as [[a|[r|]] w']. Qed.
(** The response of a handler. *)
Lemma hwp_responded m (Q : Response -> Server X -> Prop) (E : stop -> Server X -> Prop) w o w' :
  hwp m Q E w -> responded m w = (o, w') ->
  match o with
  | Some r => Q r w' \/ E (Returned r) w'
  | None => E Panicked w'
  end.
Proof. unfold hwp, responded. destruct (m w) as [[a|[r|]] w1]; intros HQ [= <- <-]; auto. Qed.

Definition with_db (d : Db) w : Server X := w <| db := d |>.
Lemma hwp_on_tables {A} (m : T A) (Q : result db_error A -> Server X -> Prop) (E : stop -> Server X -> Prop) w :
  twp m (fun a _ d' => Q (Ok a) (with_db d' w))
        (fun e _ d' => match e with Panic _ => E Panicked (with_db d' w) | _ => Q (Err e) (with_db d' w) end)
        no_session (db w) ->
  hwp (on_tables m) Q E w.
Proof. unfold hwp, twp, on_tables, tables_only. destruct (m (no_session, db w)) as [[a|[]] [s d]]; done. Qed.
Lemma hwp_in_session {A} (m : T A) s (Q : result db_error A * Session -> Server X -> Prop)
    (E : stop -> Server X -> Prop) w :
  twp m (fun a s' d' => Q (Ok a, s') (with_db d' w))
        (fun e s' d' => match e with Panic _ => E Panicked (with_db d' w) | _ => Q (Err e, s') (with_db d' w) end)
        s (db w) ->
  hwp (in_session m s) Q E w.
Proof. unfold hwp, twp, in_session. destruct (m (s, db w)) as [[a|[]] [s' d]]; done. Qed.
End hwp.

(** ** Statements *)
(** A statement runs on the tables as the others have left them, and when it did
    not report success it did nothing, or all it does. *)
Lemma twp_fallible `{Backend} {A} (f : Z -> Db -> result db_error (A * Db)) (Q : A -> Session -> Db -> Prop)
    (E : db_error -> Session -> Db -> Prop) s d :
  (forall n d0 d' a d1, by_others d d0 -> f (time_at n) d0 = Ok (a, d1) -> same_tables d1 d' -> Q a s d') ->
  (forall l n d0 d' a d1, by_others d d0 -> f (time_at n) d0 = Ok (a, d1) ->
     same_tables d0 d' \/ same_tables d1 d' -> E (loss_error l) s d') ->
  (forall e n d0 d', by_others d d0 -> f (time_at n) d0 = Err e -> same_tables d0 d' -> E e s d') ->
  twp (fallible f) Q E s d.
Proof.
  intros HQ HE HF. unfold twp, fallible, transaction, mbind, T_bind, clock_timestamp, try_db. cbn [fst snd].
  set (n := time_reads (intervene d)). set (d0 := (intervene d) <| time_reads ::= S |>).
  assert (by_others d d0) as Hd.
  { etrans; [apply by_others_turn|]. apply by_others_same, same_tables_iff. by destruct (intervene d). }
  specialize (HQ n d0). destruct (f (time_at n) d0) as [[a d1]|e] eqn:Ef; cbn [fst snd] in *.
  - destruct (network (network_reads d1)) as [|l|l].
    + eapply HQ; [done|done|]. apply same_tables_iff. by destruct d1.
    + eapply (HE l n d0); [done|exact Ef|]. left. apply same_tables_iff. unfold d0. by destruct (intervene d).
    + eapply (HE l n d0); [done|exact Ef|]. right. apply same_tables_iff. by destruct d1.
  - eapply (HF e n d0); [done|exact Ef|]. apply same_tables_iff. unfold d0. by destruct (intervene d).
Qed.
Lemma twp_statement `{Backend} {A} (f : Z -> Db -> A * Db) (Q : A -> Session -> Db -> Prop)
    (E : db_error -> Session -> Db -> Prop) s d :
  (forall n d0 d', by_others d d0 -> same_tables (snd (f (time_at n) d0)) d' -> Q (fst (f (time_at n) d0)) s d') ->
  (forall l n d0 d', by_others d d0 -> same_tables d0 d' \/ same_tables (snd (f (time_at n) d0)) d' ->
     E (loss_error l) s d') ->
  twp (statement f) Q E s d.
Proof.
  intros HQ HE. change (statement f) with (fallible (fun now d => Ok (f now d))). apply twp_fallible; [..|done].
  - intros n d0 d' a d1 Hd [= E1] Hs. specialize (HQ n d0 d' Hd). rewrite E1 in HQ. by apply HQ.
  - intros l n d0 d' a d1 Hd [= E1] Hs. apply (HE l n d0 d' Hd). by rewrite E1.
Qed.
(** An insertion that does nothing. *)
Lemma twp_insertion_same `{Backend} {A} (f : Db -> result db_error (A * Db)) (a : A)
    (Q : A -> Session -> Db -> Prop) (E : db_error -> Session -> Db -> Prop) s d :
  (forall d0, by_others d d0 -> f d0 = Ok (a, d0)) -> (forall d', by_others d d' -> Q a s d') ->
  (forall l d', by_others d d' -> E (loss_error l) s d') -> twp (insertion f) Q E s d.
Proof.
  intros Hf HQ HE. unfold twp, insertion, transaction, try_db. cbn [fst snd]. rewrite Hf by apply by_others_turn.
  assert (forall d', same_tables (intervene d) d' -> by_others d d') as Hd.
  { intros d' Hs. etrans; [apply by_others_turn|by apply by_others_same]. }
  destruct (network (network_reads (intervene d))) as [|l|l].
  - apply HQ, Hd, same_tables_iff. by destruct (intervene d).
  - apply HE, Hd, same_tables_iff. by destruct (intervene d).
  - apply HE, Hd, same_tables_iff. by destruct (intervene d).
Qed.
Lemma twp_uuid `{Backend} (Q : string -> Session -> Db -> Prop) (E : db_error -> Session -> Db -> Prop) s d :
  (forall d', same_tables d d' -> Q (uuid_at (uuid_reads d)) s d') -> twp (engine Protocol uuid) Q E s d.
Proof. intros HQ. apply HQ, same_tables_iff. by destruct d. Qed.

(** ** The state of a server *)
Record untouched {X} (w w' : Server X) : Prop := {
  same_db : same_tables (db w) (db w');
  same_locks : held_locks w' = held_locks w;
  same_outside : outside w' = outside w
}.
#[export] Instance untouched_equiv {X} : Equivalence (@untouched X).
Proof.
  split.
  - by split.
  - intros w w' [H1 H2 H3]. by split.
  - intros w1 w2 w3 [H1 H2 H3] [H4 H5 H6]. split; [exact (transitivity H1 H4)|congruence..].
Qed.
Lemma untouched_db {X} (w : Server X) d : same_tables (db w) d -> untouched w (with_db d w).
Proof. by split. Qed.

(** Only others changed anything. *)
Record spectated `{B : Backend} {X} (w w' : Server X) : Prop := {
  others_db : by_others (db w) (db w');
  others_locks : held_locks w' = held_locks w;
  others_outside : outside w' = outside w
}.
#[export] Instance spectated_preorder `{Backend} {X} : PreOrder (@spectated _ X).
Proof.
  split.
  - by split.
  - intros w1 w2 w3 [H1 H2 H3] [H4 H5 H6]. split; [exact (transitivity H1 H4)|congruence..].
Qed.
Lemma spectated_db `{Backend} {X} (w : Server X) d : by_others (db w) d -> spectated w (with_db d w).
Proof. by split. Qed.
Lemma spectated_quiet `{B : Backend} `{!Quiet B} {X} (w w' : Server X) : spectated w w' -> untouched w w'.
Proof. intros [H1 H2 H3]. split; [by apply by_others_quiet|done|done]. Qed.

Ltac hwp_step :=
  match goal with
  | |- hwp (_ ≫= _) _ _ _ => apply hwp_bind
  | |- hwp (mret _) _ _ _ => apply hwp_ret
  | |- hwp (answer _) _ _ _ => apply hwp_answer
  | |- hwp (answer_if _ _) _ _ _ => apply hwp_answer_if; intros ?
  | |- hwp (answer_none _ _) _ _ _ => apply hwp_answer_none; [intros ? ?|intros ?]
  | |- hwp (answer_err _ _) _ _ _ => apply hwp_answer_err; intros ? ?
  | |- hwp (unwrap_h _) _ _ _ => apply hwp_unwrap; [intros ? ?|intros ?]
  | |- hwp panic _ _ _ => apply hwp_panic
  | |- hwp (call _) _ _ _ => apply hwp_call
  end.
