(* ===== verification/Rows.v ===== *)
(** * Rows read as JSON, and the projection of the active context ([integrity.rs])

    [to_jsonb] of a row, the casts of bound texts to [uuid], and the query
    [PROJECTION] that rebuilds what a snapshot leaves out: the active messages
    in the order of their identities, the content of the active ledger, and the
    executions of the pending calls with their attempts.  The columns that only
    carry the server's default [now()] (when a row was written) are left out. *)
From S2P Require Import Prelude Text Json Session Logic Store.
Local Open Scope string_scope.
Local Open Scope Z_scope.

(** ** Rows of one session *)
Definition of_session {A} (session : string) (m : gmap (string * string) A) : list (string * A) :=
  filter_map (fun e => if String.eqb (fst (fst e)) session then Some (snd (fst e), snd e) else None)
    (map_to_list m).
(** [SELECT COUNT( * ),COALESCE(MAX(sequence),0)] *)
Definition transcript_rows (session : string) (d : Db) : list (string * TranscriptRow) :=
  of_session session (transcript d).
Definition transcript_count (session : string) (d : Db) : Z := Z.of_nat (length (transcript_rows session d)).
Definition transcript_max (session : string) (d : Db) : Z :=
  foldr (fun e m => Z.max (tr_sequence (snd e)) m) 0 (transcript_rows session d).
Definition diagnostic_rows (session family_ : string) (d : Db) : list (Z * value) :=
  sort_by (fun a b => fst a <=? fst b)
    (filter_map (fun e => let '((s, f, n), x) := e in
       if String.eqb s session && String.eqb f family_ then Some (n, x) else None)
       (map_to_list (diagnostics d))).
(** [COALESCE(MAX(ordinal),0)] *)
Definition diagnostic_max (session family_ : string) (d : Db) : Z :=
  foldr (fun e m => Z.max (fst e) m) 0 (diagnostic_rows session family_ d).

(** [a || b] on JSONB *)
Definition json_items (v : value) : list value := match v with Array l => l | _ => [v] end.
Definition json_concat (a b : value) : value :=
  match a, b with
  | Object x, Object y => Object (foldl (fun m e => obj_insert (fst e) (snd e) m) x y)
  | _, _ => Array (json_items a ++ json_items b)
  end.

Section rows.
Context `{Backend}.

(** ** [to_jsonb] *)
Definition time_json (o : option string) : value := of_opt_str (timestamp_json <$> o).
Definition execution_json (session execution_ : string) (e : ExecutionRow) : value :=
  Object [("execution_id", Str execution_); ("session_id", Str session); ("run_id", of_opt_str (ex_run_id e));
          ("call_id", of_opt_str (ex_call_id e)); ("tool", of_opt_str (ex_tool e));
          ("arguments", ex_arguments e); ("policy", ex_policy e); ("command_id", of_opt_str (ex_command_id e));
          ("namespace", of_opt_str (ex_namespace e)); ("target", of_opt_str (ex_target e));
          ("key_algorithm", Str "agent-action-v1"); ("idempotency_key", of_opt_str (ex_idempotency_key e));
          ("payload_sha256", of_opt_str (ex_payload_sha256 e)); ("attempts", num (ex_attempts e));
          ("status", of_opt_str (ex_status e)); ("result", of_opt_str (ex_result e));
          ("owner", of_opt_str (ex_owner e)); ("fence", of_opt_num (ex_fence e));
          ("started_at", time_json (ex_started_at e)); ("finished_at", time_json (ex_finished_at e));
          ("payload", ex_payload e)].
Definition attempt_json (attempt_ : string) (a : AttemptRow) : value :=
  Object [("attempt_id", Str attempt_); ("session_id", Str (at_session a));
          ("execution_id", of_opt_str (at_execution_id a)); ("command_id", of_opt_str (at_command_id a));
          ("attempt_number", num (at_number a)); ("kind", of_opt_str (at_kind a));
          ("status", of_opt_str (at_status a)); ("payload_sha256", of_opt_str (at_payload_sha256 a));
          ("owner", of_opt_str (at_owner a)); ("fence", of_opt_num (at_fence a));
          ("external_reference", of_opt_str (at_external_reference a));
          ("evidence", unwrap_or (at_evidence a) Null); ("error", unwrap_or (at_error a) Null);
          ("started_at", time_json (at_started_at a)); ("finished_at", time_json (at_finished_at a))].
Definition event_json (e : EventRow) : value :=
  Object [("event_id", num (event_id e)); ("session_id", Str (event_session e)); ("event", event_value e);
          ("created_at", Str (clock_json (event_created_at e))); ("revision", num (event_revision e));
          ("commit_id", Str (event_commit e)); ("command_id", Str (event_command e))].
Definition diagnostic_json (session family_ : string) (row : Z * value) : value :=
  Object [("session_id", Str session); ("family", Str family_); ("ordinal", num (fst row)); ("payload", snd row)].

(** ** [integrity::PROJECTION] *)
Definition projected_message (id_ : string) (t : TranscriptRow) : value :=
  json_concat (tr_payload t)
    (Object [("message_id", Str id_); ("sequence", num (tr_sequence t));
             ("created_at", Str (timestamp_text (tr_created_at t)))]).
(** [SELECT value::uuid] over the recorded identities: a null names nothing. *)
Fixpoint active_ids (l : list value) : result db_error (list string) :=
  match l with
  | [] => Ok []
  | Null :: l' => active_ids l'
  | Str s :: l' =>
      u ← ok_or (Database "invalid input syntax for type uuid") (uuid_cast s);
      us ← active_ids l';
      Ok (u :: us)
  | _ :: _ => Err (Database "invalid input syntax for type uuid")
  end.
Definition active_messages (session : string) (ids : list string) (d : Db) : list value :=
  filter_map (fun i => match transcript d !! (session, i) with
    | Some t => if String.eqb (tr_kind t) "message" then Some (projected_message i t) else None
    | None => None
    end) ids.
Definition attempts_of_execution (execution_ : string) (d : Db) : list value :=
  map (fun e => attempt_json (fst e) (snd e))
    (sort_by (fun a b => at_number (snd a) <=? at_number (snd b))
       (List.filter (fun e => bool_decide (at_execution_id (snd e) = Some execution_))
          (map_to_list (action_attempts d)))).
Definition without_keys (ks : list string) (v : value) : value := foldl (fun v k => remove k v) v ks.
Definition projected_execution (session execution_ : string) (e : ExecutionRow) (d : Db) : value :=
  json_concat
    (json_concat (ex_payload e) (without_keys ["owner"; "payload"] (execution_json session execution_ e)))
    (Object [("attempt_records", Array (attempts_of_execution execution_ d))]).
Definition pending_call_ids (session : string) (d : Db) : list string :=
  match sessions d !! session with
  | Some r => filter_map (get_str "id") (unwrap_or (get_array "pending_tool_calls" (row_state r)) [])
  | None => []
  end.
Definition active_executions (session : string) (d : Db) : list value :=
  let wanted e := is_some_and (ex_call_id e) (fun c => str_in c (pending_call_ids session d)) in
  map (fun e => projected_execution session (fst e) (snd e) d)
    (sort_by (fun a b => String.leb (fst a) (fst b))
       (List.filter (fun e => wanted (snd e)) (of_session session (tool_executions d)))).
Definition projection (session : string) (d : Db) : result db_error value :=
  c ← ok_or RowNotFound (session_context d !! session);
  raw ← active_ids (unwrap_or (as_array (cx_raw_message_ids c)) []);
  let content_ := (l ← cx_ledger_record_id c; t ← transcript d !! (session, l); get "content" (tr_payload t)) in
  Ok (jsonb (Object [
    ("memory", Array (active_messages session (cx_goal_message_id c :: raw) d));
    ("compacted_context", unwrap_or content_ Null);
    ("ledger_state", cx_ledger_state c);
    ("executions", Array (active_executions session d))])).
End rows.
