(* ===== verification/Snapshot.v ===== *)
(** * The session as JSON and its integrity anchors ([integrity.rs])

    [session_json] is the serialization serde derives for the session: the
    fields in declaration order under their serialized names, without the
    skipped ones.  The stored snapshot leaves out what other tables hold (the
    history, the ledger, the executions, the diagnostics) and carries two
    digests, of itself and of the active context. *)
From S2P Require Import Prelude Text Json Encoding Session Logic Prompt Compaction.
Local Open Scope string_scope.
Local Open Scope Z_scope.

(** ** [serde_json::to_value(session)] *)
Definition entry_value (e : TranscriptEntry) : value :=
  Object [("sequence", num (te_sequence e)); ("message_id", Str (te_message_id e));
          ("kind", Str (te_kind e)); ("payload", te_payload e); ("run_id", of_opt_str (te_run_id e));
          ("decision_step", num (te_decision_step e)); ("created_at", Str (te_created_at e))].
(** A [BTreeMap] is serialized in the order of its keys. *)
Definition counts_value (m : gmap string Z) : value :=
  Object (map (fun e => (fst e, num (snd e)))
    (sort_by (fun a b => String.leb (fst a) (fst b)) (map_to_list m))).
Definition of_opt {A} (f : A -> value) (o : option A) : value :=
  match o with Some a => f a | None => Null end.
Definition strings_value (l : list string) : value := Array (map Str l).

Definition session_entries (s : Session) : list (string * value) :=
  [("run_command_id", of_opt_str (run_command_id s));
   ("last_archive_id", of_opt_str (last_archive_id s));
   ("id", Str (id s)); ("goal", Str (goal s)); ("revision", num (revision s));
   ("next_transcript_sequence", num (next_transcript_sequence s));
   ("history_complete", Bool (history_complete s));
   ("transcript_pending", Array (map entry_value (pending_transcript s)));
   ("config_ref", of_opt_str (config_ref s)); ("config_sha256", of_opt_str (config_sha256 s));
   ("resolved_config_sha256", of_opt_str (resolved_config_sha256 s));
   ("memory", memory_value (memory s)); ("compacted_context", of_opt_str (compacted_context s));
   ("active_ledger_id", of_opt_str (active_ledger_id s));
   ("compaction_events", strings_value (compaction_events s));
   ("compaction_attempts", Array (compaction_attempts s));
   ("compaction_decisions", Array (compaction_decisions s));
   ("diagnostic_counts", counts_value (diagnostic_counts s));
   ("diagnostics_complete", Bool (diagnostics_complete s));
   ("diagnostic_history_complete", Bool (diagnostic_history_complete s));
   ("diagnostic_rejections", num (diagnostic_rejections s));
   ("compaction_savings_total", num (compaction_savings_total s));
   ("compaction_savings_known", Bool (compaction_savings_known s));
   ("ledger_state", of_opt ledger_value (compaction_ledger s));
   ("last_compaction_step", num (last_compaction_step s));
   ("last_compaction_estimated_tokens", of_opt_num (last_compaction_estimated_tokens s));
   ("last_compaction_attempt_step", of_opt_num (last_compaction_attempt_step s));
   ("last_compaction_attempt_sha256", of_opt_str (last_compaction_attempt_sha256 s));
   ("request_budget", of_opt budget_value (request_budget s));
   ("workflow", of_opt workflow_value (workflow s));
   ("step_count", num (step_count s)); ("run_count", num (run_count s));
   ("run_id", of_opt_str (run_id s)); ("run_started_at", of_opt_str (run_started_at s));
   ("run_ended_at", of_opt_str (run_ended_at s));
   ("run_termination_reason", of_opt_str (run_termination_reason s));
   ("status", Str (status s)); ("run_status", Str (run_status s));
   ("final_answer", of_opt_str (final_answer s)); ("last_error", unwrap_or (last_error s) Null);
   ("consecutive_invalid_responses", num (consecutive_invalid_responses s));
   ("model_request_diagnostics", Array (model_request_diagnostics s));
   ("completion_artifacts", completion_artifacts s);
   ("no_progress_steps", num (no_progress_steps s));
   ("progress_fingerprint", of_opt_str (progress_fingerprint s));
   ("progress_seen_outputs", strings_value (progress_seen_outputs s));
   ("pending_tool_calls", Array (pending_tool_calls s));
   ("pending_tool_phase", of_opt_str (pending_tool_phase s))].
Definition session_json (s : Session) : value := Object (session_entries s).

(** ** The anchored snapshot *)
Definition projected_keys : list string :=
  ["memory"; "compacted_context"; "ledger_state"; "compaction_ledger"; "compaction_provenance";
   "executions"; "model_request_diagnostics"; "pending_transcript"; "transcript_pending";
   "diagnostics_complete"; "compaction_events"; "compaction_attempts"; "compaction_decisions"].
Definition remove_all (ks : list string) (v : value) : value := foldl (fun v k => remove k v) v ks.
(** [v == n] for a JSON value and an integer. *)
Definition is_int (v : value) (n : Z) : bool := is_some_and (as_i64 v) (fun x => x =? n).
Definition is_text (v : value) (s : string) : bool := is_some_and (as_str v) (String.eqb s).

Section integrity.
Context `{P : Platform}.
Definition digest (v : value) : string := sha256_hex (canonical_json v).
(** [json!([s.memory, s.compacted_context, s.compaction_ledger])] *)
Definition context_value (s : Session) : value :=
  Array [memory_value (memory s); of_opt_str (compacted_context s); of_opt ledger_value (compaction_ledger s)].
Definition snapshot (s : Session) : value :=
  let v := remove_all projected_keys (session_json s) in
  set "_active_integrity"
    (Object [("version", num 1); ("snapshot_sha256", Str (digest v));
             ("context_sha256", Str (digest (context_value s)))]) v.
Definition validate_snapshot (v : value) : result string unit :=
  match v with
  | Object m =>
      match assoc "_active_integrity" m with
      | None => Err "missing active integrity anchor"
      | Some anchor =>
          let copy := remove "_active_integrity" v in
          fail_if (negb (is_int (index anchor "version") 1)
                   || negb (is_text (index anchor "snapshot_sha256") (digest copy)))
            "snapshot integrity mismatch"
      end
  | _ => Err "invalid snapshot"
  end.
Definition validate_context (v : value) (s : Session) : result string unit :=
  fail_if (negb (is_text (index (index v "_active_integrity") "context_sha256") (digest (context_value s))))
    "active context integrity mismatch".

(** ** Facts *)
Lemma obj_insert_new {A} k (x : A) m : assoc k m = None -> obj_insert k x m = (m ++ [(k, x)])%list.
Proof.
  induction m as [|[k' y] m IH]; cbn; [done|]. destruct (String.eqb k k'); [done|]. intros H.
  by rewrite IH.
Qed.
Lemma obj_remove_last {A} k (x : A) m : assoc k m = None -> obj_remove k (m ++ [(k, x)]) = m.
Proof.
  intros H. unfold obj_remove.
  assert (assoc k (m ++ [(k, x)]) = Some x) as ->.
  { rewrite <- obj_insert_new by done. apply assoc_insert_eq. }
  rewrite rev_app_distr. cbn. by rewrite String.eqb_refl, rev_involutive.
Qed.
Lemma keys_map_entry {A} k (e : string * A) m : keys (map (fun x => if String.eqb k (fst x) then e else x) m)
  = map (fun j => if String.eqb k j then fst e else j) (keys m).
Proof. unfold keys. rewrite !map_map. apply map_ext. intros [j y]. cbn. by destruct (String.eqb k j). Qed.
(** Removing entries brings no new key. *)
Lemma obj_remove_keys {A} k j (m : list (string * A)) : j ∈ keys (obj_remove k m) -> j ∈ keys m.
Proof.
  unfold obj_remove. destruct (assoc k m); [|done]. destruct (rev m) as [|[k' x] rest] eqn:E; [by intros ?%elem_of_nil|].
  assert (m = (rev rest ++ [(k', x)])%list) as -> by (by rewrite <- (rev_involutive m), E).
  unfold keys at 2. rewrite map_app. fold (keys (rev rest)). cbn.
  destruct (String.eqb k k'); [set_solver|]. rewrite keys_map_entry.
  intros (i & -> & Hi)%list_elem_of_fmap. cbn. destruct (String.eqb k i); set_solver.
Qed.
Lemma remove_all_keys ks j m : exists m', remove_all ks (Object m) = Object m' /\ (j ∈ keys m' -> j ∈ keys m).
Proof.
  unfold remove_all. revert m. induction ks as [|k ks IH]; intros m; cbn [foldl]; [by exists m|].
  cbn. destruct (IH (obj_remove k m)) as (m' & E & H). exists m'. split; [exact E|].
  intros Hj. by eapply obj_remove_keys, H.
Qed.
Lemma snapshot_parts s : exists m, remove_all projected_keys (session_json s) = Object m
  /\ assoc "_active_integrity" m = None.
Proof.
  destruct (remove_all_keys projected_keys "_active_integrity" (session_entries s)) as (m & E & H).
  exists m. split; [exact E|]. apply assoc_none. intros Hin%H.
  apply str_in_spec in Hin. vm_compute in Hin. discriminate.
Qed.
End integrity.

(** * Properties *)
Section properties.
Context `{P : Platform}.

End properties.
