(* ===== verification/Config.v ===== *)
(** * Configuration ([main.rs])

    A configuration file is read below the administrator's root, its
    environment references are expanded, it is decoded and validated, and its
    identity is the digest of its completed form without what is default.
    [validate_config] is the gate: what it accepts is what every run relies on. *)
From S2P Require Import Prelude Text Json Encoding Session Tools.
Local Open Scope string_scope.
Local Open Scope Z_scope.

(** ** Schemas of tool parameters *)
Definition ALLOWED : list string :=
  ["type"; "properties"; "required"; "additionalProperties"; "items"; "enum"; "const"; "minimum"; "maximum";
   "exclusiveMinimum"; "exclusiveMaximum"; "minLength"; "maxLength"; "pattern"; "minItems"; "maxItems";
   "description"; "title"; "default"; "examples"; "$schema"].
Definition schema_types : list string :=
  ["object"; "array"; "string"; "number"; "integer"; "boolean"; "null"].
(** [f] at the value of a key, which recursion may go through. *)
Definition at_key {A} (k : string) (f : value -> A) : list (string * value) -> option A :=
  fix go m := match m with
              | [] => None
              | (k', x) :: m' => if String.eqb k k' then Some (f x) else go m'
              end.
Definition otherwise {E} (o : option (result E unit)) : result E unit := unwrap_or o (Ok tt).

Section schema.
Context `{P : Platform}.
Definition check_schema_required (obj : list (string * value)) (path : string) : result string unit :=
  fail_if (is_some_and (assoc "required" obj)
             (fun r => negb (is_some_and (as_array r) (forallb is_string))))
    (path +:+ ".required must be an array of strings").
Definition check_schema_enum (obj : list (string * value)) (path : string) : result string unit :=
  fail_if (is_some_and (assoc "enum" obj)
             (fun e => negb (is_some_and (as_array e) (fun a => negb (length a =? 0)%nat))))
    (path +:+ ".enum must be a nonempty array").
Definition check_schema_bounds (obj : list (string * value)) (path : string) : result string unit :=
  for_each (fun key => fail_if (is_some_and (assoc key obj)
      (fun b => negb (is_number b) || is_none_or (as_f64 b) (fun n => negb (f64_finite n))))
      (path +:+ "." +:+ key +:+ " must be a finite number"))
    ["minimum"; "maximum"; "exclusiveMinimum"; "exclusiveMaximum"].
Definition check_schema_lengths (obj : list (string * value)) (path : string) : result string unit :=
  for_each (fun key => fail_if (is_some_and (assoc key obj) (fun b => is_none (as_u64 b)))
      (path +:+ "." +:+ key +:+ " must be a nonnegative integer"))
    ["minLength"; "maxLength"; "minItems"; "maxItems"].
Definition check_schema_pattern (obj : list (string * value)) (path : string) : result string unit :=
  match assoc "pattern" obj with
  | None => Ok tt
  | Some (Str pattern) =>
      fail_if (is_none (regex_is_match pattern ""))
        ("invalid pattern at " +:+ path +:+ ": " +:+ regex_error pattern)
  | Some _ => Err (path +:+ ".pattern must be a string")
  end.
Definition check_schema_type (obj : list (string * value)) (path : string) : result string unit :=
  match (t ← assoc "type" obj; as_str t) with
  | None => Ok tt
  | Some t => fail_if (negb (str_in t schema_types)) ("invalid schema type '" +:+ t +:+ "' at " +:+ path)
  end.
Fixpoint validate_schema (v : value) (path : string) : result string unit :=
  match v with
  | Object obj =>
      match find_first (fun k => negb (str_in k ALLOWED)) (keys obj) with
      | Some k => Err ("unsupported schema assertion '" +:+ k +:+ "' at " +:+ path)
      | None =>
          _ ← otherwise (at_key "properties" (fun props =>
                match props with
                | Object ps => for_each (fun e : string * value =>
                    let '(key, schema) := e in
                    validate_schema schema (path +:+ ".properties." +:+ key)) ps
                | _ => Ok tt
                end) obj);
          _ ← otherwise (at_key "items" (fun items => validate_schema items (path +:+ ".items")) obj);
          _ ← otherwise (at_key "additionalProperties" (fun extra =>
                if is_object extra then validate_schema extra (path +:+ ".additionalProperties")
                else fail_if (negb (is_boolean extra))
                       (path +:+ ".additionalProperties must be boolean or schema")) obj);
          _ ← check_schema_required obj path;
          _ ← check_schema_enum obj path;
          _ ← check_schema_bounds obj path;
          _ ← check_schema_lengths obj path;
          _ ← check_schema_pattern obj path;
          check_schema_type obj path
      end
  | _ => Err (path +:+ " must be an object schema")
  end.
End schema.

(** ** The gate *)
Section gate.
Context `{P : Platform} (c : Config).
Definition f64_zero : spec_float := f64_of_Z 0.
Definition unit_ratio (f : spec_float) : bool := SFleb f64_zero f && SFleb f (f64_of_Z 1).
Definition between (lo hi n : Z) : bool := (lo <=? n) && (n <=? hi).
Definition check_thresholds : result string unit :=
  let m := config_memory c in
  fail_if ((max_tokens m <=? 0) || (max_steps m <=? 0) || (raw_turns_to_keep m =? 0))
    "memory thresholds must be positive and raw_turns_to_keep must be at least 1".
Definition check_llm : result string unit :=
  let l := llm c in
  fail_if (negb (String.eqb (tool_call_mode l) "native" || String.eqb (tool_call_mode l) "single")
           || SFleb (timeout_seconds l) f64_zero
           || negb (f64_finite (timeout_seconds l))
           || negb (f64_finite (temperature l))
           || is_some_and (max_output_tokens l) (fun x => x <=? 0))
    "invalid llm settings".
Definition check_memory : result string unit :=
  let m := config_memory c in
  fail_if (existsb (fun x => x <=? 0) [context_window_tokens m; reserved_output_tokens m;
                                       max_summary_tokens m; summary_output_tokens m]
           || (safety_margin_tokens m <? 0)
           || (context_window_tokens m <=? add64 (reserved_output_tokens m) (safety_margin_tokens m))
           || negb (between 1 5 (compaction_max_attempts m))
           || negb (between 1 10 (compaction_max_passes m))
           || (compaction_min_growth_tokens m <? 0)
           || (compaction_min_interval_steps m <? 0)
           || existsb (fun x => negb (f64_finite x) || negb (unit_ratio x))
                [optional_compaction_min_pressure_ratio m; optional_compaction_min_reduction_ratio m]
           || existsb (fun x => x <? 0) [optional_compaction_min_reclaimable_tokens m;
                                         optional_compaction_min_reduction_tokens m])
    "invalid memory budget or compaction settings".

Definition recovery_modes : list string := ["read_only"; "repeatable"; "idempotent"; "reconcile"].
Definition check_recovery (tool : string) (recovery_ : value) : result string unit :=
  let mode := unwrap_or (get_str "mode" recovery_) "reconcile" in
  _ ← fail_if (negb (str_in mode recovery_modes))
        ("invalid recovery mode '" +:+ mode +:+ "' for tool '" +:+ tool +:+ "'");
  fail_if (is_some_and (get_i64 "max_attempts" recovery_) (fun n => negb (between 1 10 n)))
    ("invalid recovery max_attempts for tool '" +:+ tool +:+ "'").
(** The loop over the tools, [seen] being the names inserted so far. *)
Fixpoint check_tools (seen : list string) (ts : list Tool) : result string unit :=
  match ts with
  | [] => Ok tt
  | t :: rest =>
      _ ← fail_if (str_in (tool_name t) seen) ("duplicate tool name '" +:+ tool_name t +:+ "'");
      _ ← (match recovery t with Some r => check_recovery (tool_name t) r | None => Ok tt end);
      _ ← validate_schema (parameters t) ("tools." +:+ tool_name t +:+ ".parameters");
      check_tools (tool_name t :: seen) rest
  end.
Definition names : list string := map tool_name (tools c).
Definition check_execution : result string unit :=
  let e := execution c in
  _ ← (match get_str "tool_policy" e with
       | Some policy => fail_if (negb (str_in policy ["auto"; "none"]))
                          "execution.tool_policy must be auto or none"
       | None => Ok tt
       end);
  _ ← fail_if (is_some_and (get_i64 "max_consecutive_invalid_responses" e) (fun x => negb (between 1 50 x)))
        "execution.max_consecutive_invalid_responses must be in 1..50";
  fail_if (is_some_and (get "max_no_progress_steps" e)
             (fun v => negb (is_null v) && is_none_or (as_i64 v) (fun x => x <? 2)))
    "execution.max_no_progress_steps must be null or at least 2".

(** The loop over the result checks; it collects the labels. *)
Fixpoint check_result_checks (labels : list string) (checks : list value) : result string (list string) :=
  match checks with
  | [] => Ok labels
  | check :: rest =>
      tool ← ok_or "completion result check requires tool" (get_str "tool" check);
      _ ← fail_if (negb (str_in tool names)) ("completion check references unknown tool '" +:+ tool +:+ "'");
      label ← ok_or "completion result check requires label" (get_str "label" check);
      _ ← fail_if (str_in label labels) ("duplicate completion result label '" +:+ label +:+ "'");
      check_result_checks (label :: labels) rest
  end.
Definition check_patterns : result string unit :=
  let done := config_completion c in
  _ ← (match get_str "pattern" done with
       | Some p => fail_if (is_none (regex_is_match p "")) ("invalid completion.pattern: " +:+ regex_error p)
       | None => Ok tt
       end);
  _ ← (match get_array "forbidden_patterns" done with
       | Some ps => for_each (fun p =>
           p ← ok_or "completion.forbidden_patterns entries must be strings" (as_str p);
           fail_if (is_none (regex_is_match p "")) ("invalid forbidden completion pattern: " +:+ regex_error p)) ps
       | None => Ok tt
       end);
  fail_if (is_some_and (get_str "exact" done) (fun x => is_empty (trim x)))
    "completion.exact must not be empty".
Definition declares (tool argument : string) : bool :=
  is_some_and (find_first (fun t => String.eqb (tool_name t) tool) (tools c))
    (fun t => is_some_and (get_object "properties" (parameters t)) (fun p => is_some (assoc argument p))).
Definition same_target (a b : string * string) : bool :=
  String.eqb (fst a) (fst b) && String.eqb (snd a) (snd b).
Fixpoint check_bindings (labels : list string) (targets : list (string * string)) (bs : list value)
  : result string unit :=
  match bs with
  | [] => Ok tt
  | b :: rest =>
      tool ← ok_or "argument binding requires tool" (get_str "tool" b);
      argument ← ok_or "argument binding requires argument" (get_str "argument" b);
      label ← ok_or "argument binding requires source_label" (get_str "source_label" b);
      _ ← fail_if (negb (str_in tool names)) ("argument binding references unknown tool '" +:+ tool +:+ "'");
      _ ← fail_if (negb (str_in label labels))
            ("argument binding references unknown result label '" +:+ label +:+ "'");
      _ ← fail_if (existsb (same_target (tool, argument)) targets) "argument binding targets must be unique";
      _ ← fail_if (negb (declares tool argument))
            ("argument binding target '" +:+ tool +:+ "." +:+ argument +:+ "' is not a declared parameter");
      check_bindings labels ((tool, argument) :: targets) rest
  end.

Definition known_evidence (es : list Evidence) : result string unit :=
  for_each (fun e => fail_if (negb (str_in (ev_tool e) names))
    ("workflow evidence references unknown tool '" +:+ ev_tool e +:+ "'")) es.
Definition check_edge (ids : list string) (p : Phase) (e : Edge) : result string unit :=
  _ ← fail_if (negb (String.eqb (to e) "complete") && negb (str_in (to e) ids))
        ("workflow transition from " +:+ phase_id p +:+ " targets unknown phase " +:+ to e);
  _ ← fail_if (String.eqb (when e) "evidence" && (length (edge_evidence e) =? 0)%nat)
        ("workflow evidence transition from " +:+ phase_id p +:+ " requires evidence");
  _ ← fail_if (negb (str_in (when e) ["phase_complete"; "always"; "evidence"]))
        ("invalid transition type " +:+ when e);
  known_evidence (edge_evidence e).
Definition check_phase (ids : list string) (p : Phase) : result string unit :=
  _ ← for_each (fun t => fail_if (negb (str_in t names))
        ("phase '" +:+ phase_id p +:+ "' references unknown tool '" +:+ t +:+ "'"))
        (unwrap_or (allowed_tools p) []);
  _ ← known_evidence (completion p);
  for_each (check_edge ids p) (phase_transitions p).
Definition check_workflow (w : WorkflowConfig) : result string unit :=
  let ids := map phase_id (phases w) in
  _ ← fail_if (negb (all_distinct ids)) "workflow phase IDs must be unique";
  _ ← fail_if (negb (str_in (entry_phase w) ids)) "workflow.entry_phase must name a configured phase";
  for_each (check_phase ids) (phases w).

Definition validate_config : result string unit :=
  _ ← check_thresholds;
  _ ← check_llm;
  _ ← check_memory;
  _ ← check_tools [] (tools c);
  _ ← check_execution;
  labels ← check_result_checks [] (unwrap_or (get_array "result_checks" (config_completion c)) []);
  _ ← check_patterns;
  _ ← (match get_array "argument_bindings" (execution c) with
       | Some bs => check_bindings labels [] bs
       | None => Ok tt
       end);
  match config_workflow c with Some w => check_workflow w | None => Ok tt end.
End gate.

(** ** The configuration as JSON ([serde_json::to_value]) *)
Definition of_list {A} (f : A -> value) (l : list A) : value := Array (map f l).
Definition evidence_json (e : Evidence) : value :=
  Object [("description", Str (ev_description e)); ("tool", Str (ev_tool e)); ("required", Bool (required e));
          ("arguments", ev_arguments e); ("result", ev_result e);
          ("content_contains", of_list Str (content_contains e))].
Definition edge_json (e : Edge) : value :=
  Object [("to", Str (to e)); ("when", Str (when e)); ("evidence", of_list evidence_json (edge_evidence e))].
Definition phase_json (p : Phase) : value :=
  Object [("id", Str (phase_id p)); ("name", Str (phase_name p)); ("instruction", Str (phase_instruction p));
          ("allowed_tools", match allowed_tools p with Some l => of_list Str l | None => Null end);
          ("completion", of_list evidence_json (completion p));
          ("transitions", of_list edge_json (phase_transitions p))].
Definition workflow_json (w : WorkflowConfig) : value :=
  Object [("entry_phase", Str (entry_phase w)); ("phases", of_list phase_json (phases w))].
Definition tool_json (t : Tool) : value :=
  Object [("name", Str (tool_name t)); ("description", Str (tool_description t));
          ("parameters", parameters t); ("recovery", unwrap_or (recovery t) Null)].
Definition llm_json (l : Llm) : value :=
  Object [("base_url", Str (base_url l)); ("api_key_env", Str (api_key_env l));
          ("temperature", f64_value (temperature l)); ("timeout_seconds", f64_value (timeout_seconds l));
          ("tool_call_mode", Str (tool_call_mode l)); ("max_output_tokens", of_opt_num (max_output_tokens l))].
Definition memory_json (m : Memory) : value :=
  Object [("max_tokens", num (max_tokens m)); ("max_steps", num (max_steps m));
          ("raw_turns_to_keep", num (raw_turns_to_keep m)); ("hybrid_reflection", Bool (hybrid_reflection m));
          ("run_max_steps", of_opt_num (run_max_steps m));
          ("compaction_interval_steps", of_opt_num (compaction_interval_steps m));
          ("context_window_tokens", num (context_window_tokens m));
          ("reserved_output_tokens", num (reserved_output_tokens m));
          ("safety_margin_tokens", num (safety_margin_tokens m));
          ("max_summary_tokens", num (max_summary_tokens m));
          ("summary_output_tokens", num (summary_output_tokens m));
          ("compaction_max_attempts", num (compaction_max_attempts m));
          ("compaction_max_passes", num (compaction_max_passes m));
          ("compaction_min_growth_tokens", num (compaction_min_growth_tokens m));
          ("compaction_min_interval_steps", num (compaction_min_interval_steps m));
          ("optional_compaction_min_pressure_ratio", f64_value (optional_compaction_min_pressure_ratio m));
          ("optional_compaction_min_reclaimable_tokens", num (optional_compaction_min_reclaimable_tokens m));
          ("optional_compaction_min_reduction_tokens", num (optional_compaction_min_reduction_tokens m));
          ("optional_compaction_min_reduction_ratio", f64_value (optional_compaction_min_reduction_ratio m))].
Definition config_json (c : Config) : value :=
  Object [("name", Str (config_name c)); ("system_prompt", Str (system_prompt c)); ("model", Str (model c));
          ("llm", llm_json (llm c)); ("memory", memory_json (config_memory c));
          ("output", Object [("verbose_setup", Bool (verbose_setup (output c)))]);
          ("tools", of_list tool_json (tools c));
          ("workflow", match config_workflow c with Some w => workflow_json w | None => Null end);
          ("execution", execution c); ("completion", config_completion c)].

(** ** Completion with the defaults *)
Definition entries : Type := list (string * value).
(** [map.entry(key).or_insert(x)] *)
Definition entry_or (k : string) (x : value) (m : entries) : entries :=
  if is_some (assoc k m) then m else (m ++ [(k, x)])%list.
(** [if let Some(v) = map.get_mut(key) { v = f(v) }] *)
Definition alter_entry (k : string) (f : value -> value) (m : entries) : entries :=
  match assoc k m with Some x => obj_insert k (f x) m | None => m end.
Definition in_object (f : entries -> entries) (v : value) : value :=
  match v with Object m => Object (f m) | _ => v end.
Definition in_array (f : value -> value) (v : value) : value :=
  match v with Array l => Array (map f l) | _ => v end.
Definition complete_execution (e : entries) : entries :=
  alter_entry "argument_bindings" (in_array (in_object (entry_or "path" (Array []))))
    (entry_or "max_no_progress_steps" Null
      (entry_or "max_consecutive_invalid_responses" (num 3)
        (entry_or "tool_policy" (Str "auto")
          (entry_or "argument_bindings" (Array []) e)))).
Definition complete_check (ch : entries) : entries :=
  entry_or "answer_path" (Array []) (entry_or "path" (Array [])
    (entry_or "result" (Object []) (entry_or "arguments" (Object []) ch))).
Definition complete_completion (c : entries) : entries :=
  alter_entry "result_checks" (in_array (in_object complete_check))
    (entry_or "json_schema" Null (entry_or "pattern" Null (entry_or "exact" Null
      (entry_or "result_checks" (Array []) (entry_or "forbidden_patterns" (Array [])
        (entry_or "instructions" Null c)))))).
(** [obj.entry(key).or_insert({}).as_object_mut().expect(...)]: [None] is the
    panic on a value that is not a mapping. *)
Definition expect_object (k : string) (f : entries -> entries) (m : entries) : option entries :=
  let m := entry_or k (Object []) m in
  match assoc k m with
  | Some (Object e) => Some (obj_insert k (Object (f e)) m)
  | _ => None
  end.
Definition complete_config_value (v : value) : option value :=
  match v with
  | Object m =>
      m ← expect_object "execution" complete_execution m;
      m ← expect_object "completion" complete_completion m;
      Some (Object m)
  | _ => None
  end.

(** ** The identity of a configuration *)
Definition drop_if (k : string) (p : value -> bool) (m : entries) : entries :=
  if is_some_and (assoc k m) p then obj_remove k m else m.
Definition is_empty_array (v : value) : bool := match v with Array [] => true | _ => false end.
Definition is_text_of (s : string) (v : value) : bool := match v with Str t => String.eqb t s | _ => false end.
Definition reduced_llm (m : entries) : entries :=
  drop_if "max_output_tokens" is_null (drop_if "tool_call_mode" (is_text_of "native") m).
Definition reduced_execution (m : entries) : entries :=
  drop_if "argument_bindings" is_empty_array (drop_if "max_no_progress_steps" is_null
    (drop_if "tool_policy" (is_text_of "auto")
      (entry_or "max_no_progress_steps" Null (entry_or "max_consecutive_invalid_responses" (num 3)
        (entry_or "tool_policy" (Str "auto") (entry_or "argument_bindings" (Array []) m)))))).
Definition reduced_completion (m : entries) : entries :=
  drop_if "result_checks" is_empty_array (drop_if "forbidden_patterns" is_empty_array
    (drop_if "instructions" is_null
      (entry_or "json_schema" Null (entry_or "pattern" Null (entry_or "exact" Null
        (entry_or "result_checks" (Array []) (entry_or "forbidden_patterns" (Array [])
          (entry_or "instructions" Null m)))))))).
Definition memory_defaults : list (string * value) :=
  [("run_max_steps", Null); ("compaction_interval_steps", Null); ("context_window_tokens", num 32768);
   ("reserved_output_tokens", num 1024); ("safety_margin_tokens", num 256); ("max_summary_tokens", num 4096);
   ("summary_output_tokens", num 512); ("compaction_max_attempts", num 2); ("compaction_max_passes", num 3);
   ("compaction_min_growth_tokens", num 512); ("compaction_min_interval_steps", num 0);
   ("optional_compaction_min_pressure_ratio", num 0); ("optional_compaction_min_reclaimable_tokens", num 0);
   ("optional_compaction_min_reduction_tokens", num 0); ("optional_compaction_min_reduction_ratio", num 0)].
Definition is_zero_f64 (v : value) : bool := is_some_and (as_f64 v) f64_is_zero.
Definition reduced_memory (m : entries) : entries :=
  let m := foldl (fun m d => drop_if (fst d) (fun v => value_eqb v (snd d)) m) m memory_defaults in
  foldl (fun m k => drop_if k is_zero_f64 m) m
    ["optional_compaction_min_pressure_ratio"; "optional_compaction_min_reduction_ratio"].
Definition require_object (k e : string) (f : entries -> entries) (m : entries) : result string entries :=
  match assoc k m with
  | Some (Object o) => Ok (obj_insert k (Object (f o)) m)
  | _ => Err e
  end.
(** What is hashed, before it is encoded; the panic of the completion is the
    error without a text. *)
Definition resolved_value (config : value) : result string value :=
  v ← ok_or "" (complete_config_value config);
  match v with
  | Object m =>
      m ← require_object "llm" "missing llm" reduced_llm m;
      m ← require_object "execution" "missing execution" reduced_execution m;
      m ← require_object "completion" "missing completion" reduced_completion m;
      let m := alter_entry "memory" (in_object reduced_memory) m in
      Ok (Object (alter_entry "tools" (in_array (in_object (drop_if "recovery" is_null))) m))
  | _ => Err "config serialization must be an object"
  end.
Section identity.
Context `{P : Platform}.
Definition resolved_config_hash (c : Config) : result string (string * string) :=
  v ← resolved_value (config_json c);
  let canonical_ := canonical_json v in
  Ok (canonical_, sha256_hex canonical_).
End identity.

(** ** Environment references *)
Definition is_env_byte (a : Ascii.ascii) : bool :=
  is_ascii_upper_b a || is_ascii_digit_b a || (byte_val a =? 95).
Section expansion.
(** [env::var] *)
Context (env_var : string -> option string).
Definition expand_reference (expression : string) : option string :=
  let '(key, default) := unwrap_or (split_once ":-" expression) (expression, "") in
  if negb (is_empty key) && all_bytes is_env_byte key then Some (unwrap_or (env_var key) default) else None.
(** [while let Some(start) = rest.find("${")]: every iteration drops at least
    the three bytes of an empty reference. *)
Fixpoint expand_from (fuel : nat) (result_ rest : string) : string :=
  match fuel with
  | O => result_ +:+ rest
  | S fuel' =>
      match find_str "${" rest with
      | None => result_ +:+ rest
      | Some start =>
          let result_ := result_ +:+ take_bytes start rest in
          let tail := drop_bytes (start + 2) rest in
          match find_str "}" tail with
          | None => result_ +:+ drop_bytes start rest
          | Some end_ =>
              let replaced := unwrap_or (expand_reference (take_bytes end_ tail))
                                (take_bytes (3 + end_) (drop_bytes start rest)) in
              expand_from fuel' (result_ +:+ replaced) (drop_bytes (end_ + 1) tail)
          end
      end
  end.
Definition expand_string (input : string) : string := expand_from (String.length input) "" input.
Fixpoint expand (v : value) : value :=
  match v with
  | Str s => Str (expand_string s)
  | Array x => Array (map expand x)
  | Object x => Object (map (fun e => (fst e, expand (snd e))) x)
  | _ => v
  end.
End expansion.

(** ** Reading a configuration file *)
(** A path is the list of its components; [..] is a parent reference. *)
Definition components (path : string) : list string :=
  List.filter (fun c => negb (is_empty c) && negb (String.eqb c ".")) (split_on (String.eqb "/") path).
Definition is_absolute (path : string) : bool := starts_with path "/".
Definition starts_with_path (path root : string) : bool :=
  Bool.eqb (is_absolute path) (is_absolute root)
  && bool_decide (components root = take (length (components root)) (components path)).
(** [Path::extension]: what follows the last dot of the file name, unless the
    name is a parent reference or its only dot comes first. *)
Definition extension (path : string) : option string :=
  name ← last (components path);
  if String.eqb name ".." then None
  else match rev (split_on (String.eqb ".") name) with
       | ext :: stem :: more => if is_empty stem && (length more =? 0)%nat then None else Some ext
       | _ => None
       end.
Class Files := {
  (** [Path::canonicalize], following every link *)
  canonicalize : string -> result string string;
  is_file : string -> bool;
  read_file : string -> result string string;
  (** [root.join(path)] for a relative path *)
  join_path : string -> string -> string;
  (** [serde_yaml::from_slice] *)
  yaml_read : string -> result string value;
  (** [serde_json::from_value::<Config>] *)
  config_of : value -> result string Config
}.
Section files.
Context `{P : Platform} `{Files} (env_var : string -> option string).
Definition cfg (root_ r : string) : result string (Config * value * string) :=
  _ ← fail_if (is_empty r || is_absolute r) "config_ref must be a non-empty relative YAML path";
  root ← canonicalize root_;
  _ ← fail_if (existsb (String.eqb "..") (components r)) "config_ref must not contain parent traversal";
  p ← canonicalize (join_path root_ r);
  _ ← fail_if (negb (starts_with_path p root)) "config_ref must remain within AGENT_CONFIG_ROOT";
  _ ← fail_if (negb (is_file p)
               || negb (is_some_and (extension p)
                    (fun x => str_in (to_ascii_lowercase x) ["yaml"; "yml"])))
        "config_ref must identify a YAML file within AGENT_CONFIG_ROOT";
  b ← read_file p;
  yaml ← yaml_read b;
  let raw := expand env_var yaml in
  agent ← ok_or "missing agent mapping" (get "agent" raw);
  c ← map_err (fun e => "invalid YAML workflow config: " +:+ e) (config_of agent);
  _ ← map_err (fun e => "invalid YAML workflow config: " +:+ e) (validate_config c);
  snapshot_ ← ok_or "" (complete_config_value (config_json c));
  Ok (c, snapshot_, sha256_hex b).
End files.
