(* ===== verification/Retention.v ===== *)
(** * Archives and pruning ([retention.rs])

    [export_archive] writes every row of a session as canonical lines under a
    header and closes them with a manifest of counts, digests and watermarks;
    [verify] reads an archive back and refuses one whose contents differ from
    its manifest; [write_retention], inside the commit that records an archive,
    refuses to prune telemetry whose digest is not the archived one. *)
From S2P Require Import Prelude Text Json Encoding Session Logic Diagnostics Store Rows Config.
Local Open Scope string_scope.
Local Open Scope Z_scope.

Definition TABLES : list string :=
  ["agent_sessions"; "agent_session_context"; "agent_session_transcript"; "agent_session_events";
   "agent_session_diagnostics"; "agent_runs"; "agent_tool_executions"; "agent_session_calls";
   "agent_archive_receipts"; "agent_commands"; "agent_commit_receipts"; "agent_action_attempts"].
Definition events_table : string := "agent_session_events".
Definition diagnostics_table : string := "agent_session_diagnostics".

(** Progress through an archive: the lines read so far, all together and per
    table, the number of rows per table and the largest identities seen. *)
Record Tally := {
  all_lines : string;
  table_lines : list (string * string);
  row_counts : list (string * Z);
  last_event : Z;
  last_ordinals : list (string * Z)
}.
#[export] Instance eta_Tally : Eta Tally := fun t =>
  {| all_lines := all_lines t; table_lines := table_lines t; row_counts := row_counts t;
     last_event := last_event t; last_ordinals := last_ordinals t |}.
Definition empty_tally (header_line : string) : Tally :=
  {| all_lines := header_line; table_lines := map (fun t => (t, "")) TABLES;
     row_counts := map (fun t => (t, 0)) TABLES; last_event := 0; last_ordinals := [] |}.
Definition alter_assoc {A} (k : string) (f : A -> A) (m : list (string * A)) : list (string * A) :=
  map (fun e => if String.eqb k (fst e) then (fst e, f (snd e)) else e) m.
Definition watermarks (t : Tally) : value :=
  Object [("events", num (last_event t));
          ("diagnostics", Object (map (fun e => (fst e, num (snd e))) (last_ordinals t)))].

Section archive.
Context `{P : Platform} `{B : Backend} `{F : Files}.

Definition line (v : value) : string := canonical_json v +:+ nl.
Definition record_line (table bytes : string) (t : Tally) : Tally :=
  t <| all_lines ::= fun l => l +:+ bytes |>
    <| table_lines ::= alter_assoc table (fun l => l +:+ bytes) |>
    <| row_counts ::= alter_assoc table (fun n => n + 1) |>.
Definition digests (t : Tally) : list (string * value) :=
  map (fun e => (fst e, Str (sha256_hex (snd e)))) (table_lines t).
Definition counts_json (t : Tally) : list (string * value) := map (fun e => (fst e, num (snd e))) (row_counts t).

(** ** [verify] *)
Definition check_header (header : value) : result string unit :=
  _ ← fail_if (negb (bool_decide (get_str "format" header = Some "sda-archive-2"))
        || negb (is_some_and (as_object header) (fun o => (length o =? 4)%nat))
        || (unwrap_or (get_i64 "snapshot_revision" header) 0 <? 1))
        "invalid archive header";
  for_each (fun key_ =>
    s ← ok_or "missing archive UUID" (get_str key_ header);
    fail_if (is_none (uuid_parse s)) (uuid_error s)) ["archive_id"; "session_id"].
(** One line after the header. *)
Definition verify_row (header v : value) (t : Tally) : result string Tally :=
  table ← ok_or "missing table" (get_str "table" v);
  _ ← fail_if (negb (str_in table TABLES)
        || negb (value_eqb (index (index v "row") "session_id") (index header "session_id"))
        || negb (is_some_and (as_object v) (fun o => (length o =? 2)%nat)))
        "unknown table or cross-session archive row";
  let t := record_line table (line v) t in
  let row := index v "row" in
  t ← (if String.eqb table events_table
       then n ← ok_or "invalid event id" (get_i64 "event_id" row);
            Ok (t <| last_event ::= fun m => Z.max m n |>)
       else Ok t);
  if String.eqb table diagnostics_table
  then family_ ← ok_or "missing family" (get_str "family" row);
       _ ← fail_if (negb (str_in family_ FAMILIES)) "invalid diagnostic family";
       n ← ok_or "invalid ordinal" (get_i64 "ordinal" row);
       Ok (t <| last_ordinals ::= fun m => obj_insert family_ (Z.max (unwrap_or (assoc family_ m) 0) n) m |>)
  else Ok t.
Fixpoint verify_lines (header : value) (raws : list string) (t : Tally) (manifest : option value)
  : result string (Tally * option value) :=
  match raws with
  | [] => Ok (t, manifest)
  | raw :: rest =>
      v ← parse_strict_json raw;
      _ ← fail_if (is_some manifest) "trailing archive data";
      match get "manifest" v with
      | Some m => verify_lines header rest t (Some m)
      | None => t ← verify_row header v t; verify_lines header rest t manifest
      end
  end.
Definition manifest_matches (m : value) (t : Tally) : bool :=
  value_eqb (index m "sha256") (Str (sha256_hex (all_lines t)))
  && value_eqb (index m "counts") (Object (counts_json t))
  && value_eqb (index m "table_sha256") (Object (digests t))
  && value_eqb (index m "watermarks") (watermarks t).
Definition verify_text (text : string) : result string value :=
  match lines text with
  | [] => Err "empty archive"
  | first_ :: rest =>
      header ← parse_strict_json first_;
      _ ← check_header header;
      tm ← verify_lines header rest (empty_tally (line header)) None;
      m ← ok_or "archive manifest missing" (snd tm);
      _ ← fail_if (negb (manifest_matches m (fst tm))) "archive manifest mismatch";
      entries ← ok_or "invalid manifest" (as_object m);
      Ok (foldl (fun r e => set (fst e) (snd e) r) header entries)
  end.
Definition verify (path : string) : result string value :=
  text ← read_file path;
  r ← verify_text text;
  p ← canonicalize path;
  Ok (set "archive_path" (Str p) r).

(** ** [export] *)
Definition session_rows (session table : string) (other : string -> list value) (d : Db) : list value :=
  if String.eqb table events_table
  then map event_json (sort_by (fun a b => event_id a <=? event_id b)
         (List.filter (fun e => String.eqb (event_session e) session) (session_events d)))
  else if String.eqb table diagnostics_table
  then flat_map (fun f => map (diagnostic_json session f) (diagnostic_rows session f d))
         (sort_by String.leb FAMILIES)
  else other table.
Definition export_row (table : string) (row : value) (st : string * Tally) : string * Tally :=
  let '(text, t) := st in
  let t := if String.eqb table events_table
           then t <| last_event := unwrap_or (get_i64 "event_id" row) 0 |> else t in
  let t := if String.eqb table diagnostics_table
           then t <| last_ordinals ::= obj_insert (unwrap_or (get_str "family" row) "")
                       (unwrap_or (get_i64 "ordinal" row) 0) |> else t in
  let bytes := line (Object [("table", Str table); ("row", row)]) in
  (text +:+ bytes, record_line table bytes t).
Definition export_table (rows : string -> list value) (st : string * Tally) (table : string) : string * Tally :=
  foldl (fun st row => export_row table row st) st (rows table).
Definition export_header (archive_ session : string) (revision_ : Z) : value :=
  Object [("format", Str "sda-archive-2"); ("archive_id", Str archive_); ("session_id", Str session);
          ("snapshot_revision", num revision_)].
Definition manifest_of (t : Tally) : value :=
  Object [("counts", Object (counts_json t)); ("table_sha256", Object (digests t));
          ("watermarks", watermarks t); ("sha256", Str (sha256_hex (all_lines t)))].
(** The text of the archive. *)
Definition export_archive (archive_ session : string) (revision_ : Z) (rows : string -> list value) : string :=
  let header := line (export_header archive_ session revision_) in
  let '(text, t) := foldl (export_table rows) (header, empty_tally header) TABLES in
  text +:+ line (Object [("manifest", manifest_of t)]).

(** ** [write]: the pruning inside a commit *)
Definition unresolved_status (o : option string) : bool :=
  is_some_and o (fun x => str_in x ["pending"; "started"; "uncertain"; "blocked"]).
Definition unresolved_executions (session : string) (d : Db) : Z :=
  Z.of_nat (length (List.filter (fun e => unresolved_status (ex_status (snd e)))
                      (of_session session (tool_executions d)))).
Definition running_lifecycles (session : string) (d : Db) : Z :=
  Z.of_nat (length (List.filter (fun e => String.eqb (run_row_status (snd e)) "running") (of_session session (runs d)))).
Definition unresolved (session : string) (d : Db) : Z :=
  running_lifecycles session d + unresolved_executions session d.
(** The rows a manifest claims to have archived, and still stored. *)
Definition archived_events (session : string) (marks : value) (d : Db) : list value :=
  map event_json (sort_by (fun a b => event_id a <=? event_id b)
    (List.filter (fun e => String.eqb (event_session e) session
        && is_some_and (get_i64 "events" marks) (fun m => event_id e <=? m)) (session_events d))).
Definition archived_diagnostics (session : string) (marks : value) (d : Db) : list value :=
  flat_map (fun f => map (diagnostic_json session f)
      (List.filter (fun r => fst r <=? unwrap_or (get_i64 f marks) 0) (diagnostic_rows session f d)))
    (sort_by String.leb FAMILIES).
Definition rows_digest (table : string) (rows : list value) : string :=
  sha256_hex (concat_str (map (fun row => line (Object [("table", Str table); ("row", row)])) rows)).
Definition check_archived (item : value) (table : string) (rows : list value) : T unit :=
  reject_if (negb (value_eqb (index (index item "table_sha256") table) (Str (rows_digest table rows))))
    "archive telemetry digest differs; nothing pruned".
Definition delete_diagnostics (session family_ : string) (cutoff : Z) (d : Db) : Db :=
  d <| diagnostics ::= filter (fun e : (string * string * Z) * value =>
         let '(s, f, n) := fst e in ~ (s = session /\ f = family_ /\ n <= cutoff)) |>.
(** [ORDER BY event_id DESC LIMIT n]; a null limit is none *)
Definition latest_events (session : string) (n : option Z) (d : Db) : list Z :=
  (match n with Some n => take (Z.to_nat n) | None => fun l => l end) (sort_by (fun a b => b <=? a)
    (map event_id (List.filter (fun e => String.eqb (event_session e) session) (session_events d)))).
Definition delete_events (session : string) (upto keep : option Z) (d : Db) : Db :=
  d <| session_events ::= List.filter (fun e => negb (String.eqb (event_session e) session
         && is_some_and upto (fun m => event_id e <=? m)
         && negb (existsb (Z.eqb (event_id e)) (latest_events session keep d)))) |>.
Definition cutoff_of (item : value) (s : Session) (keep : Z) (family_ : string) : Z :=
  Z.min (unwrap_or (get_i64 family_ (index (index item "watermarks") "diagnostics")) 0)
    (sub64 (default 0 (diagnostic_counts s !! family_)) keep).
Definition prune_family (item : value) (s : Session) (id_ family_ : string) : T unit :=
  keep ← unwrap (get_i64 "keep_diagnostics" item);
  write (delete_diagnostics id_ family_ (cutoff_of item s keep family_)).
Definition write_retention : T unit :=
  s ← this (fun s => s);
  match retention_pending s with
  | None => mret tt
  | Some item =>
      id_ ← require_ok (uuid_error (id s)) (uuid_parse (id s));
      _ ← reject_if (is_none (execution_owner s) || String.eqb (status s) "active"
            || negb (length (pending_tool_calls s) =? 0)%nat
            || negb (bool_decide (get_i64 "snapshot_revision" item = Some (revision s - 1))))
            "retention requires terminal owned matching revision";
      n ← read (unresolved id_);
      _ ← reject_if (negb (n =? 0)) "unresolved recovery evidence prevents pruning";
      events ← read (archived_events id_ (index item "watermarks"));
      _ ← check_archived item events_table events;
      records ← read (archived_diagnostics id_ (index (index item "watermarks") "diagnostics"));
      _ ← check_archived item diagnostics_table records;
      archive_ ← from_result (bind_key (get_str "archive_id" item));
      _ ← write (fun d => d <| archive_receipts ::= fun l =>
            (l ++ [{| ar_archive_id := Some archive_; ar_session := id_;
                      ar_snapshot_revision := get_i64 "snapshot_revision" item;
                      ar_sha256 := get_str "sha256" item; ar_manifest := jsonb item |}])%list |>);
      _ ← tfor (prune_family item s id_) FAMILIES;
      write (delete_events id_ (get_i64 "events" (index item "watermarks")) (get_i64 "keep_events" item))
  end.
End archive.
