(* ===== verification/Startup.v ===== *)
(** * Starting the server, and the pages about it ([main.rs])

    The variables of the [.env] file are added to the environment, the root of
    the configurations is made absolute, and the configurations below it are
    listed. *)
From S2P Require Import Prelude Text Json Session Workflow Tools Config Http.
From Stdlib Require Import Ascii.
Local Open Scope string_scope.
Local Open Scope Z_scope.

(** ** [load_dotenv_from] *)
Definition quote : string := "'".
(** The value without its quotes, or without a comment. *)
Definition dotenv_value (raw : string) : string :=
  let value_ := trim raw in
  if (2 <=? byte_len value_)
     && ((starts_with value_ dquote && ends_with value_ dquote) || (starts_with value_ quote && ends_with value_ quote))
  then take_bytes (String.length value_ - 2) (drop_bytes 1 value_)
  else match find_str " #" value_ with Some n => take_bytes n value_ | None => value_ end.
(** The assignment a line makes. *)
Definition dotenv_line (line : string) : option (string * string) :=
  let line := trim line in
  if is_empty line || starts_with line "#" then None
  else
    let line := unwrap_or (strip_prefix line "export ") line in
    found ← split_once "=" line;
    let key_ := trim (fst found) in
    if is_empty key_ then None else Some (key_, dotenv_value (snd found)).
(** [env::set_var] panics on a NUL byte; the key has no equals sign. *)
Definition nul_free (s : string) : bool := all_bytes (fun a => negb (byte_val a =? 0)) s.
Definition set_var (key_ value_ : string) (env_ : gmap string string) : option (gmap string string) :=
  if nul_free key_ && nul_free value_ then Some (<[key_ := value_]> env_) else None.
Definition keeps_var (key_ : string) (env_ : gmap string string) : bool :=
  negb (String.eqb key_ "MAIN_MODEL") && is_some (env_ !! key_).
Definition assign (env_ : gmap string string) (line : string) : option (gmap string string) :=
  match dotenv_line line with
  | None => Some env_
  | Some (key_, value_) => if keeps_var key_ env_ then Some env_ else set_var key_ value_ env_
  end.
Fixpoint assign_all (env_ : gmap string string) (ls : list string) : option (gmap string string) :=
  match ls with
  | [] => Some env_
  | l :: rest => env_ ← assign env_ l; assign_all env_ rest
  end.
(** An unreadable file is no file; nothing is returned when the process panics. *)
Definition load_dotenv_from (contents : option string) (env_ : gmap string string) : option (gmap string string) :=
  match contents with None => Some env_ | Some text => assign_all env_ (lines text) end.

(** ** [config_root] *)
Definition config_root `{Files} (env_ : gmap string string) (repo_root : string) (current_dir : option string) : string :=
  let raw := unwrap_or (env_ !! "AGENT_CONFIG_ROOT") (join_path repo_root "config") in
  let absolute := if is_absolute raw then raw else join_path (unwrap_or current_dir "") raw in
  unwrap_or (result_ok (canonicalize absolute)) absolute.

(** ** The configurations *)
(** An entry of a directory; a directory may be unreadable. *)
Inductive DirEntry :=
| Folder (name : string) (entries : option (list DirEntry))
| Leaf (name : string).
(** [collect_yaml]: the paths below the root *)
Fixpoint collect_yaml (prefix : string) (e : DirEntry) : list string :=
  match e with
  | Folder name entries =>
      match entries with
      | None => []
      | Some l => flat_map (collect_yaml (prefix +:+ name +:+ "/")) l
      end
  | Leaf name =>
      if bool_decide (extension name = Some "yaml") || bool_decide (extension name = Some "yml")
      then [replace backslash "/" (prefix +:+ name)] else []
  end.
Section configs.
Context `{P : Platform} `{F : Files} {X : Type}.
Variable env : string -> option string.
Variable root : string.
(** the entries of the root *)
Variable root_entries : option (list DirEntry).
Definition collect_configs : list (string * Config * string * string) :=
  let refs := sort_by String.leb (flat_map (collect_yaml "") (unwrap_or root_entries [])) in
  filter_map (fun r =>
    found ← result_ok (cfg env root r);
    let '(c, _, h) := (found : Config * value * string) in
    hashed ← result_ok (resolved_config_hash c);
    Some (r, c, h, snd (hashed : string * string))) refs.
Definition config_entry (e : string * Config * string * string) : value :=
  let '(r, c, h, resolved) := e in
  Object [("config_ref", Str r); ("sha256", Str h); ("resolved_sha256", Str resolved); ("agent_name", Str (config_name c));
          ("tools", Array (map (fun t => Str (tool_name t)) (tools c)));
          ("workflow_phases", Array (match config_workflow c with
                                     | Some w => map (fun p => Str (phase_id p)) (phases w)
                                     | None => [] end));
          ("verbose_setup", Bool (verbose_setup (output c)))].
Definition runnable (e : string * Config * string * string) : bool :=
  forallb (fun t => is_supported (tool_name t)) (tools (snd (fst (fst e)))).
Definition configs : H X Response :=
  mret (json_response 200 (Array (map config_entry (List.filter runnable collect_configs)))).
Definition health : H X Response :=
  mret (json_response 200 (Object [("status", Str "ok"); ("contract_version", Str "2.0.0"); ("storage_schema", num 6);
          ("config_root", Str root); ("available_configs", num (Z.of_nat (length collect_configs)))])).
End configs.

(** ** The environment after the file *)
(** The values a file gives to a variable, in order. *)
Definition given (ls : list string) (key_ : string) : list string :=
  filter_map (fun l => a ← dotenv_line l; if String.eqb (fst a) key_ then Some (snd a) else None) ls.
Lemma given_cons l ls k : given (l :: ls) k =
  (match dotenv_line l with Some (j, v) => if String.eqb j k then [v] else [] | None => [] end ++ given ls k)%list.
Proof. unfold given, filter_map. cbn. destruct (dotenv_line l) as [[j v]|]; [|done]. cbn. by destruct (String.eqb j k). Qed.
Lemma assign_lookup env_ l env' k : assign env_ l = Some env' -> env' !! k =
  match dotenv_line l with
  | Some (j, v) => if String.eqb j k && negb (keeps_var k env_) then Some v else env_ !! k
  | None => env_ !! k
  end.
Proof.
  unfold assign. destruct (dotenv_line l) as [[j v]|]; [|by intros [= <-]].
  destruct (String.eqb_spec j k) as [->|Hne]; destruct (keeps_var _ env_) eqn:Ek; cbn; try (by intros [= <-]);
    unfold set_var; destruct (nul_free _ && nul_free v); try done; intros [= <-].
  - apply lookup_insert_eq.
  - by apply lookup_insert_ne.
Qed.

(** * Properties *)
(** The [.env] file never overrides a variable of the environment, [MAIN_MODEL]
    apart: a variable keeps its value, and one that is not set gets the first
    value the file gives it; [MAIN_MODEL] gets the last one. *)
Theorem dotenv_adds_variables text env_ env' k :
  load_dotenv_from (Some text) env_ = Some env' ->
  env' !! k = if String.eqb k "MAIN_MODEL"
              then match last (given (lines text) k) with Some v => Some v | None => env_ !! k end
              else match env_ !! k with Some v => Some v | None => head (given (lines text) k) end.
Proof.
  unfold load_dotenv_from. generalize (lines text) as ls. intros ls. revert env_.
  induction ls as [|l ls IH]; intros env_; cbn [assign_all].
  { intros [= <-]. cbn. destruct (String.eqb k "MAIN_MODEL"); [done|]. by destruct (env_ !! k). }
  destruct (assign env_ l) as [env1|] eqn:E; [|done]. intros H. cbn in H. rewrite (IH env1 H). clear IH H.
  rewrite (assign_lookup _ _ _ k E), given_cons. unfold keeps_var.
  destruct (dotenv_line l) as [[j v]|]; [|done]. destruct (String.eqb_spec j k) as [->|Hne]; [|done].
  cbn [app andb]. destruct (String.eqb k "MAIN_MODEL"); cbn [negb andb].
  - rewrite last_cons. by destruct (last (given ls k)).
  - by destruct (env_ !! k).
Qed.
(** A variable that is set, a quoted one, one with a comment, and [MAIN_MODEL]. *)
Definition sample_dotenv : string :=
  "# settings" +:+ nl +:+ "export PORT=9000 # local" +:+ nl +:+ "KEY=" +:+ dquote +:+ "a # b" +:+ dquote +:+ nl
  +:+ "KEY=second" +:+ nl +:+ "MAIN_MODEL=one" +:+ nl +:+ "HOME=/tmp" +:+ nl +:+ "MAIN_MODEL=two".
Definition sample_environment : gmap string string := {["HOME" := "/root"; "MAIN_MODEL" := "zero"]}.
Notation sample_loaded := (load_dotenv_from (Some sample_dotenv) sample_environment).
Lemma dotenv_adds_variables_witness :
  map (fun k => sample_loaded ≫= lookup k) ["HOME"; "PORT"; "KEY"; "MAIN_MODEL"]
    = [Some "/root"; Some "9000"; Some "a # b"; Some "two"]
  /\ default ∅ sample_loaded !! "KEY" = head (given (lines sample_dotenv) "KEY").
Proof.
  split; [vm_compute; reflexivity|].
  assert (is_some sample_loaded = true) as Hs by (vm_compute; reflexivity).
  assert (sample_loaded = Some (default ∅ sample_loaded)) as E by (destruct sample_loaded; [done|discriminate Hs]).
  exact (dotenv_adds_variables sample_dotenv sample_environment (default ∅ sample_loaded) "KEY" E).
Defined.
