(* ===== verification/Requests.v ===== *)
(** * Durable admission of requests ([commands.rs])

    Every mutating request is admitted under its idempotency key before its
    handler runs: the request is normalized and digested, its command is
    inserted unless the key has one, and then the command is either replayed,
    refused, reported as running, or claimed and carried out.  The handler is a
    parameter of [admit_post]; the handlers themselves are in [Handlers]. *)
From S2P Require Import Prelude Text Json Encoding Session Tools Store Config Http.
From Stdlib Require Import Ascii.
Local Open Scope string_scope.
Local Open Scope Z_scope.

(** ** Keys and bodies *)
Definition valid_key (key : string) (count : nat) : bool :=
  (count =? 1)%nat && negb (is_empty key) && (byte_len key <=? 255)
  && all_bytes (fun a => (33 <=? byte_val a) && (byte_val a <=? 126)) key.
Definition reject (code : Z) (name_ message : string) : Response :=
  json_response code (Object [("code", Str name_); ("detail", Str message)]).

Definition nonempty_text (v : value) : bool := is_some_and (as_str v) (fun s => negb (is_empty s)).
Definition request_fields (route : string) : list string :=
  if String.eqb route "/sessions" then ["user_prompt"; "config_ref"]
  else if ends_with route "/messages" then ["content"]
  else if ends_with route "/cancel" then ["run_id"]
  else if ends_with route "/resume" then ["content"; "max_steps"]
  else ["max_steps"].
Section normalize.
Context `{P : Platform}.
Definition normalize_create (obj : entries) : result string entries :=
  _ ← fail_if (negb (is_some_and (assoc "user_prompt" obj) nonempty_text)) "user_prompt is required";
  let obj := entry_or "config_ref" (Str "log-analysis.yaml") obj in
  _ ← fail_if (negb (is_some_and (assoc "config_ref" obj) nonempty_text)) "config_ref must be nonempty";
  mret obj.
Definition normalize_cancel (obj : entries) : result string entries :=
  raw ← ok_or "run_id required" (v ← assoc "run_id" obj; as_str v);
  id_ ← ok_or "run_id must be UUID" (uuid_parse raw);
  mret (obj_insert "run_id" (Str id_) obj).
Definition step_count_ok (v : value) : bool :=
  is_null v || is_some_and (as_u64 v) (fun n => (0 <? n) && (n <=? 50)).
Definition normalize_steps (resumed : bool) (obj : entries) : result string entries :=
  let obj := entry_or "max_steps" Null obj in
  _ ← fail_if (negb (is_some_and (assoc "max_steps" obj) step_count_ok)) "max_steps must be a positive integer";
  if resumed then
    let obj := entry_or "content" Null obj in
    _ ← fail_if (negb (is_some_and (assoc "content" obj) (fun v => is_null v || nonempty_text v)))
          "content must be nonempty or null";
    mret obj
  else mret obj.
Definition normalize_fields (route : string) (obj : entries) : result string entries :=
  if String.eqb route "/sessions" then normalize_create obj
  else if ends_with route "/messages" then
    _ ← fail_if (negb (is_some_and (assoc "content" obj) nonempty_text)) "content must be nonempty";
    mret obj
  else if ends_with route "/cancel" then normalize_cancel obj
  else normalize_steps (ends_with route "/resume") obj.
Definition normalize (route : string) (body : value) : result string value :=
  obj ← ok_or "JSON body must be an object" (as_object body);
  _ ← fail_if (existsb (fun k => negb (str_in k (request_fields route))) (keys obj)) "Unknown request field";
  obj ← normalize_fields route obj;
  _ ← canonical (Object obj);
  mret (Object obj).
End normalize.

(** ** Admission *)
Record Request := {
  request_method : string;
  (** the values of the [Idempotency-Key] headers *)
  request_keys : list string;
  request_path : string;
  request_bytes : string
}.
(** [HeaderValue::to_str]: visible ASCII, spaces and tabs *)
Definition header_text (v : string) : option string :=
  if all_bytes (fun a => (byte_val a =? 9) || ((32 <=? byte_val a) && (byte_val a <=? 126))) v
  then Some v else None.
(** [1024 * 1024] and [16 * 1024 * 1024] *)
Definition request_limit : Z := 1048576.
Definition response_limit : Z := 16777216.

Section admission.
Context `{P : Platform} `{B : Backend} `{F : Files} {X : Type}.
Variable text : db_error -> string.
Variable env : string -> option string.
Variable root : string.
(** the message of [std::str::from_utf8] *)
Variable utf8_error : string -> string.

Definition sqlx {A} (r : result db_error A) : H X A :=
  answer_err (fun e => reject 500 "persistence_error" (text e)) r.
Definition sql {A} (m : T A) : H X A := r ← on_tables m; sqlx r.
Definition namespace : H X string :=
  sqlx (ok_or (Protocol "AGENT_DEPLOYMENT_NAMESPACE is required") (env "AGENT_DEPLOYMENT_NAMESPACE")).
(** The route with the canonical spelling of the session's identity. *)
Definition named_session (path : string) : H X (string * option string) :=
  match split_on (String.eqb "/") path with
  | before :: kind :: raw :: more =>
      if String.eqb kind "sessions"
      then sid ← answer_none (reject 422 "invalid_session_id" "Session ID must be UUID") (uuid_parse raw);
           mret (join "/" (before :: kind :: sid :: more), Some sid)
      else mret (path, None)
  | _ => mret (path, None)
  end.
Definition read_body (route bytes : string) : H X value :=
  _ ← answer_if (request_limit <? byte_len bytes) (reject 422 "invalid_request" "Request body too large");
  answer_err (reject 422 "invalid_request")
    (_ ← fail_if (negb (valid_utf8 bytes)) (utf8_error bytes);
     v ← parse_strict_json bytes;
     normalize route v).
Definition command_digest (route : string) (body : value) : result string string :=
  digest (Array [Str "agent-command-v1"; Str "POST"; Str route; body]).
Definition select_command (namespace_ key : string) : T (option (string * CommandRow)) :=
  statement (fun _ d => (find_command namespace_ key d, d)).
(** What a first admission freezes of the request. *)
Definition admission_of (existing : bool) (route : string) (sid : option string) (body : value) : H X value :=
  if negb existing && String.eqb route "/sessions" then
    ref ← unwrap_h (as_str (index body "config_ref"));
    found ← answer_err (reject 422 "invalid_config") (cfg env root ref);
    let '(config, raw, source) := (found : Config * value * string) in
    _ ← answer_if (existsb (fun t => negb (is_supported (tool_name t))) (tools config))
          (reject 422 "invalid_config" "Unavailable tool");
    session_id ← sql (engine Protocol uuid);
    mret (Object [("session_id", Str session_id); ("config", raw); ("source_sha256", Str source)])
  else mret (Object [("session_id", of_opt_str sid)]).
Definition new_command (namespace_ key route hash : string) (body admission_ : value) (sid : option string)
  : CommandRow :=
  {| command_namespace := namespace_; command_key := key; command_route := route;
     command_request := jsonb (Object [("input", body); ("admission", admission_)]);
     request_sha256 := hash; command_session := sid; command_status := "pending"; command_owner := None;
     command_fence := 0; command_expires_at := None; response_status := None; response_body := None |}.
(** The response a settled command has recorded. *)
Definition valid_status (code : Z) : bool := (100 <=? code) && (code <=? 999).
Definition replay (command : string) (row : CommandRow) (code : Z) : H X Response :=
  if valid_status (code mod 65536)
  then mret (with_header "Idempotency-Command-Id" command (with_header "Idempotency-Replayed" "true"
               (json_response (code mod 65536) (unwrap_or (response_body row) Null))))
  else panic.
Definition in_progress (command : string) (row : CommandRow) : Response :=
  with_header "Idempotency-Command-Id" command (with_header "Retry-After" "1"
    (json_response 202 (Object [("command_id", Str command); ("session_id", of_opt_str (command_session row));
                                ("status", Str (command_status row));
                                ("status_uri", Str ("/commands/" +:+ command))]))).
(** The outcome of a handler that did not record one itself. *)
Definition record_outcome (command owner : string) (fence : Z) (r : Response) : H X unit :=
  match body_of r with
  | None => mret tt
  | Some v =>
      let bytes := json_text v in
      _ ← sqlx (fail_if (response_limit <? byte_len bytes) (Protocol "length limit exceeded"));
      match json_from_str bytes with
      | Err _ => mret tt
      | Ok v' =>
          let settle := if (500 <=? response_code r) || contains_str (json_text v') "lease lost"
                        then mark_uncertain else respond (response_code r) v' in
          sql (statement (fun now d =>
            (tt, alter_command command settle
                   (fun row => command_held row (Some owner) (Some fence) now) d)))
      end
  end.
(** The body handed to the handler: the request with its command attached. *)
Definition attached (command owner namespace_ route : string) (fence : Z) (row : CommandRow) (body : value)
  : value :=
  set "_command" (Object [("id", Str command); ("owner", Str owner); ("fence", num fence);
                          ("namespace", Str namespace_); ("route", Str route);
                          ("admission", index (command_request row) "admission")]) body.
(** A claimed command is carried out. *)
Definition carry_out (next : string -> option value -> H X Response) (command owner namespace_ route : string)
    (fence : Z) (row : CommandRow) (body : value) : H X Response :=
  r ← call (next route (Some (attached command owner namespace_ route fence row body)));
  _ ← record_outcome command owner fence r;
  mret (with_header "Idempotency-Command-Id" command r).
(** What a request asks for, once it was read. *)
Record Asked := {
  asked_key : string;
  asked_route : string;
  asked_session : option string;
  asked_body : value;
  asked_hash : string;
  asked_namespace : string
}.
Definition read_request (q : Request) : H X Asked :=
  first ← answer_none (reject 422 "idempotency_key_required" "Idempotency-Key is required")
            (head (request_keys q));
  let key := unwrap_or (header_text first) "" in
  _ ← answer_if (negb (valid_key key (length (request_keys q))))
        (reject 422 "idempotency_key_invalid" "Invalid Idempotency-Key");
  named ← named_session (request_path q);
  let '(route, sid) := (named : string * option string) in
  body ← read_body route (request_bytes q);
  hash ← sqlx (map_err Protocol (command_digest route body));
  namespace_ ← namespace;
  mret {| asked_key := key; asked_route := route; asked_session := sid; asked_body := body;
          asked_hash := hash; asked_namespace := namespace_ |}.
(** The command is not the one the key was first used for. *)
Definition other_request (a : Asked) (row : CommandRow) : bool :=
  negb (String.eqb (request_sha256 row) (asked_hash a)) || negb (String.eqb (command_route row) (asked_route a)).
(** The command the key has, once it was inserted. *)
Definition settle_admission (next : string -> option value -> H X Response) (a : Asked) : H X Response :=
  found ← sql (select_command (asked_namespace a) (asked_key a));
  stored ← sqlx (ok_or RowNotFound found);
  let '(command, row) := (stored : string * CommandRow) in
  _ ← answer_if (other_request a row)
        (reject 409 "idempotency_key_reused" "Key already identifies different content or route");
  match opt_filter (fun code => 0 <=? code) (response_status row) with
  | Some code => replay command row code
  | None =>
      owner ← sql (engine Protocol uuid);
      claimed ← sql (fallible (claim_command command owner));
      match claimed with
      | None => mret (in_progress command row)
      | Some fence => carry_out next command owner (asked_namespace a) (asked_route a) fence row (asked_body a)
      end
  end.
(** A command that is not in the table yet is for a session that exists. *)
Definition check_session (existing : bool) (sid : option string) : H X unit :=
  match sid with
  | Some session =>
      if existing then mret tt
      else
        known ← sql (statement (fun _ d => (is_some (sessions d !! session), d)));
        answer_if (negb known) (reject 404 "not_found" "Session not found")
  | None => mret tt
  end.
Definition admit_request (next : string -> option value -> H X Response) (a : Asked) : H X Response :=
  existing ← sql (select_command (asked_namespace a) (asked_key a));
  _ ← check_session (is_some existing) (asked_session a);
  admission_ ← admission_of (is_some existing) (asked_route a) (asked_session a) (asked_body a);
  command_id ← sql (engine Protocol uuid);
  _ ← sql (insertion (insert_command command_id
        (new_command (asked_namespace a) (asked_key a) (asked_route a) (asked_hash a) (asked_body a) admission_
           (asked_session a))));
  settle_admission next a.
Definition admit_post (next : string -> option value -> H X Response) (q : Request) : H X Response :=
  a ← read_request q;
  admit_request next a.
Definition admission (next : string -> option value -> H X Response) (q : Request) : H X Response :=
  if String.eqb (request_method q) "POST" then call (admit_post next q)
  else next (request_path q) None.

(** ** The command's own operations *)
Definition attach (s : Session) (q : value) : Session :=
  s <| command := get "_command" q |> <| checkpoint_ack := true |>.
(** 300 seconds *)
Definition administrative_interval : Z := 300000.
(** A command of an operator is inserted as started, under its own key. *)
Definition operator_command (session route : string) (input admission_ : value) : T value :=
  namespace_ ← require_ok "environment variable not found" (env "AGENT_DEPLOYMENT_NAMESPACE");
  id_ ← engine Protocol uuid;
  owner ← engine Protocol uuid;
  hash ← from_result (map_err Protocol (command_digest route input));
  now ← clock_timestamp;
  _ ← insertion (add_command id_
        {| command_namespace := namespace_; command_key := id_; command_route := route;
           command_request := jsonb (Object [("input", input); ("admission", admission_)]);
           request_sha256 := hash; command_session := Some session; command_status := "started";
           command_owner := Some owner; command_fence := 1;
           command_expires_at := Some (now + administrative_interval);
           response_status := None; response_body := None |});
  mret (Object [("id", Str id_); ("owner", Str owner); ("fence", num 1); ("namespace", Str namespace_);
                ("route", Str route)]).
Definition administrative (session route : string) (input : value) : T value :=
  operator_command session route input (Object [("session_id", Str session)]).
Definition command_run (command : string) (d : Db) : option string :=
  e ← find_first (fun e => bool_decide (run_command (snd e) = Some command)) (map_to_list (runs d));
  Some (snd (fst e)).
Definition command_view (command : string) (row : CommandRow) (d : Db) : value :=
  Object [("command_id", Str command); ("session_id", of_opt_str (command_session row));
          ("status", Str (command_status row)); ("response_status", of_opt_num (response_status row));
          ("response_body", unwrap_or (response_body row) Null);
          ("run_id", of_opt_str (command_run command d)); ("status_uri", Str ("/commands/" +:+ command))].
(** [commands::get] *)
Definition get_command (raw : string) : H X Response :=
  id_ ← answer_none (reject 422 "invalid_command_id" "Command ID must be UUID") (uuid_parse raw);
  let namespace_ := unwrap_or (env "AGENT_DEPLOYMENT_NAMESPACE") "" in
  found ← on_tables (statement (fun _ d =>
            (row ← commands d !! id_;
             if String.eqb (command_namespace row) namespace_ then Some (command_view id_ row d) else None, d)));
  match found with
  | Ok (Some v) => mret (json_response 200 v)
  | Ok None => mret (reject 404 "not_found" "Command not found")
  | Err e => mret (internal text e)
  end.
End admission.
