(* ===== verification/AdmissionFacts.v ===== *)
(** * Admission

    What the idempotency key of a request guarantees: a key that names a
    settled or running command never runs a handler again, and a handler runs
    only under a fresh claim on its command. *)
From S2P Require Import Prelude Text Json Session Logic Store StoreLogic Config Http HttpLogic Requests.
Local Open Scope string_scope.
Local Open Scope Z_scope.

Section facts.
Context `{P : Platform} `{B : Backend} `{F : Files} {X : Type}.
Variable text : db_error -> string.
Variable env : string -> option string.
Variable root : string.
Variable utf8_error : string -> string.
Implicit Types (w : Server X) (a : Asked) (row : CommandRow).
Notation sql := (sql (X := X) text).
Notation admit_post := (admit_post (X := X) text env root utf8_error).
Notation read_request := (read_request (X := X) text env utf8_error).

(** The response to a failure of the database. *)
Definition persistence_failure (r : Response) : Prop := exists e, r = reject 500 "persistence_error" (text e).

Lemma loss_no_panic l m : loss_error l <> Panic m.
Proof. by destruct l. Qed.
Lemma hwp_sql {A} (m : T A) (Q : A -> Server X -> Prop) (E : stop -> Server X -> Prop) w :
  twp m (fun x _ d' => Q x (with_db d' w))
        (fun e _ d' => (forall m, e <> Panic m) /\ forall r, persistence_failure r -> E (Returned r) (with_db d' w))
        no_session (db w) ->
  hwp (sql m) Q E w.
Proof.
  intros H. apply hwp_bind, hwp_on_tables. eapply twp_mono; [exact H| |].
  - intros x s d HQ. exact HQ.
  - intros e s d [Hp HE]. assert (E (Returned (reject 500 "persistence_error" (text e))) (with_db d w)) as HE'
      by (apply HE; by eexists).
    destruct e; try exact HE'. by destruct (Hp message).
Qed.
(** A statement that changes nothing, and a fresh identity. *)
Lemma hwp_same_fallible {A} (f : Z -> Db -> result db_error (A * Db)) (P0 : A -> Prop) (Q : A -> Server X -> Prop)
    (E : stop -> Server X -> Prop) w :
  (forall n d, by_others (db w) d -> exists x, f (time_at n) d = Ok (x, d) /\ P0 x) ->
  (forall x w', P0 x -> spectated w w' -> Q x w') ->
  (forall r w', persistence_failure r -> spectated w w' -> E (Returned r) w') ->
  hwp (sql (fallible f)) Q E w.
Proof.
  intros Hf HQ HE. apply hwp_sql, twp_fallible.
  - intros n d0 d' a d1 Hd Ea Hs. destruct (Hf n d0 Hd) as (x & E1 & Hx). rewrite E1 in Ea. injection Ea as <- <-.
    apply HQ, spectated_db; [done|]. etrans; [exact Hd|by apply by_others_same].
  - intros l n d0 d' a d1 Hd Ea Hs. destruct (Hf n d0 Hd) as (x & E1 & _). rewrite E1 in Ea. injection Ea as <- <-.
    split; [apply loss_no_panic|]. intros r Hr. apply HE, spectated_db; [done|].
    etrans; [exact Hd|]. destruct Hs; by apply by_others_same.
  - intros e n d0 d' Hd Ea. destruct (Hf n d0 Hd) as (x & E1 & _). congruence.
Qed.
Lemma hwp_same {A} (f : Z -> Db -> A * Db) (P0 : A -> Prop) (Q : A -> Server X -> Prop) (E : stop -> Server X -> Prop) w :
  (forall n d, by_others (db w) d -> exists x, f (time_at n) d = (x, d) /\ P0 x) ->
  (forall x w', P0 x -> spectated w w' -> Q x w') ->
  (forall r w', persistence_failure r -> spectated w w' -> E (Returned r) w') ->
  hwp (sql (statement f)) Q E w.
Proof.
  intros Hf. apply (hwp_same_fallible (fun now d => Ok (f now d))). intros n d Hd.
  destruct (Hf n d Hd) as (x & E1 & Hx). exists x. by rewrite E1.
Qed.
Lemma hwp_uuid (Q : string -> Server X -> Prop) (E : stop -> Server X -> Prop) w :
  (forall i w', spectated w w' -> Q i w') -> hwp (sql (engine Protocol uuid)) Q E w.
Proof. intros HQ. apply hwp_sql, twp_uuid. intros d' Hd. by apply HQ, spectated_db, by_others_same. Qed.
Lemma find_command_same ns key d d' : same_tables d d' -> find_command ns key d' = find_command ns key d.
Proof. rewrite same_tables_iff. intros (_ & E & _). unfold find_command. by rewrite E. Qed.
Lemma find_command_row ns key d c row : find_command ns key d = Some (c, row) ->
  commands d !! c = Some row /\ command_namespace row = ns /\ command_key row = key.
Proof.
  unfold find_command. intros [Hin Hk]%find_first_some. apply elem_of_map_to_list in Hin. cbn in Hk.
  apply andb_true_iff in Hk as [H1%String.eqb_eq H2%String.eqb_eq]. done.
Qed.

(** ** A command that is known *)
(** What a request gets whose key has a command that is not to be claimed. *)
Definition known_response a (c : string) row : Response :=
  if other_request a row
  then reject 409 "idempotency_key_reused" "Key already identifies different content or route"
  else match response_status row with
       | Some code => with_header "Idempotency-Command-Id" c (with_header "Idempotency-Replayed" "true"
                        (json_response code (unwrap_or (response_body row) Null)))
       | None => in_progress c row
       end.
(** The statuses the schema admits. *)
Definition recorded_status row : Prop := forall code, response_status row = Some code -> 200 <= code <= 599.
Lemma insert_known d id_ row c row' : find_command (command_namespace row) (command_key row) d = Some (c, row') ->
  insert_command id_ row d = Ok (tt, d).
Proof. unfold insert_command. by intros ->. Qed.
Lemma claim_refused d c row owner now : commands d !! c = Some row -> claimable row now = false ->
  claim_command c owner now d = Ok (None, d).
Proof. unfold claim_command. by intros -> ->. Qed.
(** The key's command answers [a]: it was made for another request ([other]), or
    it is not to be claimed, being settled or running elsewhere. *)
Record answers_key a (c : string) (other : bool) row (d : Db) : Prop := {
  key_command : find_command (asked_namespace a) (asked_key a) d = Some (c, row);
  key_status : recorded_status row;
  key_request : other_request a row = other;
  key_claim : other = false -> forall n, claimable row (time_at n) = false
}.

Section known.
Variables (next : string -> option value -> H X Response) (w0 : Server X) (a : Asked) (c : string) (other : bool).
Hypothesis Hkey : forall d, by_others (db w0) d -> exists row, answers_key a c other row d.
Let Q (r : Response) w' : Prop := spectated w0 w' /\
  ((exists row d, by_others (db w0) d /\ answers_key a c other row d /\ r = known_response a c row) \/ persistence_failure r).
Let E (e : stop) w' : Prop := match e with Returned r => Q r w' | Panicked => False end.

Lemma failure_outcome r w : persistence_failure r -> spectated w0 w -> E (Returned r) w.
Proof. intros Hr Hw. split; [exact Hw|by right]. Qed.
(** The row of the command, as it is at some moment. *)
Lemma select_known w (K : option (string * CommandRow) -> H X Response) : spectated w0 w ->
  (forall row d w1, by_others (db w0) d -> answers_key a c other row d -> spectated w0 w1 -> hwp (K (Some (c, row))) Q E w1) ->
  hwp (x ← sql (select_command (asked_namespace a) (asked_key a)); K x) Q E w.
Proof.
  intros Hw HK. unfold select_command. hwp_step.
  apply (hwp_same _ (fun x => exists row d, by_others (db w0) d /\ answers_key a c other row d /\ x = Some (c, row))).
  - intros n d Hd. destruct (Hkey d (transitivity (others_db _ _ Hw) Hd)) as [row Hrow].
    exists (Some (c, row)). split; [f_equal; apply Hrow|]. exists row, d. split_and!; [|done|done].
    exact (transitivity (others_db _ _ Hw) Hd).
  - intros x w1 (row & d & Hd & Hrow & ->) H1. apply (HK row d); [done|done|exact (transitivity Hw H1)].
  - intros r w1 Hr H1. apply failure_outcome; [done|exact (transitivity Hw H1)].
Qed.
Lemma settle_known w : spectated w0 w -> hwp (settle_admission text next a) Q E w.
Proof.
  intros Hw. unfold settle_admission. apply select_known; [done|].
  intros row d w1 Hd [Hfind Hcode Hreq Hclaim] Hw1. hwp_step. apply hwp_answer_err; [|done].
  assert (forall r, r = known_response a c row -> forall w', spectated w0 w' -> Q r w') as HQ.
  { intros r -> w' Hw'. split; [done|left]. exists row, d. by split_and!. }
  intros ? [= <-]. hwp_step. hwp_step; [|apply HQ; [unfold known_response; by rewrite H|done]].
  destruct (response_status row) as [code|] eqn:Ec; cbn [opt_filter].
  - pose proof (Hcode code Ec) as Hb. replace (0 <=? code) with true by lia. unfold replay.
    replace (code mod 65536) with code by (symmetry; apply Z.mod_small; lia).
    replace (valid_status code) with true by (unfold valid_status; lia).
    apply hwp_ret, HQ; [|done]. unfold known_response. by rewrite H, Ec.
  - hwp_step. apply hwp_uuid. intros owner w2 H2. pose proof (transitivity Hw1 H2) as Hw2. hwp_step.
    apply (hwp_same_fallible _ (fun x => x = None)).
    + intros n d2 Hd2. destruct (Hkey d2 (transitivity (others_db _ _ Hw2) Hd2)) as (row2 & [Hf2 _ _ Hc2]).
      exists None. split; [|done]. eapply claim_refused; [apply (find_command_row _ _ _ _ _ Hf2)|].
      apply Hc2. congruence.
    + intros x w3 -> H3. apply hwp_ret, HQ; [|exact (transitivity Hw2 H3)]. unfold known_response. by rewrite H, Ec.
    + intros r w3 Hr H3. apply failure_outcome; [exact Hr|exact (transitivity Hw2 H3)].
Qed.
Lemma admit_known : hwp (admit_request text env root next a) Q E w0.
Proof.
  unfold admit_request. apply select_known; [done|]. intros row d w1 Hd [Hfind _ _ _] H1. cbn [is_some]. hwp_step.
  assert (check_session (X := X) text true (asked_session a) = mret tt) as ->
    by (unfold check_session; by destruct (asked_session a)).
  hwp_step. hwp_step. unfold admission_of. cbn [negb andb]. do 2 hwp_step. apply hwp_uuid.
  intros i w2 H2. pose proof (transitivity H1 H2) as Hw2. hwp_step.
  assert (forall d', by_others (db w2) d' -> spectated w0 (with_db d' w2)) as Hs.
  { intros d' Hd'. exact (transitivity Hw2 (spectated_db _ _ Hd')). }
  apply hwp_sql, (twp_insertion_same _ tt).
  - intros d0 Hd0. destruct (Hkey d0 (transitivity (others_db _ _ Hw2) Hd0)) as (row0 & Hrow0).
    eapply insert_known. apply Hrow0.
  - intros d' Hd'. by apply settle_known, Hs.
  - intros l d' Hd'. split; [apply loss_no_panic|]. intros r Hr. by apply failure_outcome, Hs.
Qed.
End known.

(** C10: a request whose key has a command that is settled, running elsewhere,
    or was made for another request, never runs a handler, whatever other
    connections commit in between as long as the command stays one of these: it
    is answered from the command as it is at some moment - the recorded response,
    the command's state, or a refusal - or with the failure of the database, and
    the request changes nothing, neither in the tables nor outside. *)
Theorem known_command_is_not_rerun next q w a c other o w' :
  read_request q w = (Ok a, w) ->
  (forall d, by_others (db w) d -> exists row, answers_key a c other row d) ->
  responded (admit_post next q) w = (o, w') ->
  spectated w w' /\ exists r, o = Some r
    /\ ((exists row d, by_others (db w) d /\ answers_key a c other row d /\ r = known_response a c row)
        \/ persistence_failure r).
Proof.
  intros Hr Hk Hrun.
  set (K := fun r w1 => spectated w w1 /\ ((exists row d, by_others (db w) d /\ answers_key a c other row d
    /\ r = known_response a c row) \/ persistence_failure r)).
  assert (hwp (admit_post next q) K
    (fun e w1 => match e with Returned r => K r w1 | Panicked => False end) w) as H.
  { apply hwp_bind. unfold hwp at 1. rewrite Hr. by apply admit_known. }
  pose proof (hwp_responded _ _ _ _ _ _ H Hrun) as Ho. destruct o as [r|]; [|done].
  destruct Ho as [[H1 H2]|[H1 H2]]; eauto.
Qed.

(** ** A command that is claimed *)
(** The claim a handler runs under: the command is for this request and was not
    answered when it was read, somebody could claim it and this worker did, under
    a new fence, and nothing happened since. *)
Record claim_won a (command owner : string) (fence : Z) row (w w1 : Server X) : Prop := {
  won_request : other_request a row = false;
  won_open : forall code, response_status row = Some code -> code < 0;
  won_claim : exists n d0 row0, commands d0 !! command = Some row0 /\ claimable row0 (time_at n) = true
    /\ fence = command_fence row0 + 1
    /\ (exists d1, claim_command command owner (time_at n) d0 = Ok (Some fence, d1) /\ same_tables d1 (db w1))
    /\ forall t, t < time_at n + lease_interval ->
         (exists row1, commands (db w1) !! command = Some row1 /\ command_held row1 (Some owner) (Some fence) t = true)
         /\ (forall other, claim_command command other t (db w1) = Ok (None, db w1));
  won_locks : held_locks w1 = held_locks w;
  won_outside : outside w1 = outside w
}.
Lemma claim_holds command owner now d0 d2 d1 fence : claim_command command owner now d0 = Ok (Some fence, d2) ->
  same_tables d2 d1 ->
  exists row0, commands d0 !! command = Some row0 /\ claimable row0 now = true /\ fence = command_fence row0 + 1
    /\ forall t, t < now + lease_interval ->
         (exists row1, commands d1 !! command = Some row1 /\ command_held row1 (Some owner) (Some fence) t = true)
         /\ (forall other, claim_command command other t d1 = Ok (None, d1)).
Proof.
  unfold claim_command at 1. destruct (commands d0 !! command) as [row0|]; [|done].
  destruct (claimable row0 now) eqn:Ec; [|done]. intros (f & Hf & [= <- <-])%bind_ok Hs. rewrite same_tables_iff in Hs.
  apply bigint_add_ok in Hf as [Hf _].
  destruct Hs as (_ & E & _). exists row0. split_and!; [done..|]. intros t Ht.
  assert (unexpired (Some (now + lease_interval)) t = true) as Hu by by apply Z.ltb_lt.
  match type of E with _ = commands (put_command _ ?r _) => set (row1 := r) in E end.
  assert (commands d1 !! command = Some row1) as Hrow by (rewrite E; apply lookup_insert_eq). split.
  - exists row1. split; [done|]. unfold command_held, holds_command. cbn -[unexpired]. rewrite Hu.
    by rewrite bool_decide_eq_true_2, Z.eqb_refl.
  - intros other. unfold claim_command. rewrite Hrow.
    assert (claimable row1 t = false) as ->; [|done]. unfold claimable. cbn.
    destruct (Z.leb_spec (now + lease_interval) t); [lia|done].
Qed.

(** Before the claim nothing but the tables is touched. *)
Definition beside w w1 : Prop := held_locks w1 = held_locks w /\ outside w1 = outside w.
#[local] Instance beside_preorder : PreOrder beside.
Proof. split; [by split|]. intros w1 w2 w3 [H1 H2] [H3 H4]. split; congruence. Qed.
(** However a computation ends, [R] relates the states before and after. *)
Definition along (R : Server X -> Server X -> Prop) {A} (m : H X A) : Prop := forall w x w1, m w = (x, w1) -> R w w1.
Notation aside := (along beside).
Section along.
Context (R : Server X -> Server X -> Prop) `{!PreOrder R}.
Lemma along_bind {A C} (m : H X A) (f : A -> H X C) : along R m -> (forall x, along R (f x)) -> along R (m ≫= f).
Proof.
  intros Hm Hf w x w2. unfold mbind, H_bind. destruct (m w) as [[a|e] w1] eqn:E.
  - intros E2. exact (transitivity (Hm _ _ _ E) (Hf _ _ _ _ E2)).
  - intros [= <- <-]. by eapply Hm.
Qed.
Lemma along_here {A} (f : Server X -> result stop A) : along R (fun w => (f w, w)).
Proof. intros w x w1 [= <- <-]. reflexivity. Qed.
Lemma along_ret {A} (a : A) : along R (mret a).
Proof. apply (along_here (fun _ => Ok a)). Qed.
Lemma along_answer_err {A E} g (x : result E A) : along R (answer_err (X := X) g x).
Proof. destruct x; apply along_here. Qed.
Lemma along_answer_none {A} r (o : option A) : along R (answer_none (X := X) r o).
Proof. destruct o; apply along_here. Qed.
Lemma along_answer_if b r : along R (answer_if (X := X) b r).
Proof. destruct b; apply along_here. Qed.
Lemma along_unwrap {A} (o : option A) : along R (unwrap_h (X := X) o).
Proof. destruct o; apply along_here. Qed.
End along.
Ltac along := repeat match goal with
  | |- along _ (match ?x with _ => _ end) => destruct x
  | |- along _ (_ ≫= _) => apply along_bind; [apply _| |intros]
  | |- along _ (mret _) => apply along_ret, _
  | |- along _ (answer_err _ _) => apply along_answer_err, _
  | |- along _ (sqlx _ _) => apply along_answer_err, _
  | |- along _ (answer_none _ _) => apply along_answer_none, _
  | |- along _ (answer_if _ _) => apply along_answer_if, _
  | |- along _ (unwrap_h _) => apply along_unwrap, _
  end.
Lemma along_read_request q : along eq (read_request q).
Proof.
  unfold Requests.read_request, named_session, read_body, namespace. along.
Qed.
Lemma aside_sql {A} (m : T A) : aside (sql m).
Proof.
  unfold Requests.sql. along. intros w r w1. unfold on_tables, tables_only.
  destruct (m (no_session, db w)) as [[a|[]] [s d]]; intros [= <- <-]; done.
Qed.
#[local] Hint Resolve aside_sql : core.
Lemma aside_check_session b sid : aside (check_session (X := X) text b sid).
Proof. unfold check_session. along; auto. Qed.
Lemma aside_admission_of b route sid body : aside (admission_of (X := X) text env root b route sid body).
Proof. unfold admission_of. along; auto. Qed.

(** What a request does before its handler runs does not depend on the handler. *)
Notation Next := (string -> option value -> H X Response).
Definition decided a w (m : Next -> H X Response) w0 : Prop :=
  (exists x w', forall next, m next w0 = (x, w'))
  \/ exists command owner fence row w1, claim_won a command owner fence row w w1 /\ forall next, m next w0
       = carry_out text next command owner (asked_namespace a) (asked_route a) fence row (asked_body a) w1.
Lemma decided_bind {A} a w (m : H X A) (f : Next -> A -> H X Response) w0 : aside m -> beside w w0 ->
  (forall x w1, m w0 = (Ok x, w1) -> beside w w1 -> decided a w (fun next => f next x) w1) ->
  decided a w (fun next => m ≫= f next) w0.
Proof.
  intros Hm Hw Hf. unfold mbind, H_bind. destruct (m w0) as [[x|e] w1] eqn:E.
  - destruct (Hf x w1 eq_refl (transitivity Hw (Hm _ _ _ E))) as [(y & w' & H)|(c & o & f0 & row & w2 & H1 & H2)].
    + left. exists y, w'. intros next. rewrite E. apply H.
    + right. exists c, o, f0, row, w2. split; [done|]. intros next. rewrite E. apply H2.
  - left. exists (Err e), w1. intros next. by rewrite E.
Qed.
Lemma decided_here a w w0 x : decided a w (fun _ w1 => (x, w1)) w0.
Proof. left. by exists x, w0. Qed.
Lemma claim_no_panic command owner now d e m : claim_command command owner now d = Err e -> e <> Panic m.
Proof.
  unfold claim_command, bigint_add. destruct (commands d !! command) as [row|]; [|done].
  destruct (claimable row now); [|done]. destruct (in_i64 _); [done|]. by intros [= <-].
Qed.
Lemma claim_sql command owner fence w w1 : sql (fallible (claim_command command owner)) w = (Ok (Some fence), w1) ->
  exists n d0 d1, claim_command command owner (time_at n) d0 = Ok (Some fence, d1) /\ same_tables d1 (db w1).
Proof.
  intros E. assert (hwp (sql (fallible (claim_command command owner))) (fun x w' => exists n d0 d1,
    claim_command command owner (time_at n) d0 = Ok (x, d1) /\ same_tables d1 (db w')) (fun _ _ => True) w) as H.
  { apply hwp_sql, twp_fallible.
    - intros n d0 d' a d1 _ Ea Hs. by exists n, d0, d1.
    - intros. split; [apply loss_no_panic|done].
    - intros e n d0 d' _ Ea _. split; [intros m; by eapply claim_no_panic|done]. }
  unfold hwp in H. by rewrite E in H.
Qed.
Lemma settle_decided a w w0 : beside w w0 -> decided a w (fun next => settle_admission text next a) w0.
Proof.
  intros Hw. apply decided_bind; [apply aside_sql|done|]. intros found w1 _ H1.
  apply decided_bind; [along|done|]. intros [command row] w2 _ H2.
  apply decided_bind; [along|done|]. intros u w3 E3 H3.
  assert (other_request a row = false) as Hreq.
  { revert E3. unfold answer_if. by destruct (other_request a row). }
  destruct (opt_filter _ (response_status row)) as [code|] eqn:Ec.
  { unfold replay. destruct (valid_status _); apply decided_here. }
  apply decided_bind; [apply aside_sql|done|]. intros owner w4 _ H4.
  apply decided_bind; [apply aside_sql|done|]. intros [fence|] w5 E5 H5; [|apply decided_here].
  right. exists command, owner, fence, row, w5. split; [|done].
  apply claim_sql in E5 as (n & d0 & d1 & Hf & Hs).
  pose proof (claim_holds _ _ _ _ _ _ _ Hf Hs) as (row0 & Hrow & Hc & -> & Ht).
  split; [done| |exists n, d0, row0; split_and!; [done..|by exists d1|done]|apply H5..].
  intros code Hcode. rewrite Hcode in Ec. cbn in Ec. destruct (Z.leb_spec 0 code); [done|lia].
Qed.
Lemma admit_decided a w w0 : beside w w0 -> decided a w (fun next => admit_request text env root next a) w0.
Proof.
  intros Hw. apply decided_bind; [apply aside_sql|done|]. intros existing w1 _ H1.
  apply decided_bind; [apply aside_check_session|done|]. intros _ w2 _ H2.
  apply decided_bind; [apply aside_admission_of|done|]. intros adm w3 _ H3.
  apply decided_bind; [apply aside_sql|done|]. intros command w4 _ H4.
  apply decided_bind; [apply aside_sql|done|]. intros _ w5 _ H5. by apply settle_decided.
Qed.

(** C11: a handler runs only under a claim its request won.  Either the answer
    to a request and all it changes do not depend on the handler, which then did
    not run; or the handler ran once, on the request with its command attached
    and followed by the recording of its outcome, right after this worker claimed
    the command, which was for this very request, unanswered and free or left by
    its worker, under a new fence; and until the claim expires nobody else can
    claim the command. *)
Theorem handler_runs_under_claim q w :
  (exists o w', forall next, responded (admit_post next q) w = (o, w'))
  \/ exists a command owner fence row w1, read_request q w = (Ok a, w) /\ claim_won a command owner fence row w w1
    /\ forall next, responded (admit_post next q) w = responded
         (carry_out text next command owner (asked_namespace a) (asked_route a) fence row (asked_body a)) w1.
Proof.
  unfold responded, Requests.admit_post, mbind, H_bind. destruct (read_request q w) as [[a|e] w0] eqn:E.
  - apply along_read_request in E as <-.
    destruct (admit_decided a w w (reflexivity w)) as [(x & w' & H)|(command & owner & fence & row & w1 & H1 & H2)].
    + left. eexists _, _. intros next. rewrite H. apply surjective_pairing.
    + right. exists a, command, owner, fence, row, w1. split_and!; [done..|]. intros next. by rewrite H2.
  - left. eexists _, _. intros next. apply surjective_pairing.
Qed.
End facts.
