(* ===== verification/Commit.v ===== *)
(** * The commit of a session ([main.rs])

    [save] turns a session and an event into one transaction: it stages what is
    not archived yet, fixes the identity and the fingerprint of the proposal,
    and retries the transaction while the network loses it.  [commit_body] is
    that transaction: under the command's lock it replays a receipt, or checks
    the lease, the revision and the immutable anchors, archives the transcript,
    the diagnostics, the run, the actions and their attempts, refreshes the
    active context, and writes receipt, event, snapshot and response. *)
From S2P Require Import Prelude Text Json Encoding Session Logic Context Ledger Diagnostics Prompt Compaction Store Rows Snapshot Config Retention.
Local Open Scope string_scope.
Local Open Scope Z_scope.

(** serde's derived deserializers *)
Class Serde := {
  message_of : value -> result string Message;
  session_of : value -> result string Session
}.

(** ** Staging ([stage_transcript]) *)
Definition staged_message (m : Message) : bool :=
  is_some (sequence m) && is_some (message_id m) && is_some (created_at m).
Section staging.
Context {W : Type} `{Runtime W}.
Definition stage_message (m : Message) : M W Message :=
  message_id_ ← uuid;
  created_at_ ← transcript_timestamp;
  sequence_ ← gets next_transcript_sequence;
  let m := m <| message_id := Some message_id_ |> <| sequence := Some sequence_ |>
             <| created_at := Some created_at_ |> in
  _ ← modify (fun s => s
    <| next_transcript_sequence := add64 sequence_ 1 |>
    <| pending_transcript := (pending_transcript s ++
         [{| te_sequence := sequence_; te_message_id := message_id_; te_kind := "message";
             te_payload := wire_message m; te_run_id := None; te_decision_step := step_count s;
             te_created_at := created_at_ |}])%list |>);
  mret m.
Fixpoint stage_messages (ms : list Message) : M W (list Message) :=
  match ms with
  | [] => mret []
  | m :: rest =>
      m ← (if staged_message m then mret m else stage_message m);
      rest ← stage_messages rest;
      mret (m :: rest)
  end.
Definition stage_transcript : M W unit :=
  ms ← gets memory;
  ms ← stage_messages ms;
  modify (fun s => s <| memory := ms |>).
End staging.

Definition event_type (e : value) : option string := get_str "type" e.
(** [transcript_event_record] *)
Definition transcript_event_record (event : value) (s : Session) : option (string * value) :=
  match event_type event with
  | Some t =>
      if String.eqb t "run_finished"
      then Some ("run_finished", Object [("reason", Str (unwrap_or (run_termination_reason s) (run_status s)));
                                         ("status", Str (run_status s))])
      else if String.eqb t "run_interrupted" || String.eqb t "run_reconciled"
      then Some ("run_interrupted", Object [("run_id", of_opt_str (run_id s)); ("reason", index event "reason");
                                            ("status", Str (run_status s))])
      else None
  | None => None
  end.

(** ** The fingerprint of a proposal *)
Definition record_value (r : DiagnosticRecord) : value :=
  Object [("family", Str (family r)); ("ordinal", num (ordinal r)); ("payload", diag_payload r)].
Definition cold_fields : list string :=
  ["memory"; "compacted_context"; "compaction_ledger"; "compaction_events"; "compaction_attempts";
   "compaction_decisions"; "compaction_provenance"; "executions"; "pending_transcript"; "transcript_pending"].
Section fingerprint.
Context `{P : Platform} `{F : Files}.
Definition commit_preimage (s : Session) (resolved_hash : string) (event : value) : value :=
  Array [Str "agent-commit-v2"; Str (id s);
         match command s with Some c => index c "id" | None => Null end; num (revision s);
         remove_all cold_fields (snapshot s);
         memory_value (memory s);
         of_opt_str (compacted_context s);
         of_opt ledger_value (compaction_ledger s);
         Array (map entry_value (pending_transcript s));
         Object [("executions", Array (pending_execution_outbox s)); ("attempts", Array (attempts_pending s))];
         Array (map record_value (diagnostics_pending s));
         unwrap_or (retention_pending s) Null;
         Str resolved_hash;
         event].
Definition commit_fingerprint (s : Session) (config event : value) : result db_error string :=
  c ← map_err Protocol (config_of config);
  h ← map_err Protocol (resolved_config_hash c);
  _ ← fail_if (negb (bool_decide (resolved_config_sha256 s = Some (snd h))))
        (Protocol "resolved configuration hash differs from immutable session anchor");
  map_err Protocol (Encoding.digest (commit_preimage s (snd h) event)).
End fingerprint.

(** ** The parts of the transaction *)
Section parts.
Context `{P : Platform} `{B : Backend} `{F : Files} `{Sr : Serde}.

(** [Uuid::parse_str(x).map_err(Protocol)?] *)
Definition parse_uuid (x : string) : T string := require_ok (uuid_error x) (uuid_parse x).

(** [validate_previous_transcript] *)
Definition with_projection (state projection_ : value) : value :=
  match projection_ with
  | Object m => foldl (fun v e => set (fst e) (snd e) v) state m
  | _ => state
  end.
Definition goal_anchored (goal_ : string) (m : Message) : bool :=
  String.eqb (role m) "user" && bool_decide (content m = Some goal_).
Definition validate_previous_transcript (id_ : string) (state : value) (max_sequence : Z) : T unit :=
  _ ← from_result (map_err Protocol (validate_snapshot state));
  _ ← reject_if (negb (is_int (index state "next_transcript_sequence") (add64 max_sequence 1)))
        "transcript counter mismatch";
  projection_ ← (fun sd => (projection id_ (snd sd), sd));
  restored ← from_result (map_err Protocol (session_of (with_projection state projection_)));
  _ ← from_result (map_err Protocol (validate_context state restored));
  goal_ ← require_ok "missing immutable goal message" (head (memory restored));
  reject_if (negb (goal_anchored (goal restored) goal_)) "goal anchor mismatch".

(** [validate_summary_payload] *)
Fixpoint check_sources (id_ : string) (seen : list string) (previous : Z) (ids : list value)
  : T (list Message) :=
  match ids with
  | [] => mret []
  | source :: rest =>
      sid ← require_ok "invalid summary source identity" (as_str source);
      _ ← reject_if (str_in sid seen) "duplicate summary source identity";
      u ← parse_uuid sid;
      found ← read (fun d => transcript d !! (id_, u));
      row ← require_ok "summary references a missing or cross-session source message" found;
      _ ← reject_if (negb (String.eqb (tr_kind row) "message") || (tr_sequence row <=? previous))
            "summary source messages are not ordered transcript messages";
      m ← from_result (map_err Protocol (message_of (tr_payload row)));
      ms ← check_sources id_ (sid :: seen) (tr_sequence row) rest;
      mret (m :: ms)
  end.
Fixpoint check_retained (id_ : string) (seen : list string) (ids : list value) : T unit :=
  match ids with
  | [] => mret tt
  | identity :: rest =>
      rid ← require_ok "invalid retained message identity" (as_str identity);
      _ ← reject_if (str_in rid seen) "duplicate retained message identity";
      u ← parse_uuid rid;
      row ← read (fun d => transcript d !! (id_, u));
      _ ← reject_if (negb (is_some_and row (fun r => String.eqb (tr_kind r) "message")))
            "summary retained message is missing or cross-session";
      check_retained id_ (rid :: seen) rest
  end.
Definition previous_summary (id_ : string) (payload : value) : T (option string) :=
  match get_str "previous_ledger_id" payload with
  | None => mret None
  | Some prior =>
      u ← parse_uuid prior;
      found ← read (fun d => transcript d !! (id_, u));
      row ← require_ok "previous summary ledger is missing" found;
      _ ← reject_if (negb (str_in (tr_kind row) ["compaction_summary"; "legacy_summary"]))
            "previous summary ledger is invalid";
      mret (Some (unwrap_or (get_str "content" (tr_payload row)) ""))
  end.
Definition validate_summary_payload (id_ : string) (payload : value) (goal_ : string) : T unit :=
  ids ← require_ok "summary source identities are missing" (get_array "source_message_ids" payload);
  _ ← reject_if (length ids =? 0)%nat "summary source identities are empty";
  sources ← check_sources id_ [] 0 ids;
  _ ← (match get_array "retained_message_ids" payload with
       | Some retained => check_retained id_ [] retained
       | None => mret tt
       end);
  previous ← previous_summary id_ payload;
  let fingerprint := sha256_hex (source_text goal_ sources previous) in
  reject_if (negb (bool_decide (get_str "source_sha256" payload = Some fingerprint)))
    "summary source fingerprint differs from archived inputs".

(** The transcript entries of the proposal *)
Definition insert_transcript (id_ message_ : string) (row : TranscriptRow) (d : Db) : Db :=
  d <| transcript ::= <[(id_, message_) := row]> |>.
(** [CHECK(sequence>0)], [CHECK(decision_step>=0)]: a number that has wrapped
    around is refused. *)
Definition add_transcript (id_ message_ : string) (row : TranscriptRow) : T unit :=
  _ ← from_result (fail_if (negb ((0 <? tr_sequence row) && (0 <=? tr_decision_step row)))
        (Database "new row for relation violates check constraint"));
  write (insert_transcript id_ message_ row).
Definition has_id (i : string) (m : Message) : bool := bool_decide (message_id m = Some i).
Fixpoint alter_first {A} (p : A -> bool) (f : A -> A) (l : list A) : list A :=
  match l with [] => [] | x :: l' => if p x then f x :: l' else x :: alter_first p f l' end.
(** [if let Some(message) = s.memory.iter_mut().find(..) { message.sequence = Some(n) }] *)
Definition number_message (i : string) (n : Z) : T unit :=
  update (fun s => s <| memory ::= alter_first (has_id i) (fun m => m <| sequence := Some n |>) |>).
Definition write_entry (id_ : string) (next : Z) (entry : TranscriptEntry) : T Z :=
  let is_message := String.eqb (te_kind entry) "message" in
  active ← this (fun s => find_first (has_id (te_message_id entry)) (memory s));
  _ ← reject_if (is_message
        && is_some_and active (fun m => negb (value_eqb (wire_message m) (te_payload entry))))
        "transcript message ID reused with changed payload";
  message_ ← unwrap (uuid_parse (te_message_id entry));
  existing ← read (fun d => transcript d !! (id_, message_));
  match existing with
  | Some row =>
      _ ← reject_if (negb (String.eqb (tr_kind row) (te_kind entry))
            || negb (value_eqb (tr_payload row) (te_payload entry))
            || (negb (tr_sequence row =? te_sequence entry) && negb is_message))
            "transcript immutable identity conflict";
      _ ← when_t is_message (number_message (te_message_id entry) (tr_sequence row));
      mret next
  | None =>
      _ ← when_t is_message (number_message (te_message_id entry) next);
      _ ← add_transcript id_ message_
            {| tr_sequence := next; tr_kind := te_kind entry; tr_payload := jsonb (te_payload entry);
               tr_run_id := (r ← te_run_id entry; uuid_parse r);
               tr_decision_step := te_decision_step entry; tr_created_at := te_created_at entry |};
      mret (add64 next 1)
  end.
Fixpoint write_entries (id_ : string) (next : Z) (entries : list TranscriptEntry) : T Z :=
  match entries with
  | [] => mret next
  | entry :: rest => next ← write_entry id_ next entry; write_entries id_ next rest
  end.
Definition write_summary (id_ : string) (next : Z) (provenance : value) : T Z :=
  match get_str "transcript_record_id" provenance with
  | None => mret next
  | Some record_id =>
      let payload := unwrap_or (get "transcript_payload" provenance) Null in
      u ← parse_uuid record_id;
      goal_ ← this goal;
      _ ← validate_summary_payload id_ payload goal_;
      existing ← read (fun d => transcript d !! (id_, u));
      match existing with
      | Some row =>
          _ ← reject_if (negb (String.eqb (tr_kind row) "compaction_summary")
                || negb (value_eqb (tr_payload row) payload))
                "immutable compaction summary identity conflict";
          mret next
      | None =>
          step ← this step_count;
          at_ ← engine Protocol transcript_timestamp;
          _ ← add_transcript id_ u
                {| tr_sequence := next; tr_kind := "compaction_summary"; tr_payload := jsonb payload;
                   tr_run_id := None; tr_decision_step := step; tr_created_at := at_ |};
          mret (add64 next 1)
      end
  end.
Fixpoint write_summaries (id_ : string) (next : Z) (provenances : list value) : T Z :=
  match provenances with
  | [] => mret next
  | p :: rest => next ← write_summary id_ next p; write_summaries id_ next rest
  end.

(** [write_call_map] *)
Definition add_call (id_ call_id message_ : string) (d : Db) : Db :=
  let known := default [] (session_calls d !! (id_, call_id)) in
  if str_in message_ known then d
  else d <| session_calls ::= <[(id_, call_id) := (known ++ [message_])%list]> |>.
Definition write_call (id_ : string) (entry : TranscriptEntry) (call : value) : T unit :=
  call_id ← require_ok "tool call is missing its identity" (get_str "id" call);
  message_ ← parse_uuid (te_message_id entry);
  _ ← write (add_call id_ call_id message_);
  found ← read (fun d => first_row (default [] (session_calls d !! (id_, call_id))));
  actual ← from_result (ok_or RowNotFound found);
  reject_if (negb (String.eqb actual message_)) "tool call identity collision".
Definition write_call_map (id_ : string) (entries : list TranscriptEntry) : T unit :=
  tfor (fun entry =>
      match get_array "tool_calls" (te_payload entry) with
      | Some calls => tfor (write_call id_ entry) calls
      | None => mret tt
      end)
    (List.filter (fun entry => String.eqb (te_kind entry) "message") entries).

(** [write_diagnostics] *)
Definition write_diagnostic (id_ : string) (r : DiagnosticRecord) : T unit :=
  _ ← reject_if (negb (str_in (family r) FAMILIES) || (ordinal r <? 1)) "invalid pending diagnostic identity";
  existing ← read (fun d => diagnostics d !! (id_, family r, ordinal r));
  match existing with
  | None => write (fun d => d <| diagnostics ::= <[(id_, family r, ordinal r) := jsonb (diag_payload r)]> |>)
  | Some stored => reject_if (negb (value_eqb stored (diag_payload r)))
                     (conflict (family r) (ordinal r) (diag_payload r) stored)
  end.
Definition check_counter (id_ : string) (s : Session) (family_ : string) : T unit :=
  let expected := default 0 (diagnostic_counts s !! family_) in
  actual ← read (diagnostic_max id_ family_);
  reject_if ((expected <? 0) || negb (actual =? expected))
    ("diagnostic counter differs from archived history: family=" +:+ family_ +:+ " expected="
     +:+ show_Z expected +:+ " stored=" +:+ show_Z actual).
Definition write_diagnostics (id_ : string) : T unit :=
  s ← this (fun s => s);
  _ ← tfor (write_diagnostic id_) (diagnostics_pending s);
  _ ← reject_if (existsb (fun e => negb (str_in (fst e) FAMILIES)) (map_to_list (diagnostic_counts s)))
        "unknown diagnostic counter family";
  tfor (check_counter id_ s) FAMILIES.

(** [write_run_state] *)
Definition upsert_run (key_ : string * string) (new : RunRow) (d : Db) : Db :=
  d <| runs ::= <[key_ := match runs d !! key_ with
       | None => new
       | Some old => old <| run_row_status := run_row_status new |>
                         <| run_row_ended_at := opt_or (run_row_ended_at old) (run_row_ended_at new) |>
                         <| run_row_reason := opt_or (run_row_reason old) (run_row_reason new) |>
                         <| run_last_step := run_last_step new |> <| run_metadata := run_metadata new |>
       end]> |>.
Definition write_run_state (id_ : string) : T unit :=
  s ← this (fun s => s);
  match run_id s, run_started_at s with
  | Some run_, Some started =>
      run_ ← parse_uuid run_;
      ended ← (if negb (String.eqb (run_status s) "running")
               then match run_ended_at s with
                    | Some t => mret (Some t)
                    | None => t ← engine Protocol transcript_timestamp; mret (Some t)
                    end
               else mret None);
      origin ← from_result (bind_uuid (run_command_id s));
      write (upsert_run (id_, run_)
        {| run_owner := unwrap_or (o ← execution_owner s; uuid_parse o) id_;
           run_fence := unwrap_or (execution_fence s) 0;
           run_row_status := if is_empty (run_status s) then "running" else run_status s;
           run_row_started_at := started; run_row_ended_at := ended;
           run_row_reason := run_termination_reason s; run_last_step := step_count s;
           run_cancel_requested := false;
           run_metadata := jsonb (Object [("run_count", num (run_count s)); ("step_count", num (step_count s))]);
           run_command := origin |})
  | _, _ => mret tt
  end.

(** [write_tool_executions]: the actions of the outbox and their attempts *)
Definition frozen_fields : list string :=
  ["execution_id"; "run_id"; "call_id"; "tool"; "arguments"; "policy"; "idempotency_key"; "command_id";
   "namespace"; "target"; "payload_sha256"; "key_algorithm"].
Definition terminal_status (o : option string) : bool := is_some_and o (fun x => str_in x ["succeeded"; "failed"]).
Definition check_action (item old : value) (attempts_ : Z) : result db_error unit :=
  _ ← fail_if ((attempts_ <? unwrap_or (get_i64 "attempts" old) 0)
        || negb (opt_value_eqb (get "recipient" (index old "payload")) (get "recipient" item)))
        (Protocol "frozen recipient metadata or dispatch count changed");
  _ ← for_each (fun key_ => fail_if (negb (value_eqb (index old key_) (index item key_)))
        (Protocol ("frozen action field changed: " +:+ key_))) frozen_fields;
  fail_if (terminal_status (get_str "status" old)
           && (negb (value_eqb (index old "status") (index item "status"))
               || negb (value_eqb (index old "result") (index item "result"))))
    (Protocol "terminal action changed").
Definition upsert_execution (key_ : string * string) (new : ExecutionRow) (d : Db) : Db :=
  d <| tool_executions ::= <[key_ := match tool_executions d !! key_ with
       | None => new
       | Some old =>
           {| ex_run_id := ex_run_id old; ex_call_id := ex_call_id old; ex_tool := ex_tool old;
              ex_arguments := ex_arguments old; ex_policy := ex_policy old;
              ex_idempotency_key := ex_idempotency_key old; ex_attempts := ex_attempts new;
              ex_status := ex_status new; ex_result := ex_result new; ex_owner := ex_owner new;
              ex_fence := ex_fence new; ex_payload := ex_payload new; ex_command_id := ex_command_id old;
              ex_namespace := ex_namespace old; ex_target := ex_target old;
              ex_payload_sha256 := ex_payload_sha256 old;
              ex_started_at := opt_or (ex_started_at old) (ex_started_at new);
              ex_finished_at := opt_or (ex_finished_at old) (ex_finished_at new) |}
       end]> |>.
Definition write_action (id_ : string) (s : Session) (item : value) : T unit :=
  attempts_ ← require_ok "invalid dispatch count" (get_i64 "attempts" item);
  let maximum := unwrap_or (get_i64 "max_attempts" (index item "policy")) 2 in
  _ ← reject_if ((attempts_ <? 0) || (maximum <? attempts_)) "action exceeded its frozen dispatch bound";
  execution_ ← from_result (bind_uuid (get_str "execution_id" item));
  old ← read (fun d => k ← execution_; e ← tool_executions d !! (id_, k); Some (execution_json id_ k e));
  _ ← from_result (match old with Some old => check_action item old attempts_ | None => Ok tt end);
  k ← from_result (bind_key (get_str "execution_id" item));
  run_ ← from_result (bind_uuid (get_str "run_id" item));
  owner_ ← from_result (bind_uuid (execution_owner s));
  command_ ← from_result (bind_uuid (get_str "command_id" item));
  write (upsert_execution (id_, k)
    {| ex_run_id := run_; ex_call_id := get_str "call_id" item; ex_tool := get_str "tool" item;
       ex_arguments := jsonb (index item "arguments"); ex_policy := jsonb (index item "policy");
       ex_idempotency_key := get_str "idempotency_key" item; ex_attempts := wrap32 attempts_;
       ex_status := get_str "status" item; ex_result := get_str "result" item; ex_owner := owner_;
       ex_fence := execution_fence s;
       ex_payload := jsonb (without_keys ["attempt_records"; "payload"] item);
       ex_command_id := command_; ex_namespace := get_str "namespace" item; ex_target := get_str "target" item;
       ex_payload_sha256 := get_str "payload_sha256" item; ex_started_at := get_str "started_at" item;
       ex_finished_at := get_str "finished_at" item |}).

Definition attempt_fields : list string :=
  ["execution_id"; "command_id"; "attempt_number"; "kind"; "payload_sha256"; "owner"; "fence"].
(** [s.replace("+00:00", "Z").replace(".000000Z", "Z")] *)
Definition normalized_time (v : value) : option string :=
  (fun s => replace ".000000Z" "Z" (replace "+00:00" "Z" s)) <$> as_str v.
Definition same_time (key_ : string) (a b : value) : bool :=
  bool_decide (normalized_time (index a key_) = normalized_time (index b key_)).
Definition same_field (key_ : string) (a b : value) : bool := value_eqb (index a key_) (index b key_).
(** [true] when the stored attempt is settled and stays. *)
Definition check_attempt (item old : value) : result db_error bool :=
  _ ← for_each (fun key_ => fail_if (negb (same_field key_ old item)) (Protocol "attempt identity changed"))
        attempt_fields;
  _ ← fail_if (negb (same_time "started_at" old item)) (Protocol "attempt start time changed");
  if is_text (index old "status") "started" then Ok false
  else
    _ ← fail_if (negb (same_field "external_reference" old item) || negb (same_time "finished_at" old item))
          (Protocol "settled attempt evidence metadata changed");
    _ ← fail_if (negb (same_field "status" old item) || negb (same_field "evidence" old item)
                 || negb (same_field "error" old item))
          (Protocol "settled attempt changed");
    Ok true.
Definition upsert_attempt (k : string) (new : AttemptRow) (d : Db) : Db :=
  match action_attempts d !! k with
  | None => d <| action_attempts ::= <[k := new]> |>
  | Some old =>
      if bool_decide (at_status old = Some "started")
      then d <| action_attempts ::= <[k :=
             {| at_session := at_session old; at_execution_id := at_execution_id old;
                at_command_id := at_command_id old; at_number := at_number old; at_kind := at_kind old;
                at_status := at_status new; at_payload_sha256 := at_payload_sha256 old;
                at_owner := at_owner old; at_fence := at_fence old; at_started_at := at_started_at old;
                at_finished_at := at_finished_at new; at_evidence := at_evidence new;
                at_error := at_error new; at_external_reference := at_external_reference new |}]> |>
      else d
  end.
Definition present (o : option value) : option value := opt_filter (fun v => negb (is_null v)) o.
Definition write_attempt (id_ : string) (item : value) : T unit :=
  attempt_ ← from_result (bind_uuid (get_str "attempt_id" item));
  old ← read (fun d => k ← attempt_; a ← action_attempts d !! k; Some (attempt_json k a));
  settled ← from_result (match old with Some old => check_attempt item old | None => Ok false end);
  if (settled : bool) then mret tt
  else
    k ← from_result (bind_key (get_str "attempt_id" item));
    execution_ ← from_result (bind_uuid (get_str "execution_id" item));
    command_ ← from_result (bind_uuid (get_str "command_id" item));
    number_ ← unwrap (get_i64 "attempt_number" item);
    owner_ ← from_result (bind_uuid (get_str "owner" item));
    write (upsert_attempt k
      {| at_session := id_; at_execution_id := execution_; at_command_id := command_;
         at_number := wrap32 number_; at_kind := get_str "kind" item; at_status := get_str "status" item;
         at_payload_sha256 := get_str "payload_sha256" item; at_owner := owner_;
         at_fence := get_i64 "fence" item; at_started_at := get_str "started_at" item;
         at_finished_at := get_str "finished_at" item; at_evidence := jsonb <$> present (get "evidence" item);
         at_error := jsonb <$> present (get "error" item);
         at_external_reference := get_str "external_reference" item |}).
Definition write_tool_executions (id_ : string) : T unit :=
  s ← this (fun s => s);
  _ ← tfor (write_action id_ s) (pending_execution_outbox s);
  tfor (write_attempt id_) (attempts_pending s).

(** The active messages take number and time from the archive. *)
Definition message_uuid (m : Message) : result db_error string :=
  i ← ok_or (Panic "unwrap") (message_id m);
  ok_or (Protocol (uuid_error i)) (uuid_parse i).
Definition refresh_message (id_ : string) (d : Db) (m : Message) : result db_error Message :=
  i ← ok_or (Panic "unwrap") (message_id m);
  u ← ok_or (Protocol (uuid_error i)) (uuid_parse i);
  row ← ok_or (Protocol "active message missing from transcript")
    (opt_filter (fun r => String.eqb (tr_kind r) "message" && String.eqb u i) (transcript d !! (id_, u)));
  _ ← fail_if (negb (value_eqb (wire_message m) (tr_payload row)))
        (Protocol "active message payload differs from archive");
  Ok (m <| sequence := Some (tr_sequence row) |> <| created_at := Some (timestamp_text (tr_created_at row)) |>).
(** The messages are changed in place, those before a failure too. *)
Definition refresh_at (id_ : string) (d : Db) (k : nat) : T unit :=
  found ← this (fun s => memory s !! k);
  match found with
  | Some m =>
      m ← from_result (refresh_message id_ d m);
      update (fun s => s <| memory ::= <[k := m]> |>)
  | None => mret tt
  end.
Definition refresh_memory (id_ : string) : T unit :=
  ms ← this memory;
  d ← read (fun d => d);
  _ ← from_result (collect message_uuid ms);
  tfor (refresh_at id_ d) (seq 0 (length ms)).

(** [write_context] *)
Definition raw_message_ids (s : Session) : value := Array (map (fun m => of_opt_str (message_id m)) (drop 1 (memory s))).
Definition write_context (id_ : string) : T unit :=
  s ← this (fun s => s);
  goal_ ← require_ok "active context has no goal message" (head (memory s));
  _ ← reject_if (negb (goal_anchored (goal s) goal_)) "active context lost immutable goal";
  goal_id ← require_ok "goal message has no identity" (message_id goal_);
  goal_id ← parse_uuid goal_id;
  ledger_id ← (match active_ledger_id s with Some l => u ← parse_uuid l; mret (Some u) | None => mret None end);
  write (fun d => d <| session_context ::= <[id_ :=
    {| cx_revision := revision s; cx_goal_message_id := goal_id; cx_ledger_record_id := ledger_id;
       cx_raw_message_ids := jsonb (raw_message_ids s);
       cx_ledger_state := jsonb (of_opt ledger_value (compaction_ledger s)) |}]> |>).
End parts.

(** ** The transaction *)
(** How the body ends: the receipt of an earlier attempt is replayed, or the
    snapshot already carries this commit, or everything was written. *)
Inductive commit_exit : Type :=
| Replayed (committed latest : Z)
| Recommitted (committed : Z)
| Committed.

Section commit.
Context `{P : Platform} `{B : Backend} `{F : Files} `{Sr : Serde}.

Definition revision_of (id_ : string) : T Z :=
  row ← read (fun d => sessions d !! id_);
  from_result (ok_or RowNotFound (row_revision <$> row)).
(** The checks on an existing session. *)
Definition anchors_kept (s : Session) (row : SessionRow) (config : value) : bool :=
  bool_decide (get_str "id" (row_state row) = Some (id s))
  && bool_decide (get_str "goal" (row_state row) = Some (goal s))
  && bool_decide (get_str "config_ref" (row_state row) = config_ref s)
  && bool_decide (get_str "config_sha256" (row_state row) = config_sha256 s)
  && bool_decide (get_str "resolved_config_sha256" (row_state row) = resolved_config_sha256 s)
  && bool_decide (row_config_ref row = config_ref s)
  && bool_decide (row_config_sha256 row = config_sha256 s)
  && bool_decide (row_resolved_config_sha256 row = resolved_config_sha256 s)
  && value_eqb (row_config row) config.
Definition expected_owner (s : Session) : option string := o ← execution_owner s; uuid_parse o.
Definition fenced (s : Session) (row : SessionRow) (now : Z) : bool :=
  bool_decide (lease_owner row = expected_owner s)
  && (is_none (lease_owner row)
      || bool_decide (execution_fence s = Some (lease_fence row))
         && is_none_or (lease_expires_at row) (fun t => now <? t)).
Definition check_previous (id_ : string) (row : SessionRow) (config : value) : T unit :=
  s ← this (fun s => s);
  _ ← reject_if (negb (row_revision row =? revision s))
        ("revision conflict: expected " +:+ show_Z (revision s) +:+ ", stored " +:+ show_Z (row_revision row));
  _ ← reject_if (negb (anchors_kept s row config)) "immutable session goal/config anchor changed";
  _ ← reject_if (negb (storage_version row =? 6))
        "unsupported stored session format; automatic migration is disabled";
  now ← clock_timestamp;
  found ← read (fun d => sessions d !! id_);
  row ← from_result (ok_or RowNotFound found);
  reject_if (negb (fenced s row now)) "session is owned by a fenced worker".

(** [INSERT INTO agent_sessions ... ON CONFLICT(session_id) DO NOTHING] *)
Definition seed_session (id_ : string) (s : Session) (config : value) (stored_revision : Z) (d : Db) : Db :=
  match sessions d !! id_ with
  | Some _ => d
  | None => put_session id_
      {| row_state := jsonb (snapshot s); row_config := jsonb config; row_config_ref := config_ref s;
         row_config_sha256 := config_sha256 s; row_resolved_config_sha256 := resolved_config_sha256 s;
         row_revision := stored_revision; last_commit_id := None; last_commit_sha256 := None;
         storage_version := 6; lease_owner := None; lease_fence := 0; lease_expires_at := None |} d
  end.
(** The final upsert, and the number of rows it affected. *)
Definition store_session (id_ commit_id fingerprint : string) (s : Session) (config : value)
    (stored_revision : Z) (d : Db) : Z * Db :=
  match sessions d !! id_ with
  | None => (1, put_session id_
      {| row_state := jsonb (snapshot s); row_config := jsonb config; row_config_ref := config_ref s;
         row_config_sha256 := config_sha256 s; row_resolved_config_sha256 := resolved_config_sha256 s;
         row_revision := revision s; last_commit_id := Some commit_id;
         last_commit_sha256 := Some fingerprint; storage_version := 6; lease_owner := None;
         lease_fence := 0; lease_expires_at := None |} d)
  | Some row =>
      if row_revision row =? stored_revision
      then (1, put_session id_ (row <| row_state := jsonb (snapshot s) |> <| row_revision := revision s |>
                 <| last_commit_id := Some commit_id |> <| last_commit_sha256 := Some fingerprint |>
                 <| storage_version := 6 |>) d)
      else (0, d)
  end.
Definition attach_command (command_id id_ : string) (d : Db) : Db :=
  alter_command command_id (fun r => r <| command_session := Some id_ |>) (fun _ => true) d.
Definition is_interruption (event : value) : bool :=
  is_some_and (event_type event) (fun t => str_in t ["run_interrupted"; "run_reconciled"]).
(** The command that started the run is left uncertain, unless it is this one. *)
Definition disown_origin (command_ event : value) : T unit :=
  origin ← this run_command_id;
  match origin with
  | Some o =>
      if is_interruption event && negb (String.eqb o (unwrap_or (command_id_of command_) ""))
      then
        k ← from_result (bind_key (Some o));
        now ← clock_timestamp;
        write (alter_command k mark_uncertain
          (fun r => str_in (command_status r) ["pending"; "started"]
                    && (is_none (command_expires_at r) || expired (command_expires_at r) now)))
      else mret tt
  | None => mret tt
  end.
Definition append_event (id_ commit_id command_id : string) (event : value) : T unit :=
  now ← clock_timestamp;
  rev_ ← this revision;
  write (fun d => d <| event_serial ::= Z.succ |> <| session_events ::= fun l =>
    (l ++ [{| event_id := Z.succ (event_serial d); event_created_at := now; event_session := id_;
              event_value := jsonb event; event_revision := rev_; event_commit := commit_id;
              event_command := command_id |}])%list |>).
(** The lease is checked once more after everything was written. *)
Definition final_fence (id_ : string) : T unit :=
  s ← this (fun s => s);
  match execution_owner s with
  | None => mret tt
  | Some owner_ =>
      owner_ ← parse_uuid owner_;
      now ← clock_timestamp;
      found ← read (fun d => sessions d !! id_);
      row ← from_result (ok_or RowNotFound found);
      reject_if (negb (bool_decide (lease_owner row = Some owner_)
            && bool_decide (execution_fence s = Some (lease_fence row))
            && unexpired (lease_expires_at row) now))
        "lease lost: final fence check rejected commit"
  end.
Definition first_bytes (n : nat) (o : option string) : option string :=
  s ← o; if (n <=? String.length s)%nat then Some (take_bytes n s) else None.
Definition responding : list string :=
  ["session_created"; "user_message_appended"; "run_finished"; "telemetry_archived"; "run_reconciled"].
Definition response_message (kind : string) (s : Session) : option string :=
  if String.eqb kind "session_created" then
    ref ← config_ref s;
    h ← first_bytes 12 (config_sha256 s);
    Some ("Session created with immutable config " +:+ ref +:+ "@" +:+ h +:+ ".")
  else if String.eqb kind "user_message_appended" then Some "User input appended to session memory."
  else Some (unwrap_or (final_answer s) "Run stopped.").
Definition block_command (r : CommandRow) : CommandRow := disown r <| command_status := "blocked" |>.
Definition answer_command (command_ : value) (command_id : string) (event : value) : T unit :=
  s ← this (fun s => s);
  let kind := unwrap_or (event_type event) "" in
  if String.eqb kind "run_finished" && String.eqb (run_status s) "blocked"
  then write (alter_command command_id block_command (fun _ => true))
  else if str_in kind responding
  then
    m ← unwrap (response_message kind s);
    finish command_ (if String.eqb kind "session_created" then 201 else 200)
      (Object [("session", session_json (s <| pending_transcript := [] |>)); ("message", Str m)])
  else mret tt.

(** The transcript of the proposal; what was staged is returned. *)
Definition commit_transcript (id_ : string) (config : value) (previous : option SessionRow)
    (stored_revision : Z) : T (list TranscriptEntry) :=
  count ← read (transcript_count id_);
  maximum ← read (transcript_max id_);
  _ ← reject_if (negb (count =? maximum)) "transcript sequence gap detected";
  s ← this (fun s => s);
  _ ← write (seed_session id_ s config stored_revision);
  _ ← (match previous with
       | Some row => validate_previous_transcript id_ (row_state row) maximum
       | None => mret tt
       end);
  staged ← this pending_transcript;
  next ← write_entries id_ (add64 maximum 1) staged;
  provenance ← this compaction_provenance;
  next ← write_summaries id_ next provenance;
  _ ← update (fun s => s <| next_transcript_sequence := next |>);
  mret staged.
(** The records of the session in the other tables. *)
Definition commit_records (id_ command_id : string) (command_ event : value) (staged : list TranscriptEntry)
  : T unit :=
  _ ← write_call_map id_ staged;
  _ ← write_diagnostics id_;
  _ ← write (attach_command command_id id_);
  _ ← disown_origin command_ event;
  _ ← write_run_state id_;
  _ ← write_tool_executions id_;
  _ ← refresh_memory id_;
  _ ← write_context id_;
  _ ← write_retention;
  write (attach_command command_id id_).
(** Receipt, event, snapshot and response.  The receipts have
    [CHECK(expected_revision>=0)] and [CHECK(committed_revision=expected_revision+1)],
    so that a revision never wraps around. *)
Definition commit_seal (id_ commit_id command_id fingerprint : string) (command_ config event : value)
    (stored_revision : Z) : T unit :=
  rev_ ← this revision;
  _ ← from_result (fail_if (negb ((0 <=? stored_revision) && (rev_ =? stored_revision + 1)))
        (Database "new row for relation violates check constraint"));
  _ ← write (fun d => d <| commit_receipts ::= <[(id_, commit_id) :=
        {| rc_command := command_id; rc_fingerprint := fingerprint;
           rc_expected_revision := stored_revision; rc_committed_revision := rev_ |}]> |>);
  run_ ← this run_id;
  _ ← append_event id_ commit_id command_id
        (set "run_id" (of_opt_str run_) (set "command_id" (index command_ "id") event));
  _ ← final_fence id_;
  s ← this (fun s => s);
  rows ← (fun sd => let '(n, d) := store_session id_ commit_id fingerprint
                                     (s <| pending_transcript := [] |> <| pending_commit_id := None |>)
                                     config stored_revision (snd sd) in
                    (Ok n, (fst sd, d)));
  _ ← reject_if (negb (rows =? 1)) "revision conflict during commit";
  _ ← guard command_;
  answer_command command_ command_id event.
(** Everything a new commit writes, over the revision it found. *)
Definition commit_new (id_ commit_id command_id fingerprint : string) (command_ config event : value)
    (previous : option SessionRow) : T unit :=
  let stored_revision := from_option row_revision 0 previous in
  _ ← update (fun s => s <| revision := add64 stored_revision 1 |>);
  staged ← commit_transcript id_ config previous stored_revision;
  _ ← commit_records id_ command_id command_ event staged;
  commit_seal id_ commit_id command_id fingerprint command_ config event stored_revision.

Definition commit_body (id_ commit_id fingerprint : string) (config event : value) : T commit_exit :=
  c ← this command;
  command_ ← require_ok "durable command required" c;
  command_id ← unwrap (i ← command_id_of command_; uuid_parse i);
  locked ← read (fun d => commands d !! command_id);
  _ ← from_result (ok_or RowNotFound locked);
  receipt ← read (fun d => commit_receipts d !! (id_, commit_id));
  match receipt with
  | Some r =>
      _ ← reject_if (negb (String.eqb (rc_fingerprint r) fingerprint))
            "commit identity reused with changed payload";
      latest ← revision_of id_;
      mret (Replayed (rc_committed_revision r) latest)
  | None =>
      _ ← guard command_;
      previous ← read (fun d => sessions d !! id_);
      rev_ ← this revision;
      match previous with
      | Some row =>
          if bool_decide (last_commit_id row = Some commit_id) then
            _ ← reject_if (negb (bool_decide (last_commit_sha256 row = Some fingerprint)))
                  "commit identity reused with changed content";
            mret (Recommitted (row_revision row))
          else
            _ ← check_previous id_ row config;
            _ ← commit_new id_ commit_id command_id fingerprint command_ config event previous;
            mret Committed
      | None =>
          _ ← reject_if (negb (rev_ =? 0))
                ("revision conflict: expected " +:+ show_Z rev_ +:+ ", stored 0");
          _ ← commit_new id_ commit_id command_id fingerprint command_ config event previous;
          mret Committed
      end
  end.

(** What the session forgets once its commit is known. *)
Definition settle_commit (x : commit_exit) (s : Session) : Session :=
  match x with
  | Replayed committed latest =>
      s <| needs_reload := negb (latest =? committed) |> <| revision := committed |>
        <| pending_commit_id := None |> <| pending_commit_fingerprint := None |>
        <| pending_transcript := [] |> <| pending_execution_outbox := [] |>
        <| diagnostics_pending := [] |> <| attempts_pending := [] |>
  | Recommitted committed =>
      s <| revision := committed |> <| pending_transcript := [] |> <| pending_execution_outbox := [] |>
        <| diagnostics_pending := [] |> <| pending_commit_id := None |>
  | Committed =>
      s <| pending_transcript := [] |> <| pending_execution_outbox := [] |> <| diagnostics_pending := [] |>
        <| pending_commit_id := None |> <| pending_commit_fingerprint := None |> <| attempts_pending := [] |>
        <| retention_pending := None |>
  end.
Definition save_inner (config event : value) : T unit :=
  _ ← engine Protocol stage_transcript;
  s ← this (fun s => s);
  id_ ← unwrap (uuid_parse (id s));
  pending ← unwrap (pending_commit_id s);
  commit_id ← parse_uuid pending;
  fingerprint ← from_result (commit_fingerprint s config event);
  _ ← reject_if (is_some_and (pending_commit_fingerprint s) (fun old => negb (String.eqb old fingerprint)))
        "retained commit proposal changed";
  _ ← update (fun s => s <| pending_commit_fingerprint := Some fingerprint |>);
  x ← transaction (commit_body id_ commit_id fingerprint config event);
  update (settle_commit x).

(** ** [save] *)
Definition provenance_id (provenance : value) : option string := get_str "transcript_record_id" provenance.
(** A summary that is not committed and not staged yet. *)
Definition stage_summary (provenance : value) : M Db unit :=
  s ← get_session;
  match opt_filter (fun i => negb (bool_decide (i ∈ committed_summaries s))) (provenance_id provenance) with
  | Some record_id =>
      if existsb (fun e => String.eqb (te_message_id e) record_id) (pending_transcript s) then mret tt
      else
        now ← transcript_timestamp;
        modify (fun s => s
          <| pending_transcript := (pending_transcript s ++
               [{| te_sequence := next_transcript_sequence s; te_message_id := record_id;
                   te_kind := "compaction_summary"; te_payload := index provenance "transcript_payload";
                   te_run_id := run_id s; te_decision_step := step_count s; te_created_at := now |}])%list |>
          <| next_transcript_sequence := add64 (next_transcript_sequence s) 1 |>)
  | None => mret tt
  end.
(** A new proposal gets its identity. *)
Definition propose (event : value) : M Db unit :=
  provenances ← gets compaction_provenance;
  _ ← mfor stage_summary provenances;
  record ← gets (transcript_event_record event);
  _ ← (match record with Some (kind, payload) => archive_record kind payload | None => mret tt end);
  i ← uuid;
  modify (fun s => s <| pending_commit_id := Some i |>).
(** [loop { ... }]: every attempt starts from the staged session. *)
Fixpoint attempt_save (retries : nat) (staged : Session) (config event : value) : T unit := fun sd =>
  match save_inner config event (staged, snd sd) with
  | (Err e, (s, d)) =>
      match retries with
      | S n => if is_transient e then attempt_save n staged config event (s, d) else (Err e, (s, d))
      | O => (Err e, (s, d))
      end
  | r => r
  end.
Definition unresolved_error (text : db_error -> string) (e : db_error) : db_error :=
  if is_transient e then Protocol ("commit_outcome_unresolved: " +:+ text e) else e.
Definition restore_staged (staged s : Session) : Session :=
  s <| revision := revision staged |> <| next_transcript_sequence := next_transcript_sequence staged |>
    <| memory := memory staged |> <| pending_transcript := pending_transcript staged |>
    <| pending_execution_outbox := pending_execution_outbox staged |>.
Definition remember_summaries (s : Session) : Session :=
  s <| committed_summaries ::= fun known => known ∪ list_to_set (filter_map provenance_id (compaction_provenance s)) |>.
Definition ack_of (s : Session) : CheckpointAck :=
  {| ack_needs_reload := needs_reload s; ack_revision := revision s;
     ack_next_sequence := next_transcript_sequence s; ack_memory := memory s;
     ack_summaries := committed_summaries s |}.
(** The session and the acknowledgement cell after the attempts. *)
Definition conclude_save (text : db_error -> string) (staged : Session) (m : T unit) : T (option CheckpointAck) :=
  fun sd =>
    match m sd with
    | (Ok _, (s, d)) =>
        let s := remember_summaries s in
        (Ok (if checkpoint_ack s then Some (ack_of s) else None), (s, d))
    | (Err e, (s, d)) => (Err (unresolved_error text e), (restore_staged staged s, d))
    end.
(** [save] returns what it leaves in the acknowledgement cell, if there is one. *)
Definition save (text : db_error -> string) (config event : value) : T (option CheckpointAck) :=
  _ ← engine Protocol stage;
  _ ← engine Protocol stage_transcript;
  pending ← this pending_commit_id;
  _ ← when_t (is_none pending) (engine Protocol (propose event));
  staged ← this (fun s => s);
  _ ← reject_if (needs_reload staged) "Historical receipt requires reload";
  conclude_save text staged (attempt_save 2 staged config event).
End commit.
