(* ===== verification/Load.v ===== *)
(** * Reading a session back ([main.rs: load])

    State, active context, diagnostic tails and counters are read in one
    read-only transaction and checked against each other: the snapshot's own
    digest, the digest of the projected context, the revision, the journal of
    diagnostics, and the identities of the active messages and ledger. *)
From S2P Require Import Prelude Text Json Encoding Session Logic Context Diagnostics Compaction Store Rows Snapshot Http Config Commit.
Local Open Scope string_scope.
Local Open Scope Z_scope.

Section load.
Context `{P : Platform} `{B : Backend} `{Sr : Serde}.

(** [COALESCE(s.state->'diagnostic_counts','{}')='{}'] *)
Definition legacy_counts (state : value) : bool :=
  match get "diagnostic_counts" state with Some (Object []) | None => true | Some _ => false end.
(** [ORDER BY ordinal DESC LIMIT 32], in ascending order *)
Definition diagnostic_tail (session family_ : string) (state : value) (d : Db) : list DiagnosticRecord :=
  let rows := map (fun e => {| family := family_; ordinal := fst e; diag_payload := snd e |})
                  (diagnostic_rows session family_ d) in
  if legacy_counts state then rows else drop (length rows - RECENT) rows.
(** The families in the order of [ORDER BY f.family]. *)
Definition family_order : list string := ["compaction_attempts"; "compaction_decisions"; "compaction_events"].
Definition diagnostic_tails (session : string) (state : value) (d : Db) : list DiagnosticRecord :=
  flat_map (fun f => diagnostic_tail session f state d) family_order.
Definition diagnostic_counters (session : string) (d : Db) : gmap string Z :=
  list_to_map (map (fun f => (f, diagnostic_max session f d)) family_order).
(** The context row names the active messages and ledger of the session. *)
Definition context_agrees (c : ContextRow) (s : Session) : bool :=
  (cx_revision c =? revision s)
  && bool_decide ((m ← head (memory s); message_id m) = Some (cx_goal_message_id c))
  && bool_decide (cx_ledger_record_id c = active_ledger_id s)
  && value_eqb (cx_raw_message_ids c) (raw_message_ids s)
  && value_eqb (cx_ledger_state c) (of_opt ledger_value (compaction_ledger s)).
(** The rows of the first query. *)
Definition session_row (id_ : string) (d : Db) : option (SessionRow * ContextRow) :=
  r ← sessions d !! id_;
  c ← session_context d !! id_;
  if storage_version r =? 6 then Some (r, c) else None.
Definition load_body (id_ : string) : T (Session * value) :=
  found ← read (session_row id_);
  rows ← require_ok "no such session" found;
  let '(r, c) := (rows : SessionRow * ContextRow) in
  let state := row_state r in
  tails ← read (diagnostic_tails id_ state);
  counters ← read (diagnostic_counters id_);
  _ ← from_result (map_err Protocol (validate_snapshot state));
  projection_ ← (fun sd => (projection id_ (snd sd), sd));
  _ ← require_ok "projection is no object" (as_object projection_);
  restored ← from_result (map_err Protocol (session_of (with_projection state projection_)));
  _ ← from_result (map_err Protocol (validate_context state restored));
  _ ← reject_if (negb (revision restored =? row_revision r)) "snapshot revision differs";
  _ ← update (fun _ => restored);
  _ ← engine Protocol (hydrate tails counters);
  s ← this (fun s => s);
  _ ← reject_if (negb (context_agrees c s)) "context differs";
  mret (s, row_config r).
(** Every failure is the absence of the session. *)
Definition load {X} (raw : string) : H X (option (Session * value)) :=
  match uuid_parse raw with
  | None => mret None
  | Some id_ => r ← on_tables (transaction (load_body id_)); mret (result_ok r)
  end.
End load.
