(* ===== verification/Handlers.v ===== *)
(** * The handlers that do not run the agent ([main.rs])

    Creating a session, appending a message, requesting a cancellation, reading
    a session and planning its retention.  Each handler is the whole function:
    its checks in the order of the code, the statements it runs, and the
    response of every branch. *)
From S2P Require Import Prelude Text Json Encoding Session Logic Workflow Tools Store Rows Snapshot Http Config Requests Retention Commit Load.
Local Open Scope string_scope.
Local Open Scope Z_scope.

Definition ownership_conflict : Response := json_response 409 (detail "session ownership conflict").
(** [path.strip_prefix(root)] *)
Definition strip_path (path root_ : string) : option string :=
  if starts_with_path path root_
  then Some (join "/" (drop (length (components root_)) (components path))) else None.

Section handlers.
Context `{P : Platform} `{B : Backend} `{F : Files} `{Sr : Serde} {X : Type}.
Variable text : db_error -> string.
Variable env : string -> option string.
Variable root : string.

Definition answer_errors (errors : list value) : H X unit :=
  match errors with [] => mret tt | _ => answer (validation_error errors) end.
Definition answer_error (error : option value) : H X unit :=
  match error with None => mret tt | Some e => answer (validation_error [e]) end.

(** ** [POST /sessions] *)
Definition create_errors (q : value) : list value :=
  (match get "user_prompt" q with
   | None => [missing_field "user_prompt"]
   | Some v => from_option (fun e => [e]) [] (string_error "user_prompt" v)
   end
   ++ match get "config_ref" q with
      | None => []
      | Some v => from_option (fun e => [e]) [] (string_error "config_ref" v)
      end)%list.
(** The configuration frozen by the admission, or the one the file holds now. *)
Definition resolve_config (requested_ref : string) (frozen : value) : H X (result string (Config * value * string)) :=
  let config_ := index frozen "config" in
  if is_object config_ then
    match config_of config_ with
    | Ok c => source ← unwrap_h (as_str (index frozen "source_sha256")); mret (Ok (c, config_, source))
    | Err e => mret (Err e)
    end
  else mret (cfg env root requested_ref).
Definition relative_ref (requested_ref : string) : string :=
  unwrap_or (path ← result_ok (canonicalize (join_path root requested_ref));
             p ← strip_path path root;
             Some (replace backslash "/" p)) requested_ref.
Definition new_session (id_ goal_ ref source resolved_hash : string) (workflow_ : option Workflow)
    (command_ : option value) : Session :=
  (default_session id_ goal_ "active")
    <| command := command_ |> <| config_ref := Some ref |> <| config_sha256 := Some source |>
    <| resolved_config_sha256 := Some resolved_hash |> <| memory := [msg "user" (Some goal_)] |>
    <| workflow := workflow_ |> <| run_status := "idle" |>.
Definition entry_workflow (w : WorkflowConfig) : Workflow :=
  {| active_phase := Some (entry_phase w); completed_phases := []; observed_evidence := []; transitions := [] |}.
Definition creation_event (ref source resolved_hash : string) : value :=
  Object [("type", Str "session_created"); ("config_ref", Str ref); ("config_sha256", Str source);
          ("resolved_config_sha256", Str resolved_hash)].
Definition create (q : value) : H X Response :=
  _ ← answer_error (validate_body q);
  _ ← answer_errors (create_errors q);
  goal_ ← unwrap_h (as_str (index q "user_prompt"));
  let requested_ref := unwrap_or (as_str (index q "config_ref")) "log-analysis.yaml" in
  let frozen := index (index q "_command") "admission" in
  resolved ← resolve_config requested_ref frozen;
  found ← answer_err (fun e => json_response 422 (detail ("Invalid config_ref: " +:+ e))) resolved;
  let '(c, raw, source) := (found : Config * value * string) in
  hashed ← answer_err (fun e => json_response 500 (detail e)) (resolved_config_hash c);
  _ ← (match find_first (fun t => negb (is_supported (tool_name t))) (tools c) with
       | Some t => answer (json_response 422 (detail
           ("Invalid config_ref: config references unavailable compiled-in tools: " +:+ tool_name t)))
       | None => mret tt
       end);
  let ref := relative_ref requested_ref in
  generated ← (match as_str (index frozen "session_id") with
               | Some i => mret (Ok i)
               | None => on_tables (engine Protocol uuid)
               end);
  id_ ← answer_err (internal text) generated;
  let s := new_session id_ goal_ ref source (snd (hashed : string * string))
             (entry_workflow <$> config_workflow c) (get "_command" q) in
  saved ← in_session (save text raw (creation_event ref source (snd hashed))) s;
  let '(outcome, s) := (saved : result db_error (option CheckpointAck) * Session) in
  _ ← answer_err (internal text) outcome;
  h ← unwrap_h (first_bytes 12 (Some source));
  mret (json_response 201 (Object [("session", session_json s);
          ("message", Str ("Session created with immutable config " +:+ ref +:+ "@" +:+ h +:+ "."))])).

(** ** [POST /sessions/{id}/messages] *)
Definition message_check (q : value) : H X unit :=
  match get "content" q with
  | None => answer (validation_error [missing_field "content"])
  | Some v => answer_error (string_error "content" v)
  end.
Definition user_message (x : string) : Message := msg "user" (Some x).
Definition message (raw : string) (q : value) : H X Response :=
  _ ← answer_error (validate_body q);
  with_lock raw ownership_conflict (
    _ ← message_check q;
    loaded ← load raw;
    found ← answer_none not_found loaded;
    let '(s, c) := (found : Session * value) in
    let s := attach s q in
    _ ← answer_if (negb (String.eqb (status s) "active"))
          (json_response 409 (detail "Cannot append to a terminal session; use /resume with content instead"));
    x ← unwrap_h (as_str (index q "content"));
    saved ← in_session (_ ← engine Protocol (append_message (user_message x));
                        save text c (Object [("type", Str "user_message_appended")])) s;
    let '(outcome, s) := (saved : result db_error (option CheckpointAck) * Session) in
    _ ← answer_err (internal text) outcome;
    mret (json_response 200 (Object [("session", session_json s);
                                     ("message", Str "User input appended to session memory.")]))).

(** ** [POST /sessions/{id}/cancel] *)
(** [UPDATE agent_runs SET cancel_requested=TRUE ... WHERE ... AND status='running'
    RETURNING run_id] *)
Definition request_cancel (p : string * string -> RunRow -> bool) (d : Db) : list string * Db :=
  let chosen := fun e => p (fst e) (snd e) && String.eqb (run_row_status (snd e)) "running" in
  (map (fun e => snd (fst e)) (List.filter chosen (map_to_list (runs d))),
   d <| runs ::= map_imap (fun k r => Some (if chosen (k, r) then r <| run_cancel_requested := true |> else r)) |>).
Definition is_run (session : string) (run : option string) (k : string * string) (r : RunRow) : bool :=
  bool_decide (Some k = (i ← run; Some (session, i))).
Definition cancel_response (raw : string) (cancelled : list string) : value :=
  Object [("session_id", Str raw); ("cancel_requested_for", Array (map Str cancelled));
          ("message", Str "Cancellation is cooperative; in-flight effects are not undone.")].
(** The transaction; nothing is returned when there is no such session. *)
Definition cancel_body (raw session : string) (q : value) : T (option (list string)) :=
  known ← read (fun d => is_some (sessions d !! session));
  if negb (known : bool) then mret None
  else
    let command_ := index q "_command" in
    _ ← guard command_;
    run ← from_result (bind_uuid (as_str (index q "run_id")));
    cancelled ← apply_db (request_cancel (is_run session run));
    _ ← finish command_ 200 (cancel_response raw cancelled);
    mret (Some cancelled).
Definition cancel_session (raw : string) (q : value) : H X Response :=
  loaded ← load raw;
  _ ← answer_none not_found loaded;
  session ← answer_none not_found (uuid_parse raw);
  outcome ← on_tables (transaction (cancel_body raw session q));
  found ← answer_err (internal text) outcome;
  cancelled ← answer_none not_found found;
  mret (json_response 200 (cancel_response raw cancelled)).

(** ** [GET /sessions/{id}] and [GET /sessions/{id}/retention] *)
Definition session (raw : string) : H X Response :=
  loaded ← load raw;
  found ← answer_none not_found loaded;
  mret (json_response 200 (session_json (fst (found : Session * value)))).
Definition eligible (s : Session) (unresolved_ running : Z) : bool :=
  negb (String.eqb (status s) "active") && negb (String.eqb (run_status s) "running")
  && (length (pending_tool_calls s) =? 0)%nat && (unresolved_ =? 0) && (running =? 0).
Definition session_retention_plan (raw : string) : H X Response :=
  loaded ← load raw;
  found ← answer_none not_found loaded;
  let s := fst (found : Session * value) in
  id_ ← answer_none not_found (uuid_parse raw);
  counted ← on_tables (statement (fun _ d => (unresolved_executions id_ d, d)));
  unresolved_ ← answer_err (internal text) counted;
  counted ← on_tables (statement (fun _ d => (running_lifecycles id_ d, d)));
  running ← answer_err (internal text) counted;
  mret (json_response 200 (Object [
    ("session_id", Str raw); ("revision", num (revision s)); ("default_policy", Str "keep_all");
    ("eligible", Bool (eligible s unresolved_ running)); ("unresolved_executions", num unresolved_);
    ("running_lifecycles", num running); ("keep_diagnostics", num 32); ("keep_events", num 100);
    ("protected_tables", Array (map Str ["agent_commands"; "agent_commit_receipts"; "agent_action_attempts";
       "agent_sessions"; "agent_session_context"; "agent_session_transcript"; "agent_session_calls"; "agent_runs";
       "agent_tool_executions"; "agent_archive_receipts"]));
    ("prunable_tables", Array (map Str ["agent_session_events"; "agent_session_diagnostics"]));
    ("requires", Str "Verified fresh export, terminal session, ownership/fencing, matching revision and database digests")])).
End handlers.
