(* ===== verification/Pages.v ===== *)
(** * Reading the records of a session page by page ([main.rs])

    The transcript, the events and the diagnostics of a session are read in
    pages: a cursor, a watermark the page does not go beyond, and a limit.  The
    response names the watermark and the next cursor, so that a reader can walk
    the records while others append to them. *)
From S2P Require Import Prelude Text Json Session Logic Diagnostics Store Rows Http Commit Load Handlers.
From Stdlib Require Import Ascii.
Local Open Scope string_scope.
Local Open Scope Z_scope.

(** [parse::<usize>()] *)
Definition usize_max : Z := 2 ^ 64 - 1.
Definition parse_usize (s : string) : option Z :=
  match s with
  | String "-"%char _ => None
  | _ => parse_signed 0 usize_max s
  end.

(** ** Pages *)
(** [WHERE n>after AND n<=through ORDER BY n LIMIT limit], over rows in order *)
Definition page {A} (number_of : A -> Z) (rows : list A) (after through limit : Z) : list A :=
  take (Z.to_nat limit) (List.filter (fun r => (after <? number_of r) && (number_of r <=? through)) rows).
Definition next_cursor {A} (number_of : A -> Z) (rows : list A) (after : Z) : Z :=
  from_option number_of after (last rows).
(** What a reader collects who follows the cursors up to [through]. *)
Fixpoint walk {A} (fuel : nat) (number_of : A -> Z) (rows : list A) (after through limit : Z) : list A :=
  match fuel with
  | O => []
  | S n =>
      match page number_of rows after through limit with
      | [] => []
      | p => (p ++ walk n number_of rows (next_cursor number_of p after) through limit)%list
      end
  end.

Section pages.
Context `{P : Platform} `{B : Backend} `{Sr : Serde} {X : Type}.
Variable text : db_error -> string.
(** [created_at::text] of a timestamp given as text, and of a reading of the clock *)
Variable timestamp_cast : string -> string.
Variable clock_cast : Z -> string.

Definition unprocessable (m : string) : Response := json_response 422 (detail m).
Definition limit_error : Response := unprocessable "limit must be between 1 and 1000".
(** A query parameter within bounds. *)
Definition parameter (parse : string -> option Z) (q : gmap string string) (key : string) (default_ lo hi : Z)
  : option Z :=
  n ← (match q !! key with None => Some default_ | Some raw => parse raw end);
  if (lo <=? n) && (n <=? hi) then Some n else None.
Definition existing (raw : string) : H X (Session * string) :=
  loaded ← load raw;
  found ← answer_none not_found loaded;
  session ← answer_none not_found (uuid_parse raw);
  mret (fst (found : Session * value), session).
Definition rows_or_error {A} (m : T A) : H X A := r ← on_tables m; answer_err (internal text) r.

(** ** [GET /sessions/{id}/transcript] *)
Definition ordered_transcript (session : string) (d : Db) : list (string * TranscriptRow) :=
  sort_by (fun a b => tr_sequence (snd a) <=? tr_sequence (snd b)) (transcript_rows session d).
Definition entry_number (e : string * TranscriptRow) : Z := tr_sequence (snd e).
Definition entry_json (e : string * TranscriptRow) : value :=
  let '(i, r) := e in
  Object [("sequence", num (tr_sequence r)); ("message_id", Str i); ("kind", Str (tr_kind r));
          ("payload", tr_payload r); ("run_id", of_opt_str (tr_run_id r));
          ("decision_step", num (tr_decision_step r)); ("created_at", Str (timestamp_cast (tr_created_at r)))].
Definition transcript_page (s : Session) (rows : list (string * TranscriptRow)) (after through : Z) : value :=
  Object [("history_complete", Bool (history_complete s)); ("revision", num (revision s));
          ("through_sequence", num through);
          ("next_after_sequence", num (next_cursor entry_number rows after));
          ("entries", Array (map entry_json rows))].
Definition saturating_sub64 (a b : Z) : Z := Z.max i64_min (Z.min i64_max (a - b)).
Definition transcript_handler (raw : string) (q : gmap string string) : H X Response :=
  after ← answer_none (unprocessable "after_sequence must be non-negative")
            (parameter parse_i64 q "after_sequence" 0 0 i64_max);
  limit ← answer_none limit_error (parameter parse_i64 q "limit" 100 1 1000);
  requested ← answer_none (unprocessable "through_sequence must be non-negative")
                (parameter parse_i64 q "through_sequence" i64_max 0 i64_max);
  found ← existing raw;
  let '(s, session) := (found : Session * string) in
  let through := Z.min requested (saturating_sub64 (next_transcript_sequence s) 1) in
  rows ← rows_or_error (statement (fun _ d =>
           (page entry_number (ordered_transcript session d) after through limit, d)));
  mret (json_response 200 (transcript_page s rows after through)).

(** ** [GET /sessions/{id}/events] *)
Definition cursor (q : gmap string string) (name_ : string) (default_ : Z) : result string Z :=
  n ← (match q !! name_ with
       | None => Ok default_
       | Some raw => ok_or (name_ +:+ " must be an integer") (parse_i64 raw)
       end);
  _ ← fail_if (n <? 0) (name_ +:+ " must be non-negative");
  mret n.
Definition ordered_events (session : string) (d : Db) : list EventRow :=
  sort_by (fun a b => event_id a <=? event_id b)
    (List.filter (fun e => String.eqb (event_session e) session) (session_events d)).
Definition watermark (session : string) (d : Db) : Z :=
  foldr (fun e m => Z.max (event_id e) m) 0 (ordered_events session d).
Definition event_entry (e : EventRow) : value :=
  Object [("event_id", num (event_id e)); ("event", event_value e); ("revision", num (event_revision e));
          ("created_at", Str (clock_cast (event_created_at e)))].
Definition session_events_handler (raw : string) (q : gmap string string) : H X Response :=
  after ← answer_err unprocessable (cursor q "after" 0);
  limit ← answer_err (fun _ => limit_error) (cursor q "limit" 100);
  _ ← answer_if (negb ((1 <=? limit) && (limit <=? 1000))) limit_error;
  requested ← (match q !! "through" with
               | Some _ => n ← answer_err unprocessable (cursor q "through" 0); mret (Some n)
               | None => mret None
               end);
  found ← existing raw;
  let session := snd (found : Session * string) in
  mark ← rows_or_error (statement (fun _ d => (watermark session d, d)));
  let through := Z.min (unwrap_or requested mark) mark in
  rows ← rows_or_error (statement (fun _ d =>
           (page event_id (ordered_events session d) after through limit, d)));
  mret (json_response 200 (Object [("session_id", Str raw); ("through", num through);
          ("entries", Array (map event_entry rows)); ("next_after", num (next_cursor event_id rows after));
          ("archive_id", Null)])).

(** ** [GET /sessions/{id}/diagnostics/{family}] *)
Definition out_of_range (key : string) : Response := unprocessable (key +:+ " is outside its allowed range").
Definition diagnostic_entry (r : Z * value) : value := Object [("ordinal", num (fst r)); ("payload", snd r)].
Definition compaction_diagnostics (raw family_ : string) (q : gmap string string) : H X Response :=
  limit ← answer_none limit_error (parameter parse_usize q "limit" 100 1 1000);
  after ← answer_none (out_of_range "after") (parameter parse_usize q "after" 0 0 usize_max);
  requested ← answer_none (out_of_range "through") (parameter parse_usize q "through" usize_max 0 usize_max);
  found ← existing raw;
  let '(s, session) := (found : Session * string) in
  _ ← answer_if (negb (str_in family_ FAMILIES)) (json_response 404 (detail "Unknown diagnostic family"));
  let total := (unwrap_or (diagnostic_counts s !! family_) 0) mod 2 ^ 64 in
  let through := Z.min requested total in
  rows ← rows_or_error (statement (fun _ d =>
           (page fst (diagnostic_rows session family_ d) (Z.min after i64_max) through limit, d)));
  mret (json_response 200 (Object [("session_id", Str raw); ("family", Str family_);
          ("total_recorded", num total); ("through", num through);
          ("next_after", num (next_cursor fst rows after)); ("entries", Array (map diagnostic_entry rows));
          ("archive_id", of_opt_str (last_archive_id s));
          ("history_complete", Bool (diagnostic_history_complete s && is_none (last_archive_id s)))])).

(** ** [GET /runs/abandoned] *)
Definition abandoned (now : Z) (d : Db) : list ((string * string) * RunRow) :=
  sort_by (fun a b => String.leb (run_row_started_at (snd a)) (run_row_started_at (snd b)))
    (List.filter (fun e => String.eqb (run_row_status (snd e)) "running"
        && is_some_and (sessions d !! fst (fst e)) (fun s =>
             is_none (lease_owner s) || expired (lease_expires_at s) now))
      (map_to_list (runs d))).
Definition abandoned_json (e : (string * string) * RunRow) : value :=
  Object [("session_id", Str (fst (fst e))); ("run_id", Str (snd (fst e)));
          ("status", Str (run_row_status (snd e))); ("last_decision_step", num (run_last_step (snd e)))].
Definition abandoned_runs (q : gmap string string) : H X Response :=
  limit ← answer_none limit_error (parameter parse_usize q "limit" 100 1 1000);
  rows ← rows_or_error (statement (fun now d => (take (Z.to_nat limit) (abandoned now d), d)));
  mret (json_response 200 (Object [("runs", Array (map abandoned_json rows))])).
End pages.
