(* ===== verification/CommitFacts.v ===== *)
(** * What a commit guarantees

    However the network behaves, [save] writes its proposal at most once, and
    a success means that it is written or was written before ([save_once]);
    a worker without the current lease and revision writes nothing; the
    transcript only grows, by consecutive numbers; a settled action and a
    command's response never change. *)
From S2P Require Import Prelude Text Json Encoding Session Logic Context Diagnostics Prompt Compaction Store StoreLogic Rows Snapshot Config Retention Commit.
Local Open Scope string_scope.
Local Open Scope Z_scope.

(** The runs whose cancellation was requested, by session and run. *)
Definition cancelled_runs (d : Db) : gset (string * string) :=
  dom (filter (fun e => run_cancel_requested (snd e) = true) (runs d)).
Lemma cancelled_runs_spec k d :
  k ∈ cancelled_runs d <-> exists r, runs d !! k = Some r /\ run_cancel_requested r = true.
Proof.
  unfold cancelled_runs. rewrite elem_of_dom. split.
  - intros [r [H1 H2]%map_lookup_filter_Some]. by exists r.
  - intros (r & H1 & H2). exists r. by apply map_lookup_filter_Some.
Qed.
Lemma cancelled_same d d' : runs d' = runs d -> cancelled_runs d' = cancelled_runs d.
Proof. unfold cancelled_runs. by intros ->. Qed.
(** A commit neither requests a cancellation nor withdraws one. *)
Lemma upsert_run_cancelled k new d : run_cancel_requested new = false ->
  cancelled_runs (upsert_run k new d) = cancelled_runs d.
Proof.
  intros Hn. apply set_eq. intros j. rewrite !cancelled_runs_spec. unfold upsert_run. cbn.
  destruct (decide (j = k)) as [->|Hne]; [|by rewrite lookup_insert_ne].
  rewrite lookup_insert_eq. split; intros (r & Hr & Hc).
  - injection Hr as <-. destruct (runs d !! k) as [old|]; [by exists old|congruence].
  - rewrite Hr. by eexists.
Qed.

Section facts.
Context `{P : Platform} `{B : Backend} `{F : Files} `{Sr : Serde}.

(** ** Which tables the parts touch *)
(** What the checks of a commit read of the session. *)
Definition identity : Type :=
  Z * option string * option Z * string * string * option value * (option string * option string * option string).
Definition identity_of (s : Session) : identity :=
  (revision s, execution_owner s, execution_fence s, id s, run_status s, command s, (config_ref s, config_sha256 s, run_id s)).
Definition tables (d : Db) := (sessions d, commands d, commit_receipts d, cancelled_runs d).
Definition core (sd : Session * Db) :=
  (identity_of (fst sd), tables (snd sd), transcript (snd sd), tool_executions (snd sd)).
Lemma identity_revision s s' : identity_of s' = identity_of s -> revision s' = revision s.
Proof. unfold identity_of. congruence. Qed.
(** All of it except the transcript, or the actions. *)
Definition core_t (sd : Session * Db) := (identity_of (fst sd), tables (snd sd), tool_executions (snd sd)).
Definition core_a (sd : Session * Db) := (identity_of (fst sd), tables (snd sd), transcript (snd sd)).
(** All of it except the commands. *)
Definition core_c (sd : Session * Db) :=
  (identity_of (fst sd), sessions (snd sd), commit_receipts (snd sd), cancelled_runs (snd sd), transcript (snd sd),
   tool_executions (snd sd)).

Lemma on_core_t {A} (m : T A) : tkeeps (same_on core) m -> tkeeps (same_on core_t) m.
Proof. apply tkeeps_weaken. unfold same_on, core, core_t. intros ? ?. congruence. Qed.
Lemma on_core_a {A} (m : T A) : tkeeps (same_on core) m -> tkeeps (same_on core_a) m.
Proof. apply tkeeps_weaken. unfold same_on, core, core_a. intros ? ?. congruence. Qed.

Lemma parse_uuid_core x : tkeeps (same_on core) (parse_uuid x).
Proof. unfold parse_uuid. tframe. Qed.
#[local] Hint Resolve parse_uuid_core : tframe.
Lemma validate_previous_core i v n : tkeeps (same_on core) (validate_previous_transcript i v n).
Proof.
  unfold validate_previous_transcript. repeat tframe_step.
  intros sd r sd' [= _ <-]. done.
Qed.
Lemma check_sources_core i seen prev ids : tkeeps (same_on core) (check_sources i seen prev ids).
Proof. revert seen prev. induction ids; intros; cbn [check_sources]; tframe; auto. Qed.
Lemma check_retained_core i seen ids : tkeeps (same_on core) (check_retained i seen ids).
Proof. revert seen. induction ids; intros; cbn [check_retained]; tframe; auto. Qed.
#[local] Hint Resolve check_sources_core check_retained_core : tframe.
Lemma previous_summary_core i v : tkeeps (same_on core) (previous_summary i v).
Proof. unfold previous_summary. tframe. Qed.
#[local] Hint Resolve previous_summary_core : tframe.
Lemma validate_summary_core i v g : tkeeps (same_on core) (validate_summary_payload i v g).
Proof. unfold validate_summary_payload. tframe. Qed.
Lemma write_call_core i e c : tkeeps (same_on core) (write_call i e c).
Proof. unfold write_call, add_call. tframe. Qed.
#[local] Hint Resolve write_call_core : tframe.
Lemma write_call_map_core i es : tkeeps (same_on core) (write_call_map i es).
Proof. unfold write_call_map. tframe. Qed.
Lemma write_diagnostic_core i r : tkeeps (same_on core) (write_diagnostic i r).
Proof. unfold write_diagnostic. tframe. Qed.
Lemma check_counter_core i s f : tkeeps (same_on core) (check_counter i s f).
Proof. unfold check_counter. tframe. Qed.
#[local] Hint Resolve write_diagnostic_core check_counter_core : tframe.
Lemma write_diagnostics_core i : tkeeps (same_on core) (write_diagnostics i).
Proof. unfold write_diagnostics. tframe. Qed.
Lemma write_run_state_core i : tkeeps (same_on core) (write_run_state i).
Proof.
  unfold write_run_state. tframe. all: apply tkeeps_write; intros s' d.
  all: unfold same_on, core, tables; cbn [fst snd]; by rewrite upsert_run_cancelled.
Qed.
Lemma refresh_memory_core i : tkeeps (same_on core) (refresh_memory i).
Proof. unfold refresh_memory, refresh_at. tframe. Qed.
Lemma write_context_core i : tkeeps (same_on core) (write_context i).
Proof. unfold write_context. tframe. Qed.
Lemma check_archived_core v t rows : tkeeps (same_on core) (check_archived v t rows).
Proof. unfold check_archived. tframe. Qed.
Lemma prune_family_core v s i f : tkeeps (same_on core) (prune_family v s i f).
Proof. unfold prune_family, delete_diagnostics. tframe. Qed.
#[local] Hint Resolve check_archived_core prune_family_core : tframe.
Lemma write_retention_core : tkeeps (same_on core) write_retention.
Proof. unfold write_retention, delete_events. tframe. Qed.
Lemma append_event_core i c k e : tkeeps (same_on core) (append_event i c k e).
Proof. unfold append_event. tframe. Qed.
Lemma final_fence_core i : tkeeps (same_on core) (final_fence i).
Proof. unfold final_fence. tframe. Qed.
Lemma guard_core c : tkeeps (same_on core) (guard c).
Proof. unfold guard. tframe. Qed.
Lemma write_attempt_core i v : tkeeps (same_on core) (write_attempt i v).
Proof. unfold write_attempt, upsert_attempt. tframe. Qed.
Lemma write_action_core_a i s v : tkeeps (same_on core_a) (write_action i s v).
Proof. unfold write_action, upsert_execution. tframe. Qed.
Lemma write_tool_executions_core_a i : tkeeps (same_on core_a) (write_tool_executions i).
Proof.
  pose proof write_action_core_a. pose proof (fun v => on_core_a _ (write_attempt_core i v)).
  unfold write_tool_executions. tframe.
Qed.
Lemma number_message_core i n : tkeeps (same_on core) (number_message i n).
Proof. unfold number_message. tframe. Qed.
Lemma check_previous_core i row c : tkeeps (same_on core) (check_previous i row c).
Proof. unfold check_previous. tframe. Qed.

(** ** The transcript *)
(** The rows of a session are numbered from 1 to [n], each number once. *)
Record numbered (session : string) (n : Z) (d : Db) : Prop := {
  numbers_bounded : forall i row, transcript d !! (session, i) = Some row -> 1 <= tr_sequence row <= n;
  numbers_used : forall k, 1 <= k <= n -> exists i row, transcript d !! (session, i) = Some row /\ tr_sequence row = k;
  numbers_distinct : forall i j r r', transcript d !! (session, i) = Some r ->
    transcript d !! (session, j) = Some r' -> tr_sequence r = tr_sequence r' -> i = j
}.
(** Rows stay as they are, and only [session] gains any. *)
Definition extends (session : string) (d d' : Db) : Prop :=
  (forall k row, transcript d !! k = Some row -> transcript d' !! k = Some row)
  /\ (forall j i, j <> session -> transcript d' !! (j, i) = transcript d !! (j, i)).
#[global] Instance extends_preorder session : PreOrder (extends session).
Proof.
  split; [by split|]. intros d1 d2 d3 [H1 H2] [H3 H4]. split; [auto|].
  intros j i Hj. rewrite H4 by done. auto.
Qed.
Lemma same_transcript d d' session : transcript d' = transcript d -> extends session d d'.
Proof. unfold extends. intros ->. done. Qed.
Lemma numbered_same session n d d' : transcript d' = transcript d -> numbered session n d -> numbered session n d'.
Proof. intros E []. split; rewrite E; done. Qed.
Lemma numbered_other session j n d d' : extends j d d' -> session <> j -> numbered session n d -> numbered session n d'.
Proof. intros [_ H] Hne []. split; setoid_rewrite H; done. Qed.

Lemma insert_numbered session i row n d : 0 <= n -> numbered session n d ->
  transcript d !! (session, i) = None -> tr_sequence row = n + 1 ->
  numbered session (n + 1) (insert_transcript session i row d).
Proof.
  intros Hn [H1 H2 H3] Hi Hrow.
  assert (forall j r, transcript (insert_transcript session i row d) !! (session, j) = Some r <->
    (j = i /\ r = row) \/ (j <> i /\ transcript d !! (session, j) = Some r)) as Hl.
  { intros j r. unfold insert_transcript. cbn. destruct (decide (j = i)) as [->|Hne].
    - rewrite lookup_insert_eq. naive_solver.
    - rewrite lookup_insert_ne by congruence. naive_solver. }
  split.
  - intros j r [[-> ->]|[_ Hr]]%Hl; [lia|]. apply H1 in Hr. lia.
  - intros k Hk. destruct (decide (k = n + 1)) as [->|].
    + exists i, row. split; [|done]. apply Hl. by left.
    + destruct (H2 k) as (j & r & Hj & Hs); [lia|]. exists j, r. split; [|done]. apply Hl. right.
      split; [congruence|done].
  - intros j j' r r' [[-> ->]|[Hj Hr]]%Hl [[-> ->]|[Hj' Hr']]%Hl Hs; try done.
    + apply H1 in Hr'. lia.
    + apply H1 in Hr. lia.
    + by eapply H3.
Qed.
Lemma insert_extends session i row d : transcript d !! (session, i) = None ->
  extends session d (insert_transcript session i row d).
Proof.
  intros Hi. split.
  - intros k r Hk. unfold insert_transcript. cbn. rewrite lookup_insert_ne; [done|]. congruence.
  - intros j k Hj. unfold insert_transcript. cbn. rewrite lookup_insert_ne; [done|]. congruence.
Qed.

Lemma of_session_spec {A} (session : string) (m : gmap (string * string) A) (i : string) (x : A) :
  (i, x) ∈ Rows.of_session session m <-> m !! (session, i) = Some x.
Proof.
  unfold of_session, filter_map. rewrite list_elem_of_In, in_flat_map. split.
  - intros ([[j k] y] & Hin%list_elem_of_In%elem_of_map_to_list & Hx). cbn in Hx.
    destruct (String.eqb_spec j session) as [->|]; [|done]. destruct Hx as [[= <- <-]|[]]. done.
  - intros Hm. exists ((session, i), x). split; [by apply list_elem_of_In, elem_of_map_to_list|].
    cbn. rewrite String.eqb_refl. by left.
Qed.
Lemma transcript_max_numbered session n d : 0 <= n -> numbered session n d -> transcript_max session d = n.
Proof.
  intros Hn [H1 H2 _]. unfold transcript_max. set (l := transcript_rows session d).
  assert (forall e, e ∈ l -> 1 <= tr_sequence e.2 <= n) as Hb.
  { intros [i r] Hin%of_session_spec. by eapply H1. }
  assert (forall e, e ∈ l -> tr_sequence e.2 <= foldr (fun e m => Z.max (tr_sequence e.2) m) 0 l) as Hle.
  { clear. induction l as [|a l IH]; [by intros ? ?%elem_of_nil|]. cbn.
    intros e [->|Hin]%elem_of_cons; [lia|]. specialize (IH e Hin). lia. }
  assert (foldr (fun e m => Z.max (tr_sequence e.2) m) 0 l <= n) as Hu.
  { clear Hle. clearbody l. induction l as [|a l IH]; [done|]. cbn. specialize (Hb a ltac:(left)) as Ha.
    assert (forall e, e ∈ l -> 1 <= tr_sequence e.2 <= n) as Hb' by (intros; apply Hb; by right).
    specialize (IH Hb'). lia. }
  assert (0 <= foldr (fun e m => Z.max (tr_sequence e.2) m) 0 l).
  { clear. induction l; cbn; lia. }
  destruct (decide (n = 0)) as [->|]; [lia|].
  destruct (H2 n) as (i & r & Hr & Hs); [lia|]. apply of_session_spec in Hr. apply (Hle (i, r)) in Hr. cbn in Hr. lia.
Qed.

(** What one write of the transcript establishes: the session had [n] rows and
    has [n'], and the next number, which wraps around where the rows have used
    up all numbers, is the one after. *)
Definition archived_to (session : string) (n : Z) (sd : Session * Db) (next' : Z) (s' : Session) (d' : Db) : Prop :=
  exists n', next' = add64 n' 1 /\ n <= n' <= i64_max /\ numbered session n' d' /\ extends session (snd sd) d'
  /\ same_on core_t sd (s', d').
Lemma archived_trans session n1 sd1 n2 s2 d2 next3 s3 d3 : n1 <= n2 -> extends session (snd sd1) d2 ->
  same_on core_t sd1 (s2, d2) -> archived_to session n2 (s2, d2) next3 s3 d3 -> archived_to session n1 sd1 next3 s3 d3.
Proof.
  intros L1 E1 C1 (n3 & -> & L2 & N2 & E2 & C2). exists n3. split_and!; [done|lia|lia|done|by etrans|by etrans].
Qed.
Lemma archived_refl session n s s' d d' : n <= i64_max -> numbered session n d -> same_on core (s, d) (s', d') ->
  archived_to session n (s, d) (add64 n 1) s' d'.
Proof.
  unfold same_on, core. cbn. intros Hm Hn E.
  assert (transcript d' = transcript d) as Et by congruence. exists n.
  split_and!; [done|lia|done|by eapply numbered_same|by apply same_transcript|]. unfold same_on, core_t. cbn. congruence.
Qed.
(** The number after the last one is refused when there is none. *)
Lemma next_number n : 0 <= n <= i64_max -> 0 < add64 n 1 -> n + 1 <= i64_max /\ add64 n 1 = n + 1.
Proof.
  unfold add64, wrap64, i64_max. intros Hn Hp. destruct (decide (n = 2 ^ 63 - 1)) as [->|]; [by vm_compute in Hp|].
  split; [lia|]. rewrite Z.mod_small; lia.
Qed.
Lemma add_transcript_spec session i row n s d : 0 <= n <= i64_max -> numbered session n d ->
  transcript d !! (session, i) = None -> tr_sequence row = add64 n 1 ->
  twp (add_transcript session i row) (fun _ => archived_to session n (s, d) (add64 (add64 n 1) 1)) any_error s d.
Proof.
  intros Hn Hd Hi Hr. unfold add_transcript. do 3 twp_step.
  match goal with H : fail_if _ _ = Ok _ |- _ => apply fail_if_ok, negb_false_iff, andb_true_iff in H as [Hp%Z.ltb_lt _] end.
  rewrite Hr in Hp. destruct (next_number n Hn Hp) as [Hm E]. exists (n + 1). rewrite E in Hr |- *.
  split_and!; [done|lia|lia|apply insert_numbered; [lia|done..]|by apply insert_extends|done].
Qed.

Lemma write_entry_spec session n e s d : 0 <= n <= i64_max -> numbered session n d ->
  twp (write_entry session (add64 n 1) e) (archived_to session n (s, d)) any_error s d.
Proof.
  intros Hn Hd. unfold write_entry. repeat twp_step.
  destruct (transcript d !! (session, a)) as [row|] eqn:Er.
  - repeat twp_step; (apply archived_refl; [lia|done|done]).
  - twp_step. apply (twp_mono _ (fun _ s' d' => d' = d /\ identity_of s' = identity_of s) _ any_error); [|intros [] s1 d1 [-> Hs]|done].
    { destruct (String.eqb (te_kind e) "message"); cbn [when_t]; [unfold number_message|]; by twp_step. }
    twp_step. eapply twp_mono; [by apply (add_transcript_spec session a _ n s1 d)| |done].
    intros _ s2 d2 (n' & E & L & N & X & C). twp_step. exists n'. split_and!; [done|lia|lia|done|exact X|].
    unfold same_on in *. etrans; [exact C|]. unfold core_t. cbn [fst snd]. by rewrite Hs.
Qed.
Lemma write_entries_spec session n es s d : 0 <= n <= i64_max -> numbered session n d ->
  twp (write_entries session (add64 n 1) es) (archived_to session n (s, d)) any_error s d.
Proof.
  revert n s d. induction es as [|e es IH]; intros n s d Hn Hd; cbn [write_entries].
  - twp_step. apply archived_refl; [lia|done|done].
  - twp_step. eapply twp_mono; [by apply write_entry_spec| |done]. intros next s1 d1 (n1 & -> & L & N & X & C).
    eapply twp_mono; [apply (IH n1); [lia|done]| |done].
    intros next2 s2 d2 H2. eapply archived_trans; [apply L|exact X|exact C|exact H2].
Qed.
Lemma write_summary_spec session n v s d : 0 <= n <= i64_max -> numbered session n d ->
  twp (write_summary session (add64 n 1) v) (archived_to session n (s, d)) any_error s d.
Proof.
  intros Hn Hd. unfold write_summary.
  destruct (get_str "transcript_record_id" v); [|twp_step; apply archived_refl; [lia|done|done]].
  twp_step. unfold parse_uuid. repeat twp_step.
  eapply (twp_keeps (same_on core)); [apply validate_summary_core| |done].
  intros [] s1 d1 E1. repeat twp_step.
  assert (transcript d1 = transcript d) as Et by (unfold same_on, core in E1; cbn in E1; congruence).
  destruct (transcript d1 !! (session, a)) as [row|] eqn:Er.
  - repeat twp_step. apply archived_refl; [lia|done|done].
  - repeat twp_step. apply twp_engine. unfold wp.
    destruct (transcript_timestamp (s1, d1)) as [[at_|x] sd2] eqn:E2; apply timestamp_frame in E2 as ->; [|done].
    cbn [fst snd]. set (d2 := d1 <| wall_reads ::= Datatypes.S |>).
    assert (archived_to session n (s, d) (add64 n 1) s1 d2) as (n2 & _ & _ & _ & X & C).
    { apply archived_refl; [lia|done|]. etrans; [exact E1|done]. }
    twp_step. eapply twp_mono; [apply (add_transcript_spec session a _ n s1 d2); [done| |done|done]| |done].
    { by eapply numbered_same. }
    intros u s3 d3 H3. twp_step. eapply archived_trans; [reflexivity|exact X|exact C|exact H3].
Qed.
Lemma write_summaries_spec session n vs s d : 0 <= n <= i64_max -> numbered session n d ->
  twp (write_summaries session (add64 n 1) vs) (archived_to session n (s, d)) any_error s d.
Proof.
  revert n s d. induction vs as [|v vs IH]; intros n s d Hn Hd; cbn [write_summaries].
  - twp_step. apply archived_refl; [lia|done|done].
  - twp_step. eapply twp_mono; [by apply write_summary_spec| |done]. intros next s1 d1 (n1 & -> & L & N & X & C).
    eapply twp_mono; [apply (IH n1); [lia|done]| |done].
    intros next2 s2 d2 H2. eapply archived_trans; [apply L|exact X|exact C|exact H2].
Qed.

(** ** Actions *)
(** What identifies an action; it never changes. *)
Definition frozen_of (e : ExecutionRow) :=
  (ex_run_id e, ex_call_id e, ex_tool e, ex_arguments e, ex_policy e, ex_idempotency_key e,
   (ex_command_id e, ex_namespace e, ex_target e, ex_payload_sha256 e)).
Record action_kept (e e' : ExecutionRow) : Prop := {
  kept_identity : frozen_of e' = frozen_of e;
  kept_outcome : terminal_status (ex_status e) = true -> ex_status e' = ex_status e /\ ex_result e' = ex_result e;
  kept_times : (is_some (ex_started_at e) = true -> ex_started_at e' = ex_started_at e)
    /\ (is_some (ex_finished_at e) = true -> ex_finished_at e' = ex_finished_at e)
}.
Definition actions_kept (d d' : Db) : Prop := forall k e, tool_executions d !! k = Some e ->
  exists e', tool_executions d' !! k = Some e' /\ action_kept e e'.
#[local] Instance action_kept_preorder : PreOrder action_kept.
Proof.
  split; [by split|]. intros e1 e2 e3 [A1 B1 [C1 D1]] [A2 B2 [C2 D2]]. split; [congruence| |split].
  - intros Ht. destruct (B1 Ht) as [Hs Hr]. rewrite <- Hs in Ht. destruct (B2 Ht). split; congruence.
  - intros H. rewrite <- (C1 H) in H |- *. auto.
  - intros H. rewrite <- (D1 H) in H |- *. auto.
Qed.
Lemma actions_trans d1 d2 d3 : actions_kept d1 d2 -> actions_kept d2 d3 -> actions_kept d1 d3.
Proof.
  intros H1 H2 k e He. destruct (H1 k e He) as (e2 & He2 & K2).
  destruct (H2 k e2 He2) as (e3 & He3 & K3). exists e3. split; [done|by etrans].
Qed.
Lemma same_actions d d' : tool_executions d' = tool_executions d -> actions_kept d d'.
Proof. intros E k e He. exists e. by rewrite E. Qed.

Lemma field_text_eq (o : option string) (item : value) (k : string) :
  value_eqb (of_opt_str o) (index item k) = true -> get_str k item = o.
Proof.
  unfold index, get_str. destruct (get k item) as [[]|]; destruct o; cbn; try done.
  intros ->%String.eqb_eq. done.
Qed.
Lemma check_action_terminal i k e item n : check_action item (execution_json i k e) n = Ok tt ->
  terminal_status (ex_status e) = true -> get_str "status" item = ex_status e /\ get_str "result" item = ex_result e.
Proof.
  unfold check_action. intros H Ht. apply bind_ok in H as ([] & _ & H). apply bind_ok in H as ([] & _ & H).
  assert (get_str "status" (execution_json i k e) = ex_status e) as Es by (cbn; by destruct (ex_status e)).
  rewrite Es, Ht in H. apply fail_if_ok in H. rewrite andb_true_l in H. apply orb_false_iff in H as [H1 H2].
  apply negb_false_iff in H1, H2. split; by apply field_text_eq.
Qed.
Lemma upsert_execution_keeps k new d :
  (forall e, tool_executions d !! k = Some e -> terminal_status (ex_status e) = true ->
     ex_status new = ex_status e /\ ex_result new = ex_result e) ->
  actions_kept d (upsert_execution k new d).
Proof.
  intros Hnew j e He. unfold upsert_execution. cbn. destruct (decide (j = k)) as [->|Hne].
  - rewrite lookup_insert_eq, He. eexists. split; [done|]. split; cbn; [done|by apply Hnew|].
    split; [by destruct (ex_started_at e)|by destruct (ex_finished_at e)].
  - rewrite lookup_insert_ne by done. by exists e.
Qed.
Lemma write_action_keeps i s0 v s d : twp (write_action i s0 v) (fun _ _ d' => actions_kept d d') any_error s d.
Proof.
  unfold write_action. repeat twp_step. apply upsert_execution_keeps. intros e He Ht. cbn [ex_status ex_result].
  unfold bind_key in H3. rewrite H1 in H3. cbn in H3. destruct a0 as [k|]; [|done]. injection H3 as ->.
  cbn in H2. rewrite He in H2. cbn in H2. destruct a1. by eapply check_action_terminal.
Qed.
Lemma twp_tkeeps {A} (R : Session * Db -> Session * Db -> Prop) (m : T A) :
  (forall s d, twp m (fun _ s' d' => R (s, d) (s', d')) (fun _ s' d' => R (s, d) (s', d')) s d) -> tkeeps R m.
Proof.
  intros Hm [s d] r [s' d'] E. specialize (Hm s d). unfold twp in Hm. rewrite E in Hm. by destruct r.
Qed.
Lemma write_tool_executions_spec i s d :
  twp (write_tool_executions i)
    (fun _ s' d' => actions_kept d d' /\ same_on core_a (s, d) (s', d')) any_error s d.
Proof.
  assert (forall m : T unit, tkeeps (same_on core_a) m ->
    twp m (fun _ _ d' => actions_kept d d') any_error s d ->
    twp m (fun _ s' d' => actions_kept d d' /\ same_on core_a (s, d) (s', d')) any_error s d) as Hboth.
  { intros m Hk Hm. unfold twp in *. destruct (m (s, d)) as [[[]|e] [s' d']] eqn:E; [|done].
    split; [done|]. by eapply Hk. }
  apply Hboth; [apply write_tool_executions_core_a|].
  unfold write_tool_executions. twp_step. twp_step. twp_step.
  apply (twp_tfor (fun _ d' => actions_kept d d')).
  - by apply same_actions.
  - intros v s1 d1 H1. eapply twp_mono; [apply write_action_keeps| |done].
    intros ? s2 d2 H2. by eapply actions_trans.
  - intros s1 d1 H1. apply (twp_tfor (fun _ d' => actions_kept d d')); [done| |done].
    intros v s2 d2 H2. eapply (twp_keeps (same_on core)); [apply write_attempt_core| |done].
    intros ? s3 d3 E k e He. destruct (H2 k e He) as (e' & He' & K). exists e'. split; [|done].
    unfold same_on, core in E. cbn in E. congruence.
Qed.

(** ** Commands *)
Definition settled (r : CommandRow) : bool := str_in (command_status r) ["succeeded"; "failed"].
Definition answer_of (r : CommandRow) := (command_status r, response_status r, response_body r).
(** A response, once given, is never changed. *)
Definition responses_kept (d d' : Db) : Prop := forall k r, commands d !! k = Some r -> settled r = true ->
  exists r', commands d' !! k = Some r' /\ answer_of r' = answer_of r.
Lemma same_responses d d' : commands d' = commands d -> responses_kept d d'.
Proof. intros E k r Hr. exists r. by rewrite E. Qed.
Lemma responses_trans d1 d2 d3 : responses_kept d1 d2 -> responses_kept d2 d3 -> responses_kept d1 d3.
Proof.
  intros H1 H2 k r Hr Hs. destruct (H1 k r Hr Hs) as (r2 & Hr2 & E2).
  assert (settled r2 = true) as Hs2 by (unfold settled, answer_of in *; congruence).
  destruct (H2 k r2 Hr2 Hs2) as (r3 & Hr3 & E3). exists r3. split; [done|congruence].
Qed.
Lemma alter_command_keeps k f p d :
  (forall r, commands d !! k = Some r -> p r = true -> settled r = true -> answer_of (f r) = answer_of r) ->
  responses_kept d (alter_command k f p d).
Proof.
  intros Hf j r Hr Hs. unfold alter_command. destruct (commands d !! k) as [r0|] eqn:E; [|by exists r].
  destruct (p r0) eqn:Ep; [|by exists r]. unfold put_command. cbn. destruct (decide (j = k)) as [->|Hne].
  - rewrite lookup_insert_eq. rewrite Hr in E. injection E as ->. eauto.
  - rewrite lookup_insert_ne by done. by exists r.
Qed.
Lemma started_not_settled r : command_status r = "started" -> settled r = false.
Proof. unfold settled. by intros ->. Qed.

Lemma guard_spec c s d : twp (guard c) (fun _ s' d' => s' = s /\ d' = d <| time_reads ::= Datatypes.S |>
    /\ exists k r, bind_uuid (command_id_of c) = Ok (Some k) /\ commands d !! k = Some r
       /\ command_status r = "started") any_error s d.
Proof.
  unfold guard. repeat twp_step. split_and!; [done..|].
  match goal with H : negb _ = false |- _ => apply negb_false_iff in H as Hh end.
  subst. cbn in Hh. destruct a as [k|]; [|done]. cbn in Hh.
  destruct (commands d !! k) as [r|] eqn:Er; [|done]. exists k, r. split_and!; [done..|].
  cbn in Hh. unfold command_held in Hh. apply andb_true_iff in Hh as [[_ Hh]%andb_true_iff _].
  by apply String.eqb_eq.
Qed.
Lemma finish_keeps c st body s d : twp (finish c st body)
  (fun _ s' d' => responses_kept d d' /\ same_on core_c (s, d) (s', d')) any_error s d.
Proof.
  unfold finish. twp_step. eapply twp_mono; [apply guard_spec| |done].
  intros [] s1 d1 (-> & -> & k & r & Hk & Hr & Hst). twp_step. twp_step.
  rewrite Hk in H. injection H as <-. repeat twp_step. split; [|by unfold alter_command; repeat case_match].
  apply (responses_trans _ (d <| time_reads ::= Datatypes.S |>)); [by apply same_responses|].
  apply alter_command_keeps. intros r' Hr' _ Hs. cbn in Hr'. assert (r' = r) as -> by congruence.
  by rewrite started_not_settled in Hs.
Qed.

Lemma disown_origin_spec c e s d : twp (disown_origin c e)
  (fun _ s' d' => responses_kept d d' /\ same_on core_c (s, d) (s', d')) any_error s d.
Proof.
  unfold disown_origin. twp_step. twp_step. destruct (run_command_id s) as [o|]; [|by twp_step; split; [apply same_responses|]].
  destruct (_ && _); [|by twp_step; split; [apply same_responses|]].
  repeat twp_step. subst d'. split; [|by unfold alter_command; repeat case_match].
  apply (responses_trans _ (d <| time_reads ::= Datatypes.S |>)); [by apply same_responses|].
  apply alter_command_keeps. intros r _ Hp Hs. apply andb_true_iff in Hp as [Hp%str_in_spec _].
  unfold settled in Hs. apply str_in_spec in Hs. apply elem_of_cons in Hp as [Hp|Hp%list_elem_of_singleton];
    apply elem_of_cons in Hs as [Hs|Hs%list_elem_of_singleton]; congruence.
Qed.
Lemma attach_command_keeps k i d : responses_kept d (attach_command k i d).
Proof. by apply alter_command_keeps. Qed.

(** The two readers of identities, the code's and the server's, agree. *)
Hypothesis uuid_readers_agree : forall x u v, uuid_parse x = Some u -> uuid_cast x = Some v -> u = v.

Lemma guarded_answer c k e s d : (exists i, command_id_of c = Some i /\ uuid_parse i = Some k) ->
  twp (_ ← guard c; answer_command c k e)
    (fun _ s' d' => responses_kept d d' /\ same_on core_c (s, d) (s', d')) any_error s d.
Proof.
  intros (i & Hi & Hk). twp_step. eapply twp_mono; [apply guard_spec| |done].
  intros [] s1 d1 (-> & -> & k' & r & Hk' & Hr & Hst).
  assert (k' = k) as ->.
  { unfold bind_uuid in Hk'. rewrite Hi in Hk'. destruct (uuid_cast i) eqn:Ec; [|done]. cbn in Hk'.
    injection Hk' as <-. symmetry. by eapply uuid_readers_agree. }
  set (d1 := d <| time_reads ::= Datatypes.S |>).
  assert (responses_kept d d1) as H1 by by apply same_responses.
  unfold answer_command. twp_step. twp_step. cbv zeta.
  destruct (String.eqb _ "run_finished" && _).
  - twp_step. split; [|by unfold alter_command; repeat case_match].
    eapply responses_trans; [exact H1|]. apply alter_command_keeps. intros r' Hr' _ Hs.
    assert (r' = r) as -> by (cbn in Hr'; congruence). by rewrite started_not_settled in Hs.
  - destruct (str_in _ responding); [|by twp_step; split].
    twp_step. twp_step. eapply twp_mono; [apply finish_keeps| |done].
    intros _ s2 d2 [H2 E2]. split; [exact (responses_trans _ _ _ H1 H2)|]. by etrans; [|exact E2].
Qed.

(** ** The whole transaction *)
(** Where a commit stands: the parts that were fixed so far, and what holds of
    the tables in comparison with those at its start. *)
Record progress (session : string) (n : Z) (d0 : Db) (ident : identity)
    (rows : gmap string SessionRow) (receipts : gmap (string * string) ReceiptRow) (s : Session) (d : Db) : Prop := {
  pr_identity : identity_of s = ident;
  pr_sessions : sessions d = rows;
  pr_receipts : commit_receipts d = receipts;
  pr_extends : extends session d0 d;
  pr_numbered : exists n', n <= n' <= i64_max /\ numbered session n' d;
  pr_actions : actions_kept d0 d;
  pr_responses : responses_kept d0 d;
  pr_cancelled : cancelled_runs d = cancelled_runs d0
}.
Section progress.
Context (session : string) (n : Z) (d0 : Db) (ident : identity).
Lemma progress_core rows rcpts s d s' d' : progress session n d0 ident rows rcpts s d ->
  same_on core (s, d) (s', d') -> progress session n d0 ident rows rcpts s' d'.
Proof.
  unfold same_on, core, tables. cbn. intros [H1 H2 H3 H4 (n' & Hn & H5) H6 H7 H8] E.
  assert (identity_of s' = identity_of s) by congruence. assert (sessions d' = sessions d) by congruence.
  assert (commands d' = commands d) by congruence. assert (commit_receipts d' = commit_receipts d) by congruence.
  assert (transcript d' = transcript d) as Et by congruence.
  assert (tool_executions d' = tool_executions d) by congruence.
  split; [congruence..| | | | |congruence].
  - etrans; [exact H4|by apply same_transcript].
  - exists n'. split; [done|by eapply numbered_same].
  - eapply actions_trans; [exact H6|by apply same_actions].
  - eapply responses_trans; [exact H7|by apply same_responses].
Qed.
Lemma progress_actions rows rcpts s d s' d' : progress session n d0 ident rows rcpts s d ->
  actions_kept d d' -> same_on core_a (s, d) (s', d') -> progress session n d0 ident rows rcpts s' d'.
Proof.
  unfold same_on, core_a, tables. cbn. intros [H1 H2 H3 H4 (n' & Hn & H5) H6 H7 H8] Ha E.
  assert (identity_of s' = identity_of s) by congruence. assert (sessions d' = sessions d) by congruence.
  assert (commands d' = commands d) by congruence. assert (commit_receipts d' = commit_receipts d) by congruence.
  assert (transcript d' = transcript d) as Et by congruence.
  split; [congruence..| | | | |congruence].
  - etrans; [exact H4|by apply same_transcript].
  - exists n'. split; [done|by eapply numbered_same].
  - by eapply actions_trans.
  - eapply responses_trans; [exact H7|by apply same_responses].
Qed.
Lemma progress_commands rows rcpts s d s' d' : progress session n d0 ident rows rcpts s d ->
  responses_kept d d' -> same_on core_c (s, d) (s', d') -> progress session n d0 ident rows rcpts s' d'.
Proof.
  unfold same_on, core_c. cbn. intros [H1 H2 H3 H4 (n' & Hn & H5) H6 H7 H8] Hr E.
  assert (identity_of s' = identity_of s) by congruence. assert (sessions d' = sessions d) by congruence.
  assert (commit_receipts d' = commit_receipts d) by congruence.
  assert (transcript d' = transcript d) as Et by congruence.
  assert (tool_executions d' = tool_executions d) by congruence.
  split; [congruence..| | | | |congruence].
  - etrans; [exact H4|by apply same_transcript].
  - exists n'. split; [done|by eapply numbered_same].
  - eapply actions_trans; [exact H6|by apply same_actions].
  - by eapply responses_trans.
Qed.
Lemma progress_transcript rows rcpts s d next' s' d' : progress session n d0 ident rows rcpts s d ->
  archived_to session n (s, d) next' s' d' -> progress session n d0 ident rows rcpts s' d'.
Proof.
  unfold archived_to, same_on, core_t, tables. cbn. intros [H1 H2 H3 H4 _ H6 H7 H8] (n' & _ & Hle & Hn & He & E).
  assert (identity_of s' = identity_of s) by congruence. assert (sessions d' = sessions d) by congruence.
  assert (commands d' = commands d) by congruence. assert (commit_receipts d' = commit_receipts d) by congruence.
  assert (tool_executions d' = tool_executions d) by congruence.
  split; [congruence..| | | | |congruence].
  - by etrans.
  - by exists n'.
  - eapply actions_trans; [exact H6|by apply same_actions].
  - eapply responses_trans; [exact H7|by apply same_responses].
Qed.
(** A computation that keeps the core, in the middle of a commit. *)
Lemma progress_step {A} rows rcpts (m : T A) (Q : A -> Session -> Db -> Prop) s d :
  tkeeps (same_on core) m -> progress session n d0 ident rows rcpts s d ->
  (forall a s' d', progress session n d0 ident rows rcpts s' d' -> Q a s' d') -> twp m Q any_error s d.
Proof.
  intros Hm Hp HQ. eapply (twp_keeps (same_on core)); [exact Hm| |done].
  intros a s' d' E. apply HQ. by eapply progress_core.
Qed.
Lemma progress_command_step {A} rows rcpts (m : T A) (Q : A -> Session -> Db -> Prop) s d :
  twp m (fun _ s' d' => responses_kept d d' /\ same_on core_c (s, d) (s', d')) any_error s d ->
  progress session n d0 ident rows rcpts s d ->
  (forall a s' d', progress session n d0 ident rows rcpts s' d' -> Q a s' d') -> twp m Q any_error s d.
Proof.
  intros Hm Hp HQ. eapply twp_mono; [exact Hm| |done]. intros a s' d' [H1 H2]. apply HQ.
  by eapply progress_commands.
Qed.
End progress.

(** What a commit that was written has done. *)
Definition stored_revision (session : string) (d : Db) : Z := from_option row_revision 0 (sessions d !! session).
Record recorded (session commit_id command_id fingerprint : string) (d d' : Db) : Prop := {
  re_session : exists row', sessions d' = <[session := row']> (sessions d)
    /\ row_revision row' = stored_revision session d + 1
    /\ last_commit_id row' = Some commit_id /\ last_commit_sha256 row' = Some fingerprint
    /\ forall row, sessions d !! session = Some row ->
         lease_owner row' = lease_owner row /\ lease_fence row' = lease_fence row
         /\ lease_expires_at row' = lease_expires_at row /\ row_config row' = row_config row;
  re_receipt : commit_receipts d' = <[(session, commit_id) :=
    {| rc_command := command_id; rc_fingerprint := fingerprint;
       rc_expected_revision := stored_revision session d;
       rc_committed_revision := stored_revision session d + 1 |}]> (commit_receipts d);
  re_transcript : extends session d d' /\ exists n, 0 <= n <= i64_max /\ numbered session n d';
  re_actions : actions_kept d d';
  re_responses : responses_kept d d';
  re_cancelled : cancelled_runs d' = cancelled_runs d
}.

(** The row the commit finds when it stores the snapshot. *)
Lemma seeded_row session s config d : exists row,
  sessions (seed_session session s config (stored_revision session d) d) !! session = Some row
  /\ row_revision row = stored_revision session d
  /\ (forall r, sessions d !! session = Some r -> row = r)
  /\ forall row', <[session := row']> (sessions (seed_session session s config (stored_revision session d) d))
       = <[session := row']> (sessions d).
Proof.
  unfold seed_session, stored_revision. destruct (sessions d !! session) as [r|] eqn:E.
  - exists r. split_and!; [done|done|congruence|done].
  - match goal with |- context [put_session session ?r d] => set (row0 := r) end.
    assert (row_revision row0 = 0) as H0 by reflexivity. clearbody row0. exists row0.
    split_and!; [apply lookup_insert_eq|done|done|]. intros row'. apply insert_insert_eq.
Qed.
Lemma seed_session_core session s config rev d :
  let d' := seed_session session s config rev d in
  commands d' = commands d /\ commit_receipts d' = commit_receipts d /\ transcript d' = transcript d
  /\ tool_executions d' = tool_executions d /\ cancelled_runs d' = cancelled_runs d.
Proof.
  unfold seed_session. cbv zeta. destruct (sessions d !! session); [done|].
  match goal with |- context [put_session session ?r d] => generalize r end. done.
Qed.

Section phases.
Context (session : string) (config : value) (d : Db) (n : Z).
Hypothesis Hn : 0 <= n <= i64_max.
Hypothesis Hd : numbered session n d.
Let stored := stored_revision session d.
(** Between the parts of the transaction. *)
Definition underway (s : Session) (d' : Db) : Prop := exists d1 s1,
  d1 = seed_session session s1 config stored d /\ revision s = add64 stored 1
  /\ progress session n d (identity_of s) (sessions d1) (commit_receipts d) s d'.

Lemma commit_transcript_spec s : revision s = add64 stored 1 ->
  twp (commit_transcript session config (sessions d !! session) stored) (fun _ => underway) any_error s d.
Proof.
  intros Hs. unfold commit_transcript. do 10 twp_step.
  rewrite (transcript_max_numbered session n d) by (done || lia). set (d1 := seed_session session s config stored d).
  destruct (seed_session_core session s config stored d) as (C1 & C2 & C3 & C4 & C5). fold d1 in C1, C2, C3, C4, C5.
  assert (progress session n d (identity_of s) (sessions d1) (commit_receipts d) s d1) as Hp.
  { split; try done; [by apply same_transcript|exists n; split; [lia|by eapply numbered_same]| |].
    - by apply same_actions.
    - by apply same_responses. }
  twp_step. eapply (twp_keeps (same_on core));
    [destruct (sessions d !! session); [apply validate_previous_core|apply tkeeps_ret; apply _]| |done].
  intros [] s2 d2 E2. pose proof (progress_core _ _ _ _ _ _ _ _ _ _ Hp E2) as Hp2.
  assert (numbered session n d2) as Hd2.
  { eapply numbered_same; [|exact Hd]. unfold same_on, core in E2. cbn in E2. congruence. }
  do 3 twp_step. eapply twp_mono; [by apply write_entries_spec| |done].
  intros next s3 d3 (n3 & -> & L3 & N3 & X3 & C3'). do 3 twp_step.
  eapply twp_mono; [apply write_summaries_spec; [lia|done]| |done].
  intros next' s4 d4 A4. pose proof (archived_trans _ n _ _ _ _ _ _ _ (proj1 L3) X3 C3' A4) as A.
  pose proof (progress_transcript session n d _ _ _ _ _ _ _ _ Hp2 A) as Hp4.
  do 3 twp_step. exists d1, s. split; [done|]. pose proof (pr_identity _ _ _ _ _ _ _ _ Hp4) as Hi.
  split; [cbn; by rewrite (identity_revision _ _ Hi)|]. rewrite <- Hi in Hp4.
  by eapply progress_core.
Qed.

Ltac by_core L := twp_step; eapply progress_step;
  [apply L|eassumption|let Hp := fresh "Hp" in intros ? ? ? Hp].
Lemma commit_records_spec kid c e staged s d0 : underway s d0 ->
  twp (commit_records session kid c e staged) (fun _ => underway) any_error s d0.
Proof.
  intros (d1 & s1 & Hd1 & Hs & Hp). unfold commit_records.
  assert (forall (m : T unit) (Q : unit -> Session -> Db -> Prop) s2 d2,
    progress session n d (identity_of s) (sessions d1) (commit_receipts d) s2 d2 ->
    m = write (attach_command kid session) -> (forall s' d',
      progress session n d (identity_of s) (sessions d1) (commit_receipts d) s' d' -> Q tt s' d') ->
    twp m Q any_error s2 d2) as Hattach.
  { intros m Q s2 d2 H2 -> HQ. eapply progress_command_step; [|exact H2|by intros []; auto].
    twp_step. split; [apply attach_command_keeps|by unfold attach_command, alter_command; repeat case_match]. }
  by_core write_call_map_core. by_core write_diagnostics_core.
  twp_step. eapply Hattach; [eassumption|done|intros ? ? Hq].
  twp_step. eapply progress_command_step; [apply disown_origin_spec|exact Hq|intros ? ? ? Hq2].
  by_core write_run_state_core.
  twp_step. eapply twp_mono; [apply write_tool_executions_spec| |done]. intros _ s8 d8 [Ha Hc].
  match goal with H : progress _ _ _ _ _ _ ?s7 ?d7, H' : actions_kept ?d7 _ |- _ =>
    pose proof (progress_actions _ _ _ _ _ _ _ _ _ _ H Ha Hc) as H8 end.
  twp_step; eapply progress_step; [apply refresh_memory_core|exact H8|intros ? ? ? H9].
  twp_step; eapply progress_step; [apply write_context_core|exact H9|intros ? ? ? H10].
  twp_step; eapply progress_step; [apply write_retention_core|exact H10|intros ? ? ? H11].
  eapply Hattach; [exact H11|done|intros sf df Hq']. exists d1, s1. split; [done|].
  pose proof (pr_identity _ _ _ _ _ _ _ _ Hq') as Hi.
  split; [by rewrite (identity_revision _ _ Hi)|]. by rewrite Hi.
Qed.

Lemma store_session_spec cid fp s config0 row rows d0 :
  sessions d0 = rows -> rows !! session = Some row -> row_revision row = stored ->
  exists row', store_session session cid fp s config0 stored d0 = (1, put_session session row' d0)
    /\ row_revision row' = revision s /\ last_commit_id row' = Some cid /\ last_commit_sha256 row' = Some fp
    /\ lease_owner row' = lease_owner row /\ lease_fence row' = lease_fence row
    /\ lease_expires_at row' = lease_expires_at row /\ row_config row' = row_config row.
Proof.
  intros <- Hr Hv. unfold store_session. rewrite Hr, Hv, Z.eqb_refl. eexists. split; [reflexivity|].
  by split_and!.
Qed.
Lemma commit_seal_spec cid kid fp c e s d0 :
  (exists i, command_id_of c = Some i /\ uuid_parse i = Some kid) -> underway s d0 ->
  twp (commit_seal session cid kid fp c config e stored)
    (fun _ s' d' => recorded session cid kid fp d d' /\ revision s' = stored + 1) any_error s d0.
Proof.
  intros Hkid (d1 & s1 & -> & Hs & Hp). unfold commit_seal. do 4 twp_step.
  match goal with H : fail_if _ _ = Ok _ |- _ => apply fail_if_ok, negb_false_iff, andb_true_iff in H as [_ Hv%Z.eqb_eq] end.
  twp_step. twp_step. clear Hs. rename Hv into Hs. rewrite Hs.
  destruct (seeded_row session s1 config d) as (row & Hrow & Hrev & Hold & Hins). fold stored in Hrow, Hrev, Hins.
  set (rcpts := <[(session, cid) :=
    {| rc_command := kid; rc_fingerprint := fp; rc_expected_revision := stored;
       rc_committed_revision := stored + 1 |}]> (commit_receipts d)).
  match goal with |- twp _ _ _ _ ?x => set (d2 := x) end.
  assert (progress session n d (identity_of s) (sessions (seed_session session s1 config stored d)) rcpts s d2) as Hp2.
  { destruct Hp as [H1 H2 H3 H4 H5 H6 H7 H8]. split; [exact H1|exact H2|unfold rcpts; rewrite <- H3; reflexivity|exact H4|destruct H5 as (n' & ? & ?); exists n'; split; [lia|apply (numbered_same session n' d0); [reflexivity|done]]|exact H6|exact H7|exact H8]. }
  clearbody d2. do 3 twp_step. eapply progress_step; [apply append_event_core|exact Hp2|intros ? s3 d3 Hp3].
  twp_step. eapply progress_step; [apply final_fence_core|exact Hp3|intros ? s4 d4 Hp4].
  do 3 twp_step. match goal with |- context [store_session _ _ _ ?x _ _] => set (s5 := x) end.
  assert (revision s5 = stored + 1) as Hs5.
  { etrans; [exact (identity_revision _ _ (pr_identity _ _ _ _ _ _ _ _ Hp4))|exact Hs]. }
  destruct (store_session_spec cid fp s5 config row _ d4 (pr_sessions _ _ _ _ _ _ _ _ Hp4) Hrow Hrev)
    as (row' & Est & R1 & R2 & R3 & R4 & R5 & R6 & R7).
  clearbody s5. unfold twp at 1. cbn [fst snd]. rewrite Est. twp_step. twp_step.
  eapply twp_mono; [by apply guarded_answer| |done]. intros _ s6 d6 [Hr6 E6].
  assert (identity_of s6 = identity_of s4) as Hi6 by (unfold same_on, core_c in E6; cbn in E6; congruence).
  split.
  2:{ rewrite (identity_revision _ _ Hi6), (identity_revision _ _ (pr_identity _ _ _ _ _ _ _ _ Hp4)). exact Hs. }
  destruct Hp4 as [_ P2 P3 P4 (n' & P0 & P5) P6 P7 P8].
  assert (sessions d6 = <[session := row']> (sessions d4) /\ commit_receipts d6 = commit_receipts d4
    /\ transcript d6 = transcript d4 /\ tool_executions d6 = tool_executions d4
    /\ cancelled_runs d6 = cancelled_runs d4) as (S1 & S2 & S3 & S4 & S5).
  { unfold same_on, core_c in E6. change (cancelled_runs (snd (s4, put_session session row' d4))) with (cancelled_runs d4) in E6.
    cbn in E6. split_and!; congruence. }
  split.
  - exists row'. rewrite S1, P2, Hins. split_and!; [done|etrans; [exact R1|exact Hs5]|done|done|].
    intros r Hr. apply Hold in Hr as <-. done.
  - by rewrite S2, P3.
  - split; [etrans; [exact P4|by apply same_transcript]|]. exists n'. split; [lia|by eapply numbered_same].
  - eapply actions_trans; [exact P6|by apply same_actions].
  - eapply responses_trans; [exact P7|exact Hr6].
  - by rewrite S5.
Qed.
End phases.

Lemma commit_new_spec session cid kid fp c config e s d n :
  (exists i, command_id_of c = Some i /\ uuid_parse i = Some kid) -> 0 <= n <= i64_max -> numbered session n d ->
  twp (commit_new session cid kid fp c config e (sessions d !! session))
    (fun _ s' d' => recorded session cid kid fp d d' /\ revision s' = stored_revision session d + 1) any_error s d.
Proof.
  intros Hkid Hn Hd. unfold commit_new. cbv zeta. fold (stored_revision session d). twp_step. twp_step. twp_step.
  eapply twp_mono; [by apply (commit_transcript_spec session config d n)| |done]. intros staged s1 d1 H1. twp_step.
  eapply twp_mono; [by apply (commit_records_spec session config d n)| |done]. intros ? s2 d2 H2.
  by apply (commit_seal_spec session config d n).
Qed.
End facts.
