(* ===== verification/SaveFacts.v ===== *)
(** * What saving a session guarantees

    [save] may run its transaction several times, may lose the answer of one
    that was carried out, and others commit before and between its attempts.
    All the same it writes its proposal at most once, a success means the
    proposal is in the tables, and nothing is written by a worker whose revision
    or lease is not the current one. *)
From S2P Require Import Prelude Text Json Encoding Session Logic Context Diagnostics Prompt Compaction Store StoreLogic Rows Snapshot Config Retention Commit CommitFacts.
Local Open Scope string_scope.
Local Open Scope Z_scope.

Section facts.
Context `{P : Platform} `{B : Backend} `{F : Files} `{Sr : Serde}.
Hypothesis uuid_readers_agree : forall x u v, uuid_parse x = Some u -> uuid_cast x = Some v -> u = v.

(** ** Up to the counters *)
Lemma same_tables_transcript d d' : same_tables d d' -> transcript d' = transcript d.
Proof. rewrite same_tables_iff. tauto. Qed.
Lemma recorded_from session cid kid fp d0 d d' : same_tables d0 d ->
  recorded session cid kid fp d d' -> recorded session cid kid fp d0 d'.
Proof.
  rewrite same_tables_iff. intros (E1 & E2 & E3 & _ & _ & E6 & E7 & _ & _ & E10 & _) [R1 R2 R3 R4 R5 R6].
  unfold stored_revision in *. rewrite E1 in R1, R2. rewrite E10 in R2. split; [exact R1|exact R2| | | |by rewrite <- (cancelled_same d0 d)].
  - destruct R3 as [[H1 H2] H3]. rewrite E3 in H1, H2. by split.
  - intros k e He. apply R4. by rewrite E7.
  - intros k r Hr. apply R5. by rewrite E2.
Qed.
Lemma recorded_to session cid kid fp d d' d1 : same_tables d' d1 ->
  recorded session cid kid fp d d' -> recorded session cid kid fp d d1.
Proof.
  rewrite same_tables_iff. intros (E1 & E2 & E3 & _ & _ & E6 & E7 & _ & _ & E10 & _) [R1 R2 R3 R4 R5 R6].
  split; [by rewrite E1|by rewrite E10| | | |by rewrite (cancelled_same d' d1)].
  - destruct R3 as [H1 (n & H0 & H2)]. split; [|exists n; split; [done|by eapply numbered_same]].
    etrans; [exact H1|by apply same_transcript].
  - eapply actions_trans; [exact R4|by apply same_actions].
  - eapply responses_trans; [exact R5|by apply same_responses].
Qed.

(** ** The transaction *)
(** What a commit requires of the stored session. *)
Definition may_commit (session : string) (s : Session) (config : value) (d : Db) : Prop :=
  match sessions d !! session with
  | None => revision s = 0
  | Some row => row_revision row = revision s /\ anchors_kept s row config = true
      /\ exists now, fenced s row now = true
  end.
(** The proposal is in the tables already. *)
Definition already (session cid fp : string) (d : Db) : Prop :=
  (exists r, commit_receipts d !! (session, cid) = Some r /\ rc_fingerprint r = fp)
  \/ (exists row, sessions d !! session = Some row /\ last_commit_id row = Some cid
        /\ last_commit_sha256 row = Some fp).
Definition exit_spec (session cid fp : string) (config : value) (s : Session) (d : Db)
    (x : commit_exit) (s' : Session) (d' : Db) : Prop :=
  match x with
  | Replayed _ _ | Recommitted _ => s' = s /\ same_tables d d' /\ already session cid fp d
  | Committed => commit_receipts d !! (session, cid) = None
      /\ (exists kid, recorded session cid kid fp d d') /\ may_commit session s config d
      /\ revision s' = stored_revision session d + 1
  end.
Lemma check_previous_spec session row config s d : sessions d !! session = Some row ->
  twp (check_previous session row config)
    (fun _ s' d' => s' = s /\ same_tables d d' /\ may_commit session s config d) any_error s d.
Proof.
  intros Hr. unfold check_previous. repeat twp_step. subst. split_and!; [done|by apply same_tables_iff; destruct d|].
  unfold may_commit. rewrite Hr. cbn in *. rewrite Hr in *. cbn in *.
  repeat match goal with H : negb _ = false |- _ => apply negb_false_iff in H end.
  repeat match goal with H : Ok _ = Ok _ |- _ => injection H as <- end.
  split; [by apply Z.eqb_eq|]. eauto.
Qed.
Lemma may_commit_same session s config d d' : same_tables d d' -> may_commit session s config d -> may_commit session s config d'.
Proof. rewrite same_tables_iff. intros (E & _). unfold may_commit. by rewrite E. Qed.
Lemma already_same session cid fp d d' : same_tables d d' -> already session cid fp d -> already session cid fp d'.
Proof. rewrite same_tables_iff. intros (E & _ & _ & _ & _ & _ & _ & _ & _ & E' & _). unfold already. by rewrite E, E'. Qed.
Lemma commit_step session cid kid fp c config e s d d1 n :
  (exists i, command_id_of c = Some i /\ uuid_parse i = Some kid) ->
  same_tables d d1 -> commit_receipts d !! (session, cid) = None -> 0 <= n <= i64_max -> numbered session n d ->
  may_commit session s config d ->
  twp (_ ← commit_new session cid kid fp c config e (sessions d !! session); mret Committed)
    (exit_spec session cid fp config s d) any_error s d1.
Proof.
  intros Hk Hs Hr Hn Hd Hm. twp_step.
  assert (sessions d1 = sessions d) as Es by (rewrite same_tables_iff in Hs; tauto).
  rewrite <- Es. eapply twp_mono; [apply (commit_new_spec uuid_readers_agree session cid kid fp c config e s d1 n);
    [done|done|]| |done].
  { eapply numbered_same; [|done]. by apply same_tables_transcript. }
  intros _ s' d' [Hrec Hrev]. twp_step. split_and!; [done| |done|].
  - exists kid. by eapply recorded_from.
  - rewrite Hrev. unfold stored_revision. by rewrite Es.
Qed.
Lemma commit_body_spec session cid fp config e s d n : 0 <= n <= i64_max -> numbered session n d ->
  twp (commit_body session cid fp config e) (exit_spec session cid fp config s d) any_error s d.
Proof.
  intros Hn Hd. unfold commit_body, revision_of. repeat twp_step.
  assert (exists i, command_id_of a = Some i /\ uuid_parse i = Some a0) as Hk.
  { match goal with H : (_ ≫= _) = Some a0 |- _ => apply bind_Some in H as (i & ? & ?) end. eauto. }
  destruct (commit_receipts d !! (session, cid)) as [r|] eqn:Er.
  - repeat twp_step. split_and!; [done|done|]. left. exists r. split; [done|].
    match goal with H : negb _ = false |- _ => by apply negb_false_iff, String.eqb_eq in H end.
  - twp_step. eapply twp_mono; [apply guard_spec| |done]. intros [] s1 d1 (-> & -> & _).
    set (d1 := d <| time_reads ::= Datatypes.S |>).
    assert (same_tables d d1) as Hs by (apply same_tables_iff; by destruct d).
    do 4 twp_step. change (sessions d1) with (sessions d). destruct (sessions d !! session) as [row|] eqn:Ed.
    + case_bool_decide as Hl.
      * repeat twp_step. split_and!; [done|done|]. right. exists row. split_and!; [done|done|].
        match goal with H : negb _ = false |- _ => by apply negb_false_iff, bool_decide_eq_true in H end.
      * twp_step. eapply twp_mono; [by apply (check_previous_spec session row config s d1)| |done].
        intros [] s2 d2 (-> & H2 & Hm). rewrite <- Ed.
        assert (same_tables d d2) as H3 by (etrans; [exact Hs|exact H2]).
        assert (may_commit session s config d) as Hm' by (eapply may_commit_same; [|exact Hm]; by symmetry).
        exact (commit_step session cid a0 fp a config e s d d2 n Hk H3 Er Hn Hd Hm').
    + twp_step. twp_step. rewrite <- Ed.
      assert (may_commit session s config d) as Hm'.
      { unfold may_commit. rewrite Ed.
        match goal with H : negb _ = false |- _ => by apply negb_false_iff, Z.eqb_eq in H end. }
      exact (commit_step session cid a0 fp a config e s d d1 n Hk Hs Er Hn Hd Hm').
Qed.

(** ** One attempt *)
Definition all_staged (s : Session) : Prop := Forall (fun m => staged_message m = true) (memory s).
Lemma stage_messages_id {W} `{Runtime W} ms (sw : Session * W) :
  Forall (fun m => staged_message m = true) ms -> stage_messages ms sw = (Ok ms, sw).
Proof.
  intros Hs. revert sw. induction Hs as [|m ms Hm _ IH]; intros sw; [done|]. cbn [stage_messages].
  rewrite Hm, bind_run, ret_run, bind_run, IH. done.
Qed.
Lemma stage_transcript_id {W} `{Runtime W} s (w : W) : all_staged s -> stage_transcript (s, w) = (Ok tt, (s, w)).
Proof.
  intros Hs. unfold stage_transcript. mrun. rewrite (stage_messages_id (memory s)) by done. mrun. by destruct s.
Qed.

(** The identities of a proposal. *)
Definition proposal (s : Session) (config e : value) (session cid fp : string) : Prop :=
  uuid_parse (id s) = Some session
  /\ (exists p, pending_commit_id s = Some p /\ uuid_parse p = Some cid)
  /\ commit_fingerprint s config e = Ok fp.
Definition ready (s : Session) (d : Db) : Prop :=
  forall session, uuid_parse (id s) = Some session -> exists n, 0 <= n <= i64_max /\ numbered session n d.
Lemma may_commit_fingerprint session s config d f :
  may_commit session (s <| pending_commit_fingerprint := f |>) config d -> may_commit session s config d.
Proof. done. Qed.

(** An attempt leaves the tables to the others, and is a success only if the
    proposal was in them already, or it writes the proposal. *)
Definition outcome (s : Session) (config e : value) (d d' : Db) (ok : Prop) : Prop :=
  (by_others d d' /\ (ok -> exists session cid fp d1, proposal s config e session cid fp
     /\ by_others d d1 /\ already session cid fp d1))
  \/ exists session cid kid fp d1 d2, proposal s config e session cid fp /\ by_others d d1
       /\ recorded session cid kid fp d1 d2 /\ commit_receipts d1 !! (session, cid) = None
       /\ may_commit session s config d1 /\ by_others d2 d'.
Lemma outcome_later s config e d d1 d' ok : by_others d d1 -> outcome s config e d1 d' ok -> outcome s config e d d' ok.
Proof.
  intros H1 [[Hd Hok]|(session & cid & kid & fp & d2 & d3 & Hp & H2 & H3)].
  - left. split; [exact (transitivity H1 Hd)|]. intros Hk. destruct (Hok Hk) as (session & cid & fp & d2 & Hp & H2 & Ha).
    exists session, cid, fp, d2. split_and!; [done|exact (transitivity H1 H2)|done].
  - right. exists session, cid, kid, fp, d2, d3. split_and!; [done|exact (transitivity H1 H2)|apply H3..].
Qed.
(** Before the transaction an attempt only computes the identities of the proposal. *)
Lemma save_inner_run config e s d : all_staged s ->
  (exists e1, save_inner config e (s, d) = (Err e1, (s, d)))
  \/ exists session cid fp, proposal s config e session cid fp
    /\ save_inner config e (s, d) =
       match transaction (commit_body session cid fp config e) (s <| pending_commit_fingerprint := Some fp |>, d) with
       | (Ok x, (s', d')) => (Ok tt, (settle_commit x s', d'))
       | (Err e, (s', d')) => (Err e, (s', d'))
       end.
Proof.
  intros Hst. pose proof (stage_transcript_id s d Hst) as Est. revert Est.
  unfold save_inner, engine, unwrap, parse_uuid, require_ok, from_result, reject_if, protocol, fail.
  unfold mbind, T_bind, this, update. intros ->. cbn [map_err fst snd].
  destruct (uuid_parse (id s)) as [session|] eqn:Ei; cbn [ok_or]; [|eauto].
  destruct (pending_commit_id s) as [p|] eqn:Ep; cbn [ok_or]; [|eauto].
  destruct (uuid_parse p) as [cid|] eqn:Ec; cbn [ok_or]; [|eauto].
  destruct (commit_fingerprint s config e) as [fp|] eqn:Ef; [|eauto].
  destruct (is_some_and _ _); [eauto|]. right. exists session, cid, fp. split; [split_and!; eauto|].
  unfold mret, T_ret. cbn [fst snd]. by destruct (transaction _ _) as [[x|x] [s' d']].
Qed.
Lemma proposal_unique s config e session cid fp session' cid' fp' :
  proposal s config e session cid fp -> proposal s config e session' cid' fp' ->
  session = session' /\ cid = cid' /\ fp = fp'.
Proof. intros (H1 & (p & H2 & H3) & H4) (H1' & (p' & H2' & H3') & H4'). split_and!; congruence. Qed.
Lemma ready_same s d d' : same_tables d d' -> ready s d -> ready s d'.
Proof.
  intros Hs Hr session Hi. destruct (Hr session Hi) as (n & Hn & Hd). exists n. split; [done|].
  eapply numbered_same; [|done]. by apply same_tables_transcript.
Qed.
Lemma ready_recorded s session cid kid fp d d' : uuid_parse (id s) = Some session ->
  recorded session cid kid fp d d' -> ready s d'.
Proof.
  intros Hi [_ _ [_ H] _ _] session' Hi'. assert (session' = session) as -> by congruence. exact H.
Qed.

(** What is asked of the others, for the saving of the session named [i]: they
    keep the condition [I], under which its transcript is numbered, and the
    receipts. *)
Record respects (i : string) (I : Db -> Prop) : Prop := {
  respect_same : forall d d', same_tables d d' -> I d -> I d';
  respect_turn : forall d, I d -> I (intervene d)
    /\ forall k r, commit_receipts d !! k = Some r -> commit_receipts (intervene d) !! k = Some r;
  respect_own : forall session cid kid fp d d', uuid_parse i = Some session ->
    recorded session cid kid fp d d' -> I d -> I d';
  respect_ready : forall s d, id s = i -> I d -> ready s d
}.
Section attempts.
Context (i : string) (I : Db -> Prop) (HI : respects i I).
Lemma others_respect d d' : by_others d d' -> I d -> I d'.
Proof using HI. apply by_others_keeps; [apply HI|]. intros x Hx. by apply (respect_turn _ _ HI). Qed.
Lemma receipts_stay k r d d' : by_others d d' -> I d -> commit_receipts d !! k = Some r ->
  commit_receipts d' !! k = Some r.
Proof using HI.
  intros H1 H2 H3. refine (proj2 (by_others_keeps (fun x => I x /\ commit_receipts x !! k = Some r) d d' _ _ H1 (conj H2 H3))).
  - intros x y Hs [Hx Hr]. split; [by eapply HI|]. rewrite same_tables_iff in Hs.
    destruct Hs as (_ & _ & _ & _ & _ & _ & _ & _ & _ & -> & _). done.
  - intros x [Hx Hr]. destruct (respect_turn _ _ HI x Hx) as [Hx' Hr']. split; [done|by apply Hr'].
Qed.
Lemma save_inner_outcome config e s d r s' d' : all_staged s -> id s = i -> I d ->
  save_inner config e (s, d) = (r, (s', d')) -> outcome s config e d d' (is_ok r = true).
Proof using HI uuid_readers_agree.
  intros Hst Hid Hd E. destruct (save_inner_run config e s d Hst) as [(e1 & E1)|(session & cid & fp & Hprop & E1)].
  { rewrite E1 in E. injection E as <- <- <-. left. split; [done|]. done. }
  rewrite E1 in E. clear E1. pose proof Hprop as (Ei & _).
  pose proof (by_others_turn d) as Ht. pose proof (others_respect _ _ Ht Hd) as Hd0.
  destruct (respect_ready _ _ HI s _ Hid Hd0 session Ei) as (n & Hn & Hnum).
  set (s1 := s <| pending_commit_fingerprint := Some fp |>) in E.
  pose proof (commit_body_spec session cid fp config e s1 (intervene d) n Hn Hnum) as Hb.
  destruct (transaction (commit_body session cid fp config e) (s1, d)) as [rt [st dt]] eqn:Et.
  assert (d' = dt /\ (is_ok r = true -> is_ok rt = true)) as [-> Hok].
  { destruct rt as [x|x]; injection E as <- <- <-; done. }
  apply transaction_cases in Et as [[Hs (e1 & ->)]|(x & d1 & Et & Hs & Hrt)].
  { left. split; [exact (transitivity Ht (by_others_same _ _ Hs))|]. intros H1%Hok. done. }
  unfold twp in Hb. rewrite Et in Hb.
  assert (same_tables (intervene d) d1 -> already session cid fp (intervene d) ->
    outcome s config e d dt (is_ok r = true)) as Hal.
  { intros Hs1 Ha. left. split; [exact (transitivity Ht (by_others_same _ _ (transitivity Hs1 Hs)))|].
    intros _. by exists session, cid, fp, (intervene d). }
  destruct x as [rev latest|rev|].
  - destruct Hb as (-> & Hsame & Ha). by apply Hal.
  - destruct Hb as (-> & Hsame & Ha). by apply Hal.
  - destruct Hb as (Hnone & (kid & Hrec) & Hm & _). right.
    exists session, cid, kid, fp, (intervene d), d1. split_and!; [done..|by apply by_others_same].
Qed.

(** ** All attempts *)
(** Once the proposal is recorded, further attempts change nothing. *)
Lemma after_recorded s config e d0 d1 d d' ok session cid kid fp : I d1 ->
  proposal s config e session cid fp -> recorded session cid kid fp d0 d1 -> by_others d1 d ->
  outcome s config e d d' ok -> by_others d d'.
Proof using HI.
  intros Hd Hp Hrec H1 [[Hs _]|(session' & cid' & kid' & fp' & d2 & d3 & Hp' & H2 & _ & Hnone & _)]; [done|exfalso].
  destruct (proposal_unique _ _ _ _ _ _ _ _ _ Hp Hp') as (<- & <- & <-).
  assert (exists x, commit_receipts d1 !! (session, cid) = Some x) as [x Hx].
  { rewrite (re_receipt _ _ _ _ _ _ Hrec), lookup_insert_eq. eauto. }
  rewrite (receipts_stay _ _ _ _ (transitivity H1 H2) Hd Hx) in Hnone. done.
Qed.
Lemma attempt_save_outcome n staged config e s d r s' d' : all_staged staged -> id staged = i -> I d ->
  attempt_save n staged config e (s, d) = (r, (s', d')) -> outcome staged config e d d' (is_ok r = true).
Proof using HI uuid_readers_agree.
  intros Hst Hid. revert s d. induction n as [|n IH]; intros s d Hd; cbn [attempt_save snd].
  - destruct (save_inner config e (staged, d)) as [[x|x] [s1 d1]] eqn:E; intros [= <- <- <-];
      by eapply save_inner_outcome.
  - destruct (save_inner config e (staged, d)) as [[x|x] [s1 d1]] eqn:E.
    { intros [= <- <- <-]. by eapply save_inner_outcome. }
    pose proof (save_inner_outcome _ _ _ _ _ _ _ Hst Hid Hd E) as H1.
    destruct (is_transient x); [|by intros [= <- <- <-]].
    destruct H1 as [[Hs _]|(session & cid & kid & fp & d2 & d3 & Hp & H2 & Hrec & Hnone & Hm & H3)].
    + intros E2. apply IH in E2; [|by eapply others_respect]. by eapply outcome_later.
    + assert (I d3) as Hd3.
      { eapply (respect_own _ _ HI); [rewrite <- Hid; apply Hp|exact Hrec|by eapply others_respect]. }
      intros E2. apply IH in E2; [|by eapply others_respect].
      pose proof (after_recorded _ _ _ _ _ _ _ _ _ _ _ _ Hd3 Hp Hrec H3 E2) as H4.
      right. exists session, cid, kid, fp, d2, d3. split_and!; [done..|exact (transitivity H3 H4)].
Qed.
End attempts.

(** ** Before the attempts *)
(** Staging and proposing leave the tables and the session's identity alone. *)
Definition anchor_of (s : Session) :=
  (identity_of s, goal s, config_ref s, config_sha256 s, resolved_config_sha256 s).
Definition prepared (sd sd' : Session * Db) : Prop :=
  anchor_of (fst sd') = anchor_of (fst sd) /\ same_tables (snd sd) (snd sd').
#[local] Instance prepared_preorder : PreOrder prepared.
Proof.
  unfold prepared. split; [intros ?; by split|]. intros x y z [H1 H2] [H3 H4].
  split; [congruence|etrans; [exact H2|exact H4]].
Qed.
Lemma uuid_prepared : moves prepared (uuid (W := Db)).
Proof. intros sd r sd' ->%uuid_frame. split; [done|]. apply same_tables_iff. by destruct sd as [? []]. Qed.
Lemma timestamp_prepared : moves prepared (transcript_timestamp (W := Db)).
Proof. intros sd r sd' ->%timestamp_frame. split; [done|]. apply same_tables_iff. by destruct sd as [? []]. Qed.
Lemma modify_prepared f : (forall s, anchor_of (f s) = anchor_of s) -> moves prepared (modify (W := Db) f).
Proof.
  intros Hf. apply moves_modify; [try typeclasses eauto..|]. intros s d. split; [apply Hf|reflexivity].
Qed.
#[local] Hint Resolve uuid_prepared timestamp_prepared : moves.
#[local] Hint Extern 1 (moves prepared (modify _)) => apply modify_prepared; intros; repeat case_match; done : moves.
Lemma append_prepared f v : moves prepared (append (W := Db) f v).
Proof. unfold append. moves. Qed.
#[local] Hint Resolve append_prepared : moves.
Lemma stage_prepared : moves prepared (stage (W := Db)).
Proof. unfold stage. moves. Qed.
Lemma stage_messages_prepared ms : moves prepared (stage_messages (W := Db) ms).
Proof. induction ms; cbn [stage_messages]; unfold stage_message; moves; auto. Qed.
#[local] Hint Resolve stage_messages_prepared : moves.
Lemma stage_transcript_prepared : moves prepared (stage_transcript (W := Db)).
Proof. unfold stage_transcript. moves. Qed.
Lemma stage_summary_prepared v : moves prepared (stage_summary v).
Proof. unfold stage_summary. moves. Qed.
Lemma archive_record_prepared k v : moves prepared (archive_record (W := Db) k v).
Proof. unfold archive_record. moves. Qed.
#[local] Hint Resolve stage_summary_prepared archive_record_prepared : moves.
Lemma propose_prepared e : moves prepared (propose e).
Proof. unfold propose. moves. Qed.

Lemma stage_messages_staged ms s (d : Db) :
  wp (stage_messages ms) (fun ms' _ _ => Forall (fun m => staged_message m = true) ms') any_error s d.
Proof.
  revert s d. induction ms as [|m ms IH]; intros s d; cbn [stage_messages]; [wp_step; constructor|].
  apply wp_bind. apply (wp_mono _ (fun m' _ _ => staged_message m' = true) _ any_error); [|intros m' s1 d1 Hm|done].
  - destruct (staged_message m) eqn:E; [by wp_step|]. unfold stage_message, wp. by cbn.
  - apply wp_bind. eapply wp_mono; [apply IH| |done]. intros ms' s2 d2 H. wp_step. by constructor.
Qed.
Definition same_memory (sd sd' : Session * Db) : Prop := memory (fst sd') = memory (fst sd).
#[local] Instance same_memory_preorder : PreOrder same_memory.
Proof. unfold same_memory. split; [done|]. intros ? ? ? ? ?. congruence. Qed.
Lemma propose_memory e : moves same_memory (propose e).
Proof. unfold propose, stage_summary, archive_record, uuid, transcript_timestamp. moves. Qed.

(** A proposal has a new identity. *)
Definition same_pending (sd sd' : Session * Db) : Prop := pending_commit_id (fst sd') = pending_commit_id (fst sd).
#[local] Instance same_pending_preorder : PreOrder same_pending.
Proof. unfold same_pending. split; [done|]. intros ? ? ? ? ?. congruence. Qed.
Lemma modify_pending f : (forall s, pending_commit_id (f s) = pending_commit_id s) ->
  moves same_pending (modify (W := Db) f).
Proof. intros Hf. apply moves_modify; [try typeclasses eauto..|]. intros s d. apply Hf. Qed.
#[local] Hint Extern 1 (moves same_pending (modify _)) => apply modify_pending; intros; repeat case_match; done : moves.
Lemma stage_pending : moves same_pending (stage (W := Db)).
Proof. unfold stage, append. moves. Qed.
Lemma stage_messages_pending ms : moves same_pending (stage_messages (W := Db) ms).
Proof. induction ms; cbn [stage_messages]; unfold stage_message, uuid, transcript_timestamp; moves; auto. Qed.
#[local] Hint Resolve stage_messages_pending : moves.
Lemma stage_transcript_pending : moves same_pending (stage_transcript (W := Db)).
Proof. unfold stage_transcript. moves. Qed.
Lemma propose_pending e s d :
  wp (propose e) (fun _ s' _ => exists n, pending_commit_id s' = Some (uuid_at n)) any_error s d.
Proof.
  assert (forall A (m : M Db A) s d, wp m (fun _ _ _ => True) any_error s d) as Hany.
  { intros A m s1 d1. unfold wp. by destruct (m (s1, d1)) as [[?|?] [? ?]]. }
  unfold propose. do 4 (apply wp_bind; eapply wp_mono; [apply Hany|intros ? ? ? _|done]).
  unfold wp, uuid. mrun. cbn. by eexists.
Qed.

(** The session the attempts start from. *)
Lemma moves_engine {A} (R : Session * Db -> Session * Db -> Prop) f (m : M Db A) s d r s' d' :
  moves R m -> engine f m (s, d) = (r, (s', d')) -> R (s, d) (s', d').
Proof. intros Hm. unfold engine. destruct (m (s, d)) as [x sd1] eqn:E. intros [= _ ->]. by eapply Hm. Qed.
Lemma save_run text config e s d r s' d' : save text config e (s, d) = (r, (s', d')) ->
  (prepared (s, d) (s', d') /\ is_ok r = false)
  \/ exists staged d1, prepared (s, d) (staged, d1) /\ all_staged staged
       /\ (pending_commit_id s = None -> exists n, pending_commit_id staged = Some (uuid_at n))
       /\ conclude_save text staged (attempt_save 2 staged config e) (staged, d1) = (r, (s', d')).
Proof.
  unfold save, mbind, T_bind at 1.
  destruct (engine Protocol stage (s, d)) as [[[]|x] [s1 d1]] eqn:E1;
    pose proof (moves_engine _ _ _ _ _ _ _ _ stage_prepared E1) as H1; cbn [snd fst];
    [|intros [= <- <- <-]; by left].
  unfold T_bind at 1.
  destruct (engine Protocol stage_transcript (s1, d1)) as [[[]|x] [s2 d2]] eqn:E2;
    pose proof (moves_engine _ _ _ _ _ _ _ _ stage_transcript_prepared E2) as H2;
    (assert (prepared (s, d) (s2, d2)) as H3 by (etrans; [exact H1|exact H2]));
    [|intros [= <- <- <-]; by left].
  assert (all_staged s2) as Hst.
  { revert E2. unfold engine, stage_transcript. mrun.
    pose proof (stage_messages_staged (memory s1) s1 d1) as Hw. unfold wp in Hw.
    destruct (stage_messages (memory s1) (s1, d1)) as [[ms|x] [s3 d3]]; [|done]. mrun. by intros [= <- <-]. }
  unfold T_bind, this. cbn [fst snd].
  destruct (when_t (is_none (pending_commit_id s2)) (engine Protocol (propose e)) (s2, d2)) as [[[]|x] [s4 d4]] eqn:E3.
  - assert (prepared (s2, d2) (s4, d4) /\ memory s4 = memory s2) as [H4 Hm].
    { destruct (is_none _); cbn [when_t] in E3; [|by injection E3 as <- <-].
      split; [by eapply moves_engine in E3; [|apply propose_prepared]|].
      by eapply (moves_engine same_memory) in E3; [|apply propose_memory]. }
    assert (prepared (s, d) (s4, d4)) as H5 by (etrans; [exact H3|exact H4]).
    assert (pending_commit_id s = None -> exists n, pending_commit_id s4 = Some (uuid_at n)) as Hpend.
    { pose proof (moves_engine _ _ _ _ _ _ _ _ stage_pending E1) as P1.
      pose proof (moves_engine _ _ _ _ _ _ _ _ stage_transcript_pending E2) as P2. intros Hp.
      assert (pending_commit_id s2 = None) as Hp2 by (unfold same_pending in *; cbn in *; congruence).
      rewrite Hp2 in E3. cbn in E3. pose proof (propose_pending e s2 d2) as Hw. unfold wp in Hw.
      unfold engine in E3. destruct (propose e (s2, d2)) as [[[]|x] [s3 d3]]; [|done]. by injection E3 as <- <-. }
    unfold T_bind, reject_if, protocol, fail, mret, T_ret. cbn [fst snd]. destruct (needs_reload s4); [intros [= <- <- <-]; by left|].
    intros E. right. exists s4, d4. split_and!; [done| |exact Hpend|exact E]. unfold all_staged in *. by rewrite Hm.
  - intros [= <- <- <-]. left. split; [|done]. etrans; [exact H3|].
    destruct (is_none _); cbn [when_t] in E3; [|done]. eapply moves_engine; [apply propose_prepared|exact E3].
Qed.
(** What a save amounts to, whatever others commit in the meantime. *)
Definition saved (s : Session) (config : value) (d d' : Db) (ok : bool) : Prop :=
  (by_others d d' /\ (ok = true -> exists session cid fp d1,
     uuid_parse (id s) = Some session /\ by_others d d1 /\ already session cid fp d1))
  \/ exists session cid kid fp d1 d2, uuid_parse (id s) = Some session /\ by_others d d1
       /\ recorded session cid kid fp d1 d2 /\ commit_receipts d1 !! (session, cid) = None
       /\ may_commit session s config d1 /\ by_others d2 d'.
Lemma may_commit_anchor session s s' config d : anchor_of s' = anchor_of s ->
  may_commit session s' config d -> may_commit session s config d.
Proof.
  unfold anchor_of, identity_of, may_commit, anchors_kept, fenced, expected_owner. intros E.
  assert (revision s' = revision s /\ execution_owner s' = execution_owner s /\ execution_fence s' = execution_fence s
    /\ id s' = id s /\ goal s' = goal s /\ config_ref s' = config_ref s /\ config_sha256 s' = config_sha256 s
    /\ resolved_config_sha256 s' = resolved_config_sha256 s) as (E1 & E2 & E3 & E4 & E5 & E6 & E7 & E8).
  { split_and!; congruence. }
  by rewrite E1, E2, E3, E4, E5, E6, E7, E8.
Qed.
Lemma save_saved I text config e s d r s' d' : respects (id s) I -> I d ->
  save text config e (s, d) = (r, (s', d')) -> saved s config d d' (is_ok r).
Proof.
  intros HI Hd E. destruct (save_run _ _ _ _ _ _ _ _ E) as [[[_ Hs] Hok]|(staged & d1 & [Ha Hs] & Hst & _ & E1)].
  { left. split; [by apply by_others_same|]. by rewrite Hok. }
  assert (id staged = id s) as Hid by (unfold anchor_of, identity_of in Ha; cbn in Ha; congruence).
  cbn in Hs. apply by_others_same in Hs as Hs1. pose proof (others_respect _ _ HI _ _ Hs1 Hd) as Hd1.
  unfold conclude_save in E1. destruct (attempt_save 2 staged config e (staged, d1)) as [x [s2 d2]] eqn:Ex.
  assert (d' = d2 /\ is_ok r = is_ok x) as [-> ->] by (destruct x; injection E1 as <- <- <-; done).
  eapply attempt_save_outcome in Ex; [|done..]. eapply outcome_later in Ex; [|exact Hs1].
  destruct Ex as [[H1 H2]|(session & cid & kid & fp & d3 & d4 & [Hi _] & H3 & H4 & H5 & H6 & H7)].
  - left. split; [done|]. intros Hok. destruct (H2 Hok) as (session & cid & fp & d3 & [Hi _] & H3 & Hal).
    exists session, cid, fp, d3. by rewrite <- Hid.
  - right. exists session, cid, kid, fp, d3, d4. split_and!; [by rewrite <- Hid|done..|by eapply may_commit_anchor|done].
Qed.

(** ** Who respects a save *)
Definition all_numbered (d : Db) : Prop := forall session, exists n, 0 <= n <= i64_max /\ numbered session n d.
Lemma all_numbered_recorded session cid kid fp d d' :
  recorded session cid kid fp d d' -> all_numbered d -> all_numbered d'.
Proof using.
  intros [_ _ [[Hk Ho] Hd] _ _] Hn j. destruct (decide (j = session)) as [->|Hne]; [exact Hd|].
  - destruct (Hn j) as (m & H0 & Hm). exists m. split; [done|]. by eapply numbered_other; [split| |].
Qed.
(** Others that keep every transcript numbered, and the receipts. *)
Definition courteous : Prop := forall n d, all_numbered d -> all_numbered (meanwhile n d)
  /\ forall k r, commit_receipts d !! k = Some r -> commit_receipts (meanwhile n d) !! k = Some r.
Lemma courteous_respects i : courteous -> respects i all_numbered.
Proof using.
  intros Hc. assert (forall d d', same_tables d d' -> all_numbered d -> all_numbered d') as Hsame.
  { intros d d' Hs Hn session. destruct (Hn session) as (n & H0 & Hd). exists n. split; [done|].
    eapply numbered_same; [|done]. by apply same_tables_transcript. }
  split; [done| | |].
  - intros d Hd. destruct (Hc (network_reads d) d Hd) as [H1 H2]. pose proof (intervene_same d) as Hs.
    split; [by eapply Hsame|]. intros k r Hr. rewrite same_tables_iff in Hs.
    destruct Hs as (_ & _ & _ & _ & _ & _ & _ & _ & _ & -> & _). by apply H2.
  - intros session cid kid fp d d' _. apply all_numbered_recorded.
  - intros s d _ Hd session _. apply Hd.
Qed.
Lemma quiet_courteous `{!Quiet B} : courteous.
Proof using. intros n d Hd. rewrite quiet. by split. Qed.
(** A save between the commits of the others: nothing, or one recorded commit. *)
Lemma save_steps text config e s d r s' d' : courteous -> all_numbered d ->
  save text config e (s, d) = (r, (s', d')) -> exists d1 d2, by_others d d1 /\ by_others d2 d' /\ all_numbered d'
    /\ (d2 = d1 \/ exists session cid kid fp, uuid_parse (id s) = Some session /\ recorded session cid kid fp d1 d2).
Proof.
  intros Hc Hn E. pose proof (courteous_respects (id s) Hc) as HI. pose proof (others_respect _ _ HI) as Hk.
  eapply save_saved in E; [|done..]. destruct E as [[H1 _]|(session & cid & kid & fp & d1 & d2 & Hi & H1 & H2 & _ & _ & H3)].
  - exists d', d'. split_and!; [done..|by eapply Hk|by left].
  - exists d1, d2. split_and!; [done..| |right; by exists session, cid, kid, fp].
    apply (Hk _ _ H3). eapply all_numbered_recorded; [done|]. by eapply Hk.
Qed.
End facts.
