(* ===== verification/Responses.v ===== *)
(** * The response that is sent is the one that is stored

    A handler that commits its outcome stores the response of its command in
    the same transaction, and a request that repeats the command is answered
    from there.  [answered] follows the response through the commit: nothing
    after [finish] touches the command, and what [save] still does to the
    session is not serialized.  When the acknowledgement of a commit is lost,
    the second attempt finds the receipt and serializes the session as it was
    staged; the theorems are about networks that do not lose replies. *)
From S2P Require Import Prelude Text Json Encoding Session Logic Context Diagnostics Prompt Compaction Store StoreLogic Http HttpLogic Rows Snapshot Config Retention Requests AdmissionFacts Commit Load Handlers CommitFacts SaveFacts.
Local Open Scope string_scope.
Local Open Scope Z_scope.

Section facts.
Context `{P : Platform} `{B : Backend} `{F : Files} `{Sr : Serde}.

(** ** What the response is made of *)
(** The parts of the session that name it, its run, its command and its configuration. *)
Definition names (s : Session) := (command s, (config_ref s, config_sha256 s), (id s, run_id s)).
Definition names_of (sd : Session * Db) := names (fst sd).
Lemma names_identity s s' : identity_of s' = identity_of s -> names s' = names s.
Proof. unfold identity_of, names. congruence. Qed.
Lemma core_names {A} (m : T A) : tkeeps (same_on core) m -> tkeeps (same_on names_of) m.
Proof. apply tkeeps_weaken. unfold same_on, core, names_of. intros ? ? E. apply names_identity. congruence. Qed.
Lemma core_a_names {A} (m : T A) : tkeeps (same_on core_a) m -> tkeeps (same_on names_of) m.
Proof. apply tkeeps_weaken. unfold same_on, core_a, names_of. intros ? ? E. apply names_identity. congruence. Qed.
#[local] Hint Resolve core_names core_a_names : tframe.
#[local] Hint Resolve parse_uuid_core validate_previous_core validate_summary_core write_call_map_core
  write_diagnostics_core write_run_state_core refresh_memory_core write_context_core write_retention_core
  append_event_core final_fence_core guard_core write_tool_executions_core_a number_message_core : tframe.

Lemma write_entry_names i n e : tkeeps (same_on names_of) (write_entry i n e).
Proof. unfold write_entry, add_transcript. tframe. Qed.
#[local] Hint Resolve write_entry_names : tframe.
Lemma write_entries_names i n es : tkeeps (same_on names_of) (write_entries i n es).
Proof. revert n. induction es; intros; cbn [write_entries]; tframe; auto. Qed.
Lemma write_summary_names i n v : tkeeps (same_on names_of) (write_summary i n v).
Proof. unfold write_summary, add_transcript. tframe. Qed.
#[local] Hint Resolve write_entries_names write_summary_names : tframe.
Lemma write_summaries_names i n vs : tkeeps (same_on names_of) (write_summaries i n vs).
Proof. revert n. induction vs; intros; cbn [write_summaries]; tframe; auto. Qed.
#[local] Hint Resolve write_summaries_names : tframe.
Lemma commit_transcript_names i c p r : tkeeps (same_on names_of) (commit_transcript i c p r).
Proof. unfold commit_transcript. tframe. Qed.
Lemma disown_origin_names c e : tkeeps (same_on names_of) (disown_origin c e).
Proof. unfold disown_origin. tframe. Qed.
#[local] Hint Resolve disown_origin_names : tframe.
Lemma commit_records_names i k c e staged : tkeeps (same_on names_of) (commit_records i k c e staged).
Proof. unfold commit_records. tframe. Qed.

(** ** The end of a commit *)
(** The command has the response [code], [v]. *)
Definition stored_response (c : value) (code : Z) (v : value) (d : Db) : Prop :=
  exists k row, bind_uuid (command_id_of c) = Ok (Some k) /\ commands d !! k = Some row
    /\ command_status row = settled_status code /\ response_status row = Some code
    /\ response_body row = Some (jsonb v).
Lemma stored_response_same c code v d d' : same_tables d d' -> stored_response c code v d -> stored_response c code v d'.
Proof.
  rewrite same_tables_iff. intros (_ & E & _) (k & row & H1 & H2 & H3). exists k, row. by rewrite E.
Qed.
Lemma finish_answers c code v s d :
  twp (finish c code v) (fun _ s' d' => s' = s /\ stored_response c code v d') any_error s d.
Proof.
  unfold finish, guard. repeat twp_step. subst d'. rewrite H0 in H3. injection H3 as <-.
  rewrite H1 in H4. injection H4 as <-. apply negb_false_iff in H2. destruct a as [k|]; [|done]. cbn in H2.
  destruct (commands d !! k) as [row|] eqn:Ek; [|done]. cbn in H2.
  unfold command_held in H2. apply andb_true_iff in H2 as [[Hh _]%andb_true_iff _].
  twp_step. split; [done|]. exists k, (respond code v row). split; [done|].
  unfold alter_command. cbn [commands]. change (commands (d <| time_reads ::= Datatypes.S |>)) with (commands d).
  rewrite Ek, Hh. split; [apply lookup_insert_eq|done].
Qed.

(** The events whose commit stores a response, other than those of a run. *)
Definition plain_kinds : list string := ["session_created"; "user_message_appended"].
Definition code_of (kind : string) : Z := if String.eqb kind "session_created" then 201 else 200.
Definition body_for (s : Session) (m : string) : value :=
  Object [("session", session_json s); ("message", Str m)].
(** What a session that was committed as [s] leaves in the command [c]. *)
Definition answered (c : value) (kind : string) (s : Session) (d : Db) : Prop :=
  exists m, response_message kind s = Some m
    /\ stored_response c (code_of kind) (body_for (s <| pending_transcript := [] |>) m) d.
Lemma answer_command_answers c kid e kind s d : event_type e = Some kind -> kind ∈ plain_kinds ->
  twp (answer_command c kid e) (fun _ s' d' => s' = s /\ answered c kind s' d') any_error s d.
Proof.
  intros He Hk. unfold answer_command. do 2 twp_step. rewrite He. cbv zeta. cbn [unwrap_or].
  assert (str_in kind responding = true /\ String.eqb kind "run_finished" = false) as [-> ->].
  { apply elem_of_cons in Hk as [Hk|Hk%list_elem_of_singleton]; subst kind; done. }
  cbn [andb]. do 2 twp_step. eapply twp_mono; [apply finish_answers| |done].
  intros [] s' d' [-> Hst]. split; [done|]. by exists a.
Qed.
Lemma commit_seal_answers i cid kid fp c config e rev_ kind s d :
  event_type e = Some kind -> kind ∈ plain_kinds ->
  twp (commit_seal i cid kid fp c config e rev_)
    (fun _ s' d' => names s' = names s /\ answered c kind s' d') any_error s d.
Proof.
  intros He Hk. unfold commit_seal.
  do 9 twp_step. eapply (twp_keeps (same_on names_of)); [apply core_names, append_event_core| |done].
  intros _ s1 d1 E1. twp_step. eapply (twp_keeps (same_on names_of)); [apply core_names, final_fence_core| |done].
  intros _ s2 d2 E2. do 3 twp_step. unfold twp at 1. cbn [fst snd].
  destruct (store_session _ _ _ _ _ _ d2) as [rows d3]. do 3 twp_step.
  eapply (twp_keeps (same_on names_of)); [apply core_names, guard_core| |done]. intros _ s4 d4 E4.
  eapply twp_mono; [by apply answer_command_answers| |done]. intros _ s5 d5 [-> Ha]. split; [|exact Ha].
  unfold same_on, names_of in *. cbn in *. congruence.
Qed.
Lemma commit_new_answers i cid kid fp c config e p kind s d :
  event_type e = Some kind -> kind ∈ plain_kinds ->
  twp (commit_new i cid kid fp c config e p)
    (fun _ s' d' => names s' = names s /\ answered c kind s' d') any_error s d.
Proof.
  intros He Hk. unfold commit_new. cbv zeta. do 2 twp_step.
  twp_step. eapply (twp_keeps (same_on names_of)); [apply commit_transcript_names| |done]. intros staged s1 d1 E1.
  twp_step. eapply (twp_keeps (same_on names_of)); [apply commit_records_names| |done]. intros _ s2 d2 E2.
  eapply twp_mono; [by apply commit_seal_answers| |done]. intros _ s3 d3 [E3 Ha]. split; [|exact Ha].
  exact (eq_trans E3 (eq_trans E2 E1)).
Qed.

(** ** The whole of [save] *)
(** No commit was made under the identity [cid] for the session. *)
Definition unused (session cid : string) (d : Db) : Prop :=
  commit_receipts d !! (session, cid) = None
  /\ forall row, sessions d !! session = Some row -> last_commit_id row <> Some cid.
Lemma unused_same session cid d d' : same_tables d d' -> unused session cid d -> unused session cid d'.
Proof. rewrite same_tables_iff. unfold unused. by intros (-> & _ & _ & _ & _ & _ & _ & _ & _ & -> & _). Qed.
(** Nor do the others make one. *)
Definition unclaimed (session cid : string) (d : Db) : Prop := forall d', by_others d d' -> unused session cid d'.
Lemma unclaimed_others session cid d d' : by_others d d' -> unclaimed session cid d -> unclaimed session cid d'.
Proof. intros H1 Hu d2 H2. apply Hu. exact (transitivity H1 H2). Qed.
Lemma commit_body_answers session cid fp config e kind s d c :
  command s = Some c -> event_type e = Some kind -> kind ∈ plain_kinds -> unused session cid d ->
  twp (commit_body session cid fp config e)
    (fun x s' d' => x = Committed /\ names s' = names s /\ answered c kind s' d') any_error s d.
Proof.
  intros Hc He Hk [Hr Hl]. unfold commit_body. do 10 twp_step. rewrite Hc in H. injection H as <-.
  do 2 twp_step. rewrite Hr. twp_step. eapply twp_mono; [apply guard_spec| |done]. intros [] s1 d1 (-> & -> & _).
  do 4 twp_step. change (sessions (d <| time_reads ::= Datatypes.S |>)) with (sessions d).
  assert (forall p s0 d0, names s0 = names s -> twp (_ ← commit_new session cid a0 fp c config e p; mret Committed)
    (fun x s' d' => x = Committed /\ names s' = names s /\ answered c kind s' d') any_error s0 d0) as Hnew.
  { intros p s0 d0 E0. twp_step. eapply twp_mono; [by apply commit_new_answers| |done].
    intros _ s2 d2 [E2 Ha]. twp_step. split_and!; [done|congruence|done]. }
  destruct (sessions d !! session) as [row|] eqn:Es.
  - rewrite bool_decide_eq_false_2 by by apply Hl. twp_step.
    eapply (twp_keeps (same_on names_of)); [apply core_names, check_previous_core| |done]. intros _ s2 d2 E2. by apply Hnew.
  - do 2 twp_step. by apply Hnew.
Qed.

Hypothesis no_lost_reply : forall n l, network n <> LostReply l.
(** Without lost replies a transaction that fails did nothing, and one that
    succeeds did what its body does to the tables as the others have left them. *)
Lemma transaction_plain {A} (m : T A) s d r s' d' : transaction m (s, d) = (r, (s', d')) ->
  match r with
  | Err _ => by_others d d'
  | Ok a => exists d0 d1, by_others d d0 /\ m (s, d0) = (Ok a, (s', d1)) /\ same_tables d1 d'
  end.
Proof.
  pose proof (by_others_turn d) as Ht.
  assert (forall d2, by_others d (roll_back (intervene d) d2)) as Hb.
  { intros d2. exact (transitivity Ht (by_others_same _ _ (roll_back_same _ _))). }
  unfold transaction. cbn [fst snd]. destruct (m (s, intervene d)) as [[a|e] [s1 d1]] eqn:E.
  - pose proof (no_lost_reply (network_reads d1)) as Hn.
    destruct (network (network_reads d1)) as [|l|l]; intros [= <- <- <-]; [|apply Hb|by destruct (Hn l)].
    exists (intervene d), d1. split_and!; [done..|]. apply same_tables_iff. by destruct d1.
  - intros [= <- <- <-]. apply Hb.
Qed.

(** What the attempts of a save find free. *)
Definition vacant (s : Session) (d : Db) : Prop := forall session p cid, uuid_parse (id s) = Some session ->
  pending_commit_id s = Some p -> uuid_parse p = Some cid -> unclaimed session cid d.
Lemma vacant_others s d d' : by_others d d' -> vacant s d -> vacant s d'.
Proof. intros Hs Hv session p cid H1 H2 H3. eapply unclaimed_others; [exact Hs|by eapply Hv]. Qed.
(** The outcome of the attempts: nothing, or the response is stored. *)
Definition attempted (c : value) (kind : string) (s : Session) (d : Db) (r : result db_error unit) (s' : Session)
    (d' : Db) : Prop :=
  match r with
  | Err _ => by_others d d'
  | Ok _ => exists s1, s' = settle_commit Committed s1 /\ names s1 = names s /\ answered c kind s1 d'
  end.
Section attempts.
Context (c : value) (kind : string) (config e : value).
Hypothesis He : event_type e = Some kind.
Hypothesis Hk : kind ∈ plain_kinds.
Lemma save_inner_answers s d r s' d' : command s = Some c -> all_staged s -> vacant s d ->
  save_inner config e (s, d) = (r, (s', d')) -> attempted c kind s d r s' d'.
Proof.
  intros Hc Hst Hv. destruct (save_inner_run config e s d Hst) as [(e1 & ->)|(session & cid & fp & Hp & ->)].
  { intros [= <- <- <-]. cbn. reflexivity. }
  destruct Hp as (Hi & (p & Hp & Hcid) & _). specialize (Hv session p cid Hi Hp Hcid).
  destruct (transaction _ _) as [x [s1 d1]] eqn:E. apply transaction_plain in E.
  destruct x as [x|x]; intros [= <- <- <-]; [|exact E]. destruct E as (d0 & d2 & H0 & E & Hs).
  set (s2 := s <| pending_commit_fingerprint := Some fp |>) in E.
  pose proof (commit_body_answers session cid fp config e kind s2 d0 c Hc He Hk (Hv _ H0)) as Hb.
  unfold twp in Hb. rewrite E in Hb. destruct Hb as (-> & Hn & m & Hm & Ha).
  exists s1. split_and!; [done|exact Hn|]. exists m. split; [done|]. eapply stored_response_same; [exact Hs|exact Ha].
Qed.
Lemma attempt_save_answers n staged s d r s' d' : command staged = Some c -> all_staged staged -> vacant staged d ->
  attempt_save n staged config e (s, d) = (r, (s', d')) -> attempted c kind staged d r s' d'.
Proof.
  intros Hc Hst. revert s d. induction n as [|n IH]; intros s d Hv; cbn [attempt_save snd];
    destruct (save_inner config e (staged, d)) as [[[]|x] [s1 d1]] eqn:E; apply save_inner_answers in E; try done.
  1-3: by intros [= <- <- <-].
  destruct (is_transient x); [|by intros [= <- <- <-]]. intros E1. apply IH in E1; [|by eapply vacant_others].
  destruct r; [|exact (transitivity E E1)]. exact E1.
Qed.
(** What [save] does to the session after the commit is not in the response. *)
Lemma settled_json s : session_json (remember_summaries (settle_commit Committed s))
  = session_json (s <| pending_transcript := [] |>).
Proof. by destruct s. Qed.
Lemma save_answers text s d ack s' d' : command s = Some c -> pending_commit_id s = None ->
  (forall session n cid, uuid_parse (id s) = Some session -> uuid_parse (uuid_at n) = Some cid -> unclaimed session cid d) ->
  save text config e (s, d) = (Ok ack, (s', d')) ->
  names s' = names s /\ exists m, response_message kind s' = Some m
    /\ stored_response c (code_of kind) (body_for s' m) d'.
Proof.
  intros Hc Hp Hfree E.
  destruct (save_run _ _ _ _ _ _ _ _ E) as [[_ ?]|(staged & d1 & [Ha Hs] & Hst & Hpend & E1)]; [done|].
  destruct (Hpend Hp) as (n & Hn). cbn in Hs.
  assert (identity_of staged = identity_of s) as Hi by (unfold anchor_of in Ha; cbn [fst] in Ha; congruence).
  assert (names staged = names s) as Hnames by by apply names_identity.
  assert (id staged = id s) as Hid by (unfold identity_of in Hi; congruence).
  assert (command staged = Some c) as Hc' by (unfold names in Hnames; congruence).
  unfold conclude_save in E1.
  destruct (attempt_save 2 staged config e (staged, d1)) as [[[]|x] [s2 d2]] eqn:Ex; [|done].
  injection E1 as <- <- <-. apply attempt_save_answers in Ex; [|done|done|].
  - destruct Ex as (s3 & -> & Hn3 & m & Hm & Hst3). split; [exact (eq_trans Hn3 Hnames)|]. exists m. split.
    + destruct Hm. clear -Hk. apply elem_of_cons in Hk as [Hk|Hk%list_elem_of_singleton]; by subst kind.
    + unfold body_for in *. by rewrite settled_json.
  - intros session p cid H1 H2 H3. eapply unclaimed_others; [by apply by_others_same|]. apply (Hfree session n); congruence.
Qed.
Lemma save_spec text s d : command s = Some c -> pending_commit_id s = None ->
  (forall session n cid, uuid_parse (id s) = Some session -> uuid_parse (uuid_at n) = Some cid -> unclaimed session cid d) ->
  twp (save text config e) (fun _ s' d' => names s' = names s /\ exists m, response_message kind s' = Some m
    /\ stored_response c (code_of kind) (body_for s' m) d') any_error s d.
Proof.
  intros Hc Hp Hfree. unfold twp. destruct (save text config e (s, d)) as [[ack|x] [s' d']] eqn:E; [|done].
  by eapply save_answers.
Qed.
End attempts.

(** ** Reading a session *)
(** A proposal is never part of a stored session: the field is not serialized. *)
Hypothesis proposal_not_restored : forall v s, session_of v = Ok s -> pending_commit_id s = None.
Definition proposing (sd sd' : Session * Db) : Prop :=
  pending_commit_id (fst sd') = pending_commit_id (fst sd) /\ snd sd' = snd sd.
#[local] Instance proposing_preorder : PreOrder proposing.
Proof. unfold proposing. split; [done|]. intros ? ? ? [] []. split; congruence. Qed.
Lemma modify_proposing f : (forall s, pending_commit_id (f s) = pending_commit_id s) ->
  moves proposing (modify (W := Db) f).
Proof. intros Hf. apply moves_modify; [try typeclasses eauto..|]. intros s d. split; [apply Hf|done]. Qed.
#[local] Hint Extern 1 (moves proposing (modify _)) =>
  apply modify_proposing; intros; unfold refresh_completeness; repeat case_match; done : moves.
Lemma stage_proposing : moves proposing (stage (W := Db)).
Proof. unfold stage, append. moves. Qed.
#[local] Hint Resolve stage_proposing : moves.
Lemma hydrate_proposing records counts : moves proposing (hydrate (W := Db) records counts).
Proof. unfold hydrate, hydrate_family, restore_row, check_legacy. moves. Qed.
Lemma load_body_spec i s d : twp (load_body i)
  (fun x s' d' => pending_commit_id (fst x) = None /\ d' = d) any_error s d.
Proof.
  unfold load_body. repeat twp_step. destruct a as [r cx]. repeat twp_step. apply twp_from_result; [intros p _|done].
  repeat twp_step.
  match goal with H : map_err Protocol (session_of ?v) = Ok ?x |- _ => rename x into restored;
    assert (pending_commit_id restored = None) as Hp by
      (destruct (session_of v) eqn:Es; [injection H as <-; by eapply proposal_not_restored|done]) end.
  eapply (twp_keeps proposing); [apply tkeeps_engine, hydrate_proposing| |done].
  intros _ s1 d1 [E1 E2]. cbn in E1, E2.
  repeat twp_step. cbn [fst]. split; [congruence|exact E2].
Qed.
(** A transaction that only reads. *)
Lemma twp_transaction_reads {A} (m : T A) (Q : A -> Prop) s d :
  (forall d, twp m (fun a _ d' => Q a /\ same_tables d d') any_error s d) ->
  twp (transaction m) (fun a _ d' => Q a /\ by_others d d') (fun _ _ d' => by_others d d') s d.
Proof.
  unfold twp at 1. intros Hm. unfold twp. destruct (transaction m (s, d)) as [r [s' d']] eqn:E.
  apply transaction_plain in E. destruct r as [a|e]; [|exact E]. destruct E as (d0 & d1 & H0 & E & Hs).
  specialize (Hm d0). rewrite E in Hm. destruct Hm as [Ha Hd]. split; [exact Ha|].
  exact (transitivity H0 (by_others_same _ _ (transitivity Hd Hs))).
Qed.

(** ** The handlers *)
Section handlers.
Context {X : Type}.
Implicit Types w : Server X.
Notation any_stop := (fun _ _ => True).
Definition found_idle (x : option (Session * value)) : Prop := forall s c, x = Some (s, c) -> pending_commit_id s = None.
Lemma hwp_load raw (Q : option (Session * value) -> Server X -> Prop) w :
  (forall x w', found_idle x -> spectated w w' -> Q x w') -> hwp (load raw) Q any_stop w.
Proof.
  intros HQ. unfold load. destruct (uuid_parse raw) as [i|]; [|hwp_step; by apply HQ].
  hwp_step. apply hwp_on_tables. eapply twp_mono.
  - apply (twp_transaction_reads _ (fun x => pending_commit_id (fst x) = None)). intros d.
    eapply twp_mono; [apply load_body_spec| |done]. intros x s' d' [H ->]. by split.
  - intros [s c] s' d' [Hp Hs]. hwp_step. apply HQ; [by intros ? ? [= <- <-]|by apply spectated_db].
  - intros e s' d' Hs. destruct e; try done; hwp_step; (apply HQ; [done|by apply spectated_db]).
Qed.
Lemma hwp_with_lock {A} raw refused (m : H X A) (Q : A -> Server X -> Prop) w :
  (forall w', db w' = db w -> hwp m (fun a v => Q a (unlock raw v)) any_stop w') ->
  hwp (with_lock raw refused m) Q any_stop w.
Proof.
  intros Hm. unfold with_lock, session_lock. apply hwp_bind. unfold hwp at 1.
  case_bool_decide; [done|]. unfold hwp in *. cbn [fst snd].
  match goal with |- context [m ?w1] => specialize (Hm w1 eq_refl); by destruct (m w1) as [[a|e] w'] end.
Qed.
Lemma hwp_answer_errors errors (Q : unit -> Server X -> Prop) w : Q tt w -> hwp (answer_errors errors) Q any_stop w.
Proof. by destruct errors. Qed.
Lemma hwp_answer_error error (Q : unit -> Server X -> Prop) w : Q tt w -> hwp (answer_error error) Q any_stop w.
Proof. by destruct error. Qed.
Lemma hwp_on_tables_reads {A} (m : T A) (Q : result db_error A -> Server X -> Prop) w :
  twp m (fun _ _ d' => by_others (db w) d') (fun _ _ d' => by_others (db w) d') no_session (db w) ->
  (forall r w', spectated w w' -> Q r w') -> hwp (on_tables m) Q any_stop w.
Proof.
  intros Hm HQ. apply hwp_on_tables. eapply twp_mono; [exact Hm| |].
  - intros a s' d' Hs. by apply HQ, spectated_db.
  - intros e s' d' Hs. destruct e; try done; by apply HQ, spectated_db.
Qed.
(** No commit is made under an identity that is still to be drawn, before or
    by the others. *)
Definition fresh (d : Db) : Prop := forall session n cid, uuid_parse (uuid_at n) = Some cid -> unclaimed session cid d.
Lemma fresh_others d d' : by_others d d' -> fresh d -> fresh d'.
Proof. intros Hs Hf session n cid H. eapply unclaimed_others; [exact Hs|by eapply Hf]. Qed.
Lemma fresh_spectated w w' : spectated w w' -> fresh (db w) -> fresh (db w').
Proof. intros [H _ _]. by apply fresh_others. Qed.
(** The response is [code], [v], and the command has it. *)
Definition durable (c : value) (code : Z) (r : Response) w : Prop :=
  exists v, r = json_response code v /\ stored_response c code v (db w).
Lemma hwp_saved text config e kind c s w (Q : result db_error (option CheckpointAck) * Session -> Server X -> Prop) :
  event_type e = Some kind -> kind ∈ plain_kinds -> command s = Some c -> pending_commit_id s = None -> fresh (db w) ->
  (forall ack s' w' m, names s' = names s -> response_message kind s' = Some m ->
     stored_response c (code_of kind) (body_for s' m) (db w') -> Q (Ok ack, s') w') ->
  (forall x s' w', Q (Err x, s') w') ->
  hwp (in_session (save text config e) s) Q any_stop w.
Proof.
  intros He Hk Hc Hp Hf HQ HE. apply hwp_in_session. eapply twp_mono.
  - apply (save_spec c kind config e He Hk text s (db w) Hc Hp). intros session n cid _ Hn. by apply (Hf session n).
  - intros ack s' d' [Hn (m & Hm & Hst)]. by apply (HQ ack s' _ m).
  - intros x s' d' _. destruct x; try done; apply HE.
Qed.
Variables (text : db_error -> string) (env : string -> option string) (root : string).
Lemma hwp_resolve ref frozen (Q : result string (Config * value * string) -> Server X -> Prop) w :
  (forall x, Q x w) -> hwp (resolve_config env root ref frozen) Q any_stop w.
Proof.
  intros HQ. unfold resolve_config. destruct (is_object _); [|apply hwp_ret, HQ].
  destruct (config_of _); [|apply hwp_ret, HQ]. hwp_step. hwp_step; [|done]. apply hwp_ret, HQ.
Qed.
Lemma create_durable q c w : get "_command" q = Some c -> fresh (db w) ->
  hwp (create text env root q) (durable c 201) any_stop w.
Proof.
  intros Hc Hf. unfold create. hwp_step. apply hwp_answer_error. hwp_step. apply hwp_answer_errors.
  do 2 hwp_step; [|done]. cbv zeta. rename a into goal_.
  hwp_step. apply hwp_resolve. intros resolved. hwp_step. apply hwp_answer_err; [|done].
  intros [[c0 raw] source] _. hwp_step. apply hwp_answer_err; [|done]. intros hashed _.
  hwp_step. destruct (find_first _ _); [done|]. apply hwp_ret. hwp_step.
  set (ref := relative_ref root _).
  match goal with |- hwp _ ?K any_stop _ => assert (forall g w', spectated w w' -> K g w') as Hrest end.
  { intros g w1 Hw1. hwp_step. apply hwp_answer_err; [|done]. intros i _. hwp_step.
    eapply (hwp_saved text _ _ "session_created" c); [done|by left|exact Hc|done|by eapply fresh_spectated| |by intros].
    intros ack s' w2 m Hn Hm Hst. hwp_step. apply hwp_answer_err; [|done]. intros _ _.
    do 2 hwp_step; [|done]. hwp_step. eexists. split; [reflexivity|].
    unfold response_message in Hm. cbn in Hm. injection Hn as _ Hr Hh. rewrite Hr, Hh in Hm. cbn [mbind option_bind] in Hm.
    rewrite H0 in Hm. injection Hm as <-. exact Hst. }
  match goal with |- hwp (match ?o with Some _ => _ | None => _ end) _ _ _ => destruct o end;
    [apply hwp_ret; by apply Hrest|]. apply hwp_on_tables_reads; [|exact Hrest].
  apply twp_uuid. intros d' Hd. by apply by_others_same.
Qed.
(** Appending a message draws an identity and a timestamp. *)
Definition appending (sd sd' : Session * Db) : Prop :=
  (pending_commit_id (fst sd'), command (fst sd')) = (pending_commit_id (fst sd), command (fst sd))
  /\ same_tables (snd sd) (snd sd').
#[local] Instance appending_preorder : PreOrder appending.
Proof. unfold appending. split; [done|]. intros ? ? ? [E1 ?] [E2 ?]. split; [congruence|by etrans]. Qed.
Lemma append_appending m : moves appending (append_message (W := Db) m).
Proof.
  unfold append_message. apply moves_bind; [apply _| |intros ?; apply moves_bind; [apply _| |intros ?]].
  - intros sd r sd' ->%uuid_frame. split; [done|]. apply same_tables_iff. by destruct sd as [? []].
  - intros sd r sd' ->%timestamp_frame. split; [done|]. apply same_tables_iff. by destruct sd as [? []].
  - apply moves_modify; [try typeclasses eauto..|]. intros s d. by split.
Qed.
Lemma message_durable raw q c w : get "_command" q = Some c -> fresh (db w) ->
  hwp (message text raw q) (durable c 200) any_stop w.
Proof.
  intros Hc Hf. unfold message. hwp_step. apply hwp_answer_error. apply hwp_with_lock. intros w1 E1.
  assert (fresh (db w1)) as Hf1 by by rewrite E1. clear E1 Hf w.
  hwp_step. unfold message_check. destruct (get "content" q) as [v|]; [|done]. apply hwp_answer_error.
  hwp_step. apply hwp_load. intros x w2 Hx Hw2. hwp_step. apply hwp_answer_none; [|done]. intros [s cfg_] ->.
  specialize (Hx s cfg_ eq_refl). hwp_step. apply hwp_answer_if; [intros _|done]. do 2 hwp_step; [|done]. hwp_step.
  apply hwp_in_session. apply twp_bind. eapply (twp_keeps appending); [apply tkeeps_engine, append_appending| |].
  2:{ intros e s' d' _. destruct e; try done; hwp_step; apply hwp_answer_err; done. }
  intros _ s3 d3 [E3 Hs3]. cbn [fst snd] in E3, Hs3. injection E3 as Ep Ec. cbn in Ep, Ec.
  pose proof (fresh_others _ _ (by_others_same _ _ Hs3) (fresh_spectated _ _ Hw2 Hf1)) as Hf3.
  eapply twp_mono; [apply (save_spec c "user_message_appended"); [done|by right; left|by rewrite Ec|by rewrite Ep|]| |].
  - intros session n cid _ Hn. by apply (Hf3 session n).
  - intros ack s' d' [Hn (m & Hm & Hst)]. hwp_step. apply hwp_answer_err; [|done]. intros _ _. hwp_step.
    eexists. split; [reflexivity|]. injection Hm as <-. exact Hst.
  - intros e s' d' _. destruct e; try done; hwp_step; apply hwp_answer_err; done.
Qed.
Lemma cancel_durable raw q c w : get "_command" q = Some c ->
  hwp (cancel_session text raw q) (durable c 200) any_stop w.
Proof.
  intros Hc. unfold cancel_session. hwp_step. apply hwp_load. intros x w1 _ _. hwp_step.
  apply hwp_answer_none; [|done]. intros _ _. do 2 hwp_step; [|done]. hwp_step. apply hwp_on_tables.
  assert (index q "_command" = c) as Hq by (unfold index; by rewrite Hc).
  unfold twp. destruct (transaction _ _) as [r [s' d']] eqn:E. apply transaction_plain in E.
  destruct r as [found|e]; [|by destruct e]. destruct E as (d0 & d1 & _ & E & Hs).
  assert (twp (cancel_body raw a q) (fun found _ d' => forall l, found = Some l ->
    stored_response c 200 (cancel_response raw l) d') any_error no_session d0) as Hb.
  { unfold cancel_body. rewrite Hq. do 2 twp_step. destruct (negb _); [by twp_step|].
    twp_step. eapply twp_mono; [apply guard_spec| |done]. intros _ s2 d2 _. do 2 twp_step.
    apply twp_bind. unfold apply_db, twp at 1. cbn [fst snd]. destruct (request_cancel _ d2) as [l d3].
    twp_step. eapply twp_mono; [apply finish_answers| |done]. intros _ s4 d4 [_ Hst]. twp_step. by intros ? [= <-]. }
  unfold twp in Hb. rewrite E in Hb. hwp_step. apply hwp_answer_err; [|done]. intros f [= <-]. hwp_step.
  apply hwp_answer_none; [|done]. intros l ->. hwp_step. exists (cancel_response raw l). split; [done|].
  eapply stored_response_same; [exact Hs|]. by apply Hb.
Qed.
End handlers.
End facts.

(** * Properties *)
Section properties.
Context `{P : Platform} `{B : Backend} `{F : Files} `{Sr : Serde} {X : Type}.
(** A repetition of the request is answered by [code], [v]. *)
Definition repeated (c : value) (code : Z) (v : value) (d : Db) : Prop :=
  forall a k row, bind_uuid (command_id_of c) = Ok (Some k) ->
    find_command (asked_namespace a) (asked_key a) d = Some (k, row) -> other_request a row = false ->
    response_code (known_response a k row) = code /\ body_of (known_response a k row) = Some (jsonb v).
Definition sent_as_stored (c : value) (code : Z) (r : Response) (w : Server X) : Prop :=
  exists v, r = json_response code v /\ stored_response c code v (db w) /\ repeated c code v (db w).
Lemma durable_repeats c code r (w : Server X) : durable c code r w -> sent_as_stored c code r w.
Proof.
  intros (v & Hr & Hs). exists v. split_and!; [done..|]. intros a k row Hk Hf Ho.
  destruct Hs as (k' & row' & Hk' & Hrow & _ & E1 & E2). rewrite Hk in Hk'. injection Hk' as <-.
  apply find_command_row in Hf as (Hf & _). rewrite Hrow in Hf. injection Hf as <-.
  unfold known_response. by rewrite Ho, E1, E2.
Qed.
Lemma hwp_ok {A} (m : H X A) (Q : A -> Server X -> Prop) w a w' :
  hwp m Q (fun _ _ => True) w -> m w = (Ok a, w') -> Q a w'.
Proof. unfold hwp. intros Hm E. by rewrite E in Hm. Qed.

End properties.
