(* ===== verification/Run.v ===== *)
(** * The run loop ([Engine::run], [settle_pending], [observe_progress])

    A run takes decisions until the session leaves the active state or the
    step allowance is used up.  A decision is an answer, a batch of tool calls
    or an invalid response; every change is checkpointed before the next
    decision is asked for. *)
From S2P Require Import Prelude Text Json Encoding Session Logic Context Diagnostics Outcome Workflow Prompt Tools Checkpoint Actions Wire Compaction.
Local Open Scope string_scope.
Local Open Scope Z_scope.

Definition interim (step : string) (data : value) : value :=
  Object [("type", Str "interim_result"); ("step", Str step); ("data", data)].
Definition limit_event (code : string) (message : option string) : value :=
  Object [("type", Str "error"); ("code", Str code); ("message", of_opt_str message); ("recoverable", Bool true)].

Section run.
Context {W : Type} `{P : Platform} `{H : Host W} (config : Config).

(** ** Progress *)
Definition no_progress_limit : option Z := get_u64 "max_no_progress_steps" (execution config).
Definition observe_progress (before : string) : M W unit :=
  s ← get_session;
  let current := progress_fingerprint_of config s in
  if negb (String.eqb current before) then
    modify (fun s => s <| no_progress_steps := 0 |> <| progress_fingerprint := Some current |>)
  else
    _ ← modify (fun s => s <| no_progress_steps ::= fun n => add_usize n 1 |>
                           <| progress_fingerprint := Some current |>);
    match no_progress_limit with
    | None => mret tt
    | Some limit =>
        s ← get_session;
        let guidance := unwrap_or (instruction config s)
              "Obtain new tool evidence or return the verified final deliverables." in
        let warning_at := Z.max (limit / 2) 1 in
        _ ← when_ (no_progress_steps s =? warning_at) (
          let feedback := "No new task evidence in " +:+ show_Z (no_progress_steps s)
                +:+ " decisions. Repeating a successful call does not complete missing requirements."
                +:+ nl +:+ guidance in
          _ ← append_message (msg "user" (Some feedback));
          checkpoint (interim "no_progress_warning"
            (Object [("no_progress_steps", num (no_progress_steps s)); ("message", Str feedback)])));
        when_ (limit <=? no_progress_steps s) (
          let message := "No new task evidence in " +:+ show_Z limit +:+ " decisions. " +:+ guidance
                +:+ " Resume after correcting the workflow or instructions." in
          _ ← modify (fun s => s <| status := "failed" |> <| run_status := "failed" |>
                                 <| final_answer := Some message |>);
          checkpoint (limit_event "no_progress_limit" (Some message)))
    end.

(** ** Settling a batch of tool calls *)
Definition append_correlated_tool_result (call_id name_ out : string) : M W unit :=
  append_message ((msg "tool" (Some out)) <| name := Some name_ |> <| tool_call_id := Some call_id |>).
Definition call_id_of (call : value) : string := unwrap_or (get_str "id" call) "".
Definition call_name (call : value) : string := unwrap_or (get_str "name" call) "invalid_tool_call".
Definition call_args (call : value) : list (string * value) := unwrap_or (get_object "arguments" call) [].
Definition rejection_of (s : Session) (fixed_phase : option string) (call : value) : option string :=
  action_rejection config s fixed_phase (call_name call) (call_args call) (get_str "error" call).
Definition rejection_output (s : Session) (fixed_phase : option string) (name_ reason_ : string) : string :=
  "ERROR: action rejected before execution: " +:+ reason_ +:+ ". " +:+ action_feedback config s fixed_phase name_
  +:+ nl +:+ "Runtime correction: invalid tool calls were rejected before execution. Use the advertised function names and JSON argument schemas."
  +:+ nl +:+ unwrap_or (instruction config s) "".
(** What an executed call leaves in the session. *)
Definition absorb (call_id name_ : string) (args : list (string * value)) (out : string) (s : Session)
  : Session :=
  let s := capture_artifacts config s call_id name_ args out in
  let s := if is_none (workflow s) && negb (is_error_output out)
           then record_progress_output s name_ args out else s in
  Workflow.record config s name_ args out.
(** One call: whether it was rejected. *)
Definition settle_call (fixed_phase : option string) (call : value) : M W bool :=
  s ← get_session;
  let call_id := call_id_of call in
  let name_ := call_name call in
  let args := call_args call in
  let rejection := rejection_of s fixed_phase call in
  let executed := is_none rejection && allowed_in_phase_for_session config s fixed_phase name_ in
  out ← match rejection with
        | Some reason_ => gets (fun _ => rejection_output s fixed_phase name_ reason_)
        | None =>
            if executed then dispatch config call_id name_ (Object args)
            else gets (fun _ => "ERROR: tool '" +:+ name_
                        +:+ "' is disabled or not allowed in the active workflow phase.")
        end;
  _ ← when_ executed (modify (absorb call_id name_ args out));
  _ ← append_correlated_tool_result call_id name_ out;
  _ ← modify (fun s =>
        let s := s <| pending_tool_calls ::= tail |> in
        if (length (pending_tool_calls s) =? 0)%nat then s <| pending_tool_phase := None |> else s);
  _ ← checkpoint (interim "tool_completed"
        (Object [("tool", Str name_); ("output", Str out); ("tool_call_id", Str call_id);
                 ("executed", Bool executed)]));
  mret (is_some rejection).
(** [while let Some(call) = pending_tool_calls.first()]: one call leaves the
    list per iteration, so its length is enough fuel. *)
Fixpoint settle_calls (fuel : nat) (fixed_phase : option string) (rejected : bool) : M W bool :=
  match fuel with
  | O => mret rejected
  | S fuel' =>
      s ← get_session;
      match pending_tool_calls s with
      | [] => mret rejected
      | call :: _ =>
          r ← settle_call fixed_phase call;
          settle_calls fuel' fixed_phase (rejected || r)
      end
  end.
Definition step_invalid : M W bool := fun sw =>
  let '(reached, s) := increment_invalid config (fst sw) in (Ok reached, (s, snd sw)).
Definition report_limit (reached : bool) : M W unit :=
  when_ reached (
    answer ← gets final_answer;
    checkpoint (limit_event "invalid_response_limit" answer)).
Definition settle_pending : M W unit :=
  s ← get_session;
  let fixed_phase := pending_tool_phase s in
  rejected ← settle_calls (length (pending_tool_calls s)) fixed_phase false;
  if (rejected : bool) then
    s ← get_session;
    let feedback := match instruction config s with
      | Some instruction_ =>
          "Runtime correction: invalid tool calls were rejected before execution. Use the advertised function names and JSON argument schemas."
          +:+ nl +:+ instruction_
      | None => "Runtime correction: " +:+ action_feedback config s fixed_phase ""
      end in
    reached ← step_invalid;
    count ← gets consecutive_invalid_responses;
    _ ← checkpoint (interim "response_rejected"
          (Object [("code", Str "action_rejected"); ("message", Str feedback);
                   ("consecutive_invalid_responses", num count)]));
    report_limit reached
  else modify (fun s => s <| consecutive_invalid_responses := 0 |>).

(** ** One decision *)
Definition report_diagnostics (diagnostics : list value) : M W unit :=
  mfor (fun d => checkpoint (Object [("type", Str "model_request_diagnostic"); ("data", d)])) diagnostics.
Definition default_correction : string := "Return a valid tool call or a nonempty final answer.".
Definition handle_invalid (d : value) (progress_before : string) : M W unit :=
  reached ← step_invalid;
  let code := unwrap_or (as_str (index d "code")) "invalid_model_response" in
  let message := unwrap_or (as_str (index d "content")) default_correction in
  _ ← append_message (msg "user" (Some ("Runtime correction: " +:+ message
        +:+ ". Return a valid tool call or a nonempty final answer.")));
  count ← gets consecutive_invalid_responses;
  _ ← checkpoint (interim "response_rejected"
        (Object [("code", Str code); ("message", Str message); ("consecutive_invalid_responses", num count)]));
  _ ← report_limit reached;
  observe_progress progress_before.
Definition handle_final (d : value) (progress_before : string) : M W unit :=
  let x := unwrap_or (as_str (index d "content")) "" in
  s ← get_session;
  let errors := completion_errors config s x in
  match errors with
  | _ :: _ =>
      _ ← append_message (msg "assistant" (Some x));
      s' ← get_session;
      let feedback :=
        if workflow_incomplete config s
        then "Runtime correction: Workflow is incomplete. Obtain the outstanding evidence before answering."
             +:+ nl +:+ unwrap_or (instruction config s') ""
        else "Runtime correction: " +:+ join " " errors in
      _ ← append_message (msg "user" (Some feedback));
      _ ← checkpoint (interim "response_rejected"
            (Object [("code", Str "completion_rejected"); ("message", Str feedback);
                     ("errors", Array (map Str errors)); ("candidate_content", Str x)]));
      reached ← step_invalid;
      _ ← report_limit reached;
      observe_progress progress_before
  | [] =>
      when_ (complete config s) (
        _ ← modify (fun s => s <| consecutive_invalid_responses := 0 |> <| status := "complete" |>
                               <| run_status := "complete" |> <| final_answer := Some x |>);
        _ ← append_message (msg "assistant" (Some x));
        _ ← modify (fun s => s <| no_progress_steps := 0 |>);
        checkpoint (Object [("type", Str "final_result"); ("answer", Str x)]))
  end.
(** Call identities already used by the session in the database are replaced. *)
Fixpoint renew_calls (historical_ : list string) (calls : list value) : M W (list value) :=
  match calls with
  | [] => mret []
  | call :: rest =>
      call ← (if existsb (is_str (index call "id")) historical_
              then u ← uuid; mret (set "id" (Str u) call) else gets (fun _ => call));
      rest ← renew_calls historical_ rest;
      mret (call :: rest)
  end.
Definition query_historical (session : string) (ids : list string) : M W (list string) :=
  r ← world_result (historical_calls session ids); lift r.
Definition wire_call (call : value) : value :=
  Object [("id", index call "id"); ("type", Str "function");
          ("function", Object [("name", index call "name"); ("arguments", index call "raw_arguments")])].
Definition handle_tools (d : value) (progress_before : string) : M W unit :=
  let calls := unwrap_or (as_array (index d "calls")) [] in
  s ← get_session;
  calls ← (if repository s then
             historical_ ← query_historical (id s) (filter_map (fun c => as_str (index c "id")) calls);
             renew_calls historical_ calls
           else gets (fun _ => calls));
  _ ← append_message ((msg "assistant" (as_str (index d "content")))
        <| tool_calls := Some (Array (map wire_call calls)) |>);
  _ ← modify (fun s => s <| pending_tool_phase := w ← workflow s; active_phase w |>
                         <| pending_tool_calls := calls |>);
  _ ← checkpoint (Object [("type", Str "tool_batch_scheduled");
                          ("call_count", num (Z.of_nat (length calls)))]);
  _ ← settle_pending;
  observe_progress progress_before.

(** The decision as archived. *)
Definition decision_record_of (d : value) : value :=
  let calls := match as_array (index d "calls") with
    | Some calls => map (fun call =>
        Object [("id", index call "id"); ("name", index call "name");
                ("raw_arguments", index call "raw_arguments")]) calls
    | None => []
    end in
  Object [("code", index d "code"); ("type", index d "type"); ("calls", Array calls);
          ("content", index d "content"); ("parsed_decision_json", Str (python_json d))].
Definition take_decision : M W unit :=
  s ← get_session;
  let progress_before := progress_fingerprint_of config s in
  d ← decide config (prompt config s);
  let diagnostics := unwrap_or (ds ← get "_diagnostics" d; as_array ds) [] in
  let d := remove "_diagnostics" d in
  _ ← mfor (fun diagnostic =>
        _ ← modify (fun s => s <| model_request_diagnostics ::= fun l => (l ++ [diagnostic])%list |>);
        checkpoint (Object [("type", Str "model_request_diagnostic"); ("data", diagnostic)])) diagnostics;
  _ ← modify (fun s => s <| step_count ::= fun n => add64 n 1 |>);
  _ ← archive_record "model_decision" (decision_record_of d);
  if field_is "type" "invalid" d then handle_invalid d progress_before
  else if field_is "type" "final" d then handle_final d progress_before
  else handle_tools d progress_before.

(** ** The loop *)
Definition advance_phase : M W unit :=
  t ← (fun sw : Session * W => let '(t, s) := advance config (fst sw) in (Ok t, (s, snd sw)) : result string (option Transition) * (Session * W));
  match t with
  | None => mret tt
  | Some t =>
      checkpoint (Object [("type", Str "interim_result"); ("step", Str "phase_completed");
        ("phase_id", Str (from_phase t)); ("next_phase", Str (to_phase t)); ("reason", Str (reason t))])
  end.
Definition compaction_code (message : string) : string :=
  if starts_with message "context_integrity_error" then "context_integrity_error"
  else "context_budget_exceeded".
(** Compaction and its reports; [true] when the run must stop. *)
Definition compact_step : M W bool :=
  start ← gets (fun s => length (model_request_diagnostics s));
  compacted ← try_ (compact config);
  failure ← match compacted with
    | Ok true =>
        count ← gets (fun s => count_of "compaction_events" s);
        _ ← checkpoint (interim "compaction" (Object [("compaction_count", num count)]));
        mret None
    | Ok false => mret None
    | Err message => mret (Some message)
    end;
  diagnostics ← gets (fun s => drop start (model_request_diagnostics s));
  _ ← report_diagnostics diagnostics;
  match failure with
  | None => mret false
  | Some message =>
      _ ← modify (fun s => s <| status := "failed" |> <| run_status := "failed" |>
                             <| final_answer := Some message |>);
      _ ← checkpoint (limit_event (compaction_code message) (Some message));
      mret true
  end.
Fixpoint run_loop (fuel : nat) (limit : Z) : M W unit :=
  match fuel with
  | O => mret tt
  | S fuel' =>
      s ← get_session;
      if negb (String.eqb (status s) "active" && (step_count s <? limit)) then mret tt
      else
        _ ← advance_phase;
        stop ← compact_step;
        if (stop : bool) then mret tt
        else
          step ← gets step_count;
          _ ← checkpoint (Object [("type", Str "status"); ("message", Str "Agent deciding next action.");
                                  ("step_count", num step)]);
          _ ← take_decision;
          run_loop fuel' limit
  end.
Definition step_limit_message (cap : Z) : string :=
  "Step limit (" +:+ show_Z cap +:+ ") reached without a final answer. Resume with another run request.".
Definition reach_limit (cap : Z) : M W unit :=
  let x := step_limit_message cap in
  let e := Object [("code", Str "step_limit"); ("message", Str x); ("recoverable", Bool true)] in
  _ ← modify (fun s => s <| status := "failed" |> <| run_status := "failed" |>
                         <| run_termination_reason := Some "step_limit" |> <| last_error := Some e |>
                         <| final_answer := Some x |>);
  checkpoint (limit_event "step_limit" (Some x)).
Definition begin_run : M W unit :=
  _ ← modify (fun s => if is_none (progress_fingerprint s)
                       then s <| progress_fingerprint := Some (progress_fingerprint_of config s) |> else s);
  _ ← modify (fun s => s <| run_count ::= fun n => add64 n 1 |>
                         <| run_command_id := c ← command s; as_str (index c "id") |>);
  run_id_ ← uuid;
  started ← transcript_timestamp;
  _ ← modify (fun s => s <| run_id := Some run_id_ |> <| run_started_at := Some started |>
                         <| run_ended_at := None |> <| run_termination_reason := None |>
                         <| run_status := "running" |>);
  s ← get_session;
  _ ← archive_record "run_started" (Object [("fence", of_opt_num (execution_fence s));
                                            ("disconnect_policy", Str "cancel_at_boundary")]);
  checkpoint (Object [("type", Str "status"); ("message", Str "Agent run started.");
                      ("run_count", num (run_count s))]).
Definition finish_run : M W unit :=
  _ ← modify (fun s =>
        if negb (String.eqb (status s) "active") && String.eqb (run_status s) "running"
        then s <| run_status := if String.eqb (status s) "complete" then "complete" else "failed" |> else s);
  s ← get_session;
  when_ (negb (String.eqb (run_status s) "running")) (
    _ ← when_ (is_none (run_ended_at s)) (
          now ← transcript_timestamp; modify (fun s => s <| run_ended_at := Some now |>));
    modify (fun s => if is_none (run_termination_reason s)
                     then s <| run_termination_reason := Some (run_status s) |> else s)).
(** The decisions left below [limit]: enough fuel, since every iteration that
    does not stop takes one. *)
Definition run_fuel (s : Session) (limit : Z) : nat := Z.to_nat (limit - step_count s).
Definition run (max : option Z) : M W unit :=
  let cap := run_allowance config max in
  limit ← gets (fun s => add64 (step_count s) cap);
  _ ← begin_run;
  s ← get_session;
  _ ← when_ (negb (length (pending_tool_calls s) =? 0)%nat) (
        let progress_before := progress_fingerprint_of config s in
        _ ← settle_pending;
        observe_progress progress_before);
  s ← get_session;
  _ ← run_loop (run_fuel s limit) limit;
  s ← get_session;
  _ ← when_ (String.eqb (status s) "active" && (limit <=? step_count s)) (reach_limit cap);
  finish_run.
End run.
