(* ===== verification/Server.v ===== *)
(** * Running the agent on a server ([main.rs: run, lifecycle], [events.rs])

    The two handlers that run the agent take the lease of the session, hand the
    engine a checkpoint callback that commits to the database, and commit the
    outcome.  [run_host] is that callback and the rest of the engine's host, over
    the state of the server: this is where the engine of [Run] and the commit of
    [Commit] meet.  What the other tasks and workers do to the database between
    two checkpoints (heartbeats, cancellations, a take-over) and whether the
    client of a stream still reads are given by a [Schedule]. *)
From S2P Require Import Prelude Text Json Encoding Session Logic Tools Checkpoint Store Rows Snapshot Http Config Requests Commit Load Handlers Run.
Local Open Scope string_scope.
Local Open Scope Z_scope.

Record RunWorld (X : Type) := {
  server : Server X;
  (** the [AtomicI64] that carries the revision from commit to commit *)
  run_revision : Z;
  (** the acknowledgement cell shared by the clones of the session *)
  run_ack : CheckpointAck;
  (** the events the channel of the stream accepted, and the number sent *)
  run_sent : list value * nat;
  checkpoints : nat
}.
Arguments server {X} _.
Arguments run_revision {X} _.
Arguments run_ack {X} _.
Arguments run_sent {X} _.
Arguments checkpoints {X} _.
#[export] Instance eta_RunWorld X : Eta (RunWorld X) := fun w =>
  {| server := server w; run_revision := run_revision w; run_ack := run_ack w; run_sent := run_sent w;
     checkpoints := checkpoints w |}.
Definition empty_ack : CheckpointAck :=
  {| ack_needs_reload := false; ack_revision := 0; ack_next_sequence := 0; ack_memory := [];
     ack_summaries := ∅ |}.

Class Schedule := {
  (** what others do to the tables before the n-th checkpoint *)
  others : nat -> Db -> Db;
  (** whether the channel accepts the n-th event sent: the response body is there *)
  connected : nat -> bool
}.

Section server.
Context `{P : Platform} `{B : Backend} `{F : Files} `{Sr : Serde} `{Sc : Schedule} {X : Type} `{HX : Host X}.
Variable text : db_error -> string.
(** [reqwest::Client::builder().timeout(..).build()] *)
Variable build_client : Config -> result string unit.

Definition on_db (f : Db -> Db) (w : RunWorld X) : RunWorld X := w <| server ::= fun v => v <| db ::= f |> |>.
Definition tables_of (w : RunWorld X) : Db := db (server w).
(** A statement of the callback, its error as text. *)
Definition query {A} (m : T A) : Tools.Db (RunWorld X) A := fun w =>
  let '(r, d) := tables_only m (tables_of w) in (map_err text r, on_db (fun _ => d) w).
Definition outside_call {A} (f : X -> A * X) (w : RunWorld X) : A * RunWorld X :=
  let '(a, x) := f (outside (server w)) in (a, w <| server ::= fun v => v <| outside := x |> |>).

(** ** Checkpoints *)
(** [save] on the callback's clone of the session, at the carried revision. *)
Definition save_checkpoint (c event : value) (s : Session) : Tools.Db (RunWorld X) Session := fun w =>
  let d := others (checkpoints w) (tables_of w) in
  let '(r, (s', d')) := save text c event (s <| revision := run_revision w |>, d) in
  let w := (on_db (fun _ => d') w) <| checkpoints ::= S |> in
  match r with
  | Err e => (Err (text e), w)
  | Ok ack => (Ok s', w <| run_revision := revision s' |> <| run_ack ::= fun old => unwrap_or ack old |>)
  end.
Definition refuse_if (b : bool) (e : string) : Tools.Db (RunWorld X) unit := db_lift (fail_if b e).
(** [SELECT cancel_requested FROM agent_runs WHERE session_id=$1::uuid AND run_id=$2::uuid] *)
Definition cancel_requested (session run : string) : T bool :=
  i ← from_result (bind_key (Some session));
  k ← from_result (bind_key (Some run));
  found ← statement (fun _ d => (runs d !! (i, k), d));
  r ← from_result (ok_or RowNotFound found);
  mret (run_cancel_requested r).
Definition emit_run (c event : value) (s : Session) : Tools.Db (RunWorld X) unit :=
  s ← save_checkpoint c event s;
  match run_id s with
  | None => mret tt
  | Some run => cancelled ← query (cancel_requested (id s) run); refuse_if cancelled "run_cancelled"
  end.

(** ** Streams ([events.rs], [sse.rs]) *)
(** [events::decorate] *)
Definition latest_event_id (session : string) (revision_ : Z) (d : Db) : option Z :=
  last (sort_by Z.leb (map event_id (List.filter
    (fun e => String.eqb (event_session e) session && (event_revision e =? revision_)) (session_events d)))).
Definition decoration (s : Session) : T (option Z) :=
  i ← from_result (bind_key (Some (id s)));
  statement (fun _ d => (latest_event_id i (revision s) d, d)).
Definition decorated {E} (s : Session) (event : value) (found : result E (option Z)) : value :=
  let event := match command s with Some c => set "command_id" (index c "id") event | None => event end in
  let event := set "run_id" (of_opt_str (run_id s)) event in
  match found with Ok (Some n) => set "event_id" (num n) event | _ => event end.
(** [tx.send(event).await]: whether the receiver was still there *)
Definition send (event : value) (sent : list value * nat) : bool * (list value * nat) :=
  let '(events, n) := sent in
  if connected n then (true, ((events ++ [event])%list, S n)) else (false, (events, S n)).
Definition stream_cancelled (run : string) : T bool :=
  k ← from_result (bind_key (Some run));
  statement (fun _ d => (existsb (fun e => String.eqb (snd (fst e)) k && run_cancel_requested (snd e))
                           (map_to_list (runs d)), d)).
Definition cancel_run (run : string) : T unit :=
  k ← from_result (bind_key (Some run));
  statement (fun _ d => (tt, snd (request_cancel (fun key _ => String.eqb (snd key) k) d))).
Definition emit_stream (c event : value) (s : Session) : Tools.Db (RunWorld X) unit :=
  s ← save_checkpoint c event s;
  cancelled ← (match run_id s with
               | None => mret false
               | Some run => query (stream_cancelled run)
               end);
  _ ← refuse_if cancelled "run_cancelled";
  reached ← (fun w =>
    let '(found, w) := query (decoration s) w in
    let '(b, sent) := send (decorated s event found) (run_sent w) in
    (Ok b, w <| run_sent := sent |>));
  if (reached : bool) then mret tt
  else
    _ ← (match run_id s with
         | None => mret tt
         | Some run => fun w => (Ok tt, snd (query (cancel_run run) w))
         end);
    db_lift (Err "run_cancelled").
(** The watcher of a dropped response body, one of the [others]. *)
Definition disconnect (session owner : string) (fence : Z) (d : Db) : Db :=
  snd (request_cancel (fun key r => String.eqb (fst key) session && String.eqb (run_owner r) owner
                                    && (run_fence r =? fence)) d).

(** ** The engine's host on a server *)
Definition run_runtime : Runtime (RunWorld X) := {|
  new_uuid w := let '(i, d) := new_uuid (tables_of w) in (i, on_db (fun _ => d) w);
  now_seconds w := let '(n, d) := now_seconds (tables_of w) in (n, on_db (fun _ => d) w)
|}.
Definition run_fixtures : Tools.Database (RunWorld X) := {|
  sql_fetch q binds := outside_call (sql_fetch q binds)
|}.
(** [SELECT call_id FROM agent_session_calls WHERE session_id=$1::uuid AND call_id=ANY($2)] *)
Definition known_calls (session : string) (ids : list string) : T (list string) :=
  i ← from_result (bind_key (Some session));
  statement (fun _ d => (flat_map (fun call => match session_calls d !! (i, call) with
                                              | Some rows => map (fun _ => call) rows
                                              | None => []
                                              end) (dedup String.eqb ids), d)).
Definition run_host (checkpoint_ : value -> Session -> Tools.Db (RunWorld X) unit) : Host (RunWorld X) := {|
  host_runtime := run_runtime;
  host_database := run_fixtures;
  emit := checkpoint_;
  ack_cell w := Some (run_ack w);
  env_var name w := env_var name (outside (server w));
  http_post url token body := outside_call (http_post url token body);
  elapsed_ms := outside_call elapsed_ms;
  log_line l w := w <| server ::= fun v => v <| outside ::= log_line l |> |>;
  historical_calls session ids := query (known_calls session ids);
  receipt_query ns key := outside_call (receipt_query ns key);
  receipt_insert ns key fp request result_ := outside_call (receipt_insert ns key fp request result_);
  receipt_commit := outside_call receipt_commit;
  receipt_rollback w := w <| server ::= fun v => v <| outside ::= receipt_rollback |> |>
|}.

(** ** The session a handler owns *)
Record Owned := {
  own_session : Session;
  own_ack : CheckpointAck;
  own_lease : string * Z
}.
#[local] Instance eta_Owned : Eta Owned := fun o =>
  {| own_session := own_session o; own_ack := own_ack o; own_lease := own_lease o |}.
Definition save_owned (c event : value) (o : Owned) : H X (result db_error unit * Owned) :=
  saved ← in_session (save text c event) (own_session o);
  let '(r, s) := (saved : result db_error (option CheckpointAck) * Session) in
  let o := o <| own_session := s |> in
  mret (match r with
        | Ok ack => (Ok tt, o <| own_ack ::= fun old => unwrap_or ack old |>)
        | Err e => (Err e, o)
        end).
Definition release (session : string) (o : Owned) : H X unit :=
  _ ← on_tables (release_execution_lease session (fst (own_lease o)) (snd (own_lease o)));
  mret tt.
(** The lease is given back before the error is answered. *)
Definition owned_or {A} (session : string) (o : Owned) (r : result db_error A) : H X A :=
  match r with
  | Ok a => mret a
  | Err e => _ ← release session o; answer (internal text e)
  end.
Definition interrupted (now : string) (s : Session) : Session :=
  s <| run_status := "interrupted" |> <| run_ended_at := Some now |>
    <| run_termination_reason := Some "previous_worker_abandoned" |>.
Definition timestamp : H X string :=
  r ← on_tables (engine Protocol transcript_timestamp); answer_err (internal text) r.
(** The lease is taken, and a run another worker abandoned is marked as such. *)
Definition take_over (session : string) (s : Session) (c : value) : H X Owned :=
  acquired ← on_tables (acquire_execution_lease session);
  lease ← (match acquired with
           | Ok l => mret l
           | Err e => answer (if contains_str (text e) "ownership conflict"
                              then json_response 409 (detail (text e)) else internal text e)
           end);
  let s := s <| execution_owner := Some (fst (lease : string * Z)) |> <| execution_fence := Some (snd lease) |> in
  let o := {| own_session := s; own_ack := empty_ack; own_lease := lease |} in
  if String.eqb (run_status s) "running" then
    now ← timestamp;
    saved ← save_owned c (Object [("type", Str "run_interrupted"); ("reason", Str "previous_worker_abandoned")])
              (o <| own_session ::= interrupted now |>);
    let '(r, o) := (saved : result db_error unit * Owned) in
    _ ← owned_or session o r;
    mret o
  else mret o.

(** ** [execute] *)
(** [Duration::from_secs_f64] panics beyond the range of a [u64] of seconds. *)
Definition timeout_fits (c : Config) : bool :=
  SFleb (f64_of_Z 0) (timeout_seconds (llm c)) && SFltb (timeout_seconds (llm c)) (f64_of_Z (2 ^ 64)).
Definition run_world (o : Owned) (sent : list value * nat) (w : Server X) : RunWorld X :=
  {| server := w; run_revision := revision (own_session o); run_ack := own_ack o;
     run_sent := sent; checkpoints := 0 |}.
(** What a run leaves: the session at the carried revision, and what was sent. *)
Record Executed := {
  ex_outcome : result string unit;
  ex_owned : Owned;
  ex_sent : list value * nat
}.
Definition execute (checkpoint_ : value -> Session -> Tools.Db (RunWorld X) unit) (c q : value)
    (o : Owned) (sent : list value * nat) : H X Executed :=
  match config_of c with
  | Err e => mret {| ex_outcome := Err e; ex_owned := o; ex_sent := sent |}
  | Ok config =>
      if negb (timeout_fits config) then panic
      else
        match build_client config with
        | Err e => mret {| ex_outcome := Err e; ex_owned := o; ex_sent := sent |}
        | Ok _ => fun v =>
            let max : option Z := v ← get "max_steps" q; coerce_integer v in
            let '(r, (s, w)) := Run.run (H := run_host checkpoint_) config max
                                  ((own_session o) <| repository := true |>, run_world o sent v) in
            (Ok {| ex_outcome := r;
                   ex_owned := {| own_session := s <| revision := run_revision w |>; own_ack := run_ack w;
                                  own_lease := own_lease o |};
                   ex_sent := run_sent w |}, server w)
        end
  end.

(** ** [POST /sessions/{id}/run] *)
Definition status_or_500 (code : Z) : Z := if valid_status (code mod 65536) then code mod 65536 else 500.
Definition committed_command_response (q : value) : H X Response :=
  outcome ← on_tables (
    k ← from_result (bind_uuid (as_str (index (index q "_command") "id")));
    found ← statement (fun _ d => (k ← k; r ← commands d !! k; code ← response_status r;
                                   Some (code, response_body r), d));
    from_result (ok_or RowNotFound found));
  match outcome with
  | Ok (code, body) => b ← unwrap_h body; mret (json_response (status_or_500 code) b)
  | Err e => mret (internal text e)
  end.
Definition run_finished (status_ : string) : value :=
  Object [("type", Str "run_finished"); ("status", Str status_)].
(** The run was cancelled, or an action cannot be recovered. *)
Definition stopped (cancelled : bool) (now : string) (ack : CheckpointAck) (s : Session) : Session :=
  let reason := if cancelled then "run_cancelled" else "recovery_required" in
  let message_ := if cancelled then "Run cancelled; use /resume to recover committed work."
                  else "Safe recovery requires resolving the original action." in
  let s := if cancelled then acknowledge_committed_outboxes (Some ack) s else s in
  s <| status := "failed" |> <| run_status := if cancelled then "cancelled" else "blocked" |>
    <| run_ended_at := Some now |> <| run_termination_reason := Some reason |>
    <| final_answer := Some message_ |>
    <| last_error := Some (Object [("code", Str reason); ("message", Str message_); ("recoverable", Bool true)]) |>.
Definition run_response (c q : value) (e : Executed) : H X Response :=
  let o := ex_owned e in
  match ex_outcome e with
  | Ok _ =>
      saved ← save_owned c (run_finished (status (own_session o))) o;
      match fst (saved : result db_error unit * Owned) with
      | Ok _ => committed_command_response q
      | Err x => mret (internal text x)
      end
  | Err x =>
      let cancelled := String.eqb x "run_cancelled" in
      if cancelled || starts_with x "recovery_required" then
        now ← timestamp;
        let s := stopped cancelled now (own_ack o) (own_session o) in
        saved ← save_owned c (run_finished (run_status s)) (o <| own_session := s |>);
        let '(r, o) := (saved : result db_error unit * Owned) in
        match r with
        | Ok _ =>
            if String.eqb (run_status s) "blocked"
            then mret (json_response 202 (Object [("session", session_json (own_session o));
                                                  ("message", of_opt_str (final_answer s))]))
            else committed_command_response q
        | Err x => mret (internal text x)
        end
      else mret (json_response 502 (detail ("Model service response was invalid: " +:+ x)))
  end.
Definition run_handler (raw : string) (q : value) : H X Response :=
  _ ← answer_error (validate_body q);
  _ ← answer_error (validate_max_steps q);
  with_lock raw ownership_conflict (
    loaded ← load raw;
    found ← answer_none not_found loaded;
    let '(s, c) := (found : Session * value) in
    let s := attach s q in
    _ ← answer_if (negb (String.eqb (status s) "active"))
          (json_response 409 (detail "Session is terminal; use POST /sessions/{id}/resume to continue it."));
    session ← answer_none not_found (uuid_parse raw);
    o ← take_over session s c;
    e ← execute (emit_run c) c q o ([], 0%nat);
    r ← call (run_response c q e);
    _ ← release session o;
    mret r).
End server.
