(* ===== verification/Stream.v ===== *)
(** * Runs that are streamed ([main.rs: lifecycle], [sse.rs], [events.rs])

    [POST /run/stream] and [POST /resume] answer with the events of the run as
    they are committed.  The task that runs the agent is composed after the
    response it belongs to: the response carries the events its channel accepted
    ([Channel] models the channel itself). *)
From S2P Require Import Prelude Text Json Encoding Session Logic Tools Checkpoint Store Rows Snapshot Http Config Requests Commit Load Handlers Run Server.
Local Open Scope string_scope.
Local Open Scope Z_scope.

(** ** Frames ([EventStream::poll_next]) *)
(** The data and the identity of the server-sent event. *)
Definition frame `{Platform} (event : value) : string * option string :=
  (python_json event, show_Z <$> get_i64 "event_id" event).
Definition stream_response (events : list value) : Response :=
  {| response_code := 200;
     response_headers := [("content-type", "text/event-stream"); ("cache-control", "no-cache");
                          ("connection", "keep-alive")];
     response_payload := EventBody events |}.

Section stream.
Context `{P : Platform} `{B : Backend} `{F : Files} `{Sr : Serde} `{Sc : Schedule} {X : Type} `{HX : Host X}.
Variable text : db_error -> string.
Variable build_client : Config -> result string unit.

(** The task: the session it owns and what it has sent. *)
Record Task := {
  task_owned : Owned;
  task_sent : list value * nat
}.
#[local] Instance eta_Task : Eta Task := fun t => {| task_owned := task_owned t; task_sent := task_sent t |}.
Definition task_session (t : Task) : Session := own_session (task_owned t).
Definition tell (event : value) (t : Task) : Task := t <| task_sent ::= fun sent => snd (send event sent) |>.
Definition tell_decorated (event : value) (t : Task) : H X Task :=
  found ← on_tables (decoration (task_session t));
  mret (tell (decorated (task_session t) event found) t).
Definition save_task (c event : value) (t : Task) : H X (result db_error unit * Task) :=
  saved ← save_owned text c event (task_owned t);
  let '(r, o) := (saved : result db_error unit * Owned) in
  mret (r, t <| task_owned := o |>).
(** The task ends: the lease is given back and the stream closes. *)
Definition close (session : string) (t : Task) : H X Response :=
  _ ← release session (task_owned t);
  mret (stream_response (fst (task_sent t))).
Definition persistence_error (message_ : string) : value :=
  Object [("type", Str "error"); ("code", Str "persistence_error"); ("message", Str message_);
          ("recoverable", Bool true)].
(** An event is committed and sent, or the task ends with [failure]. *)
Definition announce (session : string) (c event : value) (failure : string -> value) (t : Task) : H X Task :=
  saved ← save_task c event t;
  let '(r, t) := (saved : result db_error unit * Task) in
  match r with
  | Ok _ => tell_decorated event t
  | Err e => r ← close session (tell (failure (text e)) t); answer r
  end.
Definition status_event (message_ : string) : value :=
  Object [("type", Str "status"); ("message", Str message_)].
Definition setup_event (resumed : bool) (s : Session) : value :=
  set "config_ref" (of_opt_str (config_ref s)) (status_event
    (if resumed then "Restored immutable config, workflow evidence, memory, and compaction ledger."
     else "Agent initialized from persisted session state.")).
Definition setup_error (message_ : string) : value :=
  Object [("type", Str "error"); ("message", Str message_); ("recoverable", Bool true)].
Definition verbose (c : value) : bool :=
  match config_of c with Ok config => verbose_setup (output config) | Err _ => false end.
Definition introduce (session : string) (resumed : bool) (c : value) (t : Task) : H X Task :=
  t ← (if resumed
       then announce session c (status_event "Session restored from PostgreSQL; resuming agent work.")
              persistence_error t
       else mret t);
  if verbose c then announce session c (setup_event resumed (task_session t)) setup_error t else mret t.

(** The session after a run that failed. *)
Definition cancelled_text : string := "Run cancelled; use /resume to recover committed work.".
Definition failed (error_ now : string) (ack : CheckpointAck) (s : Session) : Session :=
  let cancelled := String.eqb error_ "run_cancelled" in
  let s := if cancelled then acknowledge_committed_outboxes (Some ack) s else s in
  let run_status_ := if cancelled then "cancelled"
                     else if starts_with error_ "recovery_required" then "blocked" else "failed" in
  s <| status := "failed" |> <| run_status := run_status_ |>
    <| final_answer := Some (if cancelled then cancelled_text else "Agent run failed: " +:+ error_) |>
    <| run_ended_at := Some now |>
    <| run_termination_reason := Some (if cancelled then "run_cancelled"
         else if String.eqb run_status_ "blocked" then "recovery_required" else "run_failed") |>
    <| last_error := Some (Object [("code", Str (if cancelled then "run_cancelled" else "run_failed"));
         ("message", Str (if cancelled then cancelled_text else error_)); ("recoverable", Bool true)]) |>.
Definition failure_event (s : Session) : value :=
  let part k := match last_error s with Some e => unwrap_or (get k e) Null | None => Null end in
  Object [("type", Str "error"); ("message", part "message"); ("code", part "code"); ("recoverable", Bool true)].
(** The command of a commit whose outcome is unknown. *)
Definition command_uncertain (command_ : option value) : T unit :=
  match command_ with
  | None => mret tt
  | Some c =>
      k ← from_result (bind_uuid (command_id_of c));
      owner ← from_result (bind_uuid (command_owner_of c));
      statement (fun _ d => (tt, match k with
        | Some k => alter_command k mark_uncertain
            (fun r => holds_command r owner (command_fence_of c) && String.eqb (command_status r) "started") d
        | None => d
        end))
  end.
Definition unresolved_text : string :=
  "Commit outcome is unresolved; inspect the original command before recovery.".
(** What follows a run that ended with an error. *)
Definition settle_failure (session : string) (c : value) (error_ : string) (t : Task) : H X Task :=
  if contains_str error_ "commit_outcome_unresolved" then
    _ ← on_tables (ignore (command_uncertain (command (task_session t))));
    r ← close session (tell (persistence_error unresolved_text) t);
    answer r
  else
    now ← timestamp text;
    let s := failed error_ now (own_ack (task_owned t)) (task_session t) in
    let event := failure_event s in
    saved ← save_task c event (t <| task_owned ::= fun o =>
              {| own_session := s; own_ack := own_ack o; own_lease := own_lease o |} |>);
    let '(r, t) := (saved : result db_error unit * Task) in
    match r with
    | Ok _ => mret (tell event t)
    | Err e => r ← close session (tell (persistence_error ("Unable to persist run failure: " +:+ text e)) t); answer r
    end.
Definition run_task (session : string) (resumed : bool) (c q : value) (o : Owned) : H X Response :=
  t ← introduce session resumed c {| task_owned := o; task_sent := ([], 0%nat) |};
  e ← execute text build_client (emit_stream text c) c q (task_owned t) (task_sent t);
  let t := {| task_owned := ex_owned e; task_sent := ex_sent e |} in
  t ← (match ex_outcome e with Ok _ => mret t | Err x => settle_failure session c x t end);
  t ← announce session c (run_finished (status (task_session t)))
        (fun m => persistence_error ("Unable to persist run completion: " +:+ m)) t;
  close session t.

(** ** [lifecycle] *)
Definition lifecycle_errors (resumed : bool) (q : value) : list value :=
  (from_option (fun e => [e]) [] (validate_max_steps q)
   ++ match (if resumed then get "content" q else None) with
      | Some v => if is_null v then [] else from_option (fun e => [e]) [] (string_error "content" v)
      | None => []
      end)%list.
Definition reopened (s : Session) : Session :=
  reset_resume_counters (s <| status := "active" |> <| final_answer := None |>).
Definition resumed_event (q : value) : value :=
  Object [("type", Str "session_resumed");
          ("has_new_user_message", Bool (is_some_and (as_str (index q "content")) (fun x => negb (is_empty x))))].
Definition reopen (session : string) (c q : value) (o : Owned) : H X Owned :=
  appended ← in_session (match as_str (index q "content") with
                         | Some x => engine Protocol (append_message (user_message x))
                         | None => mret tt
                         end) (own_session o);
  let s := reopened (snd (appended : result db_error unit * Session)) in
  saved ← save_owned text c (resumed_event q)
            {| own_session := s; own_ack := own_ack o; own_lease := own_lease o |};
  let '(r, o) := (saved : result db_error unit * Owned) in
  _ ← owned_or text session o r;
  mret o.
Definition lifecycle (raw : string) (q : value) (resumed : bool) : H X Response :=
  _ ← answer_error (validate_body q);
  _ ← answer_errors (lifecycle_errors resumed q);
  with_lock raw ownership_conflict (
    loaded ← load raw;
    found ← answer_none not_found loaded;
    let '(s, c) := (found : Session * value) in
    let s := attach s q in
    _ ← answer_if (negb resumed && negb (String.eqb (status s) "active"))
          (json_response 409 (detail "Session is terminal; use POST /sessions/{id}/resume to continue it"));
    session ← answer_none not_found (uuid_parse raw);
    o ← take_over text session s c;
    o ← (if resumed then reopen session c q o else mret o);
    run_task session resumed c q o).
Definition stream_run (raw : string) (q : value) : H X Response := lifecycle raw q false.
Definition resume (raw : string) (q : value) : H X Response := lifecycle raw q true.
End stream.
