(* ===== verification/Channel.v ===== *)
(** * The channel of a stream ([sse.rs])

    A run that is streamed puts its events into a bounded channel; the response
    body polls them out.  The body also holds the sending half of a one-shot
    channel to a watcher: dropping the body before the stream has ended notifies
    the watcher, which requests the cancellation of the run ([disconnect]), while
    a stream that was read to its end gives the notifier up silently.  The task,
    the body and the watcher run concurrently: [channel_step] is one of their
    atomic actions. *)
From S2P Require Import Prelude Text Json Encoding Session Stream.
Local Open Scope string_scope.
Local Open Scope Z_scope.

(** [mpsc::channel(32)] *)
Definition channel_capacity : nat := 32.
(** What the watcher awaits: nothing yet, an error since the notifier was given
    up, or the notification. *)
Inductive Notifier : Type :=
| Armed
| GivenUp
| Notified.
#[export] Instance notifier_eq_dec : EqDecision Notifier.
Proof. solve_decision. Defined.
Record EventStream := {
  queue : list value;
  senders : nat;
  (** the receiving half, dropped with the response body *)
  receiver : bool;
  disconnected : Notifier;
  (** history: the events accepted from the senders, those the body polled, and
      whether it was told that the stream is over *)
  accepted : list value;
  polled : list value;
  ended : bool
}.
#[export] Instance eta_EventStream : Eta EventStream := fun c =>
  {| queue := queue c; senders := senders c; receiver := receiver c; disconnected := disconnected c;
     accepted := accepted c; polled := polled c; ended := ended c |}.
Definition event_channel : EventStream :=
  {| queue := []; senders := 1; receiver := true; disconnected := Armed; accepted := []; polled := []; ended := false |}.
(** [send(event).await]: refused when the receiver is gone, not ready while the
    queue is full. *)
Inductive sending : Type :=
| Refused
| Waiting
| Queued (c : EventStream).
Definition send_event (event : value) (c : EventStream) : sending :=
  if negb (receiver c) then Refused
  else if (channel_capacity <=? length (queue c))%nat then Waiting
  else Queued (c <| queue ::= fun q => (q ++ [event])%list |> <| accepted ::= fun l => (l ++ [event])%list |>).
Definition clone_sender (c : EventStream) : EventStream := c <| senders ::= S |>.
Definition drop_sender (c : EventStream) : EventStream := c <| senders ::= pred |>.
Inductive poll : Type :=
| Pending
| Ready (event : option value).
(** [poll_next], as the event before it is rendered by [frame] *)
Definition poll_next (c : EventStream) : poll * EventStream :=
  match queue c with
  | event :: rest => (Ready (Some event), c <| queue := rest |> <| polled ::= fun l => (l ++ [event])%list |>)
  | [] =>
      if (senders c =? 0)%nat
      then (Ready None, c <| disconnected ::= fun n => match n with Armed => GivenUp | n => n end |> <| ended := true |>)
      else (Pending, c)
  end.
(** [drop] *)
Definition drop_stream (c : EventStream) : EventStream :=
  c <| receiver := false |> <| queue := [] |>
    <| disconnected ::= fun n => match n with Armed => Notified | n => n end |>.
Inductive channel_step (c : EventStream) : EventStream -> Prop :=
| channel_sends event c' : (0 < senders c)%nat -> send_event event c = Queued c' -> channel_step c c'
| channel_clones : (0 < senders c)%nat -> channel_step c (clone_sender c)
| channel_drops_sender : (0 < senders c)%nat -> channel_step c (drop_sender c)
| channel_polls : receiver c = true -> channel_step c (snd (poll_next c))
| channel_drops : receiver c = true -> channel_step c (drop_stream c).

(** ** The invariant *)
Record sound_channel (c : EventStream) : Prop := {
  bounded_queue : (length (queue c) <= channel_capacity)%nat;
  in_order : if receiver c then accepted c = (polled c ++ queue c)%list
             else exists lost, accepted c = (polled c ++ lost)%list;
  told_at_end : ended c = true -> senders c = 0%nat /\ polled c = accepted c /\ disconnected c = GivenUp;
  notified_by_drop : disconnected c = match ended c, receiver c with
                                      | true, _ => GivenUp
                                      | false, true => Armed
                                      | false, false => Notified
                                      end;
  dropped_queue : receiver c = false -> queue c = []
}.
Lemma sound_start : sound_channel event_channel.
Proof. split; cbn; try done. lia. Qed.
Lemma sound_poll c : receiver c = true -> sound_channel c -> sound_channel (snd (poll_next c)).
Proof.
  intros Hr [H1 H2 H3 H4 H5]. rewrite Hr in H2, H4. unfold poll_next. destruct (queue c) as [|event rest] eqn:Eq.
  - destruct (Nat.eqb_spec (senders c) 0) as [E|E]; cbn [snd].
    + split; cbn; [rewrite Eq; cbn; lia|by rewrite Hr, Eq| | |by rewrite Hr].
      * intros _. rewrite app_nil_r in H2. rewrite H4. split_and!; [done..|]. by destruct (ended c).
      * rewrite H4. by destruct (ended c).
    + split; [by rewrite Eq|by rewrite Hr, Eq|done|by rewrite Hr|done].
  - cbn [snd]. cbn in H1. split; cbn; [lia| | |by rewrite Hr|by rewrite Hr].
    + rewrite Hr. by rewrite <- app_assoc.
    + intros He. destruct (H3 He) as (_ & Hp & _). exfalso. rewrite Hp in H2.
      apply (f_equal (@length value)) in H2. rewrite length_app in H2. cbn in H2. lia.
Qed.
Lemma sound_step c c' : channel_step c c' -> sound_channel c -> sound_channel c'.
Proof.
  intros Hs Hc. destruct Hs as [event c' Hp Hq|Hp|Hp|Hr|Hr]; [| | |by apply sound_poll|]; destruct Hc as [H1 H2 H3 H4 H5].
  - unfold send_event in Hq. destruct (receiver c) eqn:Hr; [|done]. destruct (Nat.leb_spec channel_capacity (length (queue c))); [done|].
    injection Hq as <-. split; cbn.
    + rewrite length_app. cbn. lia.
    + rewrite Hr, H2. by rewrite app_assoc.
    + intros He. destruct (H3 He). lia.
    + by rewrite Hr.
    + by rewrite Hr.
  - split; cbn; try done. intros He. destruct (H3 He). lia.
  - split; cbn; try done. intros He. destruct (H3 He). lia.
  - rewrite Hr in H2, H4. split; cbn; try done; [lia|by exists (queue c)| |].
    + intros He. destruct (H3 He) as (E1 & E2 & E3). by rewrite E3.
    + rewrite H4. by destruct (ended c).
Qed.
Lemma reachable_sound c : rtc channel_step event_channel c -> sound_channel c.
Proof. intros H. by apply (rtc_invariant _ _ _ _ sound_step H), sound_start. Qed.

(** * Properties *)
(** C20: whatever the task, the response body and the network do to a stream, the
    events the body gets are a prefix of the accepted ones, in their order, and
    at most 32 wait; the body is told that the stream is over only when every
    event was delivered and no sender is left; and the watcher is notified
    exactly when the body was dropped before that, after which no event is
    accepted any more. *)
Theorem stream_notifies_exactly_drops c : rtc channel_step event_channel c ->
  (length (queue c) <= channel_capacity)%nat
  /\ (exists rest, accepted c = (polled c ++ rest)%list /\ (receiver c = true -> rest = queue c))
  /\ (ended c = true -> senders c = 0%nat /\ polled c = accepted c)
  /\ (disconnected c = Notified <-> receiver c = false /\ ended c = false)
  /\ (disconnected c = Notified -> forall event, send_event event c = Refused).
Proof.
  intros [H1 H2 H3 H4 _]%reachable_sound. split_and!; [done| |naive_solver| |].
  - destruct (receiver c); [by exists (queue c)|]. destruct H2 as [lost ->]. by exists lost.
  - rewrite H4. destruct (ended c), (receiver c); naive_solver.
  - rewrite H4. intros Hn event. unfold send_event. by destruct (ended c), (receiver c).
Qed.
(** Two events are sent, one is read, and the client goes away. *)
Definition sent_two : EventStream :=
  event_channel <| queue := [Str "a"; Str "b"] |> <| accepted := [Str "a"; Str "b"] |>.
Definition read_one : EventStream := snd (poll_next sent_two).
Lemma read_one_reachable : rtc channel_step event_channel (drop_stream read_one).
Proof.
  eapply rtc_l; [apply (channel_sends _ (Str "a")); [cbn; lia|reflexivity]|].
  eapply rtc_l; [apply (channel_sends _ (Str "b")); [cbn; lia|reflexivity]|].
  eapply rtc_l; [by apply channel_polls|]. by apply rtc_once, channel_drops.
Qed.
Lemma stream_notifies_exactly_drops_witness :
  disconnected (drop_stream read_one) = Notified /\ polled (drop_stream read_one) = [Str "a"]
  /\ (exists rest, accepted (drop_stream read_one) = (polled (drop_stream read_one) ++ rest)%list
         /\ (receiver (drop_stream read_one) = true -> rest = queue (drop_stream read_one)))
  /\ (forall event, send_event event (drop_stream read_one) = Refused).
Proof.
  destruct (stream_notifies_exactly_drops (drop_stream read_one) read_one_reachable) as (_ & Hp & _ & _ & Hr).
  split; [reflexivity|]. split; [reflexivity|]. split; [exact Hp|]. by apply Hr.
Defined.
