(* ===== verification/Listings.v ===== *)
(** * Listings of a session ([main.rs], [events.rs])

    The actions, the runs and the archives of a session are listed in the order
    of their identities from a cursor, and the events of a run are replayed as a
    stream until the run is over. *)
From S2P Require Import Prelude Text Json Session Logic Store Rows Http Commit Load Handlers Pages Server Stream.
Local Open Scope string_scope.
Local Open Scope Z_scope.

Section listings.
Context `{P : Platform} `{B : Backend} `{Sr : Serde} `{Sc : Schedule} {X : Type}.
Variable text : db_error -> string.
Variable timestamp_cast : string -> string.
(** [to_jsonb(e)-'payload'-'owner'] and [to_jsonb(r)-'owner'] *)
Variable execution_json : string -> string -> ExecutionRow -> value.
Variable run_json : string -> string -> RunRow -> value.
(** the text of an archive's [created_at] *)
Variable archived_at : ArchiveRow -> string.

(** The limit and the cursor of a listing. *)
Definition listing_limit (q : gmap string string) : H X Z :=
  answer_none limit_error (parameter parse_usize q "limit" 100 1 1000).
Definition listing_after (what : string) (q : gmap string string) : H X (option string) :=
  match q !! "after" with
  | None => mret None
  | Some raw =>
      i ← answer_none (unprocessable ("after must be " +:+ what +:+ " UUID")) (uuid_parse raw);
      mret (Some i)
  end.
(** [$2::uuid IS NULL OR id>$2]; identities in canonical form sort as text *)
Definition beyond (after : option string) (i : string) : bool :=
  match after with None => true | Some a => String.ltb a i end.
(** The identity of the last entry, or the cursor of the request. *)
Definition listing_next (field : string) (entries : list value) (q : gmap string string) : value :=
  of_opt_str (match (e ← last entries; as_str (index e field)) with Some i => Some i | None => q !! "after" end).
Definition listing (raw plural : string) (rows : list value) (next : value) : Response :=
  json_response 200 (Object [("session_id", Str raw); (plural, Array rows); ("next_after", next)]).

(** ** [GET /sessions/{id}/executions] *)
Definition listed_executions (session : string) (after : option string) (d : Db) : list (string * ExecutionRow) :=
  sort_by (fun a b => String.leb (fst a) (fst b))
    (List.filter (fun e => beyond after (fst e)) (of_session session (tool_executions d))).
Definition executions_handler (raw : string) (q : gmap string string) : H X Response :=
  limit ← listing_limit q;
  after ← listing_after "an execution" q;
  found ← existing raw;
  let session := snd (found : Session * string) in
  rows ← rows_or_error text (statement (fun _ d =>
           (map (fun e => execution_json session (fst e) (snd e))
              (take (Z.to_nat limit) (listed_executions session after d)), d)));
  mret (listing raw "executions" rows (listing_next "execution_id" rows q)).

(** ** [GET /sessions/{id}/runs] *)
Definition run_leb (a b : string * RunRow) : bool :=
  String.ltb (run_row_started_at (snd a)) (run_row_started_at (snd b))
  || (String.eqb (run_row_started_at (snd a)) (run_row_started_at (snd b)) && String.leb (fst a) (fst b)).
(** [(started_at,run_id)>(SELECT ...)], unknown when there is no such run *)
Definition run_beyond (session : string) (after : option string) (d : Db) (e : string * RunRow) : bool :=
  match after with
  | None => true
  | Some a => is_some_and (runs d !! (session, a)) (fun r => negb (run_leb e (a, r)))
  end.
Definition listed_runs (session : string) (after : option string) (d : Db) : list (string * RunRow) :=
  sort_by run_leb (List.filter (run_beyond session after d) (of_session session (runs d))).
Definition session_runs (raw : string) (q : gmap string string) : H X Response :=
  limit ← listing_limit q;
  after ← listing_after "a run" q;
  found ← existing raw;
  let session := snd (found : Session * string) in
  rows ← rows_or_error text (statement (fun _ d =>
           (map (fun e => run_json session (fst e) (snd e)) (take (Z.to_nat limit) (listed_runs session after d)), d)));
  mret (listing raw "runs" rows (listing_next "run_id" rows q)).

(** ** [GET /sessions/{id}/archives] *)
Definition archive_id_of (r : ArchiveRow) : string := unwrap_or (ar_archive_id r) "".
Definition listed_archives (session : string) (after : option string) (d : Db) : list ArchiveRow :=
  sort_by (fun a b => String.leb (archive_id_of a) (archive_id_of b))
    (List.filter (fun r => String.eqb (ar_session r) session && beyond after (archive_id_of r))
      (archive_receipts d)).
Definition archive_json (r : ArchiveRow) : value :=
  Object [("archive_id", Str (archive_id_of r)); ("snapshot_revision", of_opt_num (ar_snapshot_revision r));
          ("sha256", of_opt_str (ar_sha256 r)); ("manifest", ar_manifest r); ("created_at", Str (archived_at r))].
Definition session_archives (raw : string) (q : gmap string string) : H X Response :=
  limit ← listing_limit q;
  after ← listing_after "an archive" q;
  found ← existing raw;
  let session := snd (found : Session * string) in
  rows ← rows_or_error text (statement (fun _ d =>
           (take (Z.to_nat limit) (listed_archives session after d), d)));
  let entries := map archive_json rows in
  mret (listing raw "archives" entries (listing_next "archive_id" entries q)).

(** ** [GET /sessions/{id}/events/stream] ([events::stream]) *)
(** [WHERE session_id=$1 AND event->>'run_id'=$2 AND event_id>$3 ORDER BY event_id LIMIT 1000] *)
Definition run_events (session run : string) (after : Z) (d : Db) : list EventRow :=
  take 1000 (List.filter (fun e => (after <? event_id e) && bool_decide (get_str "run_id" (event_value e) = Some run))
    (ordered_events session d)).
Definition numbered_event (e : EventRow) : value := set "event_id" (num (event_id e)) (event_value e).
(** The events of one batch, and whether the client is still there. *)
Fixpoint send_all (events : list value) (sent : list value * nat) : bool * (list value * nat) :=
  match events with
  | [] => (true, sent)
  | e :: rest => let '(b, sent) := send e sent in if b then send_all rest sent else (false, sent)
  end.
(** The task: a batch is sent, and the next one is awaited while the run is
    running; between two batches the others act. *)
Fixpoint follow (fuel turn : nat) (session run : string) (after : Z) (sent : list value * nat)
  : H X (list value) :=
  match fuel with
  | O => mret (fst sent)
  | S n => fun w =>
      let w := if (turn =? 0)%nat then w else w <| db ::= others turn |> in
      (batch ← on_tables (statement (fun _ d => (run_events session run after d, d)));
       match batch with
       | Err _ => mret (fst sent)
       | Ok rows =>
           let after := next_cursor event_id rows after in
           let '(there, sent) := send_all (map numbered_event rows) sent in
           if negb there then mret (fst sent)
           else if (length rows =? 1000)%nat then follow n (S turn) session run after sent
           else
             status_ ← on_tables (statement (fun _ d => (run_row_status <$> runs d !! (session, run), d)));
             if bool_decide (result_ok status_ = Some (Some "running"))
             then follow n (S turn) session run after sent else mret (fst sent)
       end) w
  end.
Definition event_cursor (q : gmap string string) : option Z :=
  n ← (match q !! "after_event_id" with None => Some 0 | Some raw => parse_i64 raw end);
  if 0 <=? n then Some n else None.
Definition replay_events (fuel : nat) (raw : string) (q : gmap string string) : H X Response :=
  session ← answer_none (unprocessable "Session ID must be UUID") (uuid_parse raw);
  run ← answer_none (unprocessable "run_id must be UUID") (raw ← q !! "run_id"; uuid_parse raw);
  after ← answer_none (unprocessable "Invalid event cursor") (event_cursor q);
  known ← on_tables (statement (fun _ d => (is_some (runs d !! (session, run)), d)));
  _ ← answer_if (negb (unwrap_or (result_ok known) false)) (json_response 404 (detail "Run not found"));
  events ← follow fuel 0 session run after ([], 0%nat);
  mret {| response_code := 200;
          response_headers := [("content-type", "text/event-stream"); ("cache-control", "no-cache")];
          response_payload := EventBody events |}.
End listings.
