(* ===== verification/Router.v ===== *)
(** * The router ([main.rs: main])

    Every request passes the admission, which hands the routes of the API their
    request: the path, and for a [POST] the body with its command attached.
    Pages of fixed text are left out, and so are methods other than [GET] and
    [POST]; a route that is not there is answered by an empty 404. *)
From S2P Require Import Prelude Text Json Session Tools Checkpoint Store Http Config Startup Requests Commit Load Handlers Pages Run Server Stream Listings.
Local Open Scope string_scope.
Local Open Scope Z_scope.

Section router.
Context `{P : Platform} `{B : Backend} `{F : Files} `{Sr : Serde} `{Sc : Schedule} {X : Type} `{HX : Host X}.
Variable text : db_error -> string.
Variable build_client : Config -> result string unit.
Variable env : string -> option string.
Variable root : string.
Variable root_entries : option (list DirEntry).
Variable utf8_error : string -> string.
Variable timestamp_cast : string -> string.
Variable clock_cast : Z -> string.
Variable execution_json : string -> string -> ExecutionRow -> value.
Variable run_json : string -> string -> RunRow -> value.
Variable archived_at : ArchiveRow -> string.
(** how many batches a replayed stream is followed for *)
Variable patience : nat.

Definition no_route : Response := {| response_code := 404; response_headers := []; response_payload := NoBody |}.
Definition post_session (raw kind : string) (q : value) : H X Response :=
  if String.eqb kind "messages" then message text raw q
  else if String.eqb kind "run" then run_handler text build_client raw q
  else if String.eqb kind "resume" then resume text build_client raw q
  else if String.eqb kind "cancel" then cancel_session text raw q
  else mret no_route.
Definition post_route (route : string) (q : value) : H X Response :=
  match split_on (String.eqb "/") route with
  | ["" ; kind] => if String.eqb kind "sessions" then create text env root q else mret no_route
  | ["" ; kind; raw; action_] => if String.eqb kind "sessions" then post_session raw action_ q else mret no_route
  | ["" ; kind; raw; action_; how] =>
      if String.eqb kind "sessions" && String.eqb action_ "run" && String.eqb how "stream"
      then stream_run text build_client raw q else mret no_route
  | _ => mret no_route
  end.
Definition get_session (raw kind : string) (q : gmap string string) : H X Response :=
  if String.eqb kind "executions" then executions_handler text execution_json raw q
  else if String.eqb kind "transcript" then transcript_handler text timestamp_cast raw q
  else if String.eqb kind "events" then session_events_handler text clock_cast raw q
  else if String.eqb kind "runs" then session_runs text run_json raw q
  else if String.eqb kind "archives" then session_archives text archived_at raw q
  else if String.eqb kind "retention" then session_retention_plan text raw
  else mret no_route.
Definition get_route (route : string) (q : gmap string string) : H X Response :=
  match split_on (String.eqb "/") route with
  | ["" ; kind] =>
      if String.eqb kind "configs" then configs env root root_entries
      else if String.eqb kind "health" then health env root root_entries
      else mret no_route
  | ["" ; kind; raw] =>
      if String.eqb kind "commands" then get_command text env raw
      else if String.eqb kind "sessions" then session raw
      else if String.eqb kind "runs" && String.eqb raw "abandoned" then abandoned_runs text q
      else mret no_route
  | ["" ; kind; raw; action_] => if String.eqb kind "sessions" then get_session raw action_ q else mret no_route
  | ["" ; kind; raw; action_; what] =>
      if negb (String.eqb kind "sessions") then mret no_route
      else if String.eqb action_ "diagnostics" then compaction_diagnostics text raw what q
      else if String.eqb action_ "events" && String.eqb what "stream" then replay_events patience raw q
      else mret no_route
  | _ => mret no_route
  end.
Definition route_request (q : gmap string string) (route : string) (body : option value) : H X Response :=
  match body with
  | Some v => post_route route v
  | None => get_route route q
  end.
(** A request of the API, from the admission to its response. *)
Definition serve (query_ : gmap string string) (q : Request) : H X Response :=
  admission text env root utf8_error (route_request query_) q.
End router.
