(* ===== verification/Admin.v ===== *)
(** * Operator commands ([reconcile.rs], [retention.rs])

    [reconcile-runs] settles the runs whose worker is gone; [retention] plans,
    exports, verifies and prunes the telemetry of a session.  Reconciling and
    pruning act under a command of their own and the lease of the session, and
    commit with [save]; neither invokes the model or a tool. *)
From S2P Require Import Prelude Text Json Encoding Session Logic Store Rows Snapshot Http Config Requests Retention Commit Load Handlers Pages Server.
Local Open Scope string_scope.
Local Open Scope Z_scope.

(** ** Computations that fail with a database error *)
Definition Op (X A : Type) : Type := H X (result db_error A).
#[export] Instance Op_ret X : MRet (Op X) := fun A a w => (Ok (Ok a), w).
#[export] Instance Op_bind X : MBind (Op X) := fun A B f m w =>
  match m w with
  | (Ok (Ok a), w') => f a w'
  | (Ok (Err e), w') => (Ok (Err e), w')
  | (Err e, w') => (Err e, w')
  end.
#[export] Typeclasses Opaque Op.

Section admin.
Context `{P : Platform} `{B : Backend} `{F : Files} `{Sr : Serde} {X : Type}.
Variable text : db_error -> string.
Variable env : string -> option string.

Definition op {A} (m : T A) : Op X A := on_tables m.
Definition op_result {A} (r : result db_error A) : Op X A := fun w => (Ok r, w).
Definition op_lift {A} (m : H X A) : Op X A := fun w =>
  let '(r, w) := m w in (match r with Ok a => Ok (Ok a) | Err e => Err e end, w).
(** The outcome as a value, so that the lease is given back before an error returns. *)
Definition op_try {A} (m : Op X A) : Op X (result db_error A) := fun w =>
  let '(r, w) := m w in (match r with Ok x => Ok (Ok x) | Err e => Err e end, w).
Definition op_load (raw : string) : Op X (Session * value) :=
  found ← op_lift (load raw); op_result (ok_or (Protocol "invalid session snapshot") found).
Definition op_save (c event : value) (s : Session) : Op X Session := fun w =>
  let '(r, w) := in_session (save text c event) s w in
  (match r with Ok (Ok _, s) => Ok (Ok s) | Ok (Err e, _) => Ok (Err e) | Err e => Err e end, w).
Definition finish_alone (command_ : value) (code : Z) (body : value) : Op X unit :=
  op (transaction (finish command_ code body)).
(** [args.windows(2).find(|p| p[0] == name)] *)
Fixpoint option_of (name_ : string) (args : list string) : option string :=
  match args with
  | a :: ((b :: _) as rest) => if String.eqb a name_ then Some b else option_of name_ rest
  | _ => None
  end.
(** the message of [parse::<i64>] *)
Variable integer_error : string -> string.
Definition integer_option (name_ : string) (default_ : Z) (args : list string) : result db_error Z :=
  match option_of name_ args with
  | None => Ok default_
  | Some raw => ok_or (Protocol (integer_error raw)) (parse_i64 raw)
  end.

(** ** [reconcile::cli] *)
Definition abandoned_candidates (limit now : Z) (d : Db) : list (string * string) :=
  take (Z.to_nat limit) (map fst (abandoned now d)).
Definition abandoned_answer : string := "Abandoned run detected; use /resume to recover committed work.".
Definition reconciled (command_ : value) (lease : string * Z) (now : string) (s : Session) : Session :=
  s <| command := Some command_ |> <| execution_owner := Some (fst lease) |>
    <| execution_fence := Some (snd lease) |> <| run_status := "interrupted" |>
    <| run_ended_at := Some now |> <| run_termination_reason := Some "worker_abandoned" |>
    <| status := "failed" |> <| final_answer := Some abandoned_answer |>
    <| last_error := Some (Object [("code", Str "run_abandoned"); ("message", Str abandoned_answer);
                                   ("recoverable", Bool true)]) |>.
(** The run is still the abandoned one, or its lifecycle was settled. *)
Definition reconcile_run (session run : string) (command_ : value) (lease : string * Z) : Op X bool :=
  found ← op_load session;
  let '(s, c) := (found : Session * value) in
  if negb (bool_decide (run_id s = Some run)) || negb (String.eqb (run_status s) "running")
  then _ ← finish_alone command_ 200 (Object [("message", Str "Lifecycle already settled")]); mret false
  else
    now ← op (engine Protocol transcript_timestamp);
    _ ← op_save c (Object [("type", Str "run_reconciled"); ("run_id", Str run); ("reason", Str "worker_abandoned")])
          (reconciled command_ lease now s);
    mret true.
Definition reconcile_one (session run : string) : Op X bool :=
  command_ ← op (administrative env session "/admin/reconcile"
                   (Object [("session_id", Str session); ("run_id", Str run)]));
  acquired ← op_try (op (acquire_execution_lease session));
  match acquired with
  | Err _ => _ ← finish_alone command_ 409 (detail "Session ownership changed"); mret false
  | Ok lease =>
      outcome ← op_try (reconcile_run session run command_ lease);
      _ ← op (release_execution_lease session (fst lease) (snd lease));
      op_result outcome
  end.
Fixpoint reconcile_all (candidates : list (string * string)) : Op X (list value) :=
  match candidates with
  | [] => mret []
  | (session, run) :: rest =>
      done_ ← reconcile_one session run;
      more ← reconcile_all rest;
      mret (if (done_ : bool)
            then Object [("session_id", Str session); ("run_id", Str run)] :: more else more)
  end.
Definition reconcile_cli (args : list string) : Op X value :=
  limit ← op_result (integer_option "--limit" 100 args);
  _ ← op_result (fail_if (negb ((1 <=? limit) && (limit <=? 1000))) (Protocol "limit must be between 1 and 1000"));
  candidates ← op (statement (fun now d => (abandoned_candidates limit now d, d)));
  completed ← reconcile_all candidates;
  mret (Object [("reconciled", Array completed)]).

(** ** [retention::cli], action [prune-telemetry] *)
Definition previous_receipts (session : string) (d : Db) : list (option string * value) :=
  map (fun r => (ar_sha256 r, ar_manifest r))
    (List.filter (fun r => String.eqb (ar_session r) session) (archive_receipts d)).
(** Every archive this session depends on is still readable and unchanged. *)
Definition check_receipt (receipt : option string * value) : result db_error unit :=
  path ← ok_or (Protocol "archive dependency path missing") (get_str "archive_path" (snd receipt));
  prior ← map_err Protocol (verify path);
  fail_if (negb (opt_value_eqb (get "sha256" prior) (Str <$> fst receipt)))
    (Protocol "prior archive dependency is corrupt").
Definition prune_route : string := "/admin/retention/prune".
Definition pruning (command_ : value) (lease : string * Z) (manifest_ : value) (s : Session) : Session :=
  s <| command := Some command_ |> <| execution_owner := Some (fst lease) |>
    <| execution_fence := Some (snd lease) |> <| retention_pending := Some manifest_ |>
    <| last_archive_id := get_str "archive_id" manifest_ |>.
Definition prune_telemetry (session path : string) (s : Session) (c : value) (args : list string) : Op X value :=
  manifest_ ← op_result (map_err Protocol (verify path));
  _ ← op_result (fail_if (negb (is_text (index manifest_ "session_id") session)
                          || negb (is_int (index manifest_ "snapshot_revision") (revision s)))
                   (Protocol "stale or wrong-session export; export again"));
  keep_diagnostics ← op_result (integer_option "--keep-diagnostics" 32 args);
  keep_events ← op_result (integer_option "--keep-events" 100 args);
  _ ← op_result (fail_if ((keep_diagnostics <? 32) || (keep_events <? 1))
                   (Protocol "retain at least 32 diagnostics and one event"));
  receipts ← op (statement (fun _ d => (previous_receipts session d, d)));
  _ ← op_result (for_each check_receipt receipts);
  command_ ← op (operator_command env session prune_route
                   (Object [("session_id", Str session); ("archive_id", index manifest_ "archive_id")]) (Object []));
  lease ← op (acquire_execution_lease session);
  let manifest_ := set "keep_events" (num keep_events) (set "keep_diagnostics" (num keep_diagnostics) manifest_) in
  outcome ← op_try (op_save c (Object [("type", Str "telemetry_archived");
                                       ("archive_id", index manifest_ "archive_id")])
                      (pruning command_ lease manifest_ s));
  _ ← op (release_execution_lease session (fst (lease : string * Z)) (snd lease));
  s ← op_result outcome;
  mret (Object [("session_id", Str session); ("revision", num (revision s));
                ("archive_id", of_opt_str (last_archive_id s))]).

(** ** [retention::cli], the other actions *)
(** [export]: the rows of the session are read in one snapshot, as [to_jsonb]
    presents them, and written to a new file before the transaction ends; the
    file is then read back. *)
Variable export_rows : string -> string -> Db -> list value.
Variable create_file : string -> string -> X -> result string unit * X.
Definition export (session path : string) : Op X value :=
  found ← op (statement (fun _ d => (sessions d !! session, d)));
  r ← op_result (ok_or RowNotFound found);
  archive_ ← op (engine Protocol uuid);
  contents ← op (read (fun d => export_archive archive_ session (row_revision r)
                                  (fun table => export_rows session table d)));
  _ ← (fun w => let '(r, x) := create_file path contents (outside w) in
                (Ok (map_err Protocol r), w <| outside := x |>));
  _ ← op (transaction (mret tt));
  op_result (map_err Protocol (verify path)).
(** The plan is the response of the endpoint, read back as JSON. *)
Definition plan (session : string) : Op X value :=
  r ← op_lift (call (session_retention_plan text session));
  _ ← op_result (fail_if (negb (response_code r =? 200)) (Protocol "retention plan unavailable"));
  match body_of r with
  | Some v =>
      let bytes := json_text v in
      _ ← op_result (fail_if (1048576 <? byte_len bytes) (Protocol "length limit exceeded"));
      op_result (map_err Protocol (json_from_str bytes))
  | None => op_result (Err (Protocol "retention plan unavailable"))
  end.
Definition retention_cli (args : list string) : Op X value :=
  action ← op_result (ok_or (Protocol "retention {plan|export|verify|prune-telemetry}") (head args));
  let path := unwrap_or (option_of "--archive" args) "" in
  if String.eqb action "verify" then op_result (map_err Protocol (verify path))
  else
    let raw := unwrap_or (option_of "--session-id" args) "" in
    session ← op_result (ok_or (Protocol (uuid_error raw)) (uuid_parse raw));
    if String.eqb action "export" then export session path
    else
      found ← op_lift (load session);
      loaded ← op_result (ok_or (Protocol "invalid session snapshot") found);
      let '(s, c) := (loaded : Session * value) in
      if String.eqb action "plan" then plan session
      else if negb (String.eqb action "prune-telemetry") then op_result (Err (Protocol "unknown retention action"))
      else prune_telemetry session path s c args.
End admin.
