(* ===== verification/Service.v ===== *)
(** * The service as a transition system

    [task_step] is one operation on the database by any task of any worker: what
    may happen between two checkpoints of a run, and, each of its transactions
    being a step too, before any transaction of another.  [service_step] is one step of a
    server process: a request served from its admission to its response, a
    command of an operator, a heartbeat, the watcher of a dropped stream, a step
    of another process on the same database, a restart, or a change of the world
    outside. *)
From S2P Require Import Prelude Text Json Encoding Session Tools Checkpoint Store Http Config Startup Requests Retention Commit Load Handlers Pages Server Stream Listings Router Admin.
Local Open Scope string_scope.
Local Open Scope Z_scope.

(** The tables after a computation on behalf of a session. *)
Definition tables_after {A} (m : T A) (s : Session) (d : Db) : Db := snd (snd (m (s, d))).

Section tasks.
Context `{P : Platform} `{B : Backend} `{F : Files} `{Sr : Serde}.
Variable text : db_error -> string.
Variable env : string -> option string.
Inductive task_step (d : Db) : Db -> Prop :=
| task_acquires session s : task_step d (tables_after (acquire_execution_lease session) s d)
| task_beats n session owner fence s : task_step d (tables_after (start_execution_heartbeat n session owner fence) s d)
| task_releases session owner fence s : task_step d (tables_after (release_execution_lease session owner fence) s d)
| task_loads session s : task_step d (tables_after (transaction (load_body session)) s d)
| task_saves c event s : task_step d (tables_after (save text c event) s d)
| task_attempts session cid fp c event s :
    task_step d (tables_after (transaction (commit_body session cid fp c event)) s d)
| task_cancels raw session q s : task_step d (tables_after (transaction (cancel_body raw session q)) s d)
| task_stops_run run s : task_step d (tables_after (cancel_run run) s d)
| task_disconnects session owner fence : task_step d (disconnect session owner fence d)
| task_admits k r s : task_step d (tables_after (insertion (insert_command k r)) s d)
| task_claims k owner s : task_step d (tables_after (fallible (claim_command k owner)) s d)
| task_gives_up command_ s : task_step d (tables_after (command_uncertain command_) s d)
| task_finishes command_ code body s : task_step d (tables_after (transaction (finish command_ code body)) s d)
| task_administers session route input adm s :
    task_step d (tables_after (operator_command env session route input adm) s d).
End tasks.

Section service.
Context `{P : Platform} `{B : Backend} `{F : Files} `{Sr : Serde} `{Sc : Schedule} {X : Type} `{HX : Host X}.
Variable text : db_error -> string.
Variable build_client : Config -> result string unit.
Variable env : string -> option string.
Variable root : string.
Variable root_entries : option (list DirEntry).
Variable utf8_error : string -> string.
Variable timestamp_cast : string -> string.
Variable clock_cast : Z -> string.
Variable execution_json : string -> string -> ExecutionRow -> value.
Variable run_json : string -> string -> RunRow -> value.
Variable archived_at : ArchiveRow -> string.
Variable patience : nat.
Variable integer_error : string -> string.
Variable export_rows : string -> string -> Db -> list value.
Variable create_file : string -> string -> X -> result string unit * X.

(** What the other tasks do between two checkpoints, and what they commit before
    a transaction begins, is made of their operations.  The operations of the
    second kind run one after the other, each alone. *)
Definition others_are_tasks : Prop :=
  (forall n d, rtc (task_step text env) d (others n d))
  /\ (forall n d, rtc (task_step (B := calm B) text env) d (meanwhile n d)).
Inductive service_step : Server X -> Server X -> Prop :=
| service_serves query_ q w : service_step w (snd (serve text build_client env root root_entries utf8_error timestamp_cast
    clock_cast execution_json run_json archived_at patience query_ q w))
| service_reconciles args w : service_step w (snd (reconcile_cli text env integer_error args w))
| service_retains args w : service_step w (snd (retention_cli text env integer_error export_rows create_file args w))
| service_task d w : task_step text env (db w) d -> service_step w (w <| db := d |>)
| service_elsewhere v v' w : service_step v v' -> db v = db w -> service_step w (w <| db := db v' |>)
| service_restarts w : service_step w (w <| held_locks := ∅ |>)
| service_outside x w : service_step w (w <| outside := x |>).
End service.
