(* ===== verification/Frames.v ===== *)
(** * What the engine's operations leave alone

    Frame properties used by every theorem about the run: a checkpoint (and
    all that it is made of) is invisible to the task, a dispatch changes only
    the ledger of executions and may block the session, compaction changes
    only the history and its records. *)
From S2P Require Import Prelude Text Json Encoding Session Logic Context Diagnostics Outcome Workflow Prompt Tools Checkpoint Actions Wire Compaction Run.
Local Open Scope string_scope.
Local Open Scope Z_scope.

(** A message without the identity and times the store assigns. *)
Definition bare (m : Message) : Message :=
  m <| message_id := None |> <| sequence := None |> <| created_at := None |>.
Definition bare_memory (s : Session) : list Message := map bare (memory s).

(** ** Relations between the session before and after *)
(** What the task itself is made of, the history apart. *)
Definition task (s : Session) :=
  (id s, run_id s, goal s, step_count s, command s, repository s, workflow s, completion_artifacts s,
   progress_seen_outputs s).
Definition batch (s : Session) := (pending_tool_calls s, pending_tool_phase s).
Definition counters (s : Session) := (consecutive_invalid_responses s, no_progress_steps s).
Definition calm (s s' : Session) : Prop :=
  task s' = task s /\ batch s' = batch s /\ counters s' = counters s
  /\ compacted_context s' = compacted_context s /\ bare_memory s' = bare_memory s
  /\ final_answer s' = final_answer s /\ (status s' = "complete" -> status s = "complete").
Definition quiet (s s' : Session) : Prop := calm s s' /\ status s' = status s.
(** Compaction: only the history and its records move. *)
Definition compacting (s s' : Session) : Prop :=
  task s' = task s /\ batch s' = batch s /\ counters s' = counters s
  /\ final_answer s' = final_answer s /\ status s' = status s.
(** Any step of a run short of its completion. *)
Definition working (s s' : Session) : Prop :=
  id s' = id s /\ run_id s' = run_id s /\ goal s' = goal s /\ step_count s' = step_count s
  /\ (status s' = "complete" -> status s = "complete").

#[export] Instance calm_preorder : PreOrder calm.
Proof.
  split; [intros s; unfold calm; tauto|]. unfold calm. intros s1 s2 s3 H1 H2.
  destruct H1 as (?&?&?&?&?&?&?), H2 as (?&?&?&?&?&?&?). split_and!; try congruence. auto.
Qed.
#[export] Instance quiet_preorder : PreOrder quiet.
Proof.
  split; [intros s; split; [reflexivity|done]|]. intros s1 s2 s3 [H1 E1] [H2 E2].
  split; [by etrans|congruence].
Qed.
#[export] Instance compacting_preorder : PreOrder compacting.
Proof.
  split; [intros s; unfold compacting; tauto|]. unfold compacting. intros s1 s2 s3 H1 H2.
  destruct H1 as (?&?&?&?&?), H2 as (?&?&?&?&?). split_and!; congruence.
Qed.
#[export] Instance working_preorder : PreOrder working.
Proof.
  split; [intros s; unfold working; tauto|]. unfold working. intros s1 s2 s3 H1 H2.
  destruct H1 as (?&?&?&?&?), H2 as (?&?&?&?&?). split_and!; try congruence. auto.
Qed.

Lemma quiet_calm s s' : quiet s s' -> calm s s'.
Proof. by intros []. Qed.
Lemma quiet_compacting s s' : quiet s s' -> compacting s s'.
Proof. unfold quiet, calm, compacting. tauto. Qed.
Lemma calm_working s s' : calm s s' -> working s s'.
Proof. unfold calm, working, task. intros (E & _ & _ & _ & _ & _ & H). injection E; intros.
  split_and!; done. Qed.
Lemma compacting_working s s' : compacting s s' -> working s s'.
Proof. unfold compacting, working, task. intros (E & _ & _ & _ & H). injection E; intros.
  rewrite H. split_and!; done. Qed.

Lemma keeps_weaken {W A} (R R' : Session -> Session -> Prop) (m : M W A) :
  (forall s s', R s s' -> R' s s') -> keeps R m -> keeps R' m.
Proof. intros H Hm s w r s' w' E. by eapply H, Hm. Qed.

Lemma keeps_quiet_calm {W A} (m : M W A) : keeps quiet m -> keeps calm m.
Proof. apply keeps_weaken, quiet_calm. Qed.
Lemma keeps_quiet_compacting {W A} (m : M W A) : keeps quiet m -> keeps compacting m.
Proof. apply keeps_weaken, quiet_compacting. Qed.
Lemma keeps_calm_working {W A} (m : M W A) : keeps calm m -> keeps working m.
Proof. apply keeps_weaken, calm_working. Qed.
Lemma keeps_compacting_working {W A} (m : M W A) : keeps compacting m -> keeps working m.
Proof. apply keeps_weaken, compacting_working. Qed.
Lemma keeps_quiet_working {W A} (m : M W A) : keeps quiet m -> keeps working m.
Proof. intros H. by apply keeps_calm_working, keeps_quiet_calm. Qed.

Section frames.
Context {W : Type} `{P : Platform} `{H : Host W} (config : Config).

(** ** Records and diagnostics *)
Lemma uuid_quiet : keeps (W := W) quiet uuid.
Proof. apply keeps_world. apply _. Qed.
Lemma timestamp_quiet : keeps (W := W) quiet transcript_timestamp.
Proof. unfold transcript_timestamp. frame. Qed.
#[local] Hint Resolve uuid_quiet timestamp_quiet : frame.

Lemma archive_record_quiet kind p : keeps (W := W) quiet (archive_record kind p).
Proof. unfold archive_record. frame. Qed.
#[local] Hint Resolve archive_record_quiet : frame.

Lemma append_quiet f p : keeps (W := W) quiet (append f p).
Proof.
  unfold append. frame.
  apply keeps_modify; [apply _|]. intros s. destruct (negb (accepted_item p)); [same_fields|].
  destruct (reduction_of p); same_fields.
Qed.
#[local] Hint Resolve append_quiet : frame.

Lemma stage_quiet : keeps (W := W) quiet stage.
Proof. unfold stage. frame. Qed.
#[local] Hint Resolve stage_quiet : frame.

Lemma record_quiet f p : keeps (W := W) quiet (Diagnostics.record f p).
Proof. unfold Diagnostics.record. frame. Qed.
#[local] Hint Resolve record_quiet : frame.

(** ** Checkpoints *)
Lemma emit_quiet e : keeps (W := W) quiet (emit_event e).
Proof.
  intros s w r s' w'. unfold emit_event. cbn. destruct (emit e s w). by intros [= _ <- _].
Qed.

Lemma acknowledge_view receipt s :
  task (acknowledge_checkpoint receipt s) = task s
  /\ batch (acknowledge_checkpoint receipt s) = batch s
  /\ counters (acknowledge_checkpoint receipt s) = counters s
  /\ compacted_context (acknowledge_checkpoint receipt s) = compacted_context s
  /\ bare_memory (acknowledge_checkpoint receipt s) = bare_memory s
  /\ final_answer (acknowledge_checkpoint receipt s) = final_answer s
  /\ status (acknowledge_checkpoint receipt s) = status s.
Proof.
  unfold acknowledge_checkpoint. destruct (if checkpoint_ack s then receipt else None) as [ack|]; [|done].
  split_and!; try done. unfold bare_memory. cbn. rewrite map_map. apply map_ext. intros m.
  by destruct (find_first _ _).
Qed.

Lemma acknowledge_quiet : keeps (W := W) quiet acknowledge.
Proof.
  intros s w r s' w' [= _ <- _]. destruct (acknowledge_view (ack_cell w) s) as (?&?&?&?&?&?&E).
  split; [|done]. repeat (split; [done|]). by rewrite E.
Qed.
#[local] Hint Resolve emit_quiet acknowledge_quiet : frame.

Lemma commit_outboxes_quiet : keeps (W := W) quiet commit_outboxes.
Proof. unfold commit_outboxes. frame. Qed.
#[local] Hint Resolve commit_outboxes_quiet : frame.

Lemma checkpoint_quiet e : keeps (W := W) quiet (checkpoint e).
Proof.
  unfold checkpoint. frame. apply keeps_modify; [apply _|]. intros s. unfold settle_run.
  case_ifs; same_fields.
Qed.

Lemma action_checkpoint_quiet e : keeps (W := W) quiet (action_checkpoint e).
Proof. unfold action_checkpoint. frame. Qed.
#[local] Hint Resolve checkpoint_quiet action_checkpoint_quiet : frame.

(** ** Actions *)
Lemma push_attempt_quiet a : keeps (W := W) quiet (push_attempt a).
Proof. apply keeps_modify; [apply _|same_fields]. Qed.
Lemma stage_execution_quiet e : keeps (W := W) quiet (modify (stage_execution e)).
Proof. apply keeps_modify; [apply _|same_fields]. Qed.
Lemma audit_quiet k p : keeps (W := W) quiet (audit k p).
Proof. apply archive_record_quiet. Qed.
Lemma world_result_quiet {A} (f : W -> result string A * W) : keeps quiet (world_result f).
Proof. apply keeps_world. apply _. Qed.
#[local] Hint Resolve push_attempt_quiet stage_execution_quiet audit_quiet world_result_quiet : frame.

Lemma open_execution_quiet c call tool args :
  keeps (W := W) quiet (open_execution config c call tool args).
Proof. unfold open_execution, create_execution. frame. Qed.
Lemma settle_former_quiet e : keeps (W := W) quiet (settle_former_attempts e).
Proof. unfold settle_former_attempts, settle_started. frame. Qed.
Lemma verify_receipt_quiet c e ns n : keeps (W := W) quiet (verify_receipt c e ns n).
Proof. unfold verify_receipt, unknown_receipt. frame. Qed.
Lemma start_attempt_quiet c e n : keeps (W := W) quiet (start_attempt c e n).
Proof. unfold start_attempt. frame. Qed.
Lemma settle_known_quiet a e f r : keeps (W := W) quiet (settle_known a e f r).
Proof. unfold settle_known. frame. Qed.
Lemma block_session_calm m : keeps (W := W) calm (modify (block_session m)).
Proof. apply keeps_modify; [apply _|]. intros s. repeat (split; cbn; [done|]). done. Qed.

Lemma dispatch_calm call tool args : keeps (W := W) calm (dispatch config call tool args).
Proof.
  unfold dispatch, dispatch_or_block, dispatch_attempt, block_recovery, settle_unknown. frame.
  all: try (apply block_session_calm).
  all: apply keeps_quiet_calm; auto using open_execution_quiet, settle_former_quiet, verify_receipt_quiet,
    start_attempt_quiet, settle_known_quiet, push_attempt_quiet, stage_execution_quiet, audit_quiet,
    action_checkpoint_quiet, world_result_quiet, timestamp_quiet.
Qed.

(** ** The wire *)
Lemma post_urls_quiet urls token kind p bytes cap ds :
  keeps (W := W) quiet (post_urls config urls token kind p bytes cap ds).
Proof.
  revert ds. induction urls as [|url rest IH]; intros ds; cbn [post_urls]; [apply keeps_ret; apply _|].
  unfold failed_request, elapsed, log_provider. frame; try apply IH.
Qed.
Lemma post_chat_quiet p : keeps (W := W) quiet (post_chat config p).
Proof. intros s w r s' w'. unfold post_chat. apply post_urls_quiet. Qed.
Lemma fresh_from_quiet fuel used : keeps (W := W) quiet (fresh_from fuel used).
Proof. induction fuel; cbn [fresh_from]; frame. Qed.
#[local] Hint Resolve post_chat_quiet fresh_from_quiet : frame.
Lemma call_identity_quiet used raw : keeps (W := W) quiet (call_identity used raw).
Proof. unfold call_identity, fresh_call_id. frame. Qed.
#[local] Hint Resolve call_identity_quiet : frame.
Lemma parse_calls_quiet used raw : keeps (W := W) quiet (parse_calls config used raw).
Proof. revert used. induction raw; intros used; cbn [parse_calls]; frame; auto. Qed.
#[local] Hint Resolve parse_calls_quiet : frame.
Lemma parse_decision_quiet v ds : keeps (W := W) quiet (parse_decision config v ds).
Proof. unfold parse_decision. frame. Qed.
#[local] Hint Resolve parse_decision_quiet : frame.
Lemma decide_quiet ms : keeps (W := W) quiet (decide config ms).
Proof. unfold decide. frame. Qed.
Lemma compact_client_quiet g src c : keeps (W := W) quiet (compact_client config g src c).
Proof. unfold compact_client. frame. Qed.

(** ** Compaction *)
Lemma record_compacting f p : keeps (W := W) compacting (Diagnostics.record f p).
Proof. apply keeps_quiet_compacting, record_quiet. Qed.
Lemma archive_compacting k p : keeps (W := W) compacting (archive_record k p).
Proof. apply keeps_quiet_compacting, archive_record_quiet. Qed.
Lemma client_compacting g src c : keeps (W := W) compacting (compact_client config g src c).
Proof. apply keeps_quiet_compacting, compact_client_quiet. Qed.
Lemma uuid_compacting : keeps (W := W) compacting uuid.
Proof. apply keeps_quiet_compacting, uuid_quiet. Qed.
#[local] Hint Resolve record_compacting archive_compacting client_compacting uuid_compacting : frame.

Lemma judge_compacting ctx n p ds : keeps (W := W) compacting (judge config ctx n p ds).
Proof. unfold judge, judge_text, accept, decision_record. frame. Qed.
#[local] Hint Resolve judge_compacting : frame.
Lemma attempt_summaries_compacting fuel ctx n c r :
  keeps (W := W) compacting (attempt_summaries config fuel ctx n c r).
Proof.
  revert n c r. induction fuel as [|fuel IH]; intros n c r; cbn [attempt_summaries]; unfold reject; frame.
  all: apply IH.
Qed.
#[local] Hint Resolve attempt_summaries_compacting : frame.
Lemma compact_pass_compacting p n : keeps (W := W) compacting (compact_pass config p n).
Proof.
  unfold compact_pass, decline_pass, pass_selected, run_pass, skipped, decision_record. frame.
Qed.
#[local] Hint Resolve compact_pass_compacting : frame.
Lemma compact_passes_compacting fuel p c n : keeps (W := W) compacting (compact_passes config fuel p c n).
Proof. revert p c n. induction fuel; intros p c n; cbn [compact_passes]; frame; auto. Qed.
#[local] Hint Resolve compact_passes_compacting : frame.
Lemma compact_compacting : keeps (W := W) compacting (compact config).
Proof. unfold compact. frame. Qed.
End frames.

#[export] Hint Resolve uuid_quiet timestamp_quiet archive_record_quiet append_quiet stage_quiet record_quiet
  emit_quiet acknowledge_quiet commit_outboxes_quiet checkpoint_quiet action_checkpoint_quiet
  push_attempt_quiet stage_execution_quiet audit_quiet world_result_quiet open_execution_quiet
  settle_former_quiet verify_receipt_quiet start_attempt_quiet settle_known_quiet block_session_calm
  dispatch_calm decide_quiet compact_compacting
  keeps_quiet_calm keeps_quiet_working keeps_calm_working keeps_compacting_working : frame.

(** ** The steps of a run *)
Section run_frames.
Context {W : Type} `{P : Platform} `{H : Host W} (config : Config).

Lemma msg_append_compacting m : keeps (W := W) compacting (append_message m).
Proof.
  unfold append_message. frame.
  - apply keeps_quiet_compacting, uuid_quiet.
  - apply keeps_quiet_compacting, timestamp_quiet.
Qed.
Lemma msg_append_working m : keeps (W := W) working (append_message m).
Proof. apply keeps_compacting_working, msg_append_compacting. Qed.
#[local] Hint Resolve msg_append_working : frame.

Definition absorbed (s s' : Session) : Prop :=
  id s' = id s /\ run_id s' = run_id s /\ goal s' = goal s /\ step_count s' = step_count s /\ status s' = status s
  /\ memory s' = memory s /\ batch s' = batch s /\ executions s' = executions s.

Lemma capture_one_absorbed c n a o s ic : absorbed s (capture_one c n a o s ic).
Proof.
  unfold capture_one. destruct ic as [i check]. repeat case_match; done.
Qed.

Lemma capture_artifacts_absorbed s c n a o : absorbed s (capture_artifacts config s c n a o).
Proof.
  unfold capture_artifacts. destruct (is_error_output o); [done|].
  generalize (enumerate (result_checks config)). intros l. revert s.
  induction l as [|ic l IH]; intros s; [done|]. cbn [foldl].
  destruct (IH (capture_one c n (Object a) o s ic)) as (?&?&?&?&?&?&?&?).
  destruct (capture_one_absorbed c n (Object a) o s ic) as (?&?&?&?&?&?&?&?).
  unfold absorbed. split_and!; congruence.
Qed.

Lemma record_absorbed s n a o : absorbed s (Workflow.record config s n a o).
Proof. unfold Workflow.record. by case_match; [destruct p|]. Qed.

Lemma absorb_absorbed c n a o s : absorbed s (absorb config c n a o s).
Proof.
  unfold absorb. pose proof (capture_artifacts_absorbed s c n a o) as (?&?&?&?&?&?&?&?).
  set (s1 := capture_artifacts config s c n a o) in *.
  assert (absorbed s1 (if is_none (workflow s1) && negb (is_error_output o)
          then record_progress_output s1 n a o else s1)) as (?&?&?&?&?&?&?&?) by (by case_match).
  set (s2 := if is_none (workflow s1) && _ then _ else _) in *.
  destruct (record_absorbed s2 n a o) as (?&?&?&?&?&?&?&?).
  unfold absorbed. split_and!; congruence.
Qed.

Lemma absorb_working c n a o : keeps (W := W) working (modify (absorb config c n a o)).
Proof.
  apply keeps_modify; [apply _|]. intros s. destruct (absorb_absorbed c n a o s) as (?&?&?&?&E&_).
  split_and!; [done..|]. by rewrite E.
Qed.
#[local] Hint Resolve absorb_working : frame.

Lemma pop_call_working : keeps (W := W) working (modify (fun s =>
  let s := s <| pending_tool_calls ::= tail |> in
  if (length (pending_tool_calls s) =? 0)%nat then s <| pending_tool_phase := None |> else s)).
Proof. apply keeps_modify; [apply _|]. intros s. cbv zeta. by case_match. Qed.
#[local] Hint Resolve pop_call_working : frame.

Lemma settle_call_working ph call : keeps (W := W) working (settle_call config ph call).
Proof. unfold settle_call, append_correlated_tool_result. frame. Qed.
#[local] Hint Resolve settle_call_working : frame.
Lemma settle_calls_working fuel ph r : keeps (W := W) working (settle_calls config fuel ph r).
Proof. revert r. induction fuel; intros r; cbn [settle_calls]; frame; auto. Qed.
#[local] Hint Resolve settle_calls_working : frame.

Lemma increment_invalid_working s : working s (snd (increment_invalid config s)).
Proof. unfold increment_invalid. cbv zeta. by case_match. Qed.
Lemma step_invalid_working : keeps (W := W) working (step_invalid config).
Proof.
  intros s w r s' w'. unfold step_invalid. cbn. pose proof (increment_invalid_working s) as Hs.
  destruct (increment_invalid config s). by intros [= _ <- _].
Qed.
#[local] Hint Resolve step_invalid_working : frame.
Lemma report_limit_working b : keeps (W := W) working (report_limit b).
Proof. unfold report_limit. frame. Qed.
#[local] Hint Resolve report_limit_working : frame.
Lemma settle_pending_working : keeps (W := W) working (settle_pending config).
Proof. unfold settle_pending. frame. Qed.
Lemma observe_progress_working b : keeps (W := W) working (observe_progress config b).
Proof. unfold observe_progress. frame. Qed.
#[local] Hint Resolve settle_pending_working observe_progress_working : frame.
Lemma handle_invalid_working d b : keeps (W := W) working (handle_invalid config d b).
Proof. unfold handle_invalid. frame. Qed.
Lemma renew_calls_working h cs : keeps (W := W) working (renew_calls h cs).
Proof. induction cs; cbn [renew_calls]; frame; auto. Qed.
#[local] Hint Resolve renew_calls_working : frame.
Lemma handle_tools_working d b : keeps (W := W) working (handle_tools config d b).
Proof. unfold handle_tools, query_historical. frame. Qed.
Lemma advance_working s : working s (snd (advance config s)).
Proof.
  unfold advance, enter_workflow. repeat case_match; try done.
Qed.
Lemma advance_phase_working : keeps (W := W) working (advance_phase config).
Proof.
  unfold advance_phase. apply keeps_bind; [apply _| |].
  - intros s w r s' w'. cbn. pose proof (advance_working s) as Hs.
    destruct (advance config s). by intros [= _ <- _].
  - intros [t|]; frame.
Qed.
Lemma report_diagnostics_working ds : keeps (W := W) working (report_diagnostics ds).
Proof. unfold report_diagnostics. frame. Qed.
#[local] Hint Resolve report_diagnostics_working advance_phase_working : frame.
Lemma compact_step_working : keeps (W := W) working (compact_step config).
Proof. unfold compact_step. frame. Qed.
End run_frames.

#[export] Hint Resolve msg_append_working absorb_working settle_call_working settle_calls_working
  step_invalid_working report_limit_working settle_pending_working observe_progress_working
  handle_invalid_working handle_tools_working advance_phase_working compact_step_working
  report_diagnostics_working : frame.
