(* ===== verification/WorldFrame.v ===== *)
(** * What a run does to the world

    A run acts on the world through its host alone.  [over R] relates the
    worlds before and after, whatever happened to the session: when every
    operation of the host relates them by the preorder [R], so does a run. *)
From S2P Require Import Prelude Text Json Encoding Session Logic Context Diagnostics Outcome Workflow Prompt Tools Checkpoint Actions Wire Compaction Run.
Local Open Scope string_scope.
Local Open Scope Z_scope.

Definition over {W} (R : W -> W -> Prop) (a b : Session * W) : Prop := R (snd a) (snd b).
#[export] Instance over_preorder {W} (R : W -> W -> Prop) `{!PreOrder R} : PreOrder (over R).
Proof. unfold over. split; [intros ?; reflexivity|]. intros a b c H1 H2. by etrans. Qed.
(** The operations on which requests to the model, compaction and the archive
    rest relate the worlds before and after, and then those of the whole host. *)
Record engine_steps {W} `{H : Host W} (R : W -> W -> Prop) : Prop := {
  step_uuid : forall w, R w (snd (new_uuid w));
  step_now : forall w, R w (snd (now_seconds w));
  step_post : forall url token body w, R w (snd (http_post url token body w));
  step_elapsed : forall w, R w (snd (elapsed_ms w));
  step_log : forall line w, R w (log_line line w)
}.
Record host_steps {W} `{H : Host W} (R : W -> W -> Prop) : Prop := {
  step_engine : engine_steps R;
  step_fetch : forall q binds w, R w (snd (sql_fetch q binds w));
  step_emit : forall e s w, R w (snd (emit e s w));
  step_calls : forall session ids w, R w (snd (historical_calls session ids w));
  step_query : forall ns key w, R w (snd (receipt_query ns key w));
  step_insert : forall ns key fp request result_ w, R w (snd (receipt_insert ns key fp request result_ w));
  step_commit : forall w, R w (snd (receipt_commit w));
  step_rollback : forall w, R w (receipt_rollback w)
}.

Section engine.
Context {W : Type} `{P : Platform} `{H : Host W} (R : W -> W -> Prop) `{!PreOrder R}.
Notation safe m := (moves (over R) m).

Lemma safe_modify f : safe (modify f).
Proof using All. apply moves_modify; [apply _|]. intros s w. change (R w w). reflexivity. Qed.
Lemma safe_world {A} (f : W -> A * W) : (forall w, R w (snd (f w))) -> safe (world f).
Proof using All. intros Hf. apply moves_world; [apply _|]. intros s w. apply Hf. Qed.
Lemma safe_same {A} (m : M W A) : worldless m -> safe m.
Proof using All. intros Hm sw r sw' E. apply Hm in E. unfold over. rewrite E. reflexivity. Qed.
Hypothesis Hengine : engine_steps R.
#[local] Hint Resolve safe_modify : moves.

(** ** The parts *)
Lemma uuid_safe : safe uuid.
Proof using All. apply safe_world, (step_uuid R Hengine). Qed.
Lemma timestamp_safe : safe transcript_timestamp.
Proof using All. apply moves_bind; [apply _|apply safe_world, (step_now R Hengine)|intros ?; apply moves_here; apply _]. Qed.
#[local] Hint Resolve uuid_safe timestamp_safe : moves.
Lemma archive_record_safe k v : safe (archive_record k v).
Proof using All. unfold archive_record. moves. Qed.
Lemma append_message_safe m : safe (append_message m).
Proof using All. unfold append_message. moves. Qed.
Lemma append_safe f v : safe (Diagnostics.append f v).
Proof using All. unfold Diagnostics.append. moves. Qed.
#[local] Hint Resolve archive_record_safe append_message_safe append_safe : moves.
Lemma stage_safe : safe stage.
Proof using All. unfold stage. moves. Qed.
#[local] Hint Resolve stage_safe : moves.
Lemma record_safe f v : safe (Diagnostics.record f v).
Proof using All. unfold Diagnostics.record. moves. Qed.
#[local] Hint Resolve record_safe : moves.
(** ** Requests to the model *)
Context (config : Config).
Lemma elapsed_safe : safe elapsed.
Proof using All. apply safe_world, (step_elapsed R Hengine). Qed.
Lemma log_provider_safe v : safe (log_provider v).
Proof using All. apply safe_world. intros w. apply (step_log R Hengine). Qed.
Lemma post_safe url token body : safe (world (http_post url token body)).
Proof using All. apply safe_world. intros w. apply (step_post R Hengine). Qed.
#[local] Hint Resolve elapsed_safe log_provider_safe post_safe : moves.
Lemma failed_request_safe k b m c t ds : safe (failed_request config k b m c t ds).
Proof using All. unfold failed_request. moves. Qed.
#[local] Hint Resolve failed_request_safe : moves.
Lemma post_urls_safe urls token k body b m ds : safe (post_urls config urls token k body b m ds).
Proof using All. revert ds. induction urls; intros; cbn [post_urls]; moves; auto. Qed.
Lemma post_chat_safe v : safe (post_chat config v).
Proof using All. intros sw r sw' E. unfold post_chat in E. by apply post_urls_safe in E. Qed.
Lemma fresh_call_id_safe used : safe (fresh_call_id used).
Proof using All. unfold fresh_call_id. generalize (length used) as fuel. induction fuel; cbn [fresh_from]; moves; auto. Qed.
#[local] Hint Resolve post_chat_safe fresh_call_id_safe : moves.
Lemma call_identity_safe used raw : safe (call_identity used raw).
Proof using All. unfold call_identity. moves. Qed.
#[local] Hint Resolve call_identity_safe : moves.
Lemma parse_calls_safe used raws : safe (parse_calls config used raws).
Proof using All. revert used. induction raws; intros; cbn [parse_calls]; moves; auto. Qed.
#[local] Hint Resolve parse_calls_safe : moves.
Lemma parse_decision_safe v ds : safe (parse_decision config v ds).
Proof using All. unfold parse_decision. moves. Qed.
#[local] Hint Resolve parse_decision_safe : moves.
Lemma decide_safe ms : safe (decide config ms).
Proof using All. unfold decide. moves. Qed.
Lemma compact_client_safe g src c : safe (compact_client config g src c).
Proof using All. unfold compact_client. moves. Qed.
#[local] Hint Resolve decide_safe compact_client_safe : moves.

(** ** Compaction *)
Lemma decision_record_safe v : safe (decision_record v).
Proof using All. apply record_safe. Qed.
#[local] Hint Resolve decision_record_safe : moves.
Lemma skipped_safe a r : safe (skipped a r).
Proof using All. unfold skipped. moves. Qed.
Lemma accept_safe ctx n text l c b r : safe (accept ctx n text l c b r).
Proof using All. unfold accept. moves. Qed.
Lemma reject_safe ctx n p r : safe (reject ctx n p r).
Proof using All. unfold reject. moves. Qed.
#[local] Hint Resolve skipped_safe accept_safe reject_safe : moves.
Lemma judge_safe ctx n p ds : safe (judge config ctx n p ds).
Proof using All. unfold judge, judge_text. moves. Qed.
#[local] Hint Resolve judge_safe : moves.
Lemma attempt_summaries_safe fuel ctx n c r : safe (attempt_summaries config fuel ctx n c r).
Proof using All. revert n c r. induction fuel; intros; cbn [attempt_summaries]; moves; auto. Qed.
#[local] Hint Resolve attempt_summaries_safe : moves.
Lemma run_pass_safe ctx a n : safe (run_pass config ctx a n).
Proof using All. unfold run_pass. moves. Qed.
#[local] Hint Resolve run_pass_safe : moves.
Lemma pass_selected_safe p b a sel n : safe (pass_selected config p b a sel n).
Proof using All. unfold pass_selected. moves. Qed.
Lemma decline_pass_safe b a r n : safe (decline_pass b a r n).
Proof using All. unfold decline_pass. moves. Qed.
#[local] Hint Resolve pass_selected_safe decline_pass_safe : moves.
Lemma compact_pass_safe p n : safe (compact_pass config p n).
Proof using All. unfold compact_pass. moves. Qed.
#[local] Hint Resolve compact_pass_safe : moves.
Lemma compact_passes_safe fuel p c n : safe (compact_passes config fuel p c n).
Proof using All. revert p c n. induction fuel; intros; cbn [compact_passes]; moves; auto. Qed.
#[local] Hint Resolve compact_passes_safe : moves.
Lemma compact_safe : safe (compact config).
Proof using All. unfold compact. moves. Qed.
#[local] Hint Resolve compact_safe : moves.

End engine.

Section world.
Context {W : Type} `{P : Platform} `{H : Host W} (R : W -> W -> Prop) `{!PreOrder R}.
Hypothesis Hsteps : host_steps R.
Let Hengine : engine_steps R := step_engine R Hsteps.
Notation safe m := (moves (over R) m).
#[local] Hint Resolve safe_modify uuid_safe timestamp_safe archive_record_safe append_message_safe append_safe
  stage_safe record_safe decide_safe compact_safe : moves.

Lemma host_safe {A} (f : W -> A * W) : (forall w, R w (snd (f w))) -> safe (world f).
Proof using All. intros Hf. by apply safe_world. Qed.

(** ** Checkpoints *)
Lemma emit_event_safe e : safe (emit_event e).
Proof using All.
  intros [s w] r sw'. unfold emit_event. pose proof (step_emit R Hsteps e s w) as He. cbn [fst snd].
  destruct (emit e s w). by intros [= _ <-].
Qed.
Lemma acknowledge_safe : safe acknowledge.
Proof using All. intros [s w] r sw' [= _ <-]. unfold over. reflexivity. Qed.
#[local] Hint Resolve emit_event_safe acknowledge_safe : moves.
Lemma commit_outboxes_safe : safe commit_outboxes.
Proof using All. unfold commit_outboxes. moves. Qed.
#[local] Hint Resolve commit_outboxes_safe : moves.
Lemma checkpoint_safe e : safe (checkpoint e).
Proof using All. unfold checkpoint. moves. Qed.
Lemma action_checkpoint_safe e : safe (action_checkpoint e).
Proof using All. unfold action_checkpoint. moves. Qed.
#[local] Hint Resolve checkpoint_safe action_checkpoint_safe : moves.

(** ** Tools and actions *)
Definition db_safe {A} (m : Tools.Db W A) : Prop := forall w, R w (snd (m w)).
Lemma db_safe_bind {A B} (m : Tools.Db W A) (f : A -> Tools.Db W B) :
  db_safe m -> (forall a, db_safe (f a)) -> db_safe (m ≫= f).
Proof using All.
  intros Hm Hf w. unfold mbind, Db_bind. specialize (Hm w). destruct (m w) as [[a|e] w']; [|exact Hm].
  etrans; [exact Hm|apply Hf].
Qed.
Lemma db_safe_ret {A} (a : A) : db_safe (mret a).
Proof using All. intros w. cbn. reflexivity. Qed.
Lemma db_safe_lift {A} (r : result string A) : db_safe (db_lift r).
Proof using All. intros w. cbn. reflexivity. Qed.
Lemma fetch_safe q binds : db_safe (fetch_all q binds).
Proof using All.
  intros w. unfold fetch_all. pose proof (step_fetch R Hsteps q binds w). by destruct (sql_fetch q binds w).
Qed.
Ltac db_safe := repeat match goal with
  | |- forall _, db_safe _ => intro
  | |- db_safe (_ ≫= _) => apply db_safe_bind
  | |- db_safe (mret _) => apply db_safe_ret
  | |- db_safe (db_lift _) => apply db_safe_lift
  | |- db_safe (fetch_all _ _) => apply fetch_safe
  | |- db_safe (let '(_, _) := ?p in _) => destruct p
  | |- db_safe (if ?b then _ else _) => destruct b
  | |- db_safe (match ?x with _ => _ end) => destruct x
  | |- db_safe (let x := _ in _) => cbv zeta
  end.
Lemma query_revenue_safe keys city : db_safe (query_revenue keys city).
Proof using All. unfold query_revenue. db_safe. Qed.
Lemma employee_median_safe a : db_safe (employee_median a).
Proof using All. unfold employee_median, employee_rows. db_safe. Qed.
Lemma inner_safe name a : db_safe (inner name a).
Proof using All.
  unfold inner, inspect_log, analyze_ips, validate_top_offending_ip, inspect_sql_schema,
    validate_chicago_q1_revenue, inspect_employee_schema, audit_employee, employee_report,
    validate_employee_audit, top_ip, table_schema, employee_rows, log_lines.
  db_safe; auto using query_revenue_safe, employee_median_safe.
Qed.
Lemma execute_safe name args w : R w (snd (execute name args w)).
Proof using All.
  unfold execute. pose proof (inner_safe name args w) as Hi. by destruct (inner name args w) as [[v|e] w'].
Qed.
Lemma recipient_safe ns key args w : R w (snd (recipient ns key args w)).
Proof using All.
  unfold recipient. destruct (payload _ _ args) as [fp|e]; [|cbn; reflexivity]. cbv zeta.
  match goal with |- context [receipt_insert ns key fp args ?r w] => pose proof (step_insert R Hsteps ns key fp args r w) as Hi;
    destruct (receipt_insert ns key fp args r w) as [[[stored result_]|e] w1] end; cbn [snd] in Hi |- *.
  - destruct (negb _); cbn [snd]; [etrans; [exact Hi|apply (step_rollback R Hsteps)]|].
    pose proof (step_commit R Hsteps w1) as Hc. destruct (receipt_commit w1) as [[x|x] w2]; by etrans.
  - etrans; [exact Hi|apply (step_rollback R Hsteps)].
Qed.
Lemma perform_safe ns tool args ex w : R w (snd (perform ns tool args ex w)).
Proof using All.
  unfold perform. destruct (String.eqb _ _); [apply recipient_safe|].
  match goal with |- context [execute ?n ?a w] => pose proof (execute_safe n a w); by destruct (execute n a w) end.
Qed.

Lemma push_attempt_safe a : safe (push_attempt a).
Proof using All. unfold push_attempt. moves. Qed.
Lemma audit_safe k v : safe (audit k v).
Proof using All. by apply archive_record_safe. Qed.
#[local] Hint Resolve push_attempt_safe audit_safe : moves.
Lemma create_execution_safe config c call tool args : safe (create_execution config c call tool args).
Proof using All. unfold create_execution. moves. Qed.
#[local] Hint Resolve create_execution_safe : moves.
Lemma open_execution_safe config c call tool args : safe (open_execution config c call tool args).
Proof using All. unfold open_execution. moves. Qed.
Lemma settle_started_safe v : safe (settle_started v).
Proof using All. unfold settle_started. moves. Qed.
#[local] Hint Resolve open_execution_safe settle_started_safe : moves.
Lemma settle_former_safe v : safe (settle_former_attempts v).
Proof using All. unfold settle_former_attempts. moves. Qed.
Lemma unknown_receipt_safe v : safe (unknown_receipt v).
Proof using All. unfold unknown_receipt. moves. Qed.
#[local] Hint Resolve settle_former_safe unknown_receipt_safe : moves.
Lemma query_receipt_safe ns key : safe (world_result (receipt_query ns key)).
Proof using All. apply host_safe, (step_query R Hsteps). Qed.
#[local] Hint Resolve query_receipt_safe : moves.
Lemma verify_receipt_safe c ex ns n : safe (verify_receipt c ex ns n).
Proof using All. unfold verify_receipt. moves. Qed.
Lemma block_recovery_safe ex : safe (block_recovery ex).
Proof using All. unfold block_recovery. moves. Qed.
Lemma start_attempt_safe c ex n : safe (start_attempt c ex n).
Proof using All. unfold start_attempt. moves. Qed.
Lemma settle_known_safe a ex f r : safe (settle_known a ex f r).
Proof using All. unfold settle_known. moves. Qed.
Lemma settle_unknown_safe a ex f e : safe (settle_unknown a ex f e).
Proof using All. unfold settle_unknown. moves. Qed.
Lemma world_perform_safe ns tool args ex : safe (world_result (perform ns tool args ex)).
Proof using All. apply host_safe. intros w. apply perform_safe. Qed.
#[local] Hint Resolve verify_receipt_safe block_recovery_safe start_attempt_safe settle_known_safe settle_unknown_safe
  world_perform_safe : moves.
Lemma dispatch_attempt_safe c ex ns tool args n : safe (dispatch_attempt c ex ns tool args n).
Proof using All. unfold dispatch_attempt. moves. Qed.
#[local] Hint Resolve dispatch_attempt_safe : moves.
Lemma dispatch_or_block_safe c ex ns tool args n : safe (dispatch_or_block c ex ns tool args n).
Proof using All. unfold dispatch_or_block. moves. Qed.
#[local] Hint Resolve dispatch_or_block_safe : moves.
Lemma dispatch_safe config call tool args : safe (dispatch config call tool args).
Proof using All. unfold dispatch. moves. Qed.
#[local] Hint Resolve dispatch_safe : moves.

Context (config : Config).
(** ** The run *)
Lemma step_invalid_safe : safe (step_invalid config).
Proof using All. intros [s w] r sw'. unfold step_invalid. destruct (increment_invalid _ _). intros [= _ <-]. unfold over. reflexivity. Qed.
Lemma report_limit_safe b : safe (report_limit b).
Proof using All. unfold report_limit. moves. Qed.
Lemma observe_progress_safe b : safe (observe_progress config b).
Proof using All. unfold observe_progress. moves. Qed.
Lemma correlated_safe i n out : safe (append_correlated_tool_result i n out).
Proof using All. by apply append_message_safe. Qed.
#[local] Hint Resolve step_invalid_safe report_limit_safe observe_progress_safe correlated_safe : moves.
Lemma settle_call_safe ph call : safe (settle_call config ph call).
Proof using All. unfold settle_call. moves. Qed.
#[local] Hint Resolve settle_call_safe : moves.
Lemma settle_calls_safe fuel ph b : safe (settle_calls config fuel ph b).
Proof using All. revert b. induction fuel; intros; cbn [settle_calls]; moves; auto. Qed.
#[local] Hint Resolve settle_calls_safe : moves.
Lemma settle_pending_safe : safe (settle_pending config).
Proof using All. unfold settle_pending. moves. Qed.
Lemma report_diagnostics_safe ds : safe (report_diagnostics ds).
Proof using All. unfold report_diagnostics. moves. Qed.
Lemma renew_calls_safe hist calls : safe (renew_calls hist calls).
Proof using All. induction calls; cbn [renew_calls]; moves; auto. Qed.
Lemma query_historical_safe session ids : safe (query_historical session ids).
Proof using All.
  apply moves_bind; [apply _|apply host_safe; intros w; apply (step_calls R Hsteps)|intros ?; apply moves_here; apply _].
Qed.
#[local] Hint Resolve settle_pending_safe report_diagnostics_safe renew_calls_safe query_historical_safe : moves.
Lemma handle_invalid_safe d b : safe (handle_invalid config d b).
Proof using All. unfold handle_invalid. moves. Qed.
Lemma handle_final_safe d b : safe (handle_final config d b).
Proof using All. unfold handle_final. moves. Qed.
Lemma handle_tools_safe d b : safe (handle_tools config d b).
Proof using All. unfold handle_tools. moves. Qed.
#[local] Hint Resolve handle_invalid_safe handle_final_safe handle_tools_safe : moves.
Lemma take_decision_safe : safe (take_decision config).
Proof using All. unfold take_decision. moves. Qed.
Lemma advance_phase_safe : safe (advance_phase config).
Proof using All.
  unfold advance_phase. apply moves_bind; [apply _| |intros [t|]; moves].
  intros [s w] r sw'. cbn [fst snd]. destruct (advance config s). intros [= _ <-]. unfold over. reflexivity.
Qed.
Lemma compact_step_safe : safe (compact_step config).
Proof using All. unfold compact_step. moves. Qed.
#[local] Hint Resolve take_decision_safe advance_phase_safe compact_step_safe : moves.
Lemma run_loop_safe fuel limit : safe (run_loop config fuel limit).
Proof using All. induction fuel; cbn [run_loop]; moves; auto. Qed.
Lemma reach_limit_safe cap : safe (reach_limit cap).
Proof using All. unfold reach_limit. moves. Qed.
Lemma begin_run_safe : safe (begin_run config).
Proof using All. unfold begin_run. moves. Qed.
Lemma finish_run_safe : safe finish_run.
Proof using All. unfold finish_run. moves. Qed.
#[local] Hint Resolve run_loop_safe reach_limit_safe begin_run_safe finish_run_safe : moves.
(** A run relates the worlds before and after as its host does. *)
Lemma run_safe max s w : R w (snd (snd (run config max (s, w)))).
Proof using All.
  assert (safe (run config max)) as Hm by (unfold run; moves).
  destruct (run config max (s, w)) as [r sw] eqn:E. exact (Hm _ _ _ E).
Qed.
End world.
