(* ===== verification/Invariant.v ===== *)
(** * What no operation of the system ever loses

    [faithful d d'] relates the database before and after: when the transcripts
    are numbered without gaps they still are; transcript rows, commit receipts,
    the identities and outcomes of actions and the responses of commands are
    kept, and so are the cancellations of runs; sessions keep their configuration
    and never go back to an earlier revision.  Every statement, transaction, handler and operator command
    respects it, whatever the network loses and whatever the tasks and workers
    that respect it themselves do in between, before any transaction too
    ([FaithfulOthers]).  For the service as a whole that is no assumption: what the
    others commit is made of the same operations ([others_are_faithful]). *)
From S2P Require Import Prelude Text Json Encoding Session Logic Diagnostics Prompt Tools Checkpoint Store StoreLogic Http HttpLogic Rows Snapshot Config Startup Retention Requests Commit Load Handlers Pages CommitFacts SaveFacts Run Server Stream Listings Router Admin Service WorldFrame.
Local Open Scope string_scope.
Local Open Scope Z_scope.

(** ** The relation *)
Record history_kept (d d' : Db) : Prop := {
  kept_rows : forall k row, transcript d !! k = Some row -> transcript d' !! k = Some row;
  kept_actions : actions_kept d d';
  kept_responses : responses_kept d d';
  kept_receipts : forall k r, commit_receipts d !! k = Some r -> commit_receipts d' !! k = Some r;
  kept_sessions : forall i row, sessions d !! i = Some row -> exists row', sessions d' !! i = Some row'
    /\ row_revision row <= row_revision row' /\ row_config row' = row_config row;
  kept_cancels : cancelled_runs d ⊆ cancelled_runs d'
}.
Definition faithful (d d' : Db) : Prop := all_numbered d -> all_numbered d' /\ history_kept d d'.

Lemma history_kept_refl d : history_kept d d.
Proof.
  split; [done|by apply same_actions|by apply same_responses|done| |done].
  intros i row Hrow. exists row. split_and!; [done|lia|done].
Qed.
Lemma history_kept_trans d1 d2 d3 : history_kept d1 d2 -> history_kept d2 d3 -> history_kept d1 d3.
Proof.
  intros [A1 A2 A3 A4 A5 A6] [B1 B2 B3 B4 B5 B6].
  split; [auto|by eapply actions_trans|by eapply responses_trans|auto| |by etrans].
  intros i row Hrow. destruct (A5 i row Hrow) as (r2 & H2 & L2 & C2). destruct (B5 i r2 H2) as (r3 & H3 & L3 & C3).
  exists r3. split_and!; [done|lia|congruence].
Qed.
#[export] Instance faithful_preorder : PreOrder faithful.
Proof.
  split; [intros d H; split; [done|apply history_kept_refl]|]. intros d1 d2 d3 H1 H2 Hn.
  destruct (H1 Hn) as [Hn2 K1]. destruct (H2 Hn2) as [Hn3 K2]. split; [done|by eapply history_kept_trans].
Qed.
Lemma faithful_same d d' : same_tables d d' -> faithful d d'.
Proof.
  rewrite same_tables_iff. intros (E1 & E2 & E3 & _ & _ & E6 & E7 & _ & _ & E10 & _) Hn. split.
  - intros session. destruct (Hn session) as (n & H0 & Hd). exists n. split; [done|by eapply numbered_same].
  - split; [by rewrite E3|by apply same_actions|by apply same_responses|by rewrite E10| |by rewrite (cancelled_same d d')].
    intros i row Hrow. exists row. rewrite E1. split_and!; [done|lia|done].
Qed.
(** A change of the commands, the runs or the leases. *)
Lemma faithful_tables d d' : transcript d' = transcript d -> tool_executions d' = tool_executions d ->
  commit_receipts d' = commit_receipts d -> cancelled_runs d ⊆ cancelled_runs d' -> responses_kept d d' ->
  (forall i row, sessions d !! i = Some row -> exists row', sessions d' !! i = Some row'
     /\ row_revision row <= row_revision row' /\ row_config row' = row_config row) -> faithful d d'.
Proof.
  intros E1 E2 E3 E4 Hr Hs Hn. split.
  - intros session. destruct (Hn session) as (n & H0 & Hd). exists n. split; [done|by eapply numbered_same].
  - split; [by rewrite E1|by apply same_actions|done|by rewrite E3|done|done].
Qed.
Lemma same_sessions d d' : sessions d' = sessions d -> forall i row, sessions d !! i = Some row ->
  exists row', sessions d' !! i = Some row' /\ row_revision row <= row_revision row' /\ row_config row' = row_config row.
Proof. intros E i row Hrow. exists row. rewrite E. split_and!; [done|lia|done]. Qed.
Lemma faithful_session i row row' d : sessions d !! i = Some row -> row_revision row' = row_revision row ->
  row_config row' = row_config row -> faithful d (put_session i row' d).
Proof.
  intros Hrow Hv Hc. apply faithful_tables; [done..|by apply same_responses|].
  intros j r Hr. unfold put_session. cbn. destruct (decide (j = i)) as [->|Hne].
  - rewrite lookup_insert_eq. rewrite Hrow in Hr. injection Hr as <-. exists row'. split_and!; [done|lia|done].
  - rewrite lookup_insert_ne by done. exists r. split_and!; [done|lia|done].
Qed.
Lemma faithful_commands d m : responses_kept d (d <| commands := m |>) -> faithful d (d <| commands := m |>).
Proof. intros Hr. by apply faithful_tables; [..|apply same_sessions]. Qed.

(** ** Statements *)
Lemma grant_faithful i owner now d x : grant_lease i owner now d = Ok x -> faithful d (snd x).
Proof.
  unfold grant_lease. destruct (sessions d !! i) as [row|] eqn:E; [|by intros [= <-]].
  destruct (_ || _); [|by intros [= <-]]. intros (f & _ & [= <-])%bind_ok. by eapply faithful_session.
Qed.
Lemma extend_faithful i owner fence now d : faithful d (snd (extend_lease i owner fence now d)).
Proof.
  unfold extend_lease. destruct (sessions d !! i) as [row|] eqn:E; [|reflexivity].
  destruct (_ && _); [|reflexivity]. by eapply faithful_session.
Qed.
Lemma drop_faithful i owner fence d : faithful d (drop_lease i owner fence d).
Proof.
  unfold drop_lease. destruct (sessions d !! i) as [row|] eqn:E; [|reflexivity].
  destruct (holds_lease _ _ _); [|reflexivity]. by eapply faithful_session.
Qed.
Lemma alter_faithful k f p d :
  (forall r, commands d !! k = Some r -> p r = true -> settled r = true -> answer_of (f r) = answer_of r) ->
  faithful d (alter_command k f p d).
Proof.
  intros Hf. apply faithful_tables; try (unfold alter_command; repeat case_match; done).
  - by apply alter_command_keeps.
  - apply same_sessions. unfold alter_command. by repeat case_match.
Qed.
Lemma put_new_faithful k r d : commands d !! k = None -> faithful d (put_command k r d).
Proof.
  intros Hk. apply faithful_tables; [done..| |by apply same_sessions].
  intros j r' Hr _. unfold put_command. cbn. rewrite lookup_insert_ne by congruence. by exists r'.
Qed.
Lemma add_faithful k r d x : add_command k r d = Ok x -> faithful d (snd x).
Proof.
  unfold add_command. destruct (commands d !! k) eqn:E; [done|]. destruct (find_command _ _ _); [done|].
  intros [= <-]. by apply put_new_faithful.
Qed.
Lemma insert_faithful k r d x : insert_command k r d = Ok x -> faithful d (snd x).
Proof. unfold insert_command. destruct (find_command _ _ _); [by intros [= <-]|apply add_faithful]. Qed.
Lemma open_not_settled r : str_in (command_status r) ["pending"; "started"] = true -> settled r = false.
Proof.
  intros Hp%str_in_spec. apply not_true_is_false. intros Hs%str_in_spec.
  apply elem_of_cons in Hp as [Hp|Hp%list_elem_of_singleton];
    apply elem_of_cons in Hs as [Hs|Hs%list_elem_of_singleton]; congruence.
Qed.
Lemma claim_faithful k owner now d x : claim_command k owner now d = Ok x -> faithful d (snd x).
Proof.
  unfold claim_command. destruct (commands d !! k) as [r|] eqn:E; [|by intros [= <-]].
  destruct (claimable r now) eqn:Ec; [|by intros [= <-]]. intros (f & _ & [= <-])%bind_ok. apply faithful_tables; [done..| |by apply same_sessions].
  intros j r' Hr Hs. unfold put_command. cbn. destruct (decide (j = k)) as [->|Hne].
  - exfalso. rewrite E in Hr. injection Hr as <-. unfold claimable in Ec. apply andb_true_iff in Ec as [Ec _].
    rewrite open_not_settled in Hs; [done|]. apply str_in_spec. apply orb_true_iff in Ec as [Ec|Ec];
      apply String.eqb_eq in Ec; rewrite Ec; set_solver.
  - rewrite lookup_insert_ne by done. by exists r'.
Qed.
Lemma cancel_faithful p d : faithful d (snd (request_cancel p d)).
Proof.
  apply faithful_tables; [done..| |by apply same_responses|by apply same_sessions].
  intros k. rewrite !cancelled_runs_spec. intros (r & Hr & Hc). unfold request_cancel. cbn.
  rewrite map_lookup_imap, Hr. cbn. eexists. split; [done|]. by case_match.
Qed.

(** ** The other connections *)
(** What they commit before a transaction of this process loses nothing either. *)
Class FaithfulOthers (B : Backend) : Prop := others_safe : forall n d, faithful d (meanwhile n d).
#[export] Instance quiet_faithful (B : Backend) `{!Quiet B} : FaithfulOthers B.
Proof. intros n d. by rewrite quiet. Qed.
Lemma intervene_faithful `{B : Backend} `{!FaithfulOthers B} d : faithful d (intervene d).
Proof. etrans; [apply (others_safe (network_reads d))|apply faithful_same, intervene_same]. Qed.
Lemma by_others_faithful `{B : Backend} `{!FaithfulOthers B} d d' : by_others d d' -> faithful d d'.
Proof.
  apply (rtc_within _ faithful). intros x y [Hs| ->]; [by apply faithful_same|apply intervene_faithful].
Qed.
Lemma faithful_courteous `{B : Backend} `{!FaithfulOthers B} : courteous.
Proof. intros n d Hn. destruct (others_safe n d Hn) as [Hn' K]. split; [done|apply K]. Qed.

(** ** Transactions *)
Notation tsafe m := (tkeeps (over faithful) m).
Section tables.
Context `{P : Platform} `{B : Backend} {Ho : FaithfulOthers B} `{F : Files} `{Sr : Serde}.
Hypothesis readers : forall x u v, uuid_parse x = Some u -> uuid_cast x = Some v -> u = v.

Lemma tsafe_bind {A C} (m : T A) (f : A -> T C) : tsafe m -> (forall a, tsafe (f a)) -> tsafe (m ≫= f).
Proof using. apply tkeeps_bind. apply _. Qed.
Lemma tsafe_same {A} (m : T A) : tkeeps (same_on snd) m -> tsafe m.
Proof using. apply tkeeps_weaken. unfold same_on, over. intros ? ? ->. reflexivity. Qed.
Lemma clock_safe : tsafe clock_timestamp.
Proof using. intros [s d] r sd' [= _ <-]. apply faithful_same, same_tables_iff. by destruct d. Qed.
Lemma uuid_tsafe : tsafe (engine Protocol uuid).
Proof using. intros [s d] r sd' [= _ <-]. apply faithful_same, same_tables_iff. by destruct d. Qed.
Lemma timestamp_tsafe : tsafe (engine Protocol transcript_timestamp).
Proof using.
  apply tkeeps_engine. intros [s d] r sd' ->%timestamp_frame. apply faithful_same, same_tables_iff. by destruct d.
Qed.
(** A transaction needs its body only where it returns. *)
Lemma transaction_safe {A} (m : T A) :
  (forall s d, twp m (fun _ _ d' => faithful d d') any_error s d) -> tsafe (transaction m).
Proof using Ho.
  intros Hm [s d] r [s' d'] E. change (faithful d d'). apply transaction_cases in E as [[Hs _]|(a & d1 & E & Hs & _)].
  - transitivity (intervene d); [apply intervene_faithful|by apply faithful_same].
  - specialize (Hm s (intervene d)). unfold twp in Hm. rewrite E in Hm.
    transitivity (intervene d); [apply intervene_faithful|]. transitivity d1; [exact Hm|by apply faithful_same].
Qed.
Lemma transaction_tsafe {A} (m : T A) : tsafe m -> tsafe (transaction m).
Proof using Ho. intros Hm. apply transaction_safe. intros s d. by eapply (twp_keeps (over faithful)). Qed.
Lemma apply_tsafe {A} (f : Db -> A * Db) : (forall d, faithful d (snd (f d))) -> tsafe (apply_db f).
Proof using.
  intros Hf [s d] r sd'. unfold apply_db. cbn [fst snd]. specialize (Hf d). destruct (f d). intros [= _ <-]. exact Hf.
Qed.
Lemma statement_safe {A} (f : Z -> Db -> A * Db) : (forall now d, faithful d (snd (f now d))) -> tsafe (statement f).
Proof using Ho. intros Hf. apply transaction_tsafe, tsafe_bind; [apply clock_safe|intros now; apply apply_tsafe, Hf]. Qed.
Lemma query_safe {A} (f : Z -> Db -> A) : tsafe (statement (fun now d => (f now d, d))).
Proof using Ho. apply statement_safe. intros now d. cbn. reflexivity. Qed.
Lemma try_safe {A} (f : Db -> result db_error (A * Db)) :
  (forall d x, f d = Ok x -> faithful d (snd x)) -> tsafe (try_db f).
Proof using.
  intros Hf [s d] r sd'. unfold try_db. cbn [fst snd]. destruct (f d) as [[a d']|e] eqn:E; intros [= _ <-].
  - exact (Hf _ _ E).
  - unfold over. reflexivity.
Qed.
Lemma insertion_safe {A} (f : Db -> result db_error (A * Db)) :
  (forall d x, f d = Ok x -> faithful d (snd x)) -> tsafe (insertion f).
Proof using Ho. intros Hf. by apply transaction_tsafe, try_safe. Qed.
Lemma fallible_safe {A} (f : Z -> Db -> result db_error (A * Db)) :
  (forall now d x, f now d = Ok x -> faithful d (snd x)) -> tsafe (fallible f).
Proof using Ho.
  intros Hf. apply transaction_tsafe, tsafe_bind; [apply clock_safe|intros now; apply try_safe, Hf].
Qed.
Lemma ignore_safe {A} (m : T A) : tsafe m -> tsafe (ignore m).
Proof using. intros Hm sd r sd' [= _ <-]. destruct (m sd) as [x sd1] eqn:E. by eapply Hm. Qed.

(** *** Saving *)
Lemma recorded_faithful session cid kid fp d d' : commit_receipts d !! (session, cid) = None ->
  recorded session cid kid fp d d' -> faithful d d'.
Proof using.
  intros Hno Hrec Hn. split; [by eapply all_numbered_recorded|].
  destruct Hrec as [(row' & Es & Hv & _ & _ & Hl) Er [[Hk Ho'] _] Ha Hc Hx].
  split; [done..| | |by rewrite Hx].
  - intros k r Hr. rewrite Er, lookup_insert_ne by congruence. done.
  - intros i row Hrow. rewrite Es. destruct (decide (i = session)) as [->|Hne].
    + rewrite lookup_insert_eq. exists row'. destruct (Hl row Hrow) as (_ & _ & _ & Ec).
      split_and!; [done| |done]. rewrite Hv. unfold stored_revision. rewrite Hrow. cbn. lia.
    + rewrite lookup_insert_ne by done. exists row. split_and!; [done|lia|done].
Qed.
Lemma commit_body_safe session cid fp config e s d :
  twp (commit_body session cid fp config e) (fun _ _ d' => faithful d d') any_error s d.
Proof using readers.
  unfold twp. destruct (commit_body session cid fp config e (s, d)) as [[x|x] [s' d']] eqn:E; [|done]. intros Hn.
  destruct (Hn session) as (n & H0 & Hd). revert Hn. change (faithful d d').
  eapply twp_run in E; [|by apply (commit_body_spec readers session cid fp config e s d n)].
  destruct x as [? ?|?|]; [destruct E as (_ & Hs & _); by apply faithful_same..|].
  destruct E as (Hno & (kid & Hrec) & _). by eapply recorded_faithful.
Qed.
Lemma attempt_safe session cid fp config e : tsafe (transaction (commit_body session cid fp config e)).
Proof using Ho readers. apply transaction_safe. intros. apply commit_body_safe. Qed.
Lemma save_safe text config e : tsafe (save text config e).
Proof using Ho readers.
  intros [s d] r [s' d'] E Hn.
  eapply (save_saved readers all_numbered) in E; [|apply courteous_respects, faithful_courteous|done].
  revert Hn. change (faithful d d').
  destruct E as [[H1 _]|(session & cid & kid & fp & d1 & d2 & _ & H1 & H2 & H3 & _ & H4)]; [by apply by_others_faithful|].
  etrans; [by apply by_others_faithful|]. etrans; [by eapply recorded_faithful|by apply by_others_faithful].
Qed.

(** *** Loading *)
Lemma hydrate_safe records counts : tsafe (engine Protocol (hydrate records counts)).
Proof using.
  apply tsafe_same, tkeeps_engine. change (moves (same_on snd) (hydrate (W := Db) records counts)).
  unfold hydrate, hydrate_family, restore_row, check_legacy, stage, append. moves.
Qed.
#[local] Hint Resolve hydrate_safe : tframe.
Lemma load_body_safe i : tsafe (load_body i).
Proof using.
  unfold load_body. tframe; try (intros ? ? ? [= _ <-]; unfold over; reflexivity).
Qed.

(** *** Commands and leases *)
Lemma core_c_faithful s d s' d' : responses_kept d d' -> same_on core_c (s, d) (s', d') -> faithful d d'.
Proof using.
  unfold same_on, core_c. cbn. intros Hr E. injection E as _ _ _ _ _ _ _ _ _ E1 E2 E3 E4 E5.
  by apply faithful_tables; [..|rewrite E3| |apply same_sessions].
Qed.
Lemma finish_safe c code body s d : twp (finish c code body) (fun _ _ d' => faithful d d') any_error s d.
Proof using.
  eapply twp_mono; [apply finish_keeps| |done]. intros _ s' d' [Hr Hs]. by eapply core_c_faithful.
Qed.
Lemma cancel_body_safe raw i q s d : twp (cancel_body raw i q) (fun _ _ d' => faithful d d') any_error s d.
Proof using.
  unfold cancel_body. do 2 twp_step. destruct (negb _); [twp_step; reflexivity|].
  twp_step. eapply twp_mono; [apply guard_spec| |done]. intros _ s2 d2 (-> & E2 & _). do 2 twp_step.
  apply twp_bind. unfold apply_db, twp at 1. cbn [fst snd]. pose proof (cancel_faithful (is_run i a) d2) as Hc.
  destruct (request_cancel _ d2) as [l d3]. twp_step. eapply twp_mono; [apply finish_safe| |done].
  intros u s4 d4 H4. cbn beta in H4. twp_step. transitivity d2; [subst d2; apply faithful_same, same_tables_iff; by destruct d|].
  transitivity d3; [exact Hc|exact H4].
Qed.
Lemma acquire_safe i : tsafe (acquire_execution_lease i).
Proof using Ho.
  unfold acquire_execution_lease. apply tsafe_bind; [apply uuid_tsafe|intros owner].
  apply tsafe_bind; [apply fallible_safe; intros; by eapply grant_faithful|intros [f|]; tframe].
Qed.
Lemma renew_safe i owner fence : tsafe (renew_execution_lease i owner fence).
Proof using Ho.
  unfold renew_execution_lease. apply tsafe_bind; [apply statement_safe; intros; apply extend_faithful|intros n; tframe].
Qed.
Lemma release_safe i owner fence : tsafe (release_execution_lease i owner fence).
Proof using Ho. apply ignore_safe, statement_safe. intros now d. apply drop_faithful. Qed.
Lemma heartbeat_safe n i owner fence : tsafe (start_execution_heartbeat n i owner fence).
Proof using Ho.
  induction n as [|n IH]; [cbn; tframe|]. intros sd r sd' E. cbn [start_execution_heartbeat] in E.
  destruct (renew_execution_lease i owner fence sd) as [[x|x] sd1] eqn:E1.
  - etrans; [by eapply renew_safe|by eapply IH].
  - injection E as _ <-. by eapply renew_safe.
Qed.
Lemma append_tsafe m : tsafe (engine Protocol (append_message m)).
Proof using.
  intros [s d] r sd' [= _ <-]. apply faithful_same, same_tables_iff. by destruct d.
Qed.
Lemma operator_safe env session route input adm : tsafe (operator_command env session route input adm).
Proof using Ho.
  unfold operator_command. tframe; try apply uuid_tsafe; try apply clock_safe.
  apply insertion_safe. intros d x. apply add_faithful.
Qed.
Lemma uncertain_faithful k p d : (forall r, p r = true -> settled r = false) ->
  faithful d (alter_command k mark_uncertain p d).
Proof using. intros Hp. apply alter_faithful. intros r _ Hr Hs. by rewrite (Hp r Hr) in Hs. Qed.
Lemma held_open r owner fence now : command_held r owner fence now = true -> settled r = false.
Proof using.
  unfold command_held. intros [[_ Hs]%andb_true_iff _]%andb_true_iff. apply String.eqb_eq in Hs.
  by apply started_not_settled.
Qed.
Lemma command_uncertain_safe c : tsafe (command_uncertain c).
Proof using Ho.
  unfold command_uncertain. tframe. apply statement_safe. intros now d. cbn [snd].
  destruct a as [k|]; [|reflexivity]. apply uncertain_faithful.
  intros r [_ Hs]%andb_true_iff. apply String.eqb_eq in Hs. by apply started_not_settled.
Qed.
End tables.
Create HintDb tsafe.
#[export] Hint Resolve uuid_tsafe timestamp_tsafe clock_safe query_safe acquire_safe renew_safe release_safe heartbeat_safe
  append_tsafe operator_safe command_uncertain_safe ignore_safe transaction_tsafe : tsafe.

(** ** Handlers *)
(** The database of a server before and after, however the handler ends. *)
Definition hsafe {X A} (m : H X A) : Prop := forall w, faithful (db w) (db (snd (m w))).
Section handlers.
Context {X : Type}.
Lemma hsafe_bind {A C} (m : H X A) (f : A -> H X C) : hsafe m -> (forall a, hsafe (f a)) -> hsafe (m ≫= f).
Proof.
  intros Hm Hf w. unfold mbind, H_bind. specialize (Hm w). destruct (m w) as [[a|e] w']; [|exact Hm].
  etrans; [exact Hm|apply Hf].
Qed.
Lemma hsafe_here {A} (f : Server X -> result stop A) : hsafe (fun w => (f w, w)).
Proof. intros w. cbn. reflexivity. Qed.
Lemma hsafe_answer_none {A} r (o : option A) : hsafe (X := X) (answer_none r o).
Proof. destruct o; apply hsafe_here. Qed.
Lemma hsafe_answer_err {E A} g (x : result E A) : hsafe (X := X) (answer_err g x).
Proof. destruct x; apply hsafe_here. Qed.
Lemma hsafe_answer_if b r : hsafe (X := X) (answer_if b r).
Proof. destruct b; apply hsafe_here. Qed.
Lemma hsafe_unwrap {A} (o : option A) : hsafe (X := X) (unwrap_h o).
Proof. destruct o; apply hsafe_here. Qed.
Lemma hsafe_on_tables {A} (m : T A) : tsafe m -> hsafe (X := X) (on_tables m).
Proof.
  intros Hm w. unfold on_tables, tables_only. destruct (m (no_session, db w)) as [r [s d]] eqn:E. exact (Hm _ _ _ E).
Qed.
Lemma hsafe_in_session {A} (m : T A) s : tsafe m -> hsafe (X := X) (in_session m s).
Proof. intros Hm w. unfold in_session. destruct (m (s, db w)) as [r [s' d]] eqn:E. exact (Hm _ _ _ E). Qed.
Lemma hsafe_call (m : H X Response) : hsafe m -> hsafe (call m).
Proof. intros Hm w. unfold call. specialize (Hm w). by destruct (m w) as [[a|[r|]] w']. Qed.
Lemma hsafe_with_lock {A} i r (m : H X A) : hsafe m -> hsafe (with_lock i r m).
Proof.
  intros Hm w. unfold with_lock, session_lock, mbind, H_bind. case_bool_decide; [cbn; reflexivity|]. cbn beta iota.
  set (w1 := w <| held_locks ::= fun l => {[i]} ∪ l |>). specialize (Hm w1). by destruct (m w1) as [x w'].
Qed.
(** Commands of an operator. *)
Lemma osafe_bind {A C} (m : Op X A) (f : A -> Op X C) : hsafe m -> (forall a, hsafe (f a)) ->
  hsafe (mbind (M := Op X) f m).
Proof.
  intros Hm Hf w. unfold mbind, Op_bind. specialize (Hm w). destruct (m w) as [[[a|e]|e] w']; try exact Hm.
  etrans; [exact Hm|apply Hf].
Qed.
Lemma osafe_lift {A} (m : H X A) : hsafe m -> hsafe (op_lift m).
Proof. intros Hm w. unfold op_lift. specialize (Hm w). by destruct (m w) as [[a|e] w']. Qed.
Lemma osafe_try {A} (m : Op X A) : hsafe m -> hsafe (op_try m).
Proof. intros Hm w. unfold op_try. specialize (Hm w). by destruct (m w) as [[a|e] w']. Qed.
End handlers.
Create HintDb hsafe.
Ltac hsafe_step :=
  match goal with
  | |- forall _, hsafe _ => intro
  | |- hsafe (mbind (M := H _) _ _) => apply hsafe_bind
  | |- hsafe (mbind (M := Op _) _ _) => apply osafe_bind
  | |- hsafe (mret (M := H _) _) => apply (hsafe_here (fun _ => _))
  | |- hsafe (mret (M := Op _) _) => apply (hsafe_here (fun _ => _))
  | |- hsafe (answer _) => apply (hsafe_here (fun _ => _))
  | |- hsafe panic => apply (hsafe_here (fun _ => _))
  | |- hsafe (op_result _) => apply (hsafe_here (fun _ => _))
  | |- hsafe (answer_none _ _) => apply hsafe_answer_none
  | |- hsafe (answer_err _ _) => apply hsafe_answer_err
  | |- hsafe (answer_if _ _) => apply hsafe_answer_if
  | |- hsafe (unwrap_h _) => apply hsafe_unwrap
  | |- hsafe (answer_errors ?l) => destruct l; unfold answer_errors
  | |- hsafe (answer_error ?o) => destruct o; unfold answer_error
  | |- hsafe (sqlx _ _) => apply hsafe_answer_err
  | |- hsafe (sql _ _) => unfold sql
  | |- hsafe (op _) => unfold op
  | |- hsafe (on_tables _) => apply hsafe_on_tables; try solve [eauto 3 with tsafe]
  | |- hsafe (in_session _ _) => apply hsafe_in_session; try solve [eauto 3 with tsafe]
  | |- hsafe (call _) => apply hsafe_call
  | |- hsafe (with_lock _ _ _) => apply hsafe_with_lock
  | |- hsafe (op_lift _) => apply osafe_lift
  | |- hsafe (op_try _) => apply osafe_try
  | |- hsafe (match ?x with _ => _ end) => destruct x
  | |- hsafe (let x := _ in _) => cbv zeta
  | |- hsafe _ => solve [eauto 3 with hsafe nocore]
  end.
Ltac hsafe := repeat hsafe_step.

Section operations.
Context `{P : Platform} `{B : Backend} {Ho : FaithfulOthers B} `{F : Files} `{Sr : Serde} `{Sc : Schedule} {X : Type} `{HX : Host X}.
Hypothesis readers : forall x u v, uuid_parse x = Some u -> uuid_cast x = Some v -> u = v.
Variables (text : db_error -> string) (build_client : Config -> result string unit).
Variables (env : string -> option string) (root : string).
Lemma load_safe raw : hsafe (X := X) (load raw).
Proof using Ho. unfold load. hsafe. apply transaction_tsafe, load_body_safe. Qed.
#[local] Hint Resolve load_safe : hsafe.
Lemma tsafe_save c e : tsafe (save text c e).
Proof using Ho readers. by apply save_safe. Qed.
#[local] Hint Resolve tsafe_save : tsafe.
(** *** The handlers that do not run the agent *)
Lemma resolve_safe ref frozen : hsafe (X := X) (resolve_config env root ref frozen).
Proof using. unfold resolve_config. hsafe. Qed.
#[local] Hint Resolve resolve_safe : hsafe.
Lemma create_safe q : hsafe (X := X) (create text env root q).
Proof using Ho readers. unfold create. hsafe. Qed.
Lemma message_safe raw q : hsafe (X := X) (message text raw q).
Proof using Ho readers.
  unfold message, message_check. hsafe. apply tsafe_bind; [apply append_tsafe|intros ?; apply tsafe_save].
Qed.
Lemma cancel_safe raw q : hsafe (X := X) (cancel_session text raw q).
Proof using Ho. unfold cancel_session. hsafe. apply transaction_safe. intros. apply cancel_body_safe. Qed.
Lemma session_safe raw : hsafe (X := X) (session raw).
Proof using Ho. unfold session. hsafe. Qed.
Lemma plan_safe raw : hsafe (X := X) (session_retention_plan text raw).
Proof using Ho. unfold session_retention_plan. hsafe. Qed.
#[local] Hint Resolve create_safe message_safe cancel_safe session_safe plan_safe : hsafe.
Lemma existing_safe raw : hsafe (X := X) (existing raw).
Proof using Ho. unfold existing. hsafe. Qed.
Lemma rows_safe {A} (f : Z -> Db -> A) : hsafe (X := X) (rows_or_error text (statement (fun now d => (f now d, d)))).
Proof using Ho. unfold rows_or_error. hsafe. Qed.
#[local] Hint Resolve existing_safe rows_safe : hsafe.
Lemma transcript_safe cast raw q : hsafe (X := X) (transcript_handler text cast raw q).
Proof using Ho. unfold transcript_handler. hsafe. Qed.
Lemma events_safe cast raw q : hsafe (X := X) (session_events_handler text cast raw q).
Proof using Ho. unfold session_events_handler. hsafe. Qed.
Lemma diagnostics_safe raw f q : hsafe (X := X) (compaction_diagnostics text raw f q).
Proof using Ho. unfold compaction_diagnostics. hsafe. Qed.
Lemma abandoned_safe q : hsafe (X := X) (abandoned_runs text q).
Proof using Ho. unfold abandoned_runs. hsafe. Qed.
Lemma after_safe what q : hsafe (X := X) (listing_after what q).
Proof using. unfold listing_after. hsafe. Qed.
#[local] Hint Resolve after_safe : hsafe.
Lemma executions_safe json raw q : hsafe (X := X) (executions_handler text json raw q).
Proof using Ho. unfold executions_handler, listing_limit. hsafe. Qed.
Lemma runs_safe json raw q : hsafe (X := X) (session_runs text json raw q).
Proof using Ho. unfold session_runs, listing_limit. hsafe. Qed.
Lemma archives_safe at_ raw q : hsafe (X := X) (session_archives text at_ raw q).
Proof using Ho. unfold session_archives, listing_limit. hsafe. Qed.
Lemma command_safe raw : hsafe (X := X) (get_command text env raw).
Proof using Ho. unfold get_command. hsafe. Qed.
Lemma response_safe q : hsafe (X := X) (committed_command_response text q).
Proof using Ho. unfold committed_command_response. hsafe. tframe. apply query_safe. Qed.
#[local] Hint Resolve response_safe : hsafe.

(** *** Admission *)
Variable utf8_error : string -> string.
Lemma select_safe ns key : tsafe (select_command ns key).
Proof using Ho. apply query_safe. Qed.
Lemma insert_safe k r : tsafe (insertion (insert_command k r)).
Proof using Ho. apply insertion_safe. intros d x. apply insert_faithful. Qed.
Lemma claim_safe k owner : tsafe (fallible (claim_command k owner)).
Proof using Ho. apply fallible_safe. intros now d x. apply claim_faithful. Qed.
#[local] Hint Resolve select_safe insert_safe claim_safe : tsafe.
Lemma named_safe path : hsafe (X := X) (named_session path).
Proof using. unfold named_session. hsafe. Qed.
Lemma read_request_safe q : hsafe (X := X) (read_request text env utf8_error q).
Proof using. unfold read_request, read_body, namespace. hsafe; apply named_safe. Qed.
Lemma record_outcome_safe k owner fence r : hsafe (X := X) (record_outcome text k owner fence r).
Proof using Ho.
  unfold record_outcome. hsafe. apply statement_safe. intros now d. cbn [snd]. apply alter_faithful.
  intros r0 _ Hp%held_open Hs. congruence.
Qed.
#[local] Hint Resolve named_safe read_request_safe record_outcome_safe : hsafe.
Definition next_safe (next : string -> option value -> H X Response) : Prop := forall route body, hsafe (next route body).
Lemma settle_safe next a : next_safe next -> hsafe (settle_admission text next a).
Proof using Ho. intros Hnext. unfold settle_admission, replay, carry_out. hsafe. Qed.
Lemma check_session_safe b sid : hsafe (X := X) (check_session text b sid).
Proof using Ho. unfold check_session. hsafe. Qed.
Lemma admission_of_safe b route sid body : hsafe (X := X) (admission_of text env root b route sid body).
Proof using. unfold admission_of. hsafe. Qed.
#[local] Hint Resolve settle_safe check_session_safe admission_of_safe : hsafe.
Lemma admission_safe next q : next_safe next -> hsafe (admission text env root utf8_error next q).
Proof using Ho.
  intros Hnext. unfold admission, admit_post, admit_request. destruct (String.eqb _ _); [hsafe|apply Hnext].
Qed.

(** *** The handlers that run the agent *)
Hypothesis others_faithful : forall n d, faithful d (others n d).
Definition server_faithful (w w' : RunWorld X) : Prop := faithful (tables_of w) (tables_of w').
#[local] Instance server_faithful_preorder : PreOrder server_faithful.
Proof using. unfold server_faithful. split; [intros ?; reflexivity|]. intros w1 w2 w3 H1 H2. by etrans. Qed.
Definition qsafe {A} (m : Tools.Db (RunWorld X) A) : Prop := forall w, server_faithful w (snd (m w)).
Lemma qsafe_bind {A C} (m : Tools.Db (RunWorld X) A) (f : A -> Tools.Db (RunWorld X) C) :
  qsafe m -> (forall a, qsafe (f a)) -> qsafe (m ≫= f).
Proof using.
  intros Hm Hf w. unfold mbind, Db_bind. specialize (Hm w). destruct (m w) as [[a|e] w']; [|exact Hm].
  etrans; [exact Hm|apply Hf].
Qed.
Lemma qsafe_ret {A} (a : A) : qsafe (mret a).
Proof using. intros w. cbn. reflexivity. Qed.
Lemma qsafe_lift {A} (r : result string A) : qsafe (db_lift r).
Proof using. intros w. cbn. reflexivity. Qed.
Lemma qsafe_query {A} (m : T A) : tsafe m -> qsafe (query text m).
Proof using.
  intros Hm w. unfold query, tables_only. destruct (m (no_session, tables_of w)) as [r [s d]] eqn:E. exact (Hm _ _ _ E).
Qed.
Lemma qsafe_checkpoint c e s : qsafe (save_checkpoint text c e s).
Proof using Ho readers others_faithful.
  intros w. unfold save_checkpoint. destruct (save text c e _) as [[ack|x] [s' d]] eqn:E;
    apply tsafe_save in E; unfold over in E; cbn [fst snd] in E;
    (transitivity (on_db (fun _ => others (checkpoints w) (tables_of w)) w); [apply others_faithful|exact E]).
Qed.
#[local] Hint Resolve qsafe_checkpoint : hsafe.
Ltac qsafe := repeat match goal with
  | |- forall _, qsafe _ => intro
  | |- qsafe (_ ≫= _) => apply qsafe_bind
  | |- qsafe (mret _) => apply qsafe_ret
  | |- qsafe (db_lift _) => apply qsafe_lift
  | |- qsafe (refuse_if _ _) => apply qsafe_lift
  | |- qsafe (query _ _) => apply qsafe_query
  | |- qsafe (match ?x with _ => _ end) => destruct x
  | |- qsafe _ => solve [eauto with hsafe nocore]
  end.
Lemma cancel_requested_safe i run : tsafe (cancel_requested i run).
Proof using Ho. unfold cancel_requested. tframe. apply query_safe. Qed.
Lemma stream_cancelled_safe run : tsafe (stream_cancelled run).
Proof using Ho. unfold stream_cancelled. tframe. apply query_safe. Qed.
Lemma decoration_safe s : tsafe (decoration s).
Proof using Ho. unfold decoration. tframe. apply query_safe. Qed.
Lemma cancel_run_safe run : tsafe (cancel_run run).
Proof using Ho. unfold cancel_run. tframe. apply statement_safe. intros now d. apply cancel_faithful. Qed.
Lemma known_calls_safe i ids : tsafe (known_calls i ids).
Proof using Ho. unfold known_calls. tframe. apply query_safe. Qed.
#[local] Hint Resolve decoration_safe : tsafe.
Lemma emit_run_safe c e s : qsafe (emit_run text c e s).
Proof using Ho readers others_faithful. unfold emit_run. qsafe. apply cancel_requested_safe. Qed.
Lemma emit_stream_safe c e s : qsafe (emit_stream text c e s).
Proof using Ho readers others_faithful.
  unfold emit_stream. qsafe; [apply stream_cancelled_safe|..].
  - intros w. pose proof (qsafe_query (decoration a) (decoration_safe a) w) as Hq. unfold qsafe in Hq.
    destruct (query text (decoration a) w) as [found w1]. destruct (send _ _). exact Hq.
  - intros w. apply (qsafe_query (cancel_run s0) (cancel_run_safe s0) w).
Qed.
(** The engine's host on a server, with a checkpoint that keeps the history. *)
Lemma host_faithful emit_ : (forall e s, qsafe (emit_ e s)) -> host_steps (H := run_host text emit_) server_faithful.
Proof using Ho.
  intros He.
  assert (forall d (w : RunWorld X), same_tables (tables_of w) d -> server_faithful w (on_db (fun _ => d) w)) as Hd
    by (intros d w Hs; by apply faithful_same).
  assert (forall C (f : X -> C * X) w, server_faithful w (snd (outside_call f w))) as Hout.
  { intros C f w. unfold outside_call. destruct (f _). unfold server_faithful, tables_of. cbn. reflexivity. }
  split; [split|..]; try (intros; apply Hout); try (intros; cbn; unfold server_faithful, tables_of; cbn; reflexivity).
  - intros w. cbn. apply Hd, same_tables_iff. by destruct (tables_of w).
  - intros w. cbn. apply Hd, same_tables_iff. by destruct (tables_of w).
  - intros e s w. apply He.
  - intros i ids w. apply qsafe_query, known_calls_safe.
Qed.
Lemma execute_hsafe emit_ c q o sent : (forall e s, qsafe (emit_ e s)) ->
  hsafe (execute text build_client emit_ c q o sent).
Proof using Ho.
  intros He. unfold execute. hsafe. intros w. cbv zeta.
  match goal with |- context [Run.run (H := ?h) ?cf ?m (?s, ?w0)] =>
    pose proof (run_safe (H := h) server_faithful (host_faithful emit_ He) cf m s w0) as Hr;
    destruct (Run.run (H := h) cf m (s, w0)) as [r [s' w1]] end.
  exact Hr.
Qed.
Lemma save_owned_safe c e o : hsafe (X := X) (save_owned text c e o).
Proof using Ho readers. unfold save_owned. hsafe. Qed.
Lemma handler_release_safe i o : hsafe (X := X) (release i o).
Proof using Ho. unfold release. hsafe. Qed.
Lemma handler_timestamp_safe : hsafe (X := X) (timestamp text).
Proof using. unfold timestamp. hsafe. Qed.
#[local] Hint Resolve save_owned_safe handler_release_safe handler_timestamp_safe emit_run_safe emit_stream_safe : hsafe.
Lemma owned_or_safe {A} i o (r : result db_error A) : hsafe (X := X) (owned_or text i o r).
Proof using Ho. unfold owned_or. hsafe. Qed.
#[local] Hint Resolve owned_or_safe : hsafe.
Lemma take_over_safe i s c : hsafe (X := X) (take_over text i s c).
Proof using Ho readers. unfold take_over. hsafe. Qed.
Lemma run_response_safe c q e : hsafe (X := X) (run_response text c q e).
Proof using Ho readers. unfold run_response. hsafe. Qed.
#[local] Hint Resolve take_over_safe run_response_safe : hsafe.
Lemma run_handler_safe raw q : hsafe (run_handler text build_client raw q).
Proof using Ho readers others_faithful. unfold run_handler. hsafe. apply execute_hsafe. intros. apply emit_run_safe. Qed.

(** *** Streams *)
Lemma tell_safe e t : hsafe (X := X) (tell_decorated e t).
Proof using Ho. unfold tell_decorated. hsafe. Qed.
Lemma save_task_safe c e t : hsafe (X := X) (save_task text c e t).
Proof using Ho readers. unfold save_task. hsafe. Qed.
Lemma close_safe i t : hsafe (X := X) (close i t).
Proof using Ho. unfold close. hsafe. Qed.
#[local] Hint Resolve tell_safe save_task_safe close_safe : hsafe.
Lemma announce_safe i c e f t : hsafe (X := X) (announce text i c e f t).
Proof using Ho readers. unfold announce. hsafe. Qed.
#[local] Hint Resolve announce_safe : hsafe.
Lemma introduce_safe i b c t : hsafe (X := X) (introduce text i b c t).
Proof using Ho readers. unfold introduce. hsafe. Qed.
Lemma settle_failure_safe i c x t : hsafe (X := X) (settle_failure text i c x t).
Proof using Ho readers. unfold settle_failure. hsafe. Qed.
Lemma stream_execute_safe c q o sent : hsafe (execute text build_client (emit_stream text c) c q o sent).
Proof using Ho readers others_faithful. apply execute_hsafe. intros. apply emit_stream_safe. Qed.
#[local] Hint Resolve introduce_safe settle_failure_safe stream_execute_safe : hsafe.
Lemma run_task_safe i b c q o : hsafe (run_task text build_client i b c q o).
Proof using Ho readers others_faithful. unfold run_task. hsafe. Qed.
Lemma reopen_safe i c q o : hsafe (X := X) (reopen text i c q o).
Proof using Ho readers.
  unfold reopen. hsafe. destruct (as_str _); [apply append_tsafe|]. intros sd r sd' [= _ <-]. unfold over. reflexivity.
Qed.
#[local] Hint Resolve run_task_safe reopen_safe : hsafe.
Lemma lifecycle_safe raw q b : hsafe (lifecycle text build_client raw q b).
Proof using Ho readers others_faithful. unfold lifecycle. hsafe. Qed.
Lemma stream_run_safe raw q : hsafe (stream_run text build_client raw q).
Proof using Ho readers others_faithful. apply lifecycle_safe. Qed.
Lemma resume_safe raw q : hsafe (resume text build_client raw q).
Proof using Ho readers others_faithful. apply lifecycle_safe. Qed.
Lemma follow_safe fuel turn i run after sent : hsafe (X := X) (follow fuel turn i run after sent).
Proof using Ho others_faithful.
  revert turn after sent. induction fuel as [|fuel IH]; intros turn after sent; cbn [follow]; [hsafe|].
  intros w. cbv zeta. set (w1 := if (turn =? 0)%nat then w else _).
  transitivity (db w1); [unfold w1; destruct (turn =? 0)%nat; [reflexivity|apply others_faithful]|].
  match goal with |- faithful _ (db (snd (?m w1))) => assert (hsafe m) as Hm by (hsafe; apply IH); exact (Hm w1) end.
Qed.
#[local] Hint Resolve run_handler_safe stream_run_safe resume_safe follow_safe transcript_safe events_safe
  diagnostics_safe abandoned_safe executions_safe runs_safe archives_safe command_safe : hsafe.
Lemma replay_safe fuel raw q : hsafe (X := X) (replay_events fuel raw q).
Proof using Ho others_faithful. unfold replay_events. hsafe. Qed.
#[local] Hint Resolve replay_safe : hsafe.

(** *** The router *)
Variables (root_entries : option (list DirEntry)) (timestamp_cast : string -> string) (clock_cast : Z -> string).
Variables (execution_json : string -> string -> ExecutionRow -> value) (run_json : string -> string -> RunRow -> value).
Variables (archived_at : ArchiveRow -> string) (patience : nat).
Lemma route_safe q : next_safe (route_request text build_client env root root_entries timestamp_cast clock_cast execution_json
  run_json archived_at patience q).
Proof using Ho readers others_faithful.
  intros route body. unfold route_request, post_route, post_session, get_route, get_session, configs, health. hsafe.
Qed.
Lemma serve_safe query_ q : hsafe (serve text build_client env root root_entries utf8_error timestamp_cast clock_cast execution_json
  run_json archived_at patience query_ q).
Proof using Ho readers others_faithful. apply admission_safe, route_safe. Qed.

(** *** Operator commands *)
Variable integer_error : string -> string.
Variables (export_rows : string -> string -> Db -> list value) (create_file : string -> string -> X -> result string unit * X).
Lemma op_save_safe c e s : hsafe (X := X) (op_save text c e s).
Proof using Ho readers.
  intros w. unfold op_save. pose proof (hsafe_in_session (X := X) _ s (tsafe_save c e) w) as Hs.
  by destruct (in_session _ s w) as [[[[a|x] s']|x] w'].
Qed.
Lemma finish_alone_safe c code body : hsafe (X := X) (finish_alone c code body).
Proof using Ho. unfold finish_alone. hsafe. apply transaction_safe. intros. apply finish_safe. Qed.
#[local] Hint Resolve op_save_safe finish_alone_safe : hsafe.
Lemma op_load_safe raw : hsafe (X := X) (op_load raw).
Proof using Ho. unfold op_load. hsafe. Qed.
#[local] Hint Resolve op_load_safe : hsafe.
Lemma reconcile_run_safe i run c lease : hsafe (X := X) (reconcile_run text i run c lease).
Proof using Ho readers. unfold reconcile_run. hsafe. Qed.
#[local] Hint Resolve reconcile_run_safe : hsafe.
Lemma reconcile_one_safe i run : hsafe (X := X) (reconcile_one text env i run).
Proof using Ho readers. unfold reconcile_one, administrative. hsafe. Qed.
#[local] Hint Resolve reconcile_one_safe : hsafe.
Lemma reconcile_all_safe cs : hsafe (X := X) (reconcile_all text env cs).
Proof using Ho readers. induction cs; cbn [reconcile_all]; hsafe. Qed.
#[local] Hint Resolve reconcile_all_safe : hsafe.
Lemma reconcile_cli_safe args : hsafe (X := X) (reconcile_cli text env integer_error args).
Proof using Ho readers. unfold reconcile_cli. hsafe. Qed.
Lemma prune_safe i path s c args : hsafe (X := X) (prune_telemetry text env integer_error i path s c args).
Proof using Ho readers. unfold prune_telemetry. hsafe. Qed.
Lemma export_safe i path : hsafe (X := X) (export export_rows create_file i path).
Proof using Ho.
  unfold export. hsafe.
  - intros sd r sd' [= _ <-]. unfold over. reflexivity.
  - intros w. destruct (create_file _ _ _). cbn. reflexivity.
  - apply transaction_tsafe. intros sd r sd' [= _ <-]. unfold over. reflexivity.
Qed.
Lemma op_plan_safe i : hsafe (X := X) (plan text i).
Proof using Ho. unfold plan. hsafe. Qed.
#[local] Hint Resolve prune_safe export_safe op_plan_safe : hsafe.
Lemma retention_cli_safe args : hsafe (X := X) (retention_cli text env integer_error export_rows create_file args).
Proof using Ho readers. unfold retention_cli. hsafe. Qed.
End operations.

(** ** The service *)
Section task.
Context `{P : Platform} `{B : Backend} {Ho : FaithfulOthers B} `{F : Files} `{Sr : Serde}.
Hypothesis readers : forall x u v, uuid_parse x = Some u -> uuid_cast x = Some v -> u = v.
Lemma tables_after_faithful {A} (m : T A) s d : tsafe m -> faithful d (tables_after m s d).
Proof using. intros Hm. unfold tables_after. destruct (m (s, d)) as [r sd'] eqn:E. exact (Hm _ _ _ E). Qed.
Lemma task_step_faithful text env d d' : task_step text env d d' -> faithful d d'.
Proof using Ho readers.
  intros []; try (apply tables_after_faithful; solve [eauto 3 with tsafe]).
  - apply tables_after_faithful, transaction_tsafe, load_body_safe.
  - by apply tables_after_faithful, save_safe.
  - apply tables_after_faithful, attempt_safe; done.
  - apply tables_after_faithful, transaction_safe. intros. apply cancel_body_safe.
  - apply tables_after_faithful, cancel_run_safe.
  - apply cancel_faithful.
  - apply tables_after_faithful, insert_safe.
  - apply tables_after_faithful, claim_safe.
  - apply tables_after_faithful, transaction_safe. intros. apply finish_safe.
Qed.
Lemma tasks_faithful text env d d' : rtc (task_step text env) d d' -> faithful d d'.
Proof using Ho readers. apply (rtc_within _ faithful). intros x y. apply task_step_faithful. Qed.
End task.
Section steps.
Context `{P : Platform} `{B : Backend} `{F : Files} `{Sr : Serde} `{Sc : Schedule} {X : Type} `{HX : Host X}.
Hypothesis readers : forall x u v, uuid_parse x = Some u -> uuid_cast x = Some v -> u = v.
Variables (text : db_error -> string) (build_client : Config -> result string unit) (env : string -> option string)
  (root : string) (root_entries : option (list DirEntry)) (utf8_error timestamp_cast : string -> string) (clock_cast : Z -> string)
  (execution_json : string -> string -> ExecutionRow -> value) (run_json : string -> string -> RunRow -> value)
  (archived_at : ArchiveRow -> string) (patience : nat) (integer_error : string -> string)
  (export_rows : string -> string -> Db -> list value) (create_file : string -> string -> X -> result string unit * X).
Notation step := (service_step text build_client env root root_entries utf8_error timestamp_cast clock_cast execution_json
  run_json archived_at patience integer_error export_rows create_file).
Hypothesis others_tasks : others_are_tasks text env.
#[local] Instance others_are_faithful : FaithfulOthers B.
Proof using readers others_tasks. intros n d. exact (tasks_faithful (B := calm B) readers text env d _ (proj2 others_tasks n d)). Qed.
Lemma service_step_faithful w w' : step w w' -> faithful (db w) (db w').
Proof using readers others_tasks.
  assert (forall n d, faithful d (others n d)) as Hout by (intros; by eapply tasks_faithful, (proj1 others_tasks)).
  induction 1 as [q r w|args w|args w|d w Hd|v v' w H1 IH E|w|x w].
  - by apply serve_safe.
  - by apply reconcile_cli_safe.
  - by apply retention_cli_safe.
  - by eapply task_step_faithful.
  - cbn. by rewrite <- E.
  - reflexivity.
  - reflexivity.
Qed.
Lemma service_faithful w w' : rtc step w w' -> faithful (db w) (db w').
Proof using readers others_tasks.
  intros H. apply (rtc_invariant step (fun v => faithful (db w) (db v)) w w'); [|exact H|reflexivity].
  intros x y Hxy Hx. etrans; [exact Hx|by apply service_step_faithful].
Qed.
End steps.
Lemma empty_numbered : all_numbered empty_db.
Proof. intros session. exists 0. split; [done|]. split; [done|lia|done]. Qed.
