(* ===== verification/Sample.v ===== *)
(** * A recorded host

    A concrete world, used to run the model: the model service answers from a
    list of recorded replies, identifiers and timestamps come from a counter,
    checkpoints always succeed, and the recipient keeps its receipts in a
    list.  [sample_json] reads the recorded texts. *)
From S2P Require Import Prelude Text Json Session Tools Checkpoint.
Local Open Scope string_scope.
Local Open Scope Z_scope.

Record World := {
  clock : Z;
  replies : list http_result;
  receipts : gmap (string * string) (string * value);
  staged : option ((string * string) * (string * value));
  emitted : list value
}.
#[export] Instance eta_World : Eta World := fun w =>
  {| clock := clock w; replies := replies w; receipts := receipts w; staged := staged w;
     emitted := emitted w |}.
Definition quiet_world (rs : list http_result) : World :=
  {| clock := 0; replies := rs; receipts := ∅; staged := None; emitted := [] |}.

Definition tick (w : World) : Z * World := (clock w, w <| clock ::= Z.succ |>).
Definition sample_uuid (w : World) : string * World :=
  let '(n, w) := tick w in ("uuid-" +:+ show_Z n, w).
Definition sample_reply (w : World) : http_result * World :=
  match replies w with
  | r :: rest => (r, w <| replies := rest |>)
  | [] => (HttpSendError true, w)
  end.

#[export] Instance sample_runtime : Runtime World := {|
  new_uuid := sample_uuid;
  now_seconds := tick
|}.
#[export] Instance sample_database : Database World := {|
  sql_fetch sql binds w := (Ok [], w)
|}.
#[export] Instance sample_host : Host World := {|
  host_runtime := sample_runtime;
  host_database := sample_database;
  emit event s w := (Ok tt, w <| emitted ::= fun l => (l ++ [event])%list |>);
  ack_cell w := None;
  env_var name w := None;
  http_post url token payload w := sample_reply w;
  elapsed_ms w := tick w;
  log_line line w := w;
  historical_calls session ids w := (Ok [], w);
  receipt_query namespace key w := (Ok (receipts w !! (namespace, key)), w);
  receipt_insert namespace key fingerprint request result w :=
    let receipt := default (fingerprint, result) (receipts w !! (namespace, key)) in
    (Ok receipt, w <| staged := Some ((namespace, key), receipt) |>);
  receipt_commit w :=
    (Ok tt, w <| receipts ::= fun m => match staged w with Some (k, r) => <[k := r]> m | None => m end |>
              <| staged := None |>);
  receipt_rollback w := w <| staged := None |>
|}.

(** ** Recorded replies of the model service *)
Definition reply_of (message : value) : value :=
  Object [("choices", Array [Object [("message", message)]])].
Definition final_reply : value := reply_of (Object [("content", Str "42 errors")]).
Definition call_reply : value :=
  reply_of (Object [("content", Null);
    ("tool_calls", Array [Object [("id", Str "call_1"); ("type", Str "function");
       ("function", Object [("name", Str "fixture_idempotent_write"); ("arguments", Str "{}")])]])]).
Definition summary_text : string :=
  "<COMPACTED_STATE><USER_GOAL>count the errors</USER_GOAL><GLOBAL_LESSON_LEDGER>logs are noisy</GLOBAL_LESSON_LEDGER><DEAD_ENDS>none</DEAD_ENDS><CURRENT_LOCAL_PIVOT>parse again</CURRENT_LOCAL_PIVOT></COMPACTED_STATE>".
Definition summary_reply : value := reply_of (Object [("content", Str summary_text)]).
Definition sample_json (s : string) : result string value :=
  if String.eqb s "{}" then Ok (Object [])
  else if String.eqb s "final" then Ok final_reply
  else if String.eqb s "call" then Ok call_reply
  else if String.eqb s "summary" then Ok summary_reply
  else Err "expected value".
Definition sample_platform : Platform := {|
  sha256_hex s := "sha256:" +:+ show_nat (String.length s);
  json_text := plain_text;
  f64_text f := show_Z (f64_trunc f) +:+ ".0";
  json_read := sample_json;
  regex_is_match p s := Some (contains_str s p);
  regex_find_iter _ _ := Some [];
  regex_captures _ _ := Some [];
  regex_error p := "regex parse error";
  regex_replace_all p by_ s := s;
  regex_escape s := s;
  to_lowercase := to_ascii_lowercase;
  char_to_uppercase c := c;
  is_alphanumeric := is_ascii_alphanumeric;
  debug_str := quoted;
  debug_value := plain_text;
  uuid_parse s := if is_empty s then None else Some s
|}.

(** ** A configuration without a workflow *)
Definition sample_memory : Memory := {|
  max_tokens := 100000; max_steps := 4; raw_turns_to_keep := 2; hybrid_reflection := true;
  run_max_steps := None; compaction_interval_steps := None; context_window_tokens := 100000;
  reserved_output_tokens := 100; safety_margin_tokens := 100; max_summary_tokens := 1000;
  summary_output_tokens := 100; compaction_max_attempts := 2; compaction_max_passes := 2;
  compaction_min_growth_tokens := 10; compaction_min_interval_steps := 1;
  optional_compaction_min_pressure_ratio := f64_of_Z 0;
  optional_compaction_min_reclaimable_tokens := 1; optional_compaction_min_reduction_tokens := 1;
  optional_compaction_min_reduction_ratio := f64_of_Z 0
|}.
Definition sample_config : Config := {|
  config_name := "sample"; system_prompt := "You are an agent."; model := "m";
  llm := {| base_url := "http://model/v1"; api_key_env := "KEY"; temperature := f64_of_Z 0;
            timeout_seconds := f64_of_Z 60; tool_call_mode := "native"; max_output_tokens := None |};
  config_memory := sample_memory;
  output := {| verbose_setup := false |};
  tools := [{| tool_name := "fixture_idempotent_write"; tool_description := "write";
               parameters := Object [("type", Str "object")]; recovery := None |}];
  config_workflow := None; execution := Object []; config_completion := Object []
|}.
Definition user_message (text : string) : Message := {|
  message_id := Some "m1"; sequence := Some 1; created_at := Some "t"; role := "user";
  content := Some text; name := None; tool_call_id := None; tool_calls := None |}.
Definition fresh_session : Session :=
  (default_session "s1" "count the errors" "active") <| memory := [user_message "count the errors"] |>.

(** A history long enough to be compacted, and a policy that does so early. *)
Definition long_text : string := concat_str (repeat "the log has noisy lines; " 40).
Definition long_session : Session :=
  fresh_session <| memory := [user_message "count the errors"; user_message long_text;
                              user_message "go on"] |>.
Definition eager_config (window : Z) : Config :=
  {| config_name := config_name sample_config; system_prompt := system_prompt sample_config;
     model := model sample_config; llm := llm sample_config;
     config_memory :=
       {| max_tokens := 1; max_steps := 4; raw_turns_to_keep := 1; hybrid_reflection := true;
          run_max_steps := None; compaction_interval_steps := None; context_window_tokens := window;
          reserved_output_tokens := 100; safety_margin_tokens := 100; max_summary_tokens := 1000;
          summary_output_tokens := 100; compaction_max_attempts := 2; compaction_max_passes := 2;
          compaction_min_growth_tokens := 10; compaction_min_interval_steps := 1;
          optional_compaction_min_pressure_ratio := f64_of_Z 0;
          optional_compaction_min_reclaimable_tokens := 1;
          optional_compaction_min_reduction_tokens := 1;
          optional_compaction_min_reduction_ratio := f64_of_Z 0 |};
     output := output sample_config; tools := tools sample_config;
     config_workflow := None; execution := Object []; config_completion := Object [] |}.
