(* ===== verification/Authority.v ===== *)
(** * The authority of the database

    The properties of commits and leases, and a small database on which they
    are run: the creation of a session whose acknowledgement is lost, while
    another worker takes its lease. *)
From S2P Require Import Prelude Text Json Encoding Session Logic Context Diagnostics Prompt Tools Checkpoint Compaction Store StoreLogic Rows Snapshot Config Retention Http HttpLogic Requests AdmissionFacts Commit Load Handlers CommitFacts SaveFacts Responses Sample.
Local Open Scope string_scope.
Local Open Scope Z_scope.

(** A server that loses the acknowledgement of the first transaction. *)
Definition lossy_backend (lost : nat) : Backend := {|
  time_at n := Z.of_nat n;
  wall_at n := Z.of_nat n;
  uuid_at n := "uuid-" +:+ show_nat n;
  network n := if (n <? lost)%nat then LostReply (ConnectionLost "connection reset") else Delivered;
  jsonb v := v;
  timestamp_json s := s;
  clock_json := show_Z;
  timestamp_text s := s;
  uuid_cast s := if is_empty s then None else Some s;
  uuid_error s := "invalid UUID";
  first_row := head;
  meanwhile _ d := d
|}.
#[export] Instance lossy_quiet lost : Quiet (lossy_backend lost).
Proof. done. Qed.
Definition store_files : Files := {|
  canonicalize := Ok; is_file _ := true; read_file p := Ok p; join_path root r := root +:+ "/" +:+ r;
  yaml_read _ := Ok (Object [("agent", Object [])]); config_of _ := Ok sample_config
|}.
Definition store_serde : Serde := {| message_of _ := Err "not needed"; session_of _ := Err "not needed" |}.
Definition sample_identity : string := 
  match resolved_config_hash (P := sample_platform) sample_config with Ok (_, h) => h | Err _ => "" end.
Definition sample_command : value :=
  Object [("id", Str "command-1"); ("owner", Str "worker-1"); ("fence", num 1)].
Definition command_row : CommandRow := {|
  command_namespace := "ns"; command_key := "key-1"; command_route := "/sessions"; command_request := Null;
  request_sha256 := "h"; command_session := None; command_status := "started";
  command_owner := Some "worker-1"; command_fence := 1; command_expires_at := Some 30000;
  response_status := None; response_body := None |}.
Definition admitted_db : Db := empty_db <| commands := {["command-1" := command_row]} |>.
Definition created_session : Session :=
  (default_session "session-1" "count the errors" "active")
    <| memory := [msg "user" (Some "count the errors")] |>
    <| config_ref := Some "log-analysis.yaml" |> <| config_sha256 := Some "0123456789abcdef" |>
    <| resolved_config_sha256 := Some sample_identity |> <| command := Some sample_command |>
    <| checkpoint_ack := true |>.
Definition show_error (e : db_error) : string := match e with Protocol m | Io m | Tls m | Database m | Panic m => m | _ => "" end.
Notation created lost :=
  (save (P := sample_platform) (B := lossy_backend lost) (F := store_files) (Sr := store_serde) show_error
    (config_json sample_config) (Object [("type", Str "session_created")]) (created_session, admitted_db)).

(** * Properties *)
Section properties.
Context `{P : Platform} `{B : Backend} `{F : Files} `{Sr : Serde}.
(** The code and the server read an identity alike. *)
Definition readers_agree : Prop := forall x u v, uuid_parse x = Some u -> uuid_cast x = Some v -> u = v.

(** The reasons for which a worker is stale. *)
Definition stale (s : Session) (row : SessionRow) : Prop :=
  row_revision row <> revision s \/ lease_owner row <> expected_owner s
  \/ (lease_owner row <> None /\ execution_fence s <> Some (lease_fence row)).
Lemma stale_may_not_commit session row s config d : sessions d !! session = Some row -> stale s row ->
  ~ may_commit session s config d.
Proof.
  intros Hrow Hstale Hm. unfold may_commit in Hm. rewrite Hrow in Hm.
  destruct Hm as (Hrev & _ & now & Hf). unfold fenced in Hf. apply andb_true_iff in Hf as [Ho Hf].
  apply bool_decide_eq_true in Ho. apply orb_true_iff in Hf.
  destruct Hstale as [|[|[Hne Hfe]]]; [done|done|]. destruct Hf as [Hn|[Hb _]%andb_true_iff].
  - by destruct (lease_owner row).
  - by apply bool_decide_eq_true in Hb.
Qed.
Lemma stale_save text config e s d r s' d' session : readers_agree -> courteous -> all_numbered d ->
  uuid_parse (id s) = Some session ->
  (forall d1, by_others d d1 -> exists row, sessions d1 !! session = Some row /\ stale s row) ->
  save text config e (s, d) = (r, (s', d')) -> by_others d d'.
Proof.
  intros Hu Hc Hn Hi Hstale E. eapply save_saved in E; [|done|by apply courteous_respects|done].
  destruct E as [[H _]|(session' & cid & kid & fp & d1 & d2 & Hi' & H1 & _ & _ & Hm & _)]; [done|exfalso].
  assert (session' = session) as -> by congruence. destruct (Hstale d1 H1) as (row & Hrow & Hst).
  by eapply stale_may_not_commit.
Qed.

(** C2: whatever the network loses and whatever others commit before, between
    and after its attempts, saving writes its proposal at most once: either all
    changes are the others', and a success then means that the proposal was
    found in the tables, or exactly one commit was recorded: one receipt, one
    revision more, from the revision and lease that were current then. *)
Theorem save_commits_at_most_once text config e s d r s' d' :
  readers_agree -> courteous -> all_numbered d -> save text config e (s, d) = (r, (s', d')) ->
  (by_others d d' /\ (is_ok r = true -> exists session cid fp d1,
     uuid_parse (id s) = Some session /\ by_others d d1 /\ already session cid fp d1))
  \/ exists session cid kid fp d1 d2, uuid_parse (id s) = Some session /\ by_others d d1
       /\ recorded session cid kid fp d1 d2 /\ commit_receipts d1 !! (session, cid) = None
       /\ may_commit session s config d1 /\ by_others d2 d'.
Proof. intros Hu Hc Hn E. eapply save_saved in E; [exact E|done|by apply courteous_respects|done]. Qed.

(** C4: a worker whose revision is not the stored one, or whose lease is not
    the current one, and to whom the others do not give it back, writes nothing,
    neither in the tables of its session nor anywhere else: all that changes
    while it saves, the others change. *)
Theorem stale_worker_writes_nothing text config e s d r s' d' session :
  readers_agree -> courteous -> all_numbered d -> uuid_parse (id s) = Some session ->
  (forall d1, by_others d d1 -> exists row, sessions d1 !! session = Some row /\ stale s row) ->
  save text config e (s, d) = (r, (s', d')) -> by_others d d'.
Proof. apply stale_save. Qed.

(** C8: once another worker takes a lease over, and as long as the fence does
    not go back, the previous owner is fenced out: its renewals and releases
    change nothing and its commits write nothing, whatever the others do
    meanwhile. *)
Theorem takeover_fences_previous_owner text config e s d d1 r s' d' session owner now fence row :
  readers_agree -> courteous -> all_numbered d -> uuid_parse (id s) = Some session ->
  sessions d !! session = Some row ->
  execution_fence s = Some (lease_fence row) -> expected_owner s <> None ->
  grant_lease session owner now d = Ok (Some fence, d1) ->
  (forall d2, by_others d1 d2 -> exists row2, sessions d2 !! session = Some row2 /\ fence <= lease_fence row2) ->
  save text config e (s, d1) = (r, (s', d')) ->
  lease_fence row < fence /\ by_others d1 d'
  /\ forall d2, by_others d1 d2 ->
       (forall o t, extend_lease session o (lease_fence row) t d2 = (0, d2))
       /\ (forall o, drop_lease session o (lease_fence row) d2 = d2).
Proof.
  intros Hu Hc Hn Hi Hrow Hf Ho Hg Hfence E. unfold grant_lease in Hg. rewrite Hrow in Hg.
  destruct (is_none _ || _); [|done]. apply bind_ok in Hg as (f & [-> _]%bigint_add_ok & [= <- <-]).
  match type of E with context [put_session session ?r _] => set (row1 := r) in * end.
  set (d1 := put_session session row1 d) in *.
  split_and!; [lia| |].
  - eapply (stale_save text config e s d1 r s' d' session); try done.
    + intros x. destruct (Hn x) as (n & H0 & Hd). exists n. split; [done|].
      apply (numbered_same x n d); [reflexivity|exact Hd].
    + intros d2 H2. destruct (Hfence d2 H2) as (row2 & Hrow2 & Hle). exists row2. split; [done|].
      destruct (lease_owner row2) as [o|] eqn:Eo.
      * right; right. split; [congruence|]. rewrite Hf. intros [=]. lia.
      * right; left. rewrite Eo. congruence.
  - intros d2 H2. destruct (Hfence d2 H2) as (row2 & Hrow2 & Hle).
    assert (forall o, holds_lease row2 o (lease_fence row) = false) as Hno.
    { intros o. unfold holds_lease. replace (lease_fence row2 =? lease_fence row) with false by lia.
      by rewrite andb_false_r. }
    split; intros; [unfold extend_lease|unfold drop_lease]; by rewrite Hrow2, Hno.
Qed.

(** C14: whatever the others commit, every transcript is still numbered 1, 2,
    3, ... without gaps after a save, which itself never changes or removes a row
    and leaves the transcripts of the other sessions alone. *)
Theorem transcript_stays_consecutive text config e s d r s' d' session :
  readers_agree -> courteous -> all_numbered d -> uuid_parse (id s) = Some session ->
  save text config e (s, d) = (r, (s', d')) ->
  all_numbered d' /\ exists d1 d2, by_others d d1 /\ extends session d1 d2 /\ by_others d2 d'.
Proof.
  intros Hu Hc Hn Hi E. eapply save_steps in E; [|done..]. destruct E as (d1 & d2 & H1 & H2 & Hd & Hown).
  split; [done|]. exists d1, d2. split_and!; [done| |done].
  destruct Hown as [->|(session' & cid & kid & fp & Hi' & H)]; [done|].
  assert (session' = session) as -> by congruence. by destruct (re_transcript _ _ _ _ _ _ H).
Qed.

(** C13: outcomes are final.  Whatever the others commit before and after, what
    a save itself writes never changes the identity of an action, nor the status
    and result of one that succeeded or failed, nor the response of a command
    that has one. *)
Theorem outcomes_are_final text config e s d r s' d' :
  readers_agree -> courteous -> all_numbered d -> save text config e (s, d) = (r, (s', d')) ->
  exists d1 d2, by_others d d1 /\ by_others d2 d'
  /\ (forall k x, tool_executions d1 !! k = Some x -> exists x', tool_executions d2 !! k = Some x'
     /\ frozen_of x' = frozen_of x
     /\ (terminal_status (ex_status x) = true -> ex_status x' = ex_status x /\ ex_result x' = ex_result x))
  /\ (forall k c, commands d1 !! k = Some c -> settled c = true -> exists c', commands d2 !! k = Some c'
     /\ command_status c' = command_status c /\ response_status c' = response_status c
     /\ response_body c' = response_body c).
Proof.
  intros Hu Hc Hn E. eapply save_steps in E; [|done..]. destruct E as (d1 & d2 & H1 & H2 & _ & Hown).
  assert (actions_kept d1 d2 /\ responses_kept d1 d2) as [Ka Kc].
  { destruct Hown as [->|(session & cid & kid & fp & _ & [_ _ _ Ka Kc])]; [|done].
    split; [by apply same_actions|by apply same_responses]. }
  exists d1, d2. split_and!; [done..| |].
  - intros k x Hx. destruct (Ka k x Hx) as (x' & Hx' & [K1 K2 _]). eauto.
  - intros k c Hk Hs. destruct (Kc k c Hk Hs) as (c' & Hc' & [= E1 E2 E3]). eauto.
Qed.
End properties.

(** ** On the small database *)
Definition created_db (lost : nat) : Db := snd (snd (created lost)).
Definition created_end (lost : nat) : Session := fst (snd (created lost)).
Lemma ended {A S} (x : A * (S * Db)) : x = (fst x, (fst (snd x), snd (snd x))).
Proof. by destruct x as [? [? ?]]. Qed.
Lemma created_runs lost : created lost = (fst (created lost), (created_end lost, created_db lost)).
Proof. unfold created_end, created_db. apply ended. Qed.
Lemma sample_readers_agree lost : readers_agree (P := sample_platform) (B := lossy_backend lost).
Proof. intros x u v. cbn. destruct (is_empty x); congruence. Qed.
Lemma admitted_numbered session : numbered session 0 admitted_db.
Proof.
  split; [|intros; lia|]; intros i; [intros row Hrow|intros j row row' Hrow]; exfalso; revert Hrow;
    change (transcript admitted_db) with (∅ : gmap (string * string) TranscriptRow); by rewrite lookup_empty.
Qed.
(** The acknowledgement of the first attempt is lost; then another worker takes
    the lease, and the second attempt finds the receipt. *)
Definition granted (session owner : string) (now : Z) (d : Db) : Db :=
  match grant_lease session owner now d with Ok (_, d') => d' | Err _ => d end.
Definition second_worker (n : nat) (d : Db) : Db :=
  if (n =? 1)%nat then granted "session-1" "worker-b" 50000 d else d.
Definition busy_backend : Backend := with_others second_worker (lossy_backend 1).
Notation busily_created :=
  (save (P := sample_platform) (B := busy_backend) (F := store_files) (Sr := store_serde) show_error
    (config_json sample_config) (Object [("type", Str "session_created")]) (created_session, admitted_db)).
Lemma grant_keeps_transcript session owner now d : transcript (granted session owner now d) = transcript d.
Proof.
  unfold granted, grant_lease. destruct (sessions d !! session); [|done]. destruct (_ || _); [|done].
  by destruct (bigint_add _ _).
Qed.
Lemma grant_keeps_receipts session owner now d :
  commit_receipts (granted session owner now d) = commit_receipts d.
Proof.
  unfold granted, grant_lease. destruct (sessions d !! session); [|done]. destruct (_ || _); [|done].
  by destruct (bigint_add _ _).
Qed.
Lemma second_worker_courteous : courteous (B := busy_backend).
Proof.
  intros n d Hd. cbn [meanwhile busy_backend with_others]. unfold second_worker.
  destruct (n =? 1)%nat; [|by split]. split; [|by rewrite grant_keeps_receipts].
  intros session. destruct (Hd session) as (k & H0 & Hk). exists k. split; [done|].
  eapply numbered_same; [|exact Hk]. apply grant_keeps_transcript.
Qed.
Lemma admitted_all_numbered : all_numbered admitted_db.
Proof. intros session. exists 0. split; [done|apply admitted_numbered]. Qed.
Lemma save_commits_at_most_once_witness :
  is_ok (fst busily_created) = true
  /\ (lease_owner <$> sessions (snd (snd busily_created)) !! "session-1") = Some (Some "worker-b")
  /\ size (commit_receipts (snd (snd busily_created))) = 1%nat
  /\ saved (P := sample_platform) (B := busy_backend) created_session (config_json sample_config) admitted_db
       (snd (snd busily_created)) (is_ok (fst busily_created)).
Proof.
  split; [vm_compute; reflexivity|]. split; [vm_compute; reflexivity|]. split; [vm_compute; reflexivity|].
  exact (save_commits_at_most_once (P := sample_platform) (B := busy_backend) (F := store_files) (Sr := store_serde)
    show_error (config_json sample_config) (Object [("type", Str "session_created")]) created_session admitted_db
    (fst busily_created) (fst (snd busily_created)) (snd (snd busily_created)) (sample_readers_agree 1)
    second_worker_courteous admitted_all_numbered (ended busily_created)).
Defined.
Lemma transcript_stays_consecutive_witness :
  transcript_count "session-1" (snd (snd busily_created)) = 1
  /\ all_numbered (snd (snd busily_created)) /\ exists d1 d2, by_others (H := busy_backend) admitted_db d1
       /\ extends "session-1" d1 d2 /\ by_others (H := busy_backend) d2 (snd (snd busily_created)).
Proof.
  split; [vm_compute; reflexivity|].
  exact (transcript_stays_consecutive (P := sample_platform) (B := busy_backend) (F := store_files) (Sr := store_serde)
    show_error (config_json sample_config) (Object [("type", Str "session_created")]) created_session admitted_db
    (fst busily_created) (fst (snd busily_created)) (snd (snd busily_created)) "session-1" (sample_readers_agree 1)
    second_worker_courteous admitted_all_numbered eq_refl (ended busily_created)).
Defined.

(** A worker takes a lease that expires, and another takes it over. *)
Definition leased_db : Db := granted "session-1" "worker-a" 100 (created_db 0).
Definition taken_over_db : Db := granted "session-1" "worker-b" 40000 leased_db.
Definition late_session : Session := (created_end 0) <| execution_owner := Some "worker-a" |> <| execution_fence := Some 1 |>.
Notation late_save :=
  (save (P := sample_platform) (B := lossy_backend 0) (F := store_files) (Sr := store_serde) show_error
    (config_json sample_config) (Object [("type", Str "step")]) (late_session, taken_over_db)).
Lemma lossy_courteous lost : courteous (B := lossy_backend lost).
Proof. apply quiet_courteous. Qed.
Lemma created_numbered : all_numbered (created_db 0).
Proof.
  pose proof (save_steps (P := sample_platform) (B := lossy_backend 0) (F := store_files) (Sr := store_serde)
    (sample_readers_agree 0) _ _ _ _ _ _ _ _ (lossy_courteous 0) admitted_all_numbered (created_runs 0)) as (? & ? & _ & _ & H & _).
  exact H.
Qed.
Lemma numbered_by d d' : transcript d' = transcript d -> all_numbered d -> all_numbered d'.
Proof. intros E Hn session. destruct (Hn session) as (n & H0 & Hd). exists n. split; [done|by eapply numbered_same]. Qed.
Lemma leased_numbered : all_numbered leased_db.
Proof. eapply numbered_by; [apply grant_keeps_transcript|apply created_numbered]. Qed.
Lemma taken_over_numbered : all_numbered taken_over_db.
Proof. eapply numbered_by; [apply grant_keeps_transcript|apply leased_numbered]. Qed.
Lemma alone_rows lost d d' session : by_others (H := lossy_backend lost) d d' -> sessions d' !! session = sessions d !! session.
Proof. intros H%by_others_quiet. rewrite same_tables_iff in H. by destruct H as (-> & _). Qed.
Definition no_row : SessionRow := Build_SessionRow Null Null None None None 0 None None 6 None 0 None.
Definition row_in (d : Db) : SessionRow := default no_row (sessions d !! "session-1").
Lemma found {A} (o : option A) (x : A) : is_some o = true -> o = Some (default x o).
Proof. by destruct o. Qed.
Notation taken_over := (grant_lease "session-1" "worker-b" 40000 leased_db).
Lemma taken_over_fence : taken_over = Ok (Some 2, taken_over_db).
Proof.
  assert ((fst <$> taken_over) = Ok (Some 2)) as E by (vm_compute; reflexivity).
  unfold taken_over_db, granted. destruct taken_over as [[f d]|e]; [|done]. by injection E as ->.
Qed.

Lemma takeover_fences_previous_owner_witness :
  exists fence d1 r s' d', taken_over = Ok (Some fence, d1)
  /\ late_save = (r, (s', d')) /\ lease_fence (row_in leased_db) < fence /\ by_others (H := lossy_backend 0) d1 d'
  /\ forall d2, by_others (H := lossy_backend 0) d1 d2 ->
       (forall o t, extend_lease "session-1" o (lease_fence (row_in leased_db)) t d2 = (0, d2))
       /\ (forall o, drop_lease "session-1" o (lease_fence (row_in leased_db)) d2 = d2).
Proof.
  exists 2, taken_over_db, (fst late_save), (fst (snd late_save)), (snd (snd late_save)).
  split; [exact taken_over_fence|]. split; [exact (ended late_save)|].
  refine (takeover_fences_previous_owner (P := sample_platform) (B := lossy_backend 0) (F := store_files) (Sr := store_serde)
    show_error (config_json sample_config) (Object [("type", Str "step")]) late_session leased_db taken_over_db
    (fst late_save) (fst (snd late_save)) (snd (snd late_save)) "session-1" "worker-b" 40000 2 (row_in leased_db)
    (sample_readers_agree 0) (lossy_courteous 0) leased_numbered _ (found (sessions leased_db !! "session-1") no_row _)
    _ _ taken_over_fence _ (ended late_save)).
  - vm_compute. reflexivity.
  - vm_compute. reflexivity.
  - vm_compute. reflexivity.
  - vm_compute. discriminate.
  - intros d2 H2%(alone_rows 0 _ _ "session-1"). exists (row_in taken_over_db). rewrite H2.
    split; [apply found; vm_compute; reflexivity|vm_compute; discriminate].
Defined.
Lemma stale_worker_writes_nothing_witness :
  is_ok (fst late_save) = false /\ by_others (H := lossy_backend 0) taken_over_db (snd (snd late_save)).
Proof.
  split; [vm_compute; reflexivity|].
  refine (stale_worker_writes_nothing (P := sample_platform) (B := lossy_backend 0) (F := store_files) (Sr := store_serde)
    show_error (config_json sample_config) (Object [("type", Str "step")]) late_session taken_over_db
    (fst late_save) (fst (snd late_save)) (snd (snd late_save)) "session-1"
    (sample_readers_agree 0) (lossy_courteous 0) taken_over_numbered _ _ (ended late_save)).
  - vm_compute. reflexivity.
  - intros d1 H1%(alone_rows 0 _ _ "session-1"). exists (row_in taken_over_db). rewrite H1.
    split; [apply found; vm_compute; reflexivity|]. right; left. vm_compute. discriminate.
Defined.
(** Another command goes on with the session after the first was answered. *)
Definition next_command : value := Object [("id", Str "command-2"); ("owner", Str "worker-1"); ("fence", num 1)].
Definition next_serde : Serde := {| message_of _ := Err "not needed"; session_of _ := Ok (created_end 0) |}.
Definition next_db : Db := (created_db 0)
  <| commands ::= <["command-2" := command_row <| command_key := "key-2" |> <| command_session := Some "session-1" |>]> |>.
Notation second_save :=
  (save (P := sample_platform) (B := lossy_backend 0) (F := store_files) (Sr := next_serde) show_error
    (config_json sample_config) (Object [("type", Str "step")]) ((created_end 0) <| command := Some next_command |>, next_db)).
Lemma numbered_commands f d : all_numbered d -> all_numbered (d <| commands ::= f |>).
Proof. by apply numbered_by. Qed.
Lemma next_numbered : all_numbered next_db.
Proof. unfold next_db. apply numbered_commands, created_numbered. Qed.
Lemma outcomes_are_final_witness : is_ok (fst second_save) = true
  /\ exists c d1 d2 c', by_others (H := lossy_backend 0) next_db d1
  /\ by_others (H := lossy_backend 0) d2 (snd (snd second_save))
  /\ commands d1 !! "command-1" = Some c /\ response_status c = Some 201
  /\ commands d2 !! "command-1" = Some c' /\ response_status c' = response_status c.
Proof.
  split; [vm_compute; reflexivity|].
  pose proof (outcomes_are_final (P := sample_platform) (B := lossy_backend 0) (F := store_files) (Sr := next_serde)
    show_error (config_json sample_config) (Object [("type", Str "step")]) ((created_end 0) <| command := Some next_command |>) next_db
    (fst second_save) (fst (snd second_save)) (snd (snd second_save)) (sample_readers_agree 0) (lossy_courteous 0)
    next_numbered (ended second_save)) as (d1 & d2 & H1 & H2 & _ & H).
  set (c := default command_row (commands next_db !! "command-1")).
  assert (commands d1 !! "command-1" = Some c) as Hc.
  { apply by_others_quiet in H1 as Hs. rewrite same_tables_iff in Hs. destruct Hs as (_ & -> & _).
    apply found. vm_compute. reflexivity. }
  assert (settled c = true) as Hs by (vm_compute; reflexivity).
  assert (response_status c = Some 201) as Hr by (vm_compute; reflexivity).
  destruct (H _ c Hc Hs) as (c' & Hc' & _ & E & _). exists c, d1, d2, c'.
  exact (conj H1 (conj H2 (conj Hc (conj Hr (conj Hc' E))))).
Defined.

(** ** Requests on the small database *)
Definition quiet_server (d : Db) : Server unit := {| db := d; held_locks := ∅; outside := tt |}.
Definition one_namespace (name_ : string) : option string := Some "ns".
Definition stray_request : Request := {|
  request_method := "POST"; request_keys := ["key-1"]; request_path := "/x"; request_bytes := "{}" |}.
Definition stray_hash : string :=
  match command_digest (P := sample_platform) "/x" (Object [("max_steps", Null)]) with Ok h => h | Err _ => "" end.
Definition answered_row : CommandRow := command_row <| command_route := "/x" |> <| request_sha256 := stray_hash |>
  <| command_status := "succeeded" |> <| response_status := Some 200 |> <| response_body := Some (Str "done") |>.
Definition answered_db : Db := empty_db <| commands := {["command-1" := answered_row]} |>.
Definition stray_asked : Asked := {|
  asked_key := "key-1"; asked_route := "/x"; asked_session := None; asked_body := Object [("max_steps", Null)];
  asked_hash := stray_hash; asked_namespace := "ns" |}.
Notation stray_run := (responded (admit_post (P := sample_platform) (B := lossy_backend 0) (F := store_files)
  show_error one_namespace "/config" (fun e => e) (fun _ _ => panic) stray_request) (quiet_server answered_db)).
(** A key is used again, and the handler, which would panic, is not run. *)
Lemma answered_key d : by_others (H := lossy_backend 0) answered_db d ->
  answers_key (B := lossy_backend 0) stray_asked "command-1" false answered_row d.
Proof.
  intros H%by_others_quiet. rewrite same_tables_iff in H. destruct H as (_ & E & _).
  split; [|by intros code [= <-]; lia|vm_compute; reflexivity|done].
  unfold find_command. rewrite E. vm_compute. reflexivity.
Qed.
Lemma known_command_is_not_rerun_witness :
  (response_code <$> fst stray_run) = Some 200
  /\ spectated (B := lossy_backend 0) (quiet_server answered_db) (snd stray_run) /\ exists r, fst stray_run = Some r
       /\ ((exists row d, by_others (H := lossy_backend 0) answered_db d
              /\ answers_key (B := lossy_backend 0) stray_asked "command-1" false row d
              /\ r = known_response stray_asked "command-1" row)
           \/ persistence_failure show_error r).
Proof.
  split; [vm_compute; reflexivity|].
  refine (known_command_is_not_rerun (P := sample_platform) (B := lossy_backend 0) (F := store_files) (X := unit)
    show_error one_namespace "/config" (fun e => e) (fun _ _ => panic) stray_request (quiet_server answered_db)
    stray_asked "command-1" false (fst stray_run) (snd stray_run) _ _ (surjective_pairing _)).
  - vm_compute. reflexivity.
  - intros d Hd. exists answered_row. by apply answered_key.
Defined.

(** The creation of a session through its handler. *)
Definition create_command : value :=
  Object [("id", Str "command-1"); ("owner", Str "worker-1"); ("fence", num 1);
          ("admission", Object [("session_id", Str "session-1"); ("config", Object []);
                                ("source_sha256", Str "0123456789abcdef")])].
Definition create_body : value := Object [("user_prompt", Str "count the errors"); ("_command", create_command)].
Notation create_run := (create (P := sample_platform) (B := lossy_backend 0) (F := store_files) (Sr := store_serde) (X := unit)
  show_error one_namespace "/config" create_body (quiet_server admitted_db)).
Lemma admitted_fresh : fresh (P := sample_platform) (B := lossy_backend 0) admitted_db.
Proof.
  intros session n cid _ d Hd%by_others_quiet. eapply unused_same; [exact Hd|].
  split; [|intros row Hrow]; [|exfalso; revert Hrow].
  - change (commit_receipts admitted_db) with (∅ : gmap (string * string) ReceiptRow). apply lookup_empty.
  - change (sessions admitted_db) with (∅ : gmap string SessionRow). by rewrite lookup_empty.
Qed.
Lemma returned {X A} (x : result stop A * Server X) : is_ok (fst x) = true -> exists a, x = (Ok a, snd x).
Proof. destruct x as [[a|e] w]; [|done]. by exists a. Qed.

