(* ===== verification/Guarantees.v ===== *)
(** * What the service guarantees as a whole

    The invariant of the reachable states of the service, and that the work of a
    worker that is gone can be taken over. *)
From S2P Require Import Prelude Text Json Encoding Session Logic Diagnostics Prompt Tools Checkpoint Store StoreLogic Http HttpLogic Rows Snapshot Config Startup Retention Requests Commit Load Handlers Pages CommitFacts SaveFacts Server Stream Listings Router Admin Service WorldFrame Invariant Sample Authority.
Local Open Scope string_scope.
Local Open Scope Z_scope.

(** * Properties *)
Section properties.
Context `{P : Platform} `{B : Backend} `{F : Files} `{Sr : Serde} `{Sc : Schedule} {X : Type} `{HX : Host X}.

(** C1: in every state the service reaches from an empty database, by any
    sequence of requests, operator commands, steps of other tasks and processes,
    which may also commit before any transaction of a request, lost connections
    and restarts, every transcript is numbered 1, 2, 3, ...; and
    from there on no transcript row, commit receipt, identity or outcome of an
    action or response of a command is ever lost or changed, no cancellation that
    was requested is withdrawn, and no session changes its configuration or goes
    back to an earlier revision. *)
Theorem history_is_never_lost text build_client env root root_entries utf8_error timestamp_cast clock_cast execution_json run_json
    archived_at patience integer_error export_rows create_file (w0 w1 w2 : Server X) :
  readers_agree -> others_are_tasks text env -> db w0 = empty_db ->
  rtc (service_step text build_client env root root_entries utf8_error timestamp_cast clock_cast execution_json run_json
         archived_at patience integer_error export_rows create_file) w0 w1 ->
  rtc (service_step text build_client env root root_entries utf8_error timestamp_cast clock_cast execution_json run_json
         archived_at patience integer_error export_rows create_file) w1 w2 ->
  (forall session, exists n, 0 <= n <= i64_max /\ numbered session n (db w1)) /\ history_kept (db w1) (db w2).
Proof.
  intros Hu Ho E0 H1 H2. apply service_faithful in H1, H2; [|done..]. rewrite E0 in H1.
  destruct (H1 empty_numbered) as [Hn _]. split; [exact Hn|]. by apply H2.
Qed.

(** C16: the session of a worker that is gone can be taken over: once its lease has
    expired, or was given back, the next worker that reaches the database gets
    the lease, under a new fence (below the largest [bigint]), and holds it for the whole interval.  [row] is
    the session as the others have left it when the statement runs. *)
Theorem expired_lease_is_taken_over session s d row :
  sessions (intervene (d <| uuid_reads ::= S |>)) !! session = Some row ->
  (lease_owner row = None \/ exists t, lease_expires_at row = Some t /\ t <= time_at (time_reads d)) ->
  i64_min <= lease_fence row < i64_max -> network (network_reads d) = Delivered ->
  exists row' d', acquire_execution_lease session (s, d)
      = (Ok (uuid_at (uuid_reads d), lease_fence row + 1), (s, d'))
    /\ sessions d' !! session = Some row' /\ holds_lease row' (uuid_at (uuid_reads d)) (lease_fence row + 1) = true
    /\ (forall now, now < time_at (time_reads d) + lease_interval -> unexpired (lease_expires_at row') now = true)
    /\ forall now owner, now < time_at (time_reads d) + lease_interval -> grant_lease session owner now d' = Ok (None, d').
Proof.
  intros Hrow Hfree Hfence Hnet.
  assert (is_none (lease_owner row) || expired (lease_expires_at row) (time_at (time_reads d)) = true) as Hg.
  { apply orb_true_iff. destruct Hfree as [->|(t & -> & Ht)]; [by left|right]. by apply Z.leb_le. }
  unfold acquire_execution_lease, fallible, transaction, mbind, T_bind, clock_timestamp, try_db, engine, uuid, world.
  cbn [fst snd new_uuid db_runtime map_err mret T_ret].
  set (d0 := intervene (d <| uuid_reads ::= Datatypes.S |>)) in *. unfold grant_lease.
  change (sessions (d0 <| time_reads ::= Datatypes.S |>)) with (sessions d0).
  change (time_reads d0) with (time_reads d). rewrite Hrow, Hg. unfold bigint_add.
  replace (in_i64 (lease_fence row + 1)) with true by (symmetry; apply in_i64_spec; lia). cbn [fst snd mbind result_bind].
  match goal with |- context [put_session session ?r ?d1] => set (row1 := r); set (d2 := put_session session row1 d1) end.
  change (network_reads d2) with (network_reads d). rewrite Hnet. cbn beta iota.
  set (d3 := d2 <| network_reads ::= Datatypes.S |>).
  assert (sessions d3 !! session = Some row1) as Hrow1 by apply lookup_insert_eq.
  exists row1, d3. split_and!; [done|done| | |].
  - unfold holds_lease. cbn. by rewrite bool_decide_eq_true_2, Z.eqb_refl.
  - intros now Hnow. by apply Z.ltb_lt.
  - intros now owner Hnow. unfold grant_lease. rewrite Hrow1. cbn.
    destruct (Z.leb_spec (time_at (time_reads d) + lease_interval) now); [lia|done].
Qed.
End properties.

(** ** On the small database *)
(** A worker holds the lease, and gives it back just before the next one asks. *)
Definition held_db : Db := granted "session-1" "worker-a" 40000 (created_db 0).
Definition relieved : Backend := with_others (fun _ => drop_lease "session-1" "worker-a" 1) (lossy_backend 0).
Notation asking_db := (held_db <| uuid_reads ::= S |>).
Notation row_left := (row_in (intervene (H := relieved) asking_db)).
Notation next_worker := (uuid_at (Backend := relieved) (uuid_reads held_db)).
Notation next_fence := (lease_fence row_left + 1).
Notation taken_at := (time_at (Backend := relieved) (time_reads held_db)).
Lemma expired_lease_is_taken_over_witness :
  (next_worker, next_fence, taken_at) = ("uuid-2", 2, 4) /\ lease_owner (row_in held_db) = Some "worker-a"
  /\ exists row' d',
  acquire_execution_lease (H := relieved) "session-1" (late_session, held_db)
    = (Ok (next_worker, next_fence), (late_session, d'))
  /\ sessions d' !! "session-1" = Some row' /\ holds_lease row' next_worker next_fence = true
  /\ (forall now, now < taken_at + lease_interval -> unexpired (lease_expires_at row') now = true)
  /\ forall now owner, now < taken_at + lease_interval -> grant_lease "session-1" owner now d' = Ok (None, d').
Proof.
  split; [vm_compute; reflexivity|]. split; [vm_compute; reflexivity|].
  refine (expired_lease_is_taken_over (B := relieved) "session-1" late_session held_db row_left
    (found (sessions (intervene (H := relieved) asking_db) !! "session-1") no_row _) (or_introl _) _ _);
    [vm_compute; reflexivity..|split; vm_compute; [discriminate|reflexivity]|vm_compute; reflexivity].
Defined.

(** The command of a creation is admitted and the session is saved, although the
    acknowledgement of both is lost, and then a request reads the command. *)
Definition empty_server : Server World := {| db := empty_db; held_locks := ∅; outside := quiet_world [] |}.
Definition admitted_tables : Db := tables_after (insertion (H := lossy_backend 2)
  (insert_command "command-1" command_row)) created_session empty_db.
Definition saved_tables : Db := tables_after (save (P := sample_platform) (B := lossy_backend 2) (F := store_files)
  (Sr := store_serde) show_error (config_json sample_config) (Object [("type", Str "session_created")]))
  created_session admitted_tables.
Definition lone_schedule : Schedule := {| others n d := d; connected n := true |}.
Definition command_query : Request :=
  {| request_method := "GET"; request_keys := []; request_path := "/commands/command-1"; request_bytes := "" |}.
Notation served w := (serve (P := sample_platform) (B := lossy_backend 2) (F := store_files) (Sr := store_serde)
  (Sc := lone_schedule) show_error (fun _ => Ok tt) one_namespace "/config" None (fun e => e) (fun t => t) show_Z
  (fun _ _ _ => Null) (fun _ _ _ => Null) (fun _ => "") 1 ∅ command_query w).
Notation sample_step := (service_step (P := sample_platform) (B := lossy_backend 2) (F := store_files) (Sr := store_serde)
  (Sc := lone_schedule) show_error (fun _ => Ok tt) one_namespace "/config" None (fun e => e) (fun t => t) show_Z
  (fun _ _ _ => Null) (fun _ _ _ => Null) (fun _ => "") 1 (fun e => e) (fun _ _ _ => []) (fun _ _ x => (Ok tt, x))).
Definition saved_server : Server World := empty_server <| db := admitted_tables |> <| db := saved_tables |>.
Lemma sample_admitted : rtc sample_step empty_server (empty_server <| db := admitted_tables |>).
Proof. apply rtc_once, service_task, task_admits. Qed.
Lemma sample_saved : rtc sample_step (empty_server <| db := admitted_tables |>) (snd (served saved_server)).
Proof.
  eapply rtc_l; [apply (service_task _ _ _ _ _ _ _ _ _ _ _ _ _ _ _ saved_tables), task_saves|].
  apply rtc_once, service_serves.
Qed.
Lemma history_is_never_lost_witness :
  (fst (served saved_server) : result stop Response) <> Err Panicked /\ size (transcript saved_tables) = 1%nat
  /\ (forall session, exists n, 0 <= n <= i64_max /\ numbered session n (db (empty_server <| db := admitted_tables |>)))
  /\ history_kept (db (empty_server <| db := admitted_tables |>)) (db (snd (served saved_server))).
Proof.
  split; [vm_compute; discriminate|]. split; [vm_compute; reflexivity|].
  refine (history_is_never_lost (P := sample_platform) (B := lossy_backend 2) (F := store_files) (Sr := store_serde)
    (Sc := lone_schedule) show_error (fun _ => Ok tt) one_namespace "/config" None (fun e => e) (fun t => t) show_Z
    (fun _ _ _ => Null) (fun _ _ _ => Null) (fun _ => "") 1 (fun e => e) (fun _ _ _ => []) (fun _ _ x => (Ok tt, x))
    empty_server (empty_server <| db := admitted_tables |>) (snd (served saved_server)) (sample_readers_agree 2)
    (conj (fun n d => rtc_refl _ d) (fun n d => rtc_refl _ d)) eq_refl sample_admitted sample_saved).
Defined.
