(* ===== verification/PagesFacts.v ===== *)
(** * Walking the pages of a listing

    Rows with strictly increasing numbers are a function of their membership, so
    the page between a cursor and a watermark does not depend on what is appended
    beyond it, and following the cursors collects every row once, in order. *)
From S2P Require Import Prelude Text Json Session Store StoreLogic Rows Http Commit Load Handlers Pages CommitFacts.
From Stdlib Require Import Sorted.
Local Open Scope string_scope.
Local Open Scope Z_scope.
Local Open Scope list_scope.

(** ** Rows in the order of their numbers *)
Section rows.
Context {A : Type} (f : A -> Z).
Definition increasing (l : list A) : Prop := StronglySorted (fun a b => f a < f b) l.
Lemma increasing_filter p l : increasing l -> increasing (List.filter p l).
Proof.
  unfold increasing. induction 1 as [|x l Hs IH Hall]; cbn; [constructor|]. destruct (p x); [|done].
  constructor; [done|]. rewrite Forall_forall in Hall |- *. intros y [Hy _]%list_elem_of_In%filter_In.
  by apply Hall, list_elem_of_In.
Qed.
Lemma increasing_unique l l' : increasing l -> increasing l' -> (forall x, x ∈ l <-> x ∈ l') -> l = l'.
Proof.
  unfold increasing. intros Hl. revert l'. induction Hl as [|x l Hs IH Hx]; intros l' Hl' He.
  - destruct l' as [|y l']; [done|]. exfalso. by apply (elem_of_nil y), He; left.
  - destruct Hl' as [|y l' Hs' Hy]; [exfalso; by apply (elem_of_nil x), He; left|].
    rewrite Forall_forall in Hx, Hy.
    assert (x = y) as ->.
    { assert (x ∈ y :: l') as [->|H1]%elem_of_cons by (apply He; left); [done|].
      assert (y ∈ x :: l) as [->|H2]%elem_of_cons by (apply He; left); [done|].
      specialize (Hx _ H2). specialize (Hy _ H1). cbn in Hx, Hy. lia. }
    f_equal. apply IH; [done|]. intros z. split; intros Hz.
    + assert (z ∈ y :: l') as [->|]%elem_of_cons by (apply He; by right); [|done]. specialize (Hx _ Hz). cbn in Hx. lia.
    + assert (z ∈ y :: l) as [->|]%elem_of_cons by (apply He; by right); [|done]. specialize (Hy _ Hz). cbn in Hy. lia.
Qed.
Lemma increasing_app l1 l2 : increasing (l1 ++ l2) -> forall x y, x ∈ l1 -> y ∈ l2 -> f x < f y.
Proof.
  unfold increasing. induction l1 as [|a l1 IH]; intros Hs x y Hx Hy; [by apply elem_of_nil in Hx|].
  inversion Hs as [|? ? Hs' Hall]; subst. apply elem_of_cons in Hx as [->|Hx]; [|by apply IH].
  rewrite Forall_forall in Hall. apply Hall. apply elem_of_app. by right.
Qed.
Lemma increasing_app_r l1 l2 : increasing (l1 ++ l2) -> increasing l2.
Proof. unfold increasing. induction l1 as [|a l1 IH]; [done|]. intros Hs. inversion Hs; subst. auto. Qed.
Lemma increasing_app_l l1 l2 : increasing (l1 ++ l2) -> increasing l1.
Proof.
  unfold increasing. induction l1 as [|a l1 IH]; [constructor|]. intros Hs. inversion Hs as [|? ? Hs' Hall]; subst.
  constructor; [auto|]. rewrite Forall_app in Hall. apply Hall.
Qed.

(** ** Following the cursors *)
Definition between (lo hi : Z) (r : A) : bool := (lo <? f r) && (f r <=? hi).
Lemma between_spec lo hi r : between lo hi r = true <-> lo < f r <= hi.
Proof. unfold between. rewrite andb_true_iff, Z.ltb_lt, Z.leb_le. done. Qed.
(** What is left after a page that ends with [x]. *)
Lemma between_after rows lo hi p x q : increasing rows ->
  List.filter (between lo hi) rows = ((p ++ [x]) ++ q)%list -> List.filter (between (f x) hi) rows = q.
Proof.
  intros Hs E. pose proof (increasing_filter (between lo hi) rows Hs) as Hf. rewrite E in Hf.
  apply increasing_unique; [by apply increasing_filter|by eapply increasing_app_r|].
  assert (forall y, y ∈ rows /\ lo < f y <= hi <-> y ∈ (p ++ [x]) ++ q) as Hin.
  { intros y. rewrite <- E, !list_elem_of_In, filter_In, between_spec. done. }
  assert (lo < f x) as Hx by (apply Hin, elem_of_app; left; apply elem_of_app; right; left).
  intros y. rewrite list_elem_of_In, filter_In, <- list_elem_of_In, between_spec. split.
  - intros [Hy Hb]. assert (y ∈ (p ++ [x]) ++ q) as [H1|]%elem_of_app by (apply Hin; split; [done|lia]); [|done].
    apply elem_of_app in H1 as [H1|H1%list_elem_of_singleton]; [|subst; lia]. apply increasing_app_l in Hf.
    pose proof (increasing_app _ _ Hf y x H1 ltac:(by left)). lia.
  - intros Hy. assert (y ∈ (p ++ [x]) ++ q) as Hq by (apply elem_of_app; by right). apply Hin in Hq as [H1 H2].
    split; [done|]. pose proof (increasing_app _ _ Hf x y ltac:(apply elem_of_app; right; by left) Hy). lia.
Qed.
Lemma last_split (l : list A) : l <> [] -> exists p x, l = (p ++ [x])%list /\ last l = Some x.
Proof.
  intros Hl. destruct (last l) as [x|] eqn:E; [|by apply last_None in E].
  apply last_Some in E as [p ->]. by exists p, x.
Qed.
Lemma walk_collects fuel rows after through limit : increasing rows -> 1 <= limit ->
  (length (List.filter (between after through) rows) <= fuel)%nat ->
  walk fuel f rows after through limit = List.filter (between after through) rows.
Proof.
  intros Hs Hl. revert after. induction fuel as [|fuel IH]; intros after Hf.
  - revert Hf. destruct (List.filter (between after through) rows); cbn; [done|lia].
  - cbn [walk]. unfold page. change (fun r => (after <? f r) && (f r <=? through)) with (between after through).
    set (F := List.filter (between after through) rows) in *. set (k := Z.to_nat limit).
    assert (1 <= k)%nat as Hk by lia.
    destruct (take k F) as [|a p'] eqn:Ep.
    { destruct F; [done|]. destruct k; [lia|done]. }
    destruct (last_split (take k F)) as (p & x & Ex & Elast); [by rewrite Ep|]. rewrite <- Ep.
    unfold next_cursor. rewrite Elast. cbn [from_option].
    assert (List.filter (between (f x) through) rows = drop k F) as Er.
    { eapply between_after; [done|]. rewrite <- Ex. unfold F. by rewrite take_drop. }
    rewrite IH; [by rewrite Er, take_drop|]. rewrite Er, length_drop.
    assert (length F <> 0)%nat by (destruct F; [by destruct k|done]). lia.
Qed.
End rows.

(** ** The transcript in order *)
Lemma filter_map_nodup {A B} (g : A -> option B) l : NoDup l ->
  (forall x y b, g x = Some b -> g y = Some b -> x = y) -> NoDup (filter_map g l).
Proof.
  intros Hn Hg. unfold filter_map. induction Hn as [|x l Hx Hn IH]; cbn; [constructor|].
  destruct (g x) as [b|] eqn:E; [|done]. cbn. constructor; [|done]. rewrite list_elem_of_In, in_flat_map.
  intros (y & Hy & Hb). destruct (g y) as [b'|] eqn:E'; [|done]. destruct Hb as [->|[]].
  apply Hx. rewrite (Hg x y b E E'). by apply list_elem_of_In.
Qed.
Lemma of_session_nodup {A} (session : string) (m : gmap (string * string) A) : NoDup (of_session session m).
Proof.
  apply filter_map_nodup; [apply NoDup_map_to_list|]. intros [[s i] x] [[t j] y] [k z]. cbn.
  destruct (String.eqb_spec s session) as [->|]; [|done]. destruct (String.eqb_spec t session) as [->|]; [|done]. congruence.
Qed.
Lemma sorted_increasing {A} (f : A -> Z) l : StronglySorted (fun a b => (f a <=? f b) = true) l -> NoDup l ->
  (forall x y, x ∈ l -> y ∈ l -> f x = f y -> x = y) -> increasing f l.
Proof.
  unfold increasing. induction 1 as [|x l Hs IH Hall]; intros Hn Hf; [constructor|].
  apply NoDup_cons in Hn as [Hx Hn]. constructor; [apply IH; [done|]; intros; apply Hf; [by right..|done]|].
  rewrite Forall_forall in Hall |- *. intros y Hy. specialize (Hall y Hy) as Hle%Z.leb_le.
  assert (f x <> f y) by (intros E; apply Hf in E as ->; [done|by left|by right]). lia.
Qed.
Lemma ordered_in session d i row : (i, row) ∈ ordered_transcript session d <-> transcript d !! (session, i) = Some row.
Proof. unfold ordered_transcript. rewrite sort_by_perm. apply of_session_spec. Qed.
Lemma ordered_increasing session n d : numbered session n d -> increasing entry_number (ordered_transcript session d).
Proof.
  intros [_ _ Hd]. apply sorted_increasing.
  - apply sort_by_sorted; [intros x y; rewrite !Z.leb_le; lia|intros x y z; rewrite !Z.leb_le; lia].
  - unfold ordered_transcript. rewrite sort_by_perm. apply of_session_nodup.
  - intros [i r] [j r'] Hi%ordered_in Hj%ordered_in E. cbn in E. assert (i = j) as -> by (by eapply Hd). congruence.
Qed.
Lemma seqZ_increasing a k : increasing (fun z => z) (seqZ a k).
Proof.
  unfold increasing, seqZ. generalize (Z.to_nat k) as m. intros m. generalize 0%nat as b. 
  induction m as [|m IH]; intros b; cbn; [constructor|]. constructor; [apply IH|].
  rewrite Forall_forall. intros y (j & -> & Hj)%list_elem_of_fmap. apply elem_of_seq in Hj. lia.
Qed.
Lemma increasing_map {A} (f : A -> Z) l : increasing f l -> increasing (fun z => z) (map f l).
Proof.
  unfold increasing. induction 1 as [|x l Hs IH Hall]; cbn; [constructor|]. constructor; [done|].
  rewrite Forall_forall in Hall. apply Forall_forall. intros y (z & -> & Hz)%list_elem_of_fmap. by apply Hall.
Qed.
Lemma ordered_numbers session n d : numbered session n d ->
  map entry_number (ordered_transcript session d) = seqZ 1 n.
Proof.
  intros Hd. apply (increasing_unique (fun z => z)); [|apply seqZ_increasing|].
  { apply increasing_map. by eapply ordered_increasing. }
  intros k. rewrite elem_of_seqZ. split.
  - intros ([i r] & -> & Hi%ordered_in)%list_elem_of_fmap. apply (numbers_bounded _ _ _ Hd) in Hi. unfold entry_number; cbn [snd]. lia.
  - intros Hk. destruct (numbers_used _ _ _ Hd k) as (i & r & Hr & E); [lia|].
    apply list_elem_of_fmap. exists (i, r). split; [done|by apply ordered_in].
Qed.
(** The rows up to the watermark do not depend on what was appended since. *)
Lemma between_extended session n n' d d' after : numbered session n d -> numbered session n' d' -> extends session d d' ->
  List.filter (between entry_number after n) (ordered_transcript session d')
  = List.filter (between entry_number after n) (ordered_transcript session d).
Proof.
  intros Hd Hd' [He _].
  apply (increasing_unique entry_number); [apply increasing_filter; by eapply ordered_increasing..|].
  intros [i r]. rewrite !list_elem_of_In, !filter_In, <- !list_elem_of_In, !ordered_in, !between_spec. unfold entry_number. cbn [snd].
  split; [intros [H1 H2]|intros [H1 H2]; by auto]. split; [|done].
  destruct (numbers_bounded _ _ _ Hd' _ _ H1) as [Hlo _].
  destruct (numbers_used _ _ _ Hd (tr_sequence r)) as (j & r0 & H0 & E); [lia|].
  assert (j = i) as -> by (eapply (numbers_distinct _ _ _ Hd'); [by apply He|exact H1|done]).
  apply He in H0 as H3. congruence.
Qed.
Lemma filter_all {A} (p : A -> bool) l : (forall x, x ∈ l -> p x = true) -> List.filter p l = l.
Proof.
  induction l as [|x l IH]; intros Hp; cbn; [done|]. rewrite (Hp x) by left. rewrite IH; [done|]. intros; apply Hp; by right.
Qed.
Lemma between_everything session n d : numbered session n d ->
  List.filter (between entry_number 0 n) (ordered_transcript session d) = ordered_transcript session d.
Proof.
  intros Hd. apply filter_all. intros [i r] Hi%ordered_in. apply between_spec.
  apply (numbers_bounded _ _ _ Hd) in Hi. unfold entry_number. cbn [snd]. lia.
Qed.


(** Three rows, and two more that are appended during the walk. *)
Definition sample_row (n : Z) : TranscriptRow :=
  {| tr_sequence := n; tr_kind := "message"; tr_payload := Null; tr_run_id := None; tr_decision_step := 0; tr_created_at := "" |}.
Definition grown (d : Db) (e : string * Z) : Db := insert_transcript "s" (fst e) (sample_row (snd e)) d.
Definition three_rows : Db := foldl grown empty_db [("c", 1); ("a", 2); ("b", 3)].
Definition five_rows : Db := foldl grown three_rows [("e", 4); ("d", 5)].
Lemma grown_numbered d i n : 0 <= n -> numbered "s" n d -> transcript d !! ("s", i) = None ->
  numbered "s" (n + 1) (grown d (i, n + 1)) /\ extends "s" d (grown d (i, n + 1)).
Proof. intros Hn Hd Hi. split; [by apply insert_numbered|by apply insert_extends]. Qed.
Lemma three_numbered : numbered "s" 3 three_rows.
Proof.
  apply (grown_numbered _ "b" 2); [done| |done]. apply (grown_numbered _ "a" 1); [done| |done].
  apply (grown_numbered _ "c" 0); [done| |done]. split; [done|lia|done].
Qed.
Lemma five_numbered : numbered "s" 5 five_rows.
Proof. apply (grown_numbered _ "d" 4); [done| |done]. apply (grown_numbered _ "e" 3); [done|apply three_numbered|done]. Qed.
Lemma five_extends : extends "s" three_rows five_rows.
Proof.
  etrans; [apply (grown_numbered _ "e" 3)|apply (grown_numbered _ "d" 4)]; try done; [apply three_numbered|].
  apply (grown_numbered _ "e" 3); [done|apply three_numbered|done].
Qed.
