(* ===== verification/CompactFacts.v ===== *)
(** * Correctness of compaction

    A compaction that succeeds leaves a request that fits.  It either leaves
    the history alone or replaces a prefix of whole interactions by a ledger
    that the validator accepted: the goal message, the order of what remains
    and the pairing of calls with results survive. *)
From S2P Require Import Prelude Text Json Encoding Session Logic Context Ledger Diagnostics Workflow Prompt Tools Checkpoint Actions Wire Compaction Frames Sample.
Local Open Scope string_scope.
Local Open Scope Z_scope.

(** The history and what stands for its compacted part. *)
Definition past (s : Session) := (goal s, memory s, compacted_context s, compaction_ledger s).
Definition still (s s' : Session) : Prop := past s' = past s.
#[export] Instance still_preorder : PreOrder still.
Proof. unfold still. split; [done|]. intros ? ? ? ? ?. congruence. Qed.

Section facts.
Context {W : Type} `{P : Platform} `{H : Host W} (config : Config).

(** ** What does not touch the history *)
Lemma archive_still k p : keeps (W := W) still (archive_record k p).
Proof. unfold archive_record, uuid, transcript_timestamp. frame. Qed.
Lemma append_still f p : keeps (W := W) still (append f p).
Proof.
  unfold append. frame. apply keeps_modify; [apply _|]. intros s. repeat case_match; same_fields.
Qed.
#[local] Hint Resolve archive_still append_still : frame.
Lemma record_still f p : keeps (W := W) still (Diagnostics.record f p).
Proof. unfold Diagnostics.record, stage. frame. Qed.
#[local] Hint Resolve record_still : frame.
Lemma decision_still p : keeps (W := W) still (decision_record p).
Proof. apply record_still. Qed.
Lemma skipped_still a r : keeps (W := W) still (skipped a r).
Proof. apply record_still. Qed.
Lemma post_urls_still urls token kind p bytes cap ds :
  keeps (W := W) still (post_urls config urls token kind p bytes cap ds).
Proof.
  revert ds. induction urls as [|url rest IH]; intros ds; cbn [post_urls]; [apply keeps_ret; apply _|].
  unfold failed_request, elapsed, log_provider. frame; try apply IH.
Qed.
Lemma client_still g src c : keeps (W := W) still (compact_client config g src c).
Proof.
  unfold compact_client. frame. intros s w r s' w'. unfold post_chat. apply post_urls_still.
Qed.
Lemma reject_still ctx n p r : keeps (W := W) still (reject ctx n p r).
Proof. unfold reject. frame. Qed.
#[local] Hint Resolve decision_still skipped_still client_still reject_still : frame.

(** ** What a compaction does to the history *)
(** A prefix of whole interactions is gone, the rest is kept verbatim. *)
Definition cut (s s' : Session) : Prop :=
  goal s' = goal s /\ take 1 (memory s') = take 1 (memory s)
  /\ exists dropped kept, drop 1 (memory s) = (concat dropped ++ concat kept)%list
     /\ drop 1 (memory s') = concat kept
     /\ dropped <> [] /\ Forall interaction (dropped ++ kept)
     /\ raw_turns_to_keep (policy config) <= Z.of_nat (length (concat kept)).
(** The ledger in force was validated against a source for this goal. *)
Definition ledgered (s : Session) : Prop :=
  exists text src ledger canonical_,
    validate_ledger text (goal s) src (Z.max (max_summary_tokens (policy config)) 1)
      (hybrid_reflection (policy config)) = Ok (ledger, canonical_)
    /\ compacted_context s = Some canonical_ /\ compaction_ledger s = Some ledger.
Definition compacted (s s' : Session) : Prop := cut s s' /\ ledgered s'.
Definition outcome (changed : bool) (s s' : Session) : Prop :=
  if changed then compacted s s' else still s s'.

Lemma cut_trans s1 s2 s3 : cut s1 s2 -> cut s2 s3 -> cut s1 s3.
Proof.
  intros (G1 & T1 & d1 & k1 & H1 & E1 & N1 & F1 & _) (G2 & T2 & d2 & k2 & H2 & E2 & _ & F2 & L2).
  split_and!; [congruence|congruence|]. exists (d1 ++ d2)%list, k2. split_and!; try done.
  - by rewrite H1, <- E1, H2, concat_app, app_assoc.
  - by destruct d1.
  - rewrite Forall_app in F1. rewrite <- app_assoc. apply Forall_app. tauto.
Qed.
Lemma still_compacted s1 s2 s3 : still s1 s2 -> compacted s2 s3 -> compacted s1 s3.
Proof. unfold still, past, compacted, cut. intros [= G E _ _]. by rewrite G, E. Qed.
Lemma compacted_still s1 s2 s3 : compacted s1 s2 -> still s2 s3 -> compacted s1 s3.
Proof.
  unfold still, past, compacted, cut, ledgered. intros C [= G E1 E2 E3]. by rewrite G, E1, E2, E3.
Qed.
Lemma outcome_trans c1 c2 s1 s2 s3 : outcome c1 s1 s2 -> outcome c2 s2 s3 -> outcome (c1 || c2) s1 s3.
Proof.
  destruct c1, c2; cbn; [|apply compacted_still|apply still_compacted|by etransitivity].
  intros [C1 _] [C2 L2]. split; [by eapply cut_trans|done].
Qed.
Lemma outcome_after c s1 s2 s3 : still s1 s2 -> outcome c s2 s3 -> outcome c s1 s3.
Proof. intros H1 H2. by apply (outcome_trans false c _ s2). Qed.

(** ** One pass *)
Record context_of (ctx : PassContext) (s : Session) : Prop := {
  parts : drop 1 (memory s) = (flatten (old_groups ctx) ++ flatten (tail_groups ctx))%list;
  whole : Forall (fun g => interaction (messages g)) (old_groups ctx ++ tail_groups ctx);
  some_old : old_groups ctx <> [];
  raw_kept : raw_turns_to_keep (policy config) <= message_count (tail_groups ctx)
}.
Lemma context_still ctx s s' : still s s' -> context_of ctx s -> context_of ctx s'.
Proof. intros [= _ E _ _] []. split; try done. by rewrite E. Qed.

Lemma flatten_concat gs : flatten gs = concat (map messages gs).
Proof. apply flat_map_concat_map. Qed.

Lemma with_history_cut ctx s c : context_of ctx s -> cut s (with_history (flatten (tail_groups ctx)) c s).
Proof.
  intros [Hp Hw Ho Hr]. destruct (memory s) as [|m ms] eqn:Em; cbn in Hp.
  { destruct (old_groups ctx) as [|g gs]; [done|]. inversion Hw as [|? ? Hi]; subst.
    destruct (messages g) eqn:Eg; [by inversion Hi|]. cbn in Hp. by rewrite Eg in Hp. }
  unfold cut, with_history. rewrite Em. cbn. rewrite drop_0 in *. split_and!; [done|done|].
  exists (map messages (old_groups ctx)), (map messages (tail_groups ctx)).
  rewrite <- !flatten_concat. split_and!; [done|done| | |done].
  - by destruct (old_groups ctx).
  - rewrite <- map_app. by apply Forall_map.
Qed.

Lemma uuid_still : keeps (W := W) still uuid.
Proof. apply keeps_world. apply _. Qed.
#[local] Hint Resolve uuid_still : frame.

Lemma accept_spec ctx n text ledger canonical_ after reduction s (w : W) :
  context_of ctx s ->
  validate_ledger text (goal s) (source ctx) (Z.max (max_summary_tokens (policy config)) 1)
    (hybrid_reflection (policy config)) = Ok (ledger, canonical_) ->
  wp (accept ctx n text ledger canonical_ after reduction)
    (fun _ s' _ => compacted s s') (fun _ _ _ => True) s w.
Proof.
  intros Hc Hv. unfold accept. wp_step. wp_step. cbv zeta. apply wp_bind.
  eapply wp_keeps; [apply uuid_still| |done]. intros u s1 w1 H1. wp_step. wp_step.
  set (s2 := with_history _ _ s1 <| compaction_ledger := _ |> <| active_ledger_id := _ |>).
  assert (compacted s1 s2) as H2.
  { split; [exact (with_history_cut ctx s1 (Some canonical_) (context_still _ _ _ H1 Hc))|].
    exists text, (source ctx), ledger, canonical_. split; [|done]. change (goal s2) with (goal s1). by injection H1 as ->. }
  eapply (wp_keeps still); [frame| |done].
  intros [] s3 w3 H3. by eapply still_compacted, compacted_still.
Qed.

Lemma judge_spec ctx n proposal ds s (w : W) :
  context_of ctx s ->
  wp (judge config ctx n proposal ds) (fun v s' _ => outcome (is_none v) s s') (fun _ _ _ => True) s w.
Proof.
  intros Hc. unfold judge. wp_step. wp_step. cbv zeta.
  destruct (opt_str_is _ _); [by apply wp_ret|]. destruct (stale ctx s); [by apply wp_ret|].
  destruct proposal as [text|]; [|by apply wp_ret]. unfold judge_text. wp_step. wp_step.
  destruct (validate_ledger _ _ _ _ _) as [[ledger canonical_]|e] eqn:Ev; [|by apply wp_ret].
  cbv zeta. wp_step. wp_step. destruct (request_budget_of _ _) as [after|]; [|done].
  destruct (_ <=? 0); [by apply wp_ret|]. destruct (_ && _); [by apply wp_ret|].
  wp_step. eapply wp_mono; [by eapply accept_spec| |done]. intros [] s1 w1 H1. by apply wp_ret.
Qed.

Lemma attempt_summaries_spec fuel ctx n c r s (w : W) :
  context_of ctx s ->
  wp (attempt_summaries config fuel ctx n c r) (fun v s' _ => outcome v.1.1 s s') (fun _ _ _ => True) s w.
Proof.
  revert n c r s w. induction fuel as [|fuel IH]; intros n c r s w Hc; cbn [attempt_summaries].
  { by apply wp_ret. }
  wp_step. wp_step. destruct (negb _); [by apply wp_ret|]. wp_step. wp_step.
  match goal with |- wp _ _ _ ?x _ => assert (still s x) as H1 by done; revert H1; generalize x end.
  intros s1 H1. wp_step. wp_step. apply wp_bind. eapply wp_keeps; [apply client_still| |done].
  intros [proposal ds] s2 w2 H2. wp_step. wp_step.
  match goal with |- wp _ _ _ ?x _ => assert (still s2 x) as H3 by done; revert H3; generalize x end.
  intros s3 H3. assert (still s s3) as Hs by (etrans; [exact H1|by etrans]).
  apply wp_bind. eapply wp_mono; [apply judge_spec; by eapply context_still| |done].
  intros [reason_|] s4 w4 H4; cbn in H4.
  - assert (still s s4) as Hs4 by by etrans. apply wp_bind. eapply wp_keeps; [apply reject_still| |done].
    intros [] s5 w5 H5. assert (still s s5) as Hs5 by by etrans.
    eapply wp_mono; [apply IH; by eapply context_still| |done].
    intros [[acc m] l] s6 w6. by apply outcome_after.
  - apply wp_ret. by apply (outcome_after true _ s3).
Qed.

Definition end_changed (e : pass_end) : bool := match e with Break c _ | Continue c _ => c end.

Lemma run_pass_spec ctx a n s (w : W) :
  context_of ctx s ->
  wp (run_pass config ctx a n) (fun e s' _ => outcome (end_changed e) s s') (fun _ _ _ => True) s w.
Proof.
  intros Hc. unfold run_pass. apply wp_bind. eapply wp_keeps; [apply decision_still| |done].
  intros [] s1 w1 H1. apply wp_bind.
  eapply wp_mono; [apply attempt_summaries_spec; by eapply context_still| |done].
  intros [[acc m] l] s2 w2 H2. apply (outcome_after _ s s1 _ H1) in H2.
  destruct acc; cbn [negb fst] in *.
  - wp_step. wp_step. destruct (is_some_and _ _); by apply wp_ret.
  - apply wp_bind, wp_modify. apply wp_bind, wp_gets. apply wp_bind.
    eapply wp_keeps; [apply decision_still| |done]. intros [] s3 w3 H3. apply wp_ret.
    assert (still s s3) by (etrans; [exact H2|exact H3]). by destruct (_ || _).
Qed.

Lemma message_count_app a b : message_count (a ++ b) = message_count a + message_count b.
Proof. unfold message_count, flatten. rewrite flat_map_app, length_app. lia. Qed.
Lemma message_count_nonneg a : 0 <= message_count a.
Proof. unfold message_count. lia. Qed.

(** The selection moves the boundary only towards the past. *)
Lemma select_prefix_spec s rev_old tail old tail' historical_ :
  select_prefix config s rev_old tail = (old, tail', historical_) ->
  (old ++ tail')%list = (rev rev_old ++ tail)%list
  /\ message_count tail <= message_count tail'
  /\ (historical_ <> [] -> historical_ = flatten old).
Proof.
  revert tail. induction rev_old as [|g rest IH]; intros tail; cbn [select_prefix].
  - destruct (_ || _); by intros [= <- <- <-].
  - destruct (_ || _); [by intros [= <- <- <-]|]. destruct rest as [|g' rest]; [by intros [= <- <- <-]|].
    intros E. apply IH in E as (E1 & E2 & E3). split_and!; [|  |done].
    + rewrite E1. cbn. by rewrite <- !app_assoc.
    + rewrite message_count_cons in E2. lia.
Qed.

Lemma pass_selected_spec p b a old tail h n s (w : W) :
  drop 1 (memory s) = (flatten old ++ flatten tail)%list ->
  Forall (fun g => interaction (messages g)) (old ++ tail) ->
  old <> [] -> raw_turns_to_keep (policy config) <= message_count tail ->
  wp (pass_selected config p b a (old, tail, h) n)
    (fun e s' _ => outcome (end_changed e) s s') (fun _ _ _ => True) s w.
Proof.
  intros Hp Hw Ho Hr. unfold pass_selected. wp_step. wp_step. wp_step. wp_step.
  destruct (request_budget_of _ _); [|done]. cbv zeta.
  destruct (if negb (fits b) then _ else _) as [reason_|].
  - apply wp_bind. eapply wp_keeps; [apply skipped_still| |done]. intros [] s1 w1 H1. by apply wp_ret.
  - destruct (opt_str_is _ _); [|by apply run_pass_spec].
    apply wp_bind. eapply wp_keeps; [apply decision_still| |done]. intros [] s1 w1 H1. by apply wp_ret.
Qed.

Lemma decline_pass_spec b a r n s (w : W) :
  wp (decline_pass b a r n) (fun e s' _ => outcome (end_changed e) s s') (fun _ _ _ => True) s w.
Proof.
  unfold decline_pass. apply wp_bind. eapply wp_keeps; [apply skipped_still| |done].
  intros [] s1 w1 H1. destruct (negb _); [done|]. by apply wp_ret.
Qed.

Lemma compact_pass_spec p n s (w : W) :
  wp (compact_pass config p n) (fun e s' _ => outcome (end_changed e) s s') (fun _ _ _ => True) s w.
Proof.
  unfold compact_pass. wp_step. wp_step. wp_step. wp_step. destruct (request_budget_of _ _) as [b|]; [|done].
  wp_step. wp_step.
  match goal with |- wp _ _ _ ?x _ => set (s1 := x) end.
  apply (wp_mono _ (fun e s' _ => outcome (end_changed e) s1 s') _ (fun _ _ _ => True)); [|done|done].
  destruct (_ && _); [by apply wp_ret|]. wp_step. wp_step.
  destruct (split_history _ _) as [[old tail]|e] eqn:Es; [|done].
  apply split_history_parts in Es as (Hp & Hw & Hr & _).
  destruct old as [|g gs]; [apply decline_pass_spec|]. destruct Hr as [|Hr]; [done|].
  destruct (if fits b then _ else _) as [reason_|].
  { apply wp_bind. eapply wp_keeps; [apply skipped_still| |done]. intros [] s2 w2 H2. by apply wp_ret. }
  wp_step. wp_step. cbv zeta.
  destruct (select_prefix _ _ _ _) as [[old' tail'] h] eqn:El. cbn [snd].
  apply select_prefix_spec in El as (E1 & E2 & E3). rewrite rev_involutive in E1.
  destruct h as [|m h]; [apply decline_pass_spec|]. apply pass_selected_spec.
  - change (memory s1) with (memory s). rewrite <- Hp. unfold flatten. by rewrite <- !flat_map_app, E1.
  - by rewrite E1.
  - intros ->. by specialize (E3 ltac:(done)).
  - by etrans.
Qed.

Lemma compact_passes_spec fuel p c n s (w : W) :
  wp (compact_passes config fuel p c n)
    (fun c' s' _ => exists c1, c' = c || c1 /\ outcome c1 s s') (fun _ _ _ => True) s w.
Proof.
  revert p c n s w. induction fuel as [|fuel IH]; intros p c n s w; cbn [compact_passes].
  { apply wp_ret. exists false. by rewrite orb_false_r. }
  apply wp_bind. eapply wp_mono; [apply compact_pass_spec| |done].
  intros [c1 m|c1 m] s1 w1 H1; cbn in H1; [apply wp_ret; by exists c1|].
  eapply wp_mono; [apply IH| |done]. intros c' s2 w2 (c2 & -> & H2). exists (c1 || c2).
  split; [by rewrite orb_assoc|by eapply outcome_trans].
Qed.

Lemma budget_past s b : request_budget_of config (s <| request_budget := Some b |>) = request_budget_of config s.
Proof. reflexivity. Qed.

Lemma compact_spec s (w : W) :
  wp (compact config)
    (fun c s' _ => outcome c s s'
       /\ exists b, request_budget s' = Some b /\ request_budget_of config s' = Ok b /\ fits b = true)
    (fun _ _ _ => True) s w.
Proof.
  unfold compact. apply wp_bind. eapply wp_mono; [apply compact_passes_spec| |done].
  intros c s1 w1 (c1 & -> & H1). wp_step. wp_step. wp_step. wp_step.
  destruct (request_budget_of config s1) as [b|] eqn:Eb; [|done]. wp_step. wp_step.
  destruct (fits b) eqn:Ef; [|done]. apply wp_ret. split.
  - rewrite orb_false_l, <- (orb_false_r c1). by apply (outcome_trans c1 false s s1).
  - exists b. by rewrite budget_past.
Qed.

(** ** A pass after a rejected one *)
(** What a pass selects, and the fingerprint of its source. *)
Definition selection (s : Session) : option (list HistoryGroup * list HistoryGroup * list Message) :=
  match split_history (drop 1 (memory s)) (raw_turns_to_keep (policy config)) with
  | Ok (old, tail) => Some (select_prefix config s (rev old) tail)
  | Err _ => None
  end.
Definition selected_hash (s : Session) : option string :=
  (fun '(_, _, h) => sha256_hex (source_text (goal s) h (compacted_context s))) <$> selection s.

Lemma select_prefix_still s s' ro tail :
  still s s' -> select_prefix config s' ro tail = select_prefix config s ro tail.
Proof.
  intros E. injection E as G _ C _. revert tail. induction ro as [|g rest IH]; intros tail; cbn [select_prefix].
  all: unfold summary_budget; rewrite G, C.
  - done.
  - destruct (_ || _); [done|]. destruct rest; [done|]. apply IH.
Qed.
Lemma selection_still s s' : still s s' -> selection s' = selection s.
Proof.
  intros E. pose proof E as E'. injection E' as _ M _ _. unfold selection. rewrite M.
  destruct (split_history _ _) as [[old tail]|]; [|done]. by rewrite (select_prefix_still s s').
Qed.
Lemma selected_hash_still s s' : still s s' -> selected_hash s' = selected_hash s.
Proof.
  intros E. pose proof E as E'. injection E' as G _ C _. unfold selected_hash.
  by rewrite (selection_still s s' E), G, C.
Qed.

(** Every way a pass goes on without a change leaves the fingerprint of its
    source as the one that failed. *)
Definition marked (e : pass_end) (h : option string) (s' : Session) : Prop :=
  match e with Continue false _ => last_compaction_attempt_sha256 s' = h | _ => True end.
Definition unmarked (s s' : Session) : Prop :=
  last_compaction_attempt_sha256 s' = last_compaction_attempt_sha256 s.
#[local] Instance unmarked_preorder : PreOrder unmarked.
Proof. unfold unmarked. split; [done|]. intros ? ? ? ? ?. congruence. Qed.
Lemma record_unmarked f p : keeps (W := W) unmarked (Diagnostics.record f p).
Proof.
  unfold Diagnostics.record, stage, append. frame; apply keeps_modify; try apply _.
  all: intros s; repeat case_match; done.
Qed.

Lemma run_pass_marked ctx a n s (w : W) :
  wp (run_pass config ctx a n) (fun e s' _ => marked e (Some (source_hash ctx)) s') (fun _ _ _ => True) s w.
Proof.
  assert (forall {A} (m : M W A) Q s w, (forall a s' w', Q a s' w') -> wp m Q (fun _ _ _ => True) s w) as Hany.
  { intros A m Q s' w' HQ. unfold wp. destruct (m (s', w')) as [[?|?] [? ?]]; auto. }
  unfold run_pass. apply wp_bind, Hany. intros [] s1 w1. apply wp_bind, Hany. intros [[acc m] l] s2 w2.
  destruct acc; cbn [negb].
  - wp_step. wp_step. destruct (is_some_and _ _); by apply wp_ret.
  - apply wp_bind, wp_modify. apply wp_bind, wp_gets. apply wp_bind.
    eapply wp_keeps; [apply record_unmarked| |done]. intros [] s3 w3 H3. apply wp_ret.
    by destruct (_ || _).
Qed.

Lemma compact_pass_marked p n s (w : W) :
  wp (compact_pass config p n) (fun e s' _ => marked e (selected_hash s) s') (fun _ _ _ => True) s w.
Proof.
  assert (forall a r m s1 w1, wp (W := W) (_ ← skipped a r; mret (Break false m))
    (fun e s' _ => marked e (selected_hash s) s') (fun _ _ _ => True) s1 w1) as Hskip.
  { intros. apply wp_bind. eapply wp_keeps; [apply skipped_still| |done]. intros. by apply wp_ret. }
  assert (forall b a r m s1 w1, wp (W := W) (decline_pass b a r m)
    (fun e s' _ => marked e (selected_hash s) s') (fun _ _ _ => True) s1 w1) as Hdecline.
  { intros. unfold decline_pass. apply wp_bind. eapply wp_keeps; [apply skipped_still| |done].
    intros. destruct (negb _); [done|]. by apply wp_ret. }
  unfold compact_pass. wp_step. wp_step. wp_step. wp_step. destruct (request_budget_of _ _) as [b|]; [|done].
  wp_step. wp_step.
  match goal with |- wp _ _ _ ?x _ => set (s1 := x) end.
  rewrite <- (selected_hash_still s s1) in * by done.
  destruct (_ && _); [by apply wp_ret|]. wp_step. wp_step.
  destruct (split_history _ _) as [[old tail]|e] eqn:Es; [|done].
  destruct old as [|g gs]; [apply Hdecline|]. destruct (if fits b then _ else _) as [reason_|]; [apply Hskip|].
  wp_step. wp_step. cbv zeta.
  destruct (select_prefix _ _ _ _) as [[old' tail'] h] eqn:El. cbn [snd].
  assert (selected_hash s1 = Some (sha256_hex (source_text (goal s1) h (compacted_context s1)))) as Hh.
  { unfold selected_hash, selection. change (memory s1) with (memory s). unfold policy in *.
    by rewrite Es, El. }
  destruct h as [|m h]; [apply Hdecline|].
  unfold pass_selected. wp_step. wp_step. wp_step. wp_step. destruct (request_budget_of _ _); [|done].
  cbv zeta. destruct (if negb (fits b) then _ else _); [apply Hskip|].
  destruct (opt_str_is _ _); [|rewrite Hh; apply run_pass_marked].
  apply wp_bind. eapply wp_keeps; [apply decision_still| |done]. intros. by apply wp_ret.
Qed.

Lemma record_worldless f p : worldless (Diagnostics.record (W := W) f p).
Proof. unfold Diagnostics.record, stage, append. moves. Qed.

(** A pass over a source that just failed asks nothing of the model. *)
Lemma compact_pass_idle p n s (w : W) :
  last_compaction_attempt_sha256 s = selected_hash s ->
  wp (compact_pass config p n) (fun e _ w' => e = Break false n /\ w' = w) (fun _ _ w' => w' = w) s w.
Proof.
  intros Hl.
  assert (forall x s1, wp (W := W) (_ ← decision_record x; mret (Break false n))
    (fun e _ w' => e = Break false n /\ w' = w) (fun _ _ w' => w' = w) s1 w) as Hskip.
  { intros. apply wp_bind. eapply wp_moves; [apply record_worldless| |done]. intros ? ? ? E. by apply wp_ret. }
  assert (forall b a r s1, wp (W := W) (decline_pass b a r n)
    (fun e _ w' => e = Break false n /\ w' = w) (fun _ _ w' => w' = w) s1 w) as Hdecline.
  { intros. unfold decline_pass. apply wp_bind. eapply wp_moves; [apply record_worldless| |done].
    intros ? ? ? E. destruct (negb _); [done|]. by apply wp_ret. }
  unfold compact_pass. wp_step. wp_step. wp_step. wp_step. destruct (request_budget_of _ _) as [b|]; [|done].
  wp_step. wp_step.
  match goal with |- wp _ _ _ ?x _ => set (s1 := x) end.
  rewrite <- (selected_hash_still s s1) in Hl by done.
  change (last_compaction_attempt_sha256 s1 = selected_hash s1) in Hl.
  destruct (_ && _); [by apply wp_ret|]. wp_step. wp_step.
  destruct (split_history _ _) as [[old tail]|e] eqn:Es; [|done].
  destruct old as [|g gs]; [apply Hdecline|].
  destruct (if fits b then _ else _) as [reason_|]; [apply Hskip|].
  wp_step. wp_step. cbv zeta. unfold selected_hash, selection in Hl.
  change (memory s1) with (memory s) in Hl. unfold policy in *. rewrite Es in Hl.
  destruct (select_prefix _ _ _ _) as [[old' tail'] h] eqn:El. cbn [snd fmap option_fmap option_map] in *.
  destruct h as [|m h]; [apply Hdecline|].
  unfold pass_selected. wp_step. wp_step. wp_step. wp_step. destruct (request_budget_of _ _); [|done].
  cbv zeta. destruct (if negb (fits b) then _ else _); [apply Hskip|].
  rewrite Hl. unfold opt_str_is, is_some_and. rewrite String.eqb_refl. apply Hskip.
Qed.
End facts.

(** * Properties *)
Section properties.
Context {W : Type} `{P : Platform} `{H : Host W} (config : Config).

(** C17: a compaction that succeeds leaves a session whose complete decision
    request fits the context window, with the budget it recorded. *)
Theorem compact_leaves_fitting_request s s' changed (w w' : W) :
  compact config (s, w) = (Ok changed, (s', w')) ->
  exists b, request_budget s' = Some b /\ request_budget_of config s' = Ok b /\ fits b = true.
Proof. intros E. by apply (wp_ok _ _ _ _ _ _ _ _ (compact_spec config s w)) in E as [_ ?]. Qed.

(** C18: a compaction that reports a change has removed a nonempty prefix of
    whole interactions and nothing else: the goal message and the remaining
    interactions are kept verbatim and in order, at least the configured raw
    tail survives, and the ledger that stands for the prefix was validated for
    this goal.  One that reports no change left the history alone. *)
Theorem compact_cuts_whole_interactions s s' changed (w w' : W) :
  compact config (s, w) = (Ok changed, (s', w')) ->
  goal s' = goal s /\ take 1 (memory s') = take 1 (memory s)
  /\ if changed
     then (exists dropped kept, drop 1 (memory s) = (concat dropped ++ concat kept)%list
             /\ drop 1 (memory s') = concat kept /\ dropped <> [] /\ Forall interaction (dropped ++ kept)
             /\ raw_turns_to_keep (config_memory config) <= Z.of_nat (length (concat kept)))
          /\ exists text src ledger canonical_,
               validate_ledger text (goal s') src (Z.max (max_summary_tokens (config_memory config)) 1)
                 (hybrid_reflection (config_memory config)) = Ok (ledger, canonical_)
               /\ compacted_context s' = Some canonical_ /\ compaction_ledger s' = Some ledger
     else memory s' = memory s /\ compacted_context s' = compacted_context s.
Proof.
  intros E. apply (wp_ok _ _ _ _ _ _ _ _ (compact_spec config s w)) in E as [O _].
  destruct changed; cbn in O.
  - destruct O as [(G & T & D) L]. tauto.
  - injection O as G M C _. split_and!; [done|by rewrite M|done|done].
Qed.

(** The pass after a rejected one never asks the model again: the groups
    dropped from the source of the rejected pass are recomputed from the same
    history, so the next pass selects the same source, finds that it just
    failed and stops (or reports an error) without touching the world. *)
Theorem rejected_pass_is_not_retried p n n' p' s s' (w w' : W) :
  compact_pass config p n (s, w) = (Ok (Continue false n'), (s', w')) ->
  match compact_pass config p' n' (s', w') with
  | (Ok e, (_, w'')) => e = Break false n' /\ w'' = w'
  | (Err _, (_, w'')) => w'' = w'
  end.
Proof.
  intros E. apply (compact_pass_idle config p' n' s' w').
  pose proof (wp_ok _ _ _ _ _ _ _ _ (compact_pass_spec config p n s w) E) as Hs.
  pose proof (wp_ok _ _ _ _ _ _ _ _ (compact_pass_marked config p n s w) E) as Hm.
  cbn in Hs, Hm. rewrite Hm. symmetry. by apply selected_hash_still.
Qed.
End properties.

(** A compaction on the recorded host that replaces one long message. *)
Notation recorded_compaction :=
  (compact (P := sample_platform) (eager_config 100000) (long_session, quiet_world [HttpResponse 200 "summary"])).
Definition compacted_end : Session := fst (snd recorded_compaction).
Definition compacted_world : World := snd (snd recorded_compaction).

Lemma recorded_compaction_ends : recorded_compaction = (Ok true, (compacted_end, compacted_world)).
Proof. unfold compacted_end, compacted_world. apply ended_ok. vm_compute. reflexivity. Qed.

Lemma compact_leaves_fitting_request_witness :
  exists b, request_budget compacted_end = Some b
    /\ request_budget_of (P := sample_platform) (eager_config 100000) compacted_end = Ok b /\ fits b = true.
Proof.
  exact (compact_leaves_fitting_request (P := sample_platform) (eager_config 100000) long_session compacted_end
           true _ compacted_world recorded_compaction_ends).
Defined.

Lemma compact_cuts_whole_interactions_witness :
  exists dropped kept, drop 1 (memory long_session) = (concat dropped ++ concat kept)%list
    /\ drop 1 (memory compacted_end) = concat kept /\ dropped <> [].
Proof.
  destruct (compact_cuts_whole_interactions (P := sample_platform) (eager_config 100000) long_session compacted_end
              true _ compacted_world recorded_compaction_ends)
    as (_ & _ & (dropped & kept & H1 & H2 & H3 & _) & _).
  exists dropped, kept. exact (conj H1 (conj H2 H3)).
Defined.

(** A pass whose summary the validator rejects in a window that does not hold
    the request for a corrected one. *)
Definition rejecting_session : Session :=
  long_session <| memory ::= fun l => (l ++ [user_message "one"; user_message "two"])%list |>.
Notation rejected_pass :=
  (compact_pass (P := sample_platform) (eager_config 2800) 0 0
     (rejecting_session, quiet_world [HttpResponse 200 "final"])).
Definition rejected_end : Session := fst (snd rejected_pass).
Definition rejected_world : World := snd (snd rejected_pass).

Lemma rejected_pass_ends : rejected_pass = (Ok (Continue false 1), (rejected_end, rejected_world)).
Proof. unfold rejected_end, rejected_world. apply ended_ok. vm_compute. reflexivity. Qed.

Lemma rejected_pass_is_not_retried_witness :
  match compact_pass (P := sample_platform) (eager_config 2800) 1 1 (rejected_end, rejected_world) with
  | (Ok e, (_, w'')) => e = Break false 1 /\ w'' = rejected_world
  | (Err _, (_, w'')) => w'' = rejected_world
  end.
Proof.
  exact (rejected_pass_is_not_retried (P := sample_platform) (eager_config 2800) 0 0 1 1 rejecting_session
           rejected_end _ rejected_world rejected_pass_ends).
Defined.
