(* ===== verification/History.v ===== *)
(** * The pairing of calls and results

    Every tool call the model makes is answered by exactly one correlated
    result: identities are distinct when a decision is parsed, a batch is
    settled in order whatever happens to each call, and an interrupted batch
    keeps in the session exactly the calls still to be answered.  The history
    therefore always cuts into complete interactions. *)
From S2P Require Import Prelude Text Json Encoding Session Logic Context Diagnostics Outcome Workflow Prompt Tools Checkpoint Actions Wire Compaction Run Frames Sample.
Local Open Scope string_scope.
Local Open Scope Z_scope.

(** ** Settling a batch *)
(** [m] is the correlated answer to [call]. *)
Definition answers (call : value) (m : Message) : Prop :=
  role m = "tool" /\ tool_call_id m = Some (call_id_of call) /\ name m = Some (call_name call)
  /\ tool_calls m = None.
(** How far the calls pending in [s] have been answered in [s']. *)
Definition answered (s s' : Session) (rest : list value) : Prop :=
  exists done results, pending_tool_calls s = (done ++ rest)%list /\ pending_tool_calls s' = rest
    /\ bare_memory s' = (bare_memory s ++ results)%list /\ Forall2 answers done results.

Section settle.
Context {W : Type} `{P : Platform} `{H : Host W} (config : Config).

Lemma append_message_spec m s (w : W) :
  wp (append_message m)
    (fun _ s' _ => bare_memory s' = (bare_memory s ++ [bare m])%list /\ batch s' = batch s
                   /\ task s' = task s)
    (fun _ _ _ => False) s w.
Proof.
  unfold append_message, uuid, transcript_timestamp. apply wp_bind, wp_world. intros u w1 _.
  apply wp_bind, wp_bind, wp_world. intros t w2 _. apply wp_ret, wp_modify.
  cbv zeta. split_and!; [|done|done]. unfold bare_memory. cbn. by rewrite map_app.
Qed.

Lemma answered_refl s : answered s s (pending_tool_calls s).
Proof. exists [], []. rewrite app_nil_r. split_and!; try done. Qed.

Lemma answered_trans s1 s2 s3 r2 r3 : answered s1 s2 r2 -> answered s2 s3 r3 -> answered s1 s3 r3.
Proof.
  intros (d1 & m1 & E1 & P1 & M1 & F1) (d2 & m2 & E2 & P2 & M2 & F2).
  exists (d1 ++ d2)%list, (m1 ++ m2)%list. split_and!; [|done| |by apply Forall2_app].
  - by rewrite E1, <- P1, E2, app_assoc.
  - by rewrite M2, M1, app_assoc.
Qed.

Lemma answered_calm s1 s2 s3 r : answered s1 s2 r -> batch s3 = batch s2 -> bare_memory s3 = bare_memory s2 ->
  answered s1 s3 r.
Proof.
  intros (d & m & E & P1 & M & F) B E3. exists d, m. rewrite E3. injection B as -> _. done.
Qed.

Lemma settle_call_spec ph call rest s (w : W) :
  pending_tool_calls s = call :: rest ->
  wp (settle_call config ph call) (fun _ s' _ => answered s s' rest)
    (fun _ s' _ => answered s s' (call :: rest) \/ answered s s' rest) s w.
Proof.
  intros Hp. unfold settle_call. wp_step. wp_step. cbv zeta.
  set (rejection := rejection_of config s ph call).
  set (executed := is_none rejection && _). apply wp_bind.
  set (E := fun (_ : string) s' (_ : W) => answered s s' (call :: rest) \/ answered s s' rest).
  assert (forall out s1 w1, batch s1 = batch s -> bare_memory s1 = bare_memory s ->
    wp (_ ← when_ executed (modify (absorb config (call_id_of call) (call_name call) (call_args call) out));
        _ ← append_correlated_tool_result (call_id_of call) (call_name call) out;
        _ ← modify (fun s =>
          let s := s <| pending_tool_calls ::= tail |> in
          if (length (pending_tool_calls s) =? 0)%nat then s <| pending_tool_phase := None |> else s);
        _ ← checkpoint (interim "tool_completed"
              (Object [("tool", Str (call_name call)); ("output", Str out);
                       ("tool_call_id", Str (call_id_of call)); ("executed", Bool executed)]));
        mret (is_some rejection)) (fun _ s' _ => answered s s' rest) E s1 w1) as Htail.
  { intros out s1 w1 B1 M1. apply wp_bind.
    apply wp_mono with (Q := fun _ s2 _ => batch s2 = batch s /\ bare_memory s2 = bare_memory s)
      (E := fun _ _ _ => False); [| |done].
    { destruct executed; cbn [when_]; [|by apply wp_ret]. apply wp_modify.
      destruct (absorb_absorbed config (call_id_of call) (call_name call) (call_args call) out s1)
        as (_ & _ & _ & _ & _ & M & B & _). unfold bare_memory in *. by rewrite B, M. }
    intros [] s2 w2 [B2 M2]. apply wp_bind.
    eapply wp_mono; [apply append_message_spec| |done]. intros [] s3 w3 (M3 & B3 & _).
    wp_step. wp_step. apply wp_bind.
    match goal with |- wp _ _ _ ?x _ => set (s4 := x) end.
    assert (answered s s4 rest) as H4.
    { exists [call], [bare ((msg "tool" (Some out)) <| name := Some (call_name call) |>
        <| tool_call_id := Some (call_id_of call) |>)].
      assert (pending_tool_calls s4 = rest /\ bare_memory s4 = bare_memory s3) as [-> ->].
      { assert (pending_tool_calls s3 = call :: rest) as Hp3.
        { rewrite B2 in B3. injection B3 as -> _. done. }
        unfold s4. cbv zeta. by case_match; cbn; rewrite Hp3. }
      split_and!; [done|done|by rewrite M3, M2|]. constructor; [|constructor]. done. }
    eapply wp_keeps; [apply checkpoint_quiet| |].
    - intros [] s5 w5 [(_ & B & _ & _ & M & _) _]. apply wp_ret. by eapply answered_calm.
    - intros e s5 w5 [(_ & B & _ & _ & M & _) _]. right. by eapply answered_calm. }
  destruct rejection as [reason_|]; [by apply wp_gets, Htail|].
  destruct executed; [|by apply wp_gets, Htail].
  eapply wp_keeps; [apply dispatch_calm| |].
  - intros out s1 w1 (_ & B & _ & _ & M & _). by apply Htail.
  - intros e s1 w1 (_ & B & _ & _ & M & _). left. eapply answered_calm; [|done..].
    rewrite <- Hp. apply answered_refl.
Qed.

Lemma settle_calls_spec fuel ph r s (w : W) :
  (length (pending_tool_calls s) <= fuel)%nat ->
  wp (settle_calls config fuel ph r) (fun _ s' _ => answered s s' [])
    (fun _ s' _ => exists rest, answered s s' rest) s w.
Proof.
  revert r s w. induction fuel as [|fuel IH]; intros r s w Hf; cbn [settle_calls].
  - apply wp_ret. destruct (pending_tool_calls s) eqn:Ep; [|cbn in Hf; lia].
    rewrite <- Ep. apply answered_refl.
  - wp_step. wp_step. destruct (pending_tool_calls s) as [|call rest] eqn:Ep.
    { apply wp_ret. rewrite <- Ep. apply answered_refl. }
    apply wp_bind. eapply wp_mono; [by apply settle_call_spec| |].
    + intros b s1 w1 H1. assert (pending_tool_calls s1 = rest) as Ep1 by (by destruct H1 as (?&?&?&?&_)).
      eapply wp_mono; [apply IH; rewrite Ep1; cbn in Hf; lia| |].
      * intros ? s2 w2 H2. exact (answered_trans _ _ _ _ _ H1 H2).
      * intros e s2 w2 [r2 H2]. exists r2. exact (answered_trans _ _ _ _ _ H1 H2).
    + cbn. naive_solver.
Qed.

(** What a step leaves of the batch and the history. *)
Definition apart (s s' : Session) : Prop := batch s' = batch s /\ bare_memory s' = bare_memory s.
#[local] Instance apart_preorder : PreOrder apart.
Proof. unfold apart. split; [done|]. intros ? ? ? [] []. split; congruence. Qed.
Lemma checkpoint_apart e : keeps (W := W) apart (checkpoint e).
Proof. intros s w r s' w' E. by apply checkpoint_quiet in E as [(_ & ? & _ & _ & ? & _) _]. Qed.
#[local] Hint Resolve checkpoint_apart : frame.
Lemma step_invalid_apart : keeps (W := W) apart (step_invalid config).
Proof.
  intros s w r s' w'. unfold step_invalid, increment_invalid. cbn.
  by destruct (_ <? _); intros [= _ <- _].
Qed.
Lemma report_limit_apart b : keeps (W := W) apart (report_limit b).
Proof. unfold report_limit. frame. Qed.
#[local] Hint Resolve step_invalid_apart report_limit_apart : frame.

Lemma settle_pending_spec s (w : W) :
  wp (settle_pending config) (fun _ s' _ => answered s s' [])
    (fun _ s' _ => exists rest, answered s s' rest) s w.
Proof.
  unfold settle_pending. wp_step. wp_step. cbv zeta. apply wp_bind.
  eapply wp_mono; [by apply settle_calls_spec| |done]. intros rejected s1 w1 H1.
  eapply (wp_keeps apart).
  - destruct rejected; frame.
  - intros ? s2 w2 [B M]. exact (answered_calm _ _ _ _ H1 B M).
  - intros e s2 w2 [B M]. exists []. exact (answered_calm _ _ _ _ H1 B M).
Qed.
End settle.

(** ** The history *)
(** A history that cuts into complete interactions. *)
Definition paired (ms : list Message) : Prop :=
  exists parts, ms = concat parts /\ Forall interaction parts.

Section paired.
Context `{P : Platform}.

Fixpoint number_parts (i : nat) (parts : list (list Message)) : list HistoryGroup :=
  match parts with
  | [] => []
  | p :: parts => {| messages := p; indexes := seq i (length p) |} :: number_parts (i + length p) parts
  end.

Lemma number_parts_spec i parts :
  map messages (number_parts i parts) = parts
  /\ Forall (fun g => length (indexes g) = length (messages g)) (number_parts i parts)
  /\ flat_map indexes (number_parts i parts) = seq i (length (concat parts)).
Proof.
  revert i. induction parts as [|p parts IH]; intros i; cbn; [done|].
  destruct (IH (i + length p)%nat) as (E1 & E2 & E3). split_and!.
  - by rewrite E1.
  - constructor; [|done]. cbn. apply length_seq.
  - by rewrite E3, length_app, seq_app.
Qed.

Lemma paired_iff ms : paired ms <-> exists gs, interaction_groups ms = Ok gs.
Proof.
  split.
  - intros (parts & -> & F). exists (number_parts 0 parts). apply interaction_groups_spec.
    destruct (number_parts_spec 0 parts) as (E1 & E2 & E3). unfold flatten.
    rewrite flat_map_concat_map, E1. split_and!; try done.
    assert (Forall interaction (map messages (number_parts 0 parts))) as F' by (by rewrite E1).
    rewrite Forall_map in F'. exact F'.
  - intros (gs & (<- & F & _)%interaction_groups_spec). exists (map messages gs).
    split; [apply flat_map_concat_map|by apply Forall_map].
Qed.

Lemma paired_app a b : paired a -> paired b -> paired (a ++ b).
Proof.
  intros (p & -> & Fp) (q & -> & Fq). exists (p ++ q)%list. split; [by rewrite concat_app|].
  by apply Forall_app.
Qed.

Lemma paired_plain m : role m <> "tool" -> tool_calls m = None -> paired [m].
Proof.
  intros Hr Hc. exists [[m]]. split; [done|]. constructor; [|constructor]. constructor; [done|].
  unfold message_calls. by rewrite Hc.
Qed.

(** A batch with distinct identities and one answer per call. *)
Lemma paired_batch m calls ids pending results :
  role m = "assistant" -> tool_calls m = Some (Array calls) -> calls <> [] ->
  Forall2 (fun call id => named (get_str "id" call) id) calls ids -> NoDup ids ->
  Forall2 (fun call id => call_id_of call = id) pending ids ->
  Forall2 answers pending results ->
  paired (m :: results).
Proof.
  intros Hr Hc Hne Hids Hnd Hp Ha. exists [m :: results]. split; [cbn; by rewrite app_nil_r|].
  constructor; [|constructor]. apply (interaction_batch m calls ids results ids); [| |done| |done].
  - unfold message_calls. rewrite Hc, Hr. cbn. by destruct calls.
  - done.
  - assert (Forall (fun id => id <> "") ids) as Hn.
    { clear - Hids. induction Hids as [|? ? ? ? []]; constructor; auto. }
    clear - Hp Ha Hn. revert results Ha. induction Hp as [|c id pending ids E Hp IH]; intros results Ha.
    + inversion Ha. constructor.
    + inversion Ha as [|? r ? rs (R & I & _) Ha']; subst. inversion Hn; subst.
      constructor; [|by apply IH]. by rewrite I.
Qed.

Lemma interaction_bare ms : interaction (map bare ms) -> interaction ms.
Proof.
  remember (map bare ms) as bs eqn:E. intros I. revert ms E.
  destruct I as [m Hr Hc|m calls ids results rids Hc Hids Hnd Hr Hp]; intros ms E.
  - destruct ms as [|m' [|]]; try discriminate. injection E as ->. by constructor.
  - destruct ms as [|m' ms]; [discriminate|]. injection E as -> ->.
    econstructor; [exact Hc|exact Hids|done| |exact Hp].
    exact (proj1 (Forall2_fmap_l _ _ _ _) Hr).
Qed.
Lemma bare_interaction ms : interaction ms -> interaction (map bare ms).
Proof.
  destruct 1 as [m Hr Hc|m calls ids results rids Hc Hids Hnd Hr Hp]; cbn [map].
  - by constructor.
  - econstructor; [exact Hc|exact Hids|done| |exact Hp]. by apply Forall2_fmap_l.
Qed.
Lemma bare_paired ms : paired ms -> paired (map bare ms).
Proof.
  intros (parts & -> & F). exists (map (map bare) parts). split; [apply concat_map|].
  apply Forall_map. eapply Forall_impl; [exact F|]. apply bare_interaction.
Qed.
Lemma paired_bare ms : paired (map bare ms) -> paired ms.
Proof.
  intros (parts & E & F). revert ms E. induction F as [|p parts Hp F IH]; intros ms E; cbn in E.
  - destruct ms; [|done]. by exists [].
  - apply map_eq_app in E as (m1 & m2 & -> & <- & E2). apply IH in E2. apply paired_app; [|done].
    exists [m1]. split; [cbn; by rewrite app_nil_r|]. constructor; [|constructor]. by apply interaction_bare.
Qed.
End paired.

(** ** Identities *)
(** Identifiers drawn from the runtime never repeat. *)
Class FreshUuids (W : Type) `{Runtime W} := {
  issued : W -> string -> Prop;
  uuid_fresh w u w' : new_uuid w = (u, w') ->
    u <> "" /\ ~ issued w u /\ issued w' u /\ forall x, issued w x -> issued w' x
}.

(** The parsed calls are objects that carry these identities. *)
Definition identified (calls : list value) (ids : list string) : Prop :=
  Forall2 (fun call id => is_object call = true /\ get "id" call = Some (Str id)) calls ids.

Lemma identified_wire calls ids :
  identified calls ids -> Forall (fun id => id <> "") ids ->
  Forall2 (fun call id => named (get_str "id" call) id) (map wire_call calls) ids
  /\ Forall2 (fun call id => call_id_of call = id) calls ids.
Proof.
  induction 1 as [|call id calls ids [Ho E] H IH]; intros Hn; [done|].
  inversion Hn; subst. destruct IH as [IH1 IH2]; [done|]. cbn [map]. split; constructor; try done.
  - unfold wire_call, index. rewrite E. done.
  - unfold call_id_of, get_str. by rewrite E.
Qed.

Lemma historical_call_ids_bare s : historical_call_ids s = flat_map message_call_ids (bare_memory s).
Proof.
  unfold historical_call_ids, bare_memory. induction (memory s) as [|m ms IH]; [done|].
  cbn. by rewrite IH.
Qed.

Section identities.
Context {W : Type} `{P : Platform} `{H : Host W} `{!FreshUuids W} (config : Config).

Lemma fresh_from_spec fuel tried used s (w : W) :
  NoDup tried -> (forall x, x ∈ tried -> "call_" +:+ x ∈ used /\ issued w x) ->
  (length used <= fuel + length tried)%nat ->
  wp (fresh_from fuel used) (fun id _ _ => id <> "" /\ id ∉ used) (fun _ _ _ => False) s w.
Proof.
  revert tried w. induction fuel as [|fuel IH]; intros tried w Hnd Ht Hl; cbn [fresh_from].
  all: apply wp_bind, wp_world; intros u w' Eu; apply uuid_fresh in Eu as (Hne & Hni & Hi & Hmono); cbv zeta.
  - apply wp_ret. split; [done|]. intros Hin.
    assert (NoDup (map (fun x => "call_" +:+ x) (u :: tried))) as Hnd'.
    { apply NoDup_fmap_2; [intros x y E; by injection E|]. constructor; [|done].
      intros Hu%Ht. tauto. }
    apply NoDup_submseteq with (k := used) in Hnd'.
    + apply submseteq_length in Hnd'. cbn in Hnd'. rewrite length_map in Hnd'. lia.
    + intros x (y & -> & Hy)%list_elem_of_fmap. apply elem_of_cons in Hy as [->|Hy]; [done|].
      by apply Ht.
  - destruct (str_in _ used) eqn:Eu.
    + apply str_in_spec in Eu. apply (IH (u :: tried)); [| |cbn; lia].
      * constructor; [|done]. intros Hu%Ht. tauto.
      * intros x [->|Hx]%elem_of_cons; [done|]. destruct (Ht x Hx). auto.
    + apply wp_ret. split; [done|]. by apply str_in_false.
Qed.

Lemma call_identity_spec used raw s (w : W) :
  wp (call_identity used raw) (fun id _ _ => id <> "" /\ id ∉ used) (fun _ _ _ => False) s w.
Proof.
  assert (forall s w, wp (fresh_call_id used) (fun id _ _ => id <> "" /\ id ∉ used)
    (fun _ _ _ => False) s w) as Hf.
  { intros s1 w1. apply (fresh_from_spec _ []); [constructor| |cbn; lia].
    intros x Hx. by apply elem_of_nil in Hx. }
  unfold call_identity. cbv zeta. apply wp_bind.
  apply wp_mono with (Q := fun id _ _ => id <> "") (E := fun _ _ _ => False); [| |done].
  - destruct (opt_filter _ _) as [id|] eqn:E.
    + apply wp_gets. destruct (get_str "id" raw) as [t|]; [|done]. cbn in E.
      destruct (is_empty (trim t)) eqn:Et; [done|]. injection E as ->. intros ->. done.
    + eapply wp_mono; [apply Hf| |done]. by intros ??? [].
  - intros id s1 w1 Hne. destruct (str_in id used) eqn:E; [apply Hf|].
    apply wp_ret. split; [done|]. by apply str_in_false.
Qed.

Lemma parse_call_identified raw id : is_object (parse_call config raw id) = true
  /\ get "id" (parse_call config raw id) = Some (Str id).
Proof. unfold parse_call. cbv zeta. by destruct (call_arguments config _ _). Qed.

Lemma parse_calls_spec used raw s (w : W) :
  wp (parse_calls config used raw)
    (fun calls _ _ => exists ids, identified calls ids /\ NoDup ids
       /\ Forall (fun id => id <> "" /\ id ∉ used) ids /\ length ids = length raw)
    (fun _ _ _ => False) s w.
Proof.
  revert used s w. induction raw as [|r raw IH]; intros used s w; cbn [parse_calls].
  { apply wp_ret. exists []. split_and!; constructor. }
  apply wp_bind. eapply wp_mono; [apply call_identity_spec| |done]. intros id s1 w1 [Hne Hid].
  apply wp_bind. eapply wp_mono; [apply IH| |done]. intros calls s2 w2 (ids & Hi & Hnd & Hf & Hl).
  apply wp_ret. exists (id :: ids). split_and!.
  - constructor; [apply parse_call_identified|done].
  - constructor; [|done]. intros Hin. rewrite Forall_forall in Hf. apply Hf in Hin as [_ Hin].
    apply Hin. by left.
  - constructor; [done|]. eapply Forall_impl; [exact Hf|]. intros x [Hx Hu]. split; [done|].
    intros Hin. apply Hu. by right.
  - cbn. by rewrite Hl.
Qed.
End identities.

Section decisions.
Context {W : Type} `{P : Platform} `{H : Host W} `{!FreshUuids W} (config : Config).

(** The calls of a decision can be answered: they carry distinct nonempty
    identities, none of which the history already uses. *)
Definition answerable (s : Session) (d : value) : Prop :=
  field_is "type" "tools" d = true ->
  exists calls ids, index d "calls" = Array calls /\ calls <> [] /\ identified calls ids /\ NoDup ids
    /\ Forall (fun id => id <> "" /\ id ∉ historical_call_ids s) ids.

Lemma parse_decision_spec v ds s (w : W) :
  wp (parse_decision config v ds) (fun d _ _ => answerable s d) (fun _ _ _ => False) s w.
Proof.
  unfold parse_decision. cbv zeta. destruct (_ ≫= _) as [choice|].
  2:{ apply wp_ret. by destruct (is_some_and _ _). }
  destruct (opt_filter is_object _) as [message|]; [|by apply wp_ret].
  destruct (opt_filter _ (get "tool_calls" message)) as [[| | | |raw|]|].
  1-4, 6: by apply wp_ret.
  2:{ apply wp_ret. unfold final_decision. by destruct (opt_filter _ _). }
  destruct raw as [|r raw]; [apply wp_ret; unfold final_decision; by destruct (opt_filter _ _)|].
  wp_step. wp_step. apply wp_bind. eapply wp_mono; [apply parse_calls_spec| |done].
  intros calls s1 w1 (ids & Hi & Hnd & Hf & Hl). apply wp_ret. intros _. exists calls, ids.
  split_and!; try done. intros ->. by inversion Hi; subst.
Qed.

Lemma decide_spec ms s (w : W) :
  wp (decide config ms) (fun d s' _ => answerable s d /\ quiet s s') (fun _ s' _ => quiet s s') s w.
Proof.
  unfold decide. wp_step. wp_step. wp_step. wp_step. destruct (decision_payload _ _ _) as [b|]; [|reflexivity].
  apply wp_bind. eapply wp_keeps; [apply post_chat_quiet| |done]. intros [[v ds]|[[code message] ds]] s1 w1 Hq; [|by apply wp_ret].
  assert (wp (parse_decision config v ds) (fun d s' _ => answerable s1 d /\ quiet s1 s')
      (fun _ _ _ => False) s1 w1) as Hp.
    { pose proof (parse_decision_spec v ds s1 w1) as H1. unfold wp in *.
      destruct (parse_decision config v ds (s1, w1)) as [[d|e] [s2 w2]] eqn:E; [|done].
      split; [done|]. by eapply parse_decision_quiet. }
    eapply wp_mono; [exact Hp| |done]. intros d s2 w2 [Ha Hq2]. split; [|by etrans].
    intros Ht. destruct (Ha Ht) as (calls & ids & E & Hne & Hi & Hnd & Hf).
    exists calls, ids. split_and!; try done.
    assert (historical_call_ids s = historical_call_ids s1) as ->; [|done].
    rewrite !historical_call_ids_bare. destruct Hq as [(_ & _ & _ & _ & -> & _) _]. done.
Qed.
End decisions.

Section tools.
Context {W : Type} `{P : Platform} `{H : Host W} `{!FreshUuids W} (config : Config).

(** Identities that the database already knows are replaced; the renewed
    batch is as good as the decided one when no identifier drawn is one the
    model chose. *)
Lemma renew_calls_spec known calls ids s (w : W) :
  identified calls ids -> NoDup ids -> Forall (fun id => id <> "") ids ->
  (forall w : W, fst (new_uuid w) ∉ ids) ->
  wp (renew_calls known calls)
    (fun calls' _ _ => exists ids', identified calls' ids' /\ NoDup ids'
       /\ Forall (fun id => id <> "" /\ (id ∈ ids \/ ~ issued w id /\ exists w : W, id = fst (new_uuid w))) ids'
       /\ length calls' = length calls)
    (fun _ _ _ => False) s w.
Proof.
  intros Hi. revert s w. induction Hi as [|call id calls ids [Ho Eg] Hi IH]; intros s w Hnd Hn Hs; cbn [renew_calls].
  { apply wp_ret. exists []. by split_and!; try constructor. }
  apply NoDup_cons in Hnd as [Hnin Hnd]. inversion Hn as [|? ? Hne Hn']; subst.
  assert (forall w : W, fst (new_uuid w) ∉ ids) as Hs'.
  { intros w1 Hin. apply (Hs w1). by right. }
  destruct (existsb _ known).
  - apply wp_bind, wp_bind, wp_world. intros u w1 Eu. apply wp_ret.
    assert (u <> id /\ u ∉ ids) as [Hu Hu'].
    { specialize (Hs w). rewrite Eu in Hs. cbn in Hs. by apply not_elem_of_cons in Hs. }
    assert (u = fst (new_uuid w)) as Eu' by (by rewrite Eu).
    apply uuid_fresh in Eu as (Hune & Hni & Hiu & Hmono). apply wp_bind.
    eapply wp_mono; [by apply IH| |done]. intros calls' s2 w2 (ids' & Hi' & Hnd' & Hf' & Hl').
    apply wp_ret. exists (u :: ids'). rewrite Forall_forall in Hf'. split_and!.
    + constructor; [|done]. destruct call; try done. split; [done|]. apply get_set_eq.
    + constructor; [|done]. intros Hin. destruct (Hf' u Hin) as [_ [?|[]]]; auto.
    + constructor; [by eauto|]. apply Forall_forall. intros x Hin.
      destruct (Hf' x Hin) as [? [?|[Hx ?]]]; (split; [done|]); [left; by right|right; auto].
    + cbn. by rewrite Hl'.
  - apply wp_bind, wp_gets, wp_bind. eapply wp_mono; [by apply IH| |done].
    intros calls' s2 w2 (ids' & Hi' & Hnd' & Hf' & Hl'). apply wp_ret. rewrite Forall_forall in Hf'.
    exists (id :: ids'). split_and!.
    + by constructor.
    + constructor; [|done]. intros Hin. destruct (Hf' id Hin) as [_ [?|[_ [w3 E]]]]; [done|].
      apply (Hs w3). rewrite <- E. by left.
    + constructor; [split; [done|left; by left]|]. apply Forall_forall. intros x Hin.
      destruct (Hf' x Hin) as [? [?|?]]; (split; [done|]); [left; by right|by right].
    + cbn. by rewrite Hl'.
Qed.

Lemma renew_calls_quiet known calls : keeps (W := W) quiet (renew_calls known calls).
Proof. induction calls; cbn [renew_calls]; frame; auto. Qed.

(** ** The history of a session *)
Definition sound (s : Session) : Prop := memory s <> [] /\ paired (drop 1 (bare_memory s)).
(** [s'] has the history of [s], followed by complete interactions. *)
Definition extends (s s' : Session) : Prop :=
  exists more, bare_memory s' = (bare_memory s ++ more)%list /\ paired more.

Lemma sound_groups s : sound s <-> memory s <> [] /\ exists gs, interaction_groups (drop 1 (memory s)) = Ok gs.
Proof.
  unfold sound, bare_memory. rewrite <- paired_iff, skipn_map.
  split; intros [? ?]; (split; [done|]); [by apply paired_bare|by apply bare_paired].
Qed.
Lemma extends_refl s : extends s s.
Proof. exists []. rewrite app_nil_r. split; [done|]. by exists []. Qed.
Lemma extends_trans s1 s2 s3 : extends s1 s2 -> extends s2 s3 -> extends s1 s3.
Proof.
  intros (m1 & E1 & P1) (m2 & E2 & P2). exists (m1 ++ m2)%list.
  split; [by rewrite E2, E1, app_assoc|by apply paired_app].
Qed.
Lemma extends_sound s s' : extends s s' -> sound s -> sound s'.
Proof.
  intros (more & E & Pm) [Hne Ps]. split.
  - intros Hm. unfold bare_memory in E. rewrite Hm in E. by destruct (memory s).
  - rewrite E. unfold bare_memory in *. destruct (memory s) as [|m ms]; [done|]. cbn in *.
    rewrite drop_0 in *. by apply paired_app.
Qed.
Lemma quiet_extends s s' : quiet s s' -> extends s s'.
Proof. intros [(_ & _ & _ & _ & E & _) _]. exists []. rewrite app_nil_r. split; [done|]. by exists []. Qed.

Lemma append_plain_spec m s (w : W) :
  role m <> "tool" -> tool_calls m = None ->
  wp (append_message m) (fun _ s' _ => extends s s' /\ batch s' = batch s) (fun _ _ _ => False) s w.
Proof.
  intros Hr Hc. eapply wp_mono; [apply append_message_spec| |done]. intros [] s1 w1 (E & B & _).
  split; [|done]. exists [bare m]. split; [done|]. by apply paired_plain.
Qed.

Lemma observe_progress_spec before s (w : W) :
  wp (observe_progress config before) (fun _ s' _ => extends s s' /\ batch s' = batch s)
    (fun _ _ _ => True) s w.
Proof.
  assert (forall s1, bare_memory s1 = bare_memory s -> extends s s1) as Hsame.
  { intros s1 E. exists []. rewrite app_nil_r. split; [done|]. by exists []. }
  unfold observe_progress. wp_step. wp_step. cbv zeta. destruct (negb _).
  { wp_step. split; [by apply Hsame|done]. }
  wp_step. wp_step. destruct (no_progress_limit config) as [limit|].
  2:{ wp_step. split; [by apply Hsame|done]. }
  wp_step. wp_step. cbv zeta. apply wp_bind.
  apply wp_mono with (Q := fun _ s' _ => extends s s' /\ batch s' = batch s) (E := fun _ _ _ => True); [| |done].
  - match goal with |- wp _ _ _ ?x _ => set (s1 := x) end.
    destruct (_ =? _); cbn [when_]; [|wp_step; split; [by apply Hsame|done]].
    apply wp_bind. eapply wp_mono; [by apply append_plain_spec| |done]. intros [] s2 w2 [E2 B2].
    eapply wp_keeps; [apply checkpoint_quiet| |done]. intros [] s3 w3 Hq.
    split; [|by destruct Hq as [(_ & -> & _) _]]. eapply extends_trans; [|by apply quiet_extends].
    eapply extends_trans; [by apply Hsame|exact E2].
  - intros [] s1 w1 [E1 B1]. destruct (_ <=? _); cbn [when_]; [|by wp_step].
    wp_step. wp_step. eapply wp_keeps; [apply checkpoint_quiet| |done]. intros [] s3 w3 Hq.
    split; [|by destruct Hq as [(_ & -> & _) _]]. eapply extends_trans; [exact E1|].
    destruct Hq as [(_ & _ & _ & _ & E & _) _]. exists []. rewrite app_nil_r.
    split; [exact E|]. by exists [].
Qed.

(** A batch that is scheduled is answered completely before the next decision. *)
Lemma handle_tools_spec d calls ids before s (w : W) :
  index d "calls" = Array calls -> calls <> [] -> identified calls ids -> NoDup ids ->
  Forall (fun id => id <> "") ids ->
  (repository s = true -> forall w : W, fst (new_uuid w) ∉ ids) ->
  wp (handle_tools config d before) (fun _ s' _ => extends s s' /\ pending_tool_calls s' = [])
    (fun _ _ _ => True) s w.
Proof.
  intros Ed Hne Hi Hnd Hn Hs. unfold handle_tools. rewrite Ed. cbn [as_array unwrap_or]. cbv zeta.
  wp_step. wp_step. apply wp_bind.
  apply wp_mono with (E := fun _ _ _ => True) (Q := fun calls' s' _ => quiet s s' /\ exists ids',
    calls' <> [] /\ identified calls' ids' /\ NoDup ids' /\ Forall (fun id => id <> "") ids'); [| |done].
  { destruct (repository s); [|wp_step; split; [reflexivity|by exists ids]].
    apply wp_bind. unfold query_historical, world_result. apply wp_bind, wp_world. intros r w1 _.
    wp_step. destruct r as [known|]; [|done].
    pose proof (renew_calls_spec known calls ids s w1 Hi Hnd Hn (Hs eq_refl)) as Hr.
    unfold wp in *. destruct (renew_calls known calls (s, w1)) as [[calls'|e] [s2 w2]] eqn:E; [|done].
    split; [by eapply renew_calls_quiet|]. destruct Hr as (ids' & ? & ? & Hf & Hl). exists ids'.
    split_and!; [by intros ->; destruct calls|done|done|]. eapply Forall_impl; [exact Hf|]. by intros x []. }
  intros calls' s1 w1 [Hq (ids' & Hne' & Hi' & Hnd' & Hn')].
  destruct (identified_wire calls' ids' Hi' Hn') as [Hw1 Hw2].
  apply wp_bind. eapply wp_mono; [apply append_message_spec| |done]. intros [] s2 w2 (M2 & B2 & _).
  wp_step. wp_step. apply wp_bind. eapply wp_keeps; [apply checkpoint_quiet| |done].
  intros [] s3 w3 [(_ & B3 & _ & _ & M3 & _) _]. apply wp_bind.
  eapply wp_mono; [apply settle_pending_spec| |done]. intros [] s4 w4 (done_ & results & P4 & E4 & M4 & F4).
  assert (done_ = calls') as ->.
  { rewrite app_nil_r in P4. injection B3 as B3 _. by rewrite <- P4, B3. }
  eapply wp_mono; [apply observe_progress_spec| |done]. intros [] s5 w5 [E5 B5]. split.
  2:{ injection B5 as -> _. done. }
  eapply extends_trans; [by apply quiet_extends|]. eapply extends_trans; [|exact E5].
  match type of M2 with _ = (_ ++ [?m])%list => set (asst := m) in * end.
  exists (asst :: results). split.
  - rewrite M4, M3. change (bare_memory (s2 <| _ := _ |> <| _ := _ |>)) with (bare_memory s2).
    rewrite M2, <- app_assoc. done.
  - eapply (paired_batch asst (map wire_call calls') ids' calls'); try done. by destruct calls'.
Qed.
End tools.

(** * Properties *)
Section properties.
Context {W : Type} `{P : Platform} `{H : Host W} (config : Config).

(** C26: settling a batch answers its calls in order, each with exactly one
    correlated tool result, whatever happens to a call; the session keeps
    exactly the calls not answered yet, none when the batch ends normally, and
    the earlier history is untouched.  This holds on errors too, so that an
    interrupted batch resumes where it stopped. *)
Theorem settle_pending_answers_in_order s s' r (w w' : W) :
  settle_pending config (s, w) = (r, (s', w')) ->
  exists done results, pending_tool_calls s = (done ++ pending_tool_calls s')%list
    /\ bare_memory s' = (bare_memory s ++ results)%list /\ Forall2 answers done results
    /\ (r = Ok tt -> pending_tool_calls s' = []).
Proof.
  intros E. pose proof (settle_pending_spec config s w) as S. unfold wp in S. rewrite E in S.
  destruct r as [[]|e]; [destruct S as (d & m & S1 & S2 & S3 & S4)|destruct S as (rest & d & m & S1 & S2 & S3 & S4)];
    exists d, m; by rewrite S2.
Qed.

(** C27: the calls of a decision carry distinct nonempty identities, none of
    which the history already uses, provided identifiers drawn never repeat. *)
Theorem decided_calls_are_answerable `{!FreshUuids W} ms s d s' (w w' : W) :
  decide config ms (s, w) = (Ok d, (s', w')) ->
  field_is "type" "tools" d = true ->
  exists calls ids, index d "calls" = Array calls /\ calls <> [] /\ identified calls ids /\ NoDup ids
    /\ Forall (fun id => id <> "" /\ id ∉ historical_call_ids s) ids.
Proof.
  intros E. by apply (wp_ok _ _ _ _ _ _ _ _ (decide_spec config ms s w)) in E as [Ha _].
Qed.

(** C15: carrying out a batch of distinct calls keeps the history a sequence
    of complete interactions (the request budget, the history split and strict
    providers depend on it), even when identities already known to the
    database are renewed, and leaves nothing pending. *)
Theorem handle_tools_keeps_history_sound `{!FreshUuids W} d calls ids before s s' (w w' : W) :
  index d "calls" = Array calls -> calls <> [] -> identified calls ids -> NoDup ids ->
  Forall (fun id => id <> "") ids ->
  (repository s = true -> forall w : W, fst (new_uuid w) ∉ ids) ->
  handle_tools config d before (s, w) = (Ok tt, (s', w')) ->
  (memory s <> [] /\ exists gs, interaction_groups (drop 1 (memory s)) = Ok gs) ->
  (memory s' <> [] /\ exists gs, interaction_groups (drop 1 (memory s')) = Ok gs)
  /\ pending_tool_calls s' = [].
Proof.
  intros E1 E2 E3 E4 E5 E6 E7 Hs.
  apply (wp_ok _ _ _ _ _ _ _ _ (handle_tools_spec config d calls ids before s w E1 E2 E3 E4 E5 E6)) in E7
    as [E Hp]. split; [|done]. by apply sound_groups, (extends_sound s), sound_groups.
Qed.
End properties.

(** ** On the recorded host *)
Definition sample_issued (w : World) (x : string) : Prop :=
  exists n, n < clock w /\ x = "uuid-" +:+ show_Z n.
Lemma sample_uuid_fresh (w : World) u w' : new_uuid w = (u, w') ->
  u <> "" /\ ~ sample_issued w u /\ sample_issued w' u
  /\ forall x, sample_issued w x -> sample_issued w' x.
Proof.
  intros [= <- <-]. split_and!.
  - done.
  - intros (n & Hn & E). apply (inj (String.append "uuid-")) in E. apply (inj pretty) in E. lia.
  - exists (clock w). cbn. split; [lia|done].
  - intros x (n & Hn & ->). exists n. cbn. split; [lia|done].
Qed.
#[export] Instance sample_fresh : FreshUuids World := {|
  issued := sample_issued; uuid_fresh := sample_uuid_fresh
|}.

Definition sample_calls : list value :=
  [Object [("id", Str "call_1"); ("name", Str "fixture_idempotent_write"); ("raw_arguments", Str "{}");
           ("arguments", Object []); ("error", Null)];
   Object [("id", Str "call_2"); ("name", Str "missing"); ("raw_arguments", Str "{}");
           ("arguments", Object []); ("error", Str "unknown tool 'missing'")]].
Definition sample_decision : value := Object [("type", Str "tools"); ("calls", Array sample_calls)].
Definition stored_session : Session := fresh_session <| repository := true |>.
Notation recorded_batch :=
  (handle_tools (P := sample_platform) sample_config sample_decision "" (stored_session, quiet_world [])).
Definition batch_end : Session := fst (snd recorded_batch).
Definition batch_world : World := snd (snd recorded_batch).
Lemma recorded_batch_ends : recorded_batch = (Ok tt, (batch_end, batch_world)).
Proof. unfold batch_end, batch_world. apply ended_ok. vm_compute. reflexivity. Qed.

Lemma handle_tools_keeps_history_sound_witness :
  (memory batch_end <> [] /\ exists gs, interaction_groups (P := sample_platform) (drop 1 (memory batch_end)) = Ok gs)
  /\ pending_tool_calls batch_end = [].
Proof.
  refine (handle_tools_keeps_history_sound (P := sample_platform) sample_config sample_decision sample_calls
    ["call_1"; "call_2"] "" stored_session batch_end _ batch_world eq_refl _ _ _ _ _ recorded_batch_ends _).
  - discriminate.
  - repeat constructor.
  - repeat constructor; set_solver.
  - repeat constructor; discriminate.
  - intros _ w. set_solver.
  - split; [discriminate|]. eexists. vm_compute. reflexivity.
Defined.

Definition pending_session : Session := stored_session <| pending_tool_calls := sample_calls |>.
Notation recorded_settling :=
  (settle_pending (P := sample_platform) sample_config (pending_session, quiet_world [])).
Definition settled_end : Session := fst (snd recorded_settling).
Definition settled_world : World := snd (snd recorded_settling).
Lemma recorded_settling_ends : recorded_settling = (Ok tt, (settled_end, settled_world)).
Proof. unfold settled_end, settled_world. apply ended_ok. vm_compute. reflexivity. Qed.

Lemma settle_pending_answers_in_order_witness :
  exists done results, pending_tool_calls pending_session = (done ++ pending_tool_calls settled_end)%list
    /\ bare_memory settled_end = (bare_memory pending_session ++ results)%list /\ Forall2 answers done results.
Proof.
  destruct (settle_pending_answers_in_order (P := sample_platform) sample_config pending_session settled_end
    _ _ settled_world recorded_settling_ends) as (d & m & E1 & E2 & E3 & _).
  exists d, m. exact (conj E1 (conj E2 E3)).
Defined.

Notation recorded_decision :=
  (decide (P := sample_platform) sample_config [msg "user" (Some "go")]
     (fresh_session, quiet_world [HttpResponse 200 "call"])).
Definition decided : value :=
  match fst recorded_decision with Ok d => d | Err _ => Null end.
Definition decided_end : Session := fst (snd recorded_decision).
Definition decided_world : World := snd (snd recorded_decision).
Lemma recorded_decision_ends : recorded_decision = (Ok decided, (decided_end, decided_world)).
Proof.
  unfold decided_end, decided_world. apply ended_ok. unfold decided.
  assert (is_ok (fst recorded_decision) = true) as E by (vm_compute; reflexivity).
  revert E. destruct (fst recorded_decision); [done|discriminate].
Qed.

Lemma decided_calls_are_answerable_witness :
  exists calls ids, index decided "calls" = Array calls /\ calls <> [] /\ identified calls ids /\ NoDup ids.
Proof.
  destruct (decided_calls_are_answerable (P := sample_platform) sample_config _ fresh_session decided
    decided_end _ decided_world recorded_decision_ends) as (calls & ids & E1 & E2 & E3 & E4 & _).
  - vm_compute. reflexivity.
  - exists calls, ids. exact (conj E1 (conj E2 (conj E3 E4))).
Defined.
