(* ===== verification/Dispatch.v ===== *)
(** * Correctness of durable actions

    [traced_host] records, over any host, the checkpoints handed out and the
    effects performed.  The theorems say that no effect precedes the committed
    record that announces it, that a terminal action is replayed without any
    effect, that a frozen identity that does not match stops the dispatch, and
    that the recipient applies an action at most once. *)
From S2P Require Import Prelude Text Json Encoding Session Logic Diagnostics Tools Checkpoint Workflow Actions Sample.
Local Open Scope string_scope.
Local Open Scope Z_scope.

(** ** Traces *)
Inductive Trace : Type :=
| Saved (event : value) (snapshot : Session) (committed : bool)
| Wrote (namespace key fingerprint : string)
| Ran (sql : string).
Definition is_saved (x : Trace) : bool := match x with Saved _ _ _ => true | _ => false end.
Definition is_write (x : Trace) : bool := match x with Wrote _ _ _ => true | _ => false end.

Section traced.
Context {W : Type} `{H : Host W}.
Notation T := (W * list Trace)%type.

Definition on_world {A} (f : W -> A * W) (wt : T) : A * T :=
  let '(a, w) := f (fst wt) in (a, (w, snd wt)).
Definition logging {A} (f : W -> A * W) (entry : A -> Trace) (wt : T) : A * T :=
  let '(a, w) := f (fst wt) in (a, (w, (snd wt ++ [entry a])%list)).

Definition traced_runtime : Runtime T := {|
  new_uuid := on_world new_uuid;
  now_seconds := on_world now_seconds
|}.
Definition traced_database : Database T := {|
  sql_fetch sql binds := logging (sql_fetch sql binds) (fun _ => Ran sql)
|}.
#[export] Instance traced_host : Host T := {|
  host_runtime := traced_runtime;
  host_database := traced_database;
  emit event s := logging (emit event s) (fun r => Saved event s (is_ok r));
  ack_cell wt := ack_cell (fst wt);
  env_var name wt := env_var name (fst wt);
  http_post url token payload := on_world (http_post url token payload);
  elapsed_ms := on_world elapsed_ms;
  log_line line wt := (log_line line (fst wt), snd wt);
  historical_calls session ids := on_world (historical_calls session ids);
  receipt_query namespace key := on_world (receipt_query namespace key);
  receipt_insert namespace key fingerprint request result :=
    logging (receipt_insert namespace key fingerprint request result)
      (fun _ => Wrote namespace key fingerprint);
  receipt_commit := on_world receipt_commit;
  receipt_rollback wt := (receipt_rollback (fst wt), snd wt)
|}.

(** The trace grows by entries that satisfy [p]. *)
Definition grows (p : Trace -> bool) (l l' : list Trace) : Prop :=
  exists t, l' = (l ++ t)%list /\ Forall (fun x => p x = true) t.
#[export] Instance grows_preorder p : PreOrder (grows p).
Proof.
  split; [intros l; exists []; by rewrite app_nil_r|].
  intros l1 l2 l3 (t1 & -> & F1) (t2 & -> & F2). exists (t1 ++ t2)%list.
  split; [by rewrite app_assoc|by apply Forall_app].
Qed.
Lemma grows_one (p : Trace -> bool) l x : p x = true -> grows p l (l ++ [x]).
Proof. intros Hx. exists [x]. split; [done|by repeat constructor]. Qed.

(** ** Checkpoints are the only entries of everything but the effect *)
Definition saving (a b : Session * T) : Prop := grows is_saved (snd (snd a)) (snd (snd b)).
#[export] Instance saving_preorder : PreOrder saving.
Proof. unfold saving. split; [intros x; reflexivity|]. intros x y z ? ?. by etrans. Qed.

Lemma on_world_trace {A} (f : W -> A * W) wt : snd (snd (on_world f wt)) = snd wt.
Proof. unfold on_world. by destruct (f (fst wt)). Qed.

Lemma world_saving {A} (f : W -> A * W) : moves saving (world (on_world f) : M T A).
Proof.
  apply (moves_world saving). intros s wt. unfold saving. cbn [snd]. rewrite on_world_trace. reflexivity.
Qed.
#[local] Hint Resolve world_saving : moves.
Lemma uuid_saving : moves saving (uuid : M T string).
Proof. apply world_saving. Qed.
Lemma timestamp_saving : moves saving (transcript_timestamp : M T string).
Proof. unfold transcript_timestamp. moves. apply world_saving. Qed.
#[local] Hint Resolve uuid_saving timestamp_saving : moves.
Lemma modify_saving f : moves saving (modify f : M T unit).
Proof. apply (moves_modify saving). intros s w. unfold saving. reflexivity. Qed.
#[local] Hint Resolve modify_saving : moves.
Lemma audit_saving k p : moves saving (audit k p : M T unit).
Proof. unfold audit, archive_record. moves. Qed.
#[local] Hint Resolve audit_saving : moves.
Lemma emit_saving e : moves saving (emit_event e : M T unit).
Proof.
  intros [s [w l]] r sw'. unfold emit_event. cbn. unfold logging. cbn.
  destruct (emit e s w) as [x w1]. intros [= _ <-]. by apply grows_one.
Qed.
Lemma commit_saving : moves saving (commit_outboxes : M T unit).
Proof.
  unfold commit_outboxes. moves.
  intros sw r sw'. unfold acknowledge. intros [= _ <-]. unfold saving. reflexivity.
Qed.
#[local] Hint Resolve emit_saving commit_saving : moves.
Lemma action_checkpoint_saving e : moves saving (action_checkpoint e : M T unit).
Proof. unfold action_checkpoint. moves. Qed.
Lemma push_attempt_saving a : moves saving (push_attempt a : M T unit).
Proof. apply modify_saving. Qed.
#[local] Hint Resolve action_checkpoint_saving push_attempt_saving : moves.
End traced.

(** ** The steps of a dispatch *)
(** [snap] holds the action as started, with the attempt about to be made. *)
Definition announced (e a : value) (snap : Session) : Prop :=
  e ∈ executions snap /\ a ∈ attempts_pending snap
  /\ field_is "status" "started" e = true /\ field_is "status" "started" a = true
  /\ field_is "kind" "dispatch" a = true /\ index a "execution_id" = index e "execution_id".

Lemma stage_in e s : e ∈ executions (stage_execution e s).
Proof.
  cbn. induction (executions s) as [|v l IH]; cbn; [by left|]. destruct (same_execution e v); [by left|].
  by right.
Qed.

Lemma index_set_eq k x v : is_object v = true -> index (set k x v) k = x.
Proof. destruct v; try done. intros _. unfold index. by rewrite get_set_eq. Qed.
Lemma index_set_ne k k' x v : k <> k' -> is_object v = true -> index (set k' x v) k = index v k.
Proof. intros Hk Ho. unfold index. by rewrite get_set_ne. Qed.
Lemma is_object_set k x v : is_object v = true -> is_object (set k x v) = true.
Proof. by destruct v. Qed.
Lemma field_object k s v : field_is k s v = true -> is_object v = true.
Proof. unfold field_is, index, get. by destruct v. Qed.

Section steps.
Context {W : Type} `{P : Platform} `{H : Host W} (config : Config).
Notation T := (W * list Trace)%type.
#[local] Hint Resolve world_saving uuid_saving timestamp_saving modify_saving audit_saving
  action_checkpoint_saving push_attempt_saving : moves.

Lemma open_execution_saving c call tool args :
  moves saving (open_execution config c call tool args : M T value).
Proof. unfold open_execution, create_execution. moves. Qed.
Lemma settle_former_saving e : moves saving (settle_former_attempts e : M T unit).
Proof. unfold settle_former_attempts, settle_started. moves. Qed.
Lemma receipt_saving ns k : moves saving (world_result (receipt_query ns k) : M T _).
Proof. apply world_saving. Qed.
#[local] Hint Resolve receipt_saving : moves.
Lemma verify_receipt_saving c e ns n : moves saving (verify_receipt c e ns n : M T _).
Proof. unfold verify_receipt, unknown_receipt. moves. Qed.
Lemma block_recovery_saving e : moves saving (block_recovery e : M T string).
Proof. unfold block_recovery. moves. Qed.
Lemma settle_known_saving a e f r : moves saving (settle_known a e f r : M T string).
Proof. unfold settle_known. moves. Qed.
Lemma settle_unknown_saving a e f r : moves saving (settle_unknown a e f r : M T string).
Proof. unfold settle_unknown. moves. Qed.

Lemma commit_worldless : moves same_world (commit_outboxes : M T unit).
Proof. unfold commit_outboxes. moves. by intros sw r sw' [= _ <-]. Qed.
Lemma action_checkpoint_spec ev s (w : W) (l : list Trace) :
  wp (action_checkpoint ev : M T unit)
    (fun _ _ w' => exists snap, snd w' = (l ++ [Saved ev snap true])%list
       /\ executions snap = executions s /\ attempts_pending snap = attempts_pending s)
    (fun _ _ w' => grows is_saved l (snd w')) s (w, l).
Proof.
  assert (forall s1 w1, executions s1 = executions s -> attempts_pending s1 = attempts_pending s ->
    wp (emit_event ev ≫= fun _ => commit_outboxes : M T unit)
      (fun _ _ w' => exists snap, snd w' = (l ++ [Saved ev snap true])%list
         /\ executions snap = executions s /\ attempts_pending snap = attempts_pending s)
      (fun _ _ w' => grows is_saved l (snd w')) s1 (w1, l)) as Htail.
  { intros s1 w1 E1 E2. unfold wp. rewrite bind_run. unfold emit_event at 1. cbn. unfold logging. cbn.
    destruct (emit ev s1 w1) as [[[]|e] w2]; cbn; [|by apply grows_one].
    destruct (commit_outboxes _) as [r [s2 w3]] eqn:E. apply commit_worldless in E. unfold same_world in E. cbn in E. subst w3.
    destruct r as [[]|e]; [by exists s1|by apply grows_one]. }
  unfold action_checkpoint. wp_step. wp_step. apply wp_bind.
  destruct (_ && _); cbn [when_]; [|apply wp_ret; by apply Htail].
  apply wp_bind. unfold transcript_timestamp. apply wp_bind, wp_world. intros t [w1 l1] E.
  apply wp_ret, wp_modify. cbn in E. unfold on_world in E. cbn in E.
  destruct (now_seconds w) as [n w2]. injection E as _ <- <-. by apply Htail.
Qed.

(** The archive neither logs nor touches the actions. *)
Definition unlogged (a b : Session * T) : Prop :=
  snd (snd b) = snd (snd a) /\ executions (fst b) = executions (fst a)
  /\ attempts_pending (fst b) = attempts_pending (fst a).
#[local] Instance unlogged_preorder : PreOrder unlogged.
Proof.
  unfold unlogged. split; [done|]. intros ? ? ? (?&?&?) (?&?&?). split_and!; congruence.
Qed.
Lemma audit_unlogged k p : moves unlogged (audit k p : M T unit).
Proof.
  assert (forall A (f : W -> A * W), moves unlogged (world (on_world f) : M T A)) as Hw.
  { intros A f. apply (moves_world unlogged). intros s wt. split; [apply on_world_trace|done]. }
  unfold audit, archive_record, uuid, transcript_timestamp. moves; apply Hw.
Qed.

Lemma start_attempt_spec c e n s (w : W) (l : list Trace) :
  is_object e = true ->
  wp (start_attempt c e n : M T (value * value))
    (fun ae _ w' => exists ev snap, snd w' = (l ++ [Saved ev snap true])%list
       /\ announced (snd ae) (fst ae) snap
       /\ forall k, k <> "status" -> k <> "attempts" -> k <> "started_at" -> index (snd ae) k = index e k)
    (fun _ _ w' => grows is_saved l (snd w')) s (w, l).
Proof.
  intros Ho. unfold start_attempt, transcript_timestamp, uuid.
  assert (forall A (f : W -> A * W) wt, snd (snd (on_world f wt)) = snd wt) as Ht by (intros; apply on_world_trace).
  apply wp_bind, wp_bind, wp_world. intros t [w1 l1] E1. apply wp_ret, wp_bind, wp_world. intros u [w2 l2] E2.
  assert (l2 = l) as ->.
  { transitivity l1; [specialize (Ht _ new_uuid (w1, l1))|specialize (Ht _ now_seconds (w, l))]; cbn in *.
    - by rewrite E2 in Ht.
    - by rewrite E1 in Ht. }
  wp_step. wp_step. cbv zeta. set (a := attempt_record _ _ _ _ _ _ _).
  set (e1 := set "attempts" _ (set "status" _ e)).
  assert (is_object e1 = true) as Ho1 by (by apply is_object_set, is_object_set).
  set (e' := if is_none _ then _ else e1).
  assert (forall k, k <> "status" -> k <> "attempts" -> k <> "started_at" -> index e' k = index e k) as Hk.
  { intros k K1 K2 K3. assert (index e1 k = index e k) as E.
    { unfold e1. rewrite index_set_ne by (done || by apply is_object_set). by apply index_set_ne. }
    unfold e'. destruct (is_none _); [by rewrite index_set_ne|done]. }
  assert (field_is "status" "started" e' = true) as Hst.
  { assert (field_is "status" "started" e1 = true) as E.
    { unfold field_is, e1. rewrite index_set_ne by (done || by apply is_object_set). by rewrite index_set_eq. }
    unfold e'. destruct (is_none _); [|done]. unfold field_is. by rewrite index_set_ne. }
  wp_step. unfold push_attempt. wp_step. wp_step. wp_step. apply wp_bind.
  match goal with |- wp _ _ _ ?x _ => set (s1 := x) end.
  assert (e' ∈ executions s1) as Hin1 by apply stage_in.
  assert (a ∈ attempts_pending s1) as Hin2 by (cbn; apply elem_of_app; right; by left).
  assert (announced e' a s1) as Hann.
  { unfold announced. split_and!; try done. change (index e "execution_id" = index e' "execution_id"). symmetry. by apply Hk. }
  eapply wp_moves; [apply audit_unlogged| |].
  - intros [] s2 [w3 l3] (E0 & E1' & E2'). cbn in E0, E1', E2'. subst l3. apply wp_bind.
    eapply wp_mono; [apply action_checkpoint_spec| |done].
    intros [] s3 w4 (snap & E3 & E4 & E5). apply wp_ret. eexists _, snap. split; [exact E3|].
    split; [|done]. unfold announced in *. by rewrite E4, E5, E1', E2'.
  - intros er s2 [w3 l3] (E0 & _). cbn in E0 |- *. rewrite E0. reflexivity.
Qed.

(** ** The effect *)
Definition is_effect (x : Trace) : bool := negb (is_saved x).
Definition is_ran (x : Trace) : bool := match x with Ran _ => true | _ => false end.
Definition queries {A} (m : Db T A) : Prop :=
  forall wt r wt', m wt = (r, wt') -> grows is_ran (snd wt) (snd wt').
Lemma queries_bind {A B} (m : Db T A) (f : A -> Db T B) :
  queries m -> (forall a, queries (f a)) -> queries (m ≫= f).
Proof.
  intros Hm Hf wt r wt'. unfold mbind, Db_bind. destruct (m wt) as [[a|e] wt1] eqn:E.
  - intros H1. transitivity (snd wt1); [exact (Hm _ _ _ E)|exact (Hf _ _ _ _ H1)].
  - intros [= <- <-]. exact (Hm _ _ _ E).
Qed.
Lemma queries_here {A} (x : result string A) : queries (fun wt => (x, wt)).
Proof. by intros wt r wt' [= _ <-]. Qed.
Lemma fetch_queries sql binds : queries (fetch_all sql binds : Db T _).
Proof.
  intros [w l] r wt'. unfold fetch_all. cbn. unfold logging. cbn. destruct (sql_fetch sql binds w).
  intros [= _ <-]. by apply grows_one.
Qed.
Ltac queries := repeat
  match goal with
  | |- forall _, queries _ => intro
  | |- queries (_ ≫= _) => apply queries_bind
  | |- queries (mret _) => apply queries_here
  | |- queries (db_lift _) => apply queries_here
  | |- queries (fetch_all _ _) => apply fetch_queries
  | |- queries (if ?b then _ else _) => destruct b
  | |- queries (match ?x with _ => _ end) => destruct x
  | |- queries (let x := _ in _) => cbv zeta
  end.
Lemma inner_queries name a : queries (inner name a : Db T string).
Proof.
  unfold inner, inspect_log, analyze_ips, validate_top_offending_ip, top_ip, inspect_sql_schema, table_schema,
    log_lines, validate_chicago_q1_revenue, query_revenue, inspect_employee_schema, audit_employee,
    validate_employee_audit, employee_median, employee_report, employee_rows. queries.
Qed.

(** What one effect writes: at most one receipt, under the key and payload of
    the action. *)
Definition effects_of (namespace : string) (args e : value) (t : list Trace) : Prop :=
  Forall (fun x => is_effect x = true) t
  /\ (length (List.filter is_write t) <= 1)%nat
  /\ forall ns key fp, Wrote ns key fp ∈ t ->
       ns = namespace /\ key = unwrap_or (as_str (index e "idempotency_key")) ""
       /\ payload idempotent_write recipient_target args = Ok fp.

Lemma perform_effects ns tool args e (w w' : W) (l l' : list Trace) r :
  perform ns tool args e (w, l) = (r, (w', l')) ->
  exists t, l' = (l ++ t)%list /\ effects_of ns args e t
    /\ (tool <> idempotent_write -> Forall (fun x => is_ran x = true) t).
Proof.
  unfold perform. destruct (String.eqb_spec tool idempotent_write) as [->|Hne].
  - unfold recipient. cbv zeta. destruct (payload _ _ args) as [fp|er] eqn:Ep.
    2:{ intros [= _ _ <-]. exists []. rewrite app_nil_r. split_and!; [done| |done].
        split_and!; [constructor|cbn; lia|]. intros ns' k f Hin. by apply elem_of_nil in Hin. }
    set (key := unwrap_or _ "").
    assert (effects_of ns args e [Wrote ns key fp]) as He.
    { split_and!; [by repeat constructor|cbn; lia|].
      intros ns' k f Hin. apply list_elem_of_singleton in Hin. by injection Hin as -> -> ->. }
    cbn. unfold logging. cbn. destruct (receipt_insert _ _ _ _ _ _) as [[[stored res]|er] w1]; cbn.
    + destruct (negb _); cbn; [by intros [= _ _ <-]; exists [Wrote ns key fp]|].
      unfold on_world. cbn. destruct (receipt_commit w1) as [[[]|er] w2]; intros [= _ _ <-];
        by exists [Wrote ns key fp].
    + intros [= _ _ <-]. by exists [Wrote ns key fp].
  - unfold execute. destruct (inner _ _ _) as [x [w1 l1]] eqn:E. apply inner_queries in E as (t & E & F).
    cbn in E. intros Hr. exists t. assert (l1 = l') as -> by (by destruct x; injection Hr).
    split_and!; [done| |done]. rewrite Forall_forall in F. split_and!.
    + apply Forall_forall. intros x' Hx. apply F in Hx. by destruct x'.
    + assert (List.filter is_write t = []) as ->; [|cbn; lia].
      clear - F. induction t as [|y t IH]; [done|]. cbn.
      assert (is_ran y = true) as Hy by (apply F; by left). destruct y; try done.
      apply IH. intros z Hz. apply F. by right.
    + intros ns' k f Hin. by apply F in Hin.
Qed.

(** ** The whole dispatch *)
(** Effects come after the committed checkpoint that announces them, and at
    most one of them is a write, under the frozen key and payload. *)
Definition write_ahead (tool : string) (t : list Trace) : Prop :=
  exists before effects after, t = (before ++ effects ++ after)%list
    /\ Forall (fun x => is_saved x = true) before /\ Forall (fun x => is_saved x = true) after
    /\ Forall (fun x => is_effect x = true) effects /\ (length (List.filter is_write effects) <= 1)%nat
    /\ (effects <> [] -> exists ev snap e a, last before = Some (Saved ev snap true)
          /\ announced e a snap /\ field_is "tool" tool e = true
          /\ forall ns key fp, Wrote ns key fp ∈ effects ->
               field_is "namespace" ns e = true /\ field_is "idempotency_key" key e = true
               /\ field_is "payload_sha256" fp e = true).
Definition ahead (tool : string) (l l' : list Trace) : Prop :=
  exists t, l' = (l ++ t)%list /\ write_ahead tool t.

Lemma saving_ahead tool l l' : grows is_saved l l' -> ahead tool l l'.
Proof.
  intros (t & -> & F). exists t. split; [done|]. exists t, [], []. rewrite app_nil_r.
  split_and!; try done. cbn. lia.
Qed.
Lemma saving_then_ahead tool l1 l2 l3 : grows is_saved l1 l2 -> ahead tool l2 l3 -> ahead tool l1 l3.
Proof.
  intros (t & -> & F) (t' & -> & before & effects & after & -> & Fb & Fa & Fe & Hl & Ha).
  exists (t ++ before ++ effects ++ after)%list. split; [by rewrite <- !app_assoc|].
  exists (t ++ before)%list, effects, after. rewrite <- !app_assoc. split_and!; try done; [by apply Forall_app|].
  intros Hne. destruct (Ha Hne) as (ev & snap & e & a & Hlast & Hrest). exists ev, snap, e, a.
  split; [|done]. by rewrite last_app, Hlast.
Qed.
Lemma ahead_then_saving tool l1 l2 l3 : ahead tool l1 l2 -> grows is_saved l2 l3 -> ahead tool l1 l3.
Proof.
  intros (t' & -> & before & effects & after & -> & Fb & Fa & Fe & Hl & Ha) (t & -> & F).
  exists (before ++ effects ++ after ++ t)%list. split; [by rewrite <- !app_assoc|].
  exists before, effects, (after ++ t)%list. split_and!; try done. by apply Forall_app.
Qed.

Lemma field_is_index k s v : field_is k s v = true <-> index v k = Str s.
Proof.
  unfold field_is, is_str. destruct (index v k); try done.
  rewrite String.eqb_eq. split; [by intros ->|by intros [= ->]].
Qed.

Lemma check_identity_ok session ns tool args e :
  check_identity session ns tool args e = Ok tt ->
  is_object e = true /\ index e "namespace" = Str ns /\ index e "tool" = Str tool
  /\ (exists key, index e "idempotency_key" = Str key)
  /\ (exists fp, index e "payload_sha256" = Str fp /\ payload tool (target_of tool) args = Ok fp).
Proof.
  unfold check_identity. destruct (field_is "namespace" ns e) eqn:En; cbn [negb orb]; [|done].
  destruct (field_is "target" (target_of tool) e) eqn:Et; cbn [negb orb]; [|done].
  destruct (field_is "key_algorithm" _ e); cbn [negb]; [|done].
  intros Hc. apply bind_ok in Hc as (eid & _ & Hc). apply bind_ok in Hc as (key & _ & Hc).
  destruct (field_is "idempotency_key" key e) eqn:Ek; cbn [negb] in Hc; [|done].
  destruct (field_is "tool" tool e) eqn:Eo; cbn [negb orb] in Hc; [|done].
  destruct (value_eqb _ _); cbn [negb] in Hc; [|done].
  apply field_is_index in Et. rewrite Et in Hc. apply bind_ok in Hc as (fp & Ep & Hc).
  apply fail_if_ok in Hc. destruct (field_is "payload_sha256" fp e) eqn:Ef; [|done].
  split_and!; try by apply field_is_index.
  - by apply (field_object _ _ _ En).
  - exists key. by apply field_is_index.
  - exists fp. split; [by apply field_is_index|done].
Qed.

Lemma dispatch_attempt_spec c e ns tool args n session s (w : W) (l : list Trace) :
  check_identity session ns tool args e = Ok tt ->
  wp (dispatch_attempt c e ns tool args n : M T string)
    (fun _ _ wt => ahead tool l (snd wt)) (fun _ _ wt => ahead tool l (snd wt)) s (w, l).
Proof.
  intros (Ho & En & Et & (key & Ek) & fp & Ef & Ep)%check_identity_ok. unfold dispatch_attempt. apply wp_bind.
  eapply wp_mono; [by apply start_attempt_spec| |]; [|intros er s1 wt1; apply saving_ahead].
  intros [a e'] s1 [w1 l1] (ev & snap & E1 & Ha & Hk). cbn in E1, Ha, Hk. subst l1.
  apply wp_bind. unfold world_result. apply wp_world. intros r [w2 l2] E2.
  apply perform_effects in E2 as (effects & -> & (Fe & Hl & Hw) & Hran).
  assert (forall l3, grows is_saved ((l ++ [Saved ev snap true]) ++ effects) l3 -> ahead tool l l3) as Hend.
  { intros l3. apply ahead_then_saving. exists ([Saved ev snap true] ++ effects)%list.
    split; [by rewrite app_assoc|]. exists [Saved ev snap true], effects, []. rewrite app_nil_r.
    split_and!; try done; [by repeat constructor|]. intros _. exists ev, snap, e', a.
    split_and!; try done.
    - apply field_is_index. by rewrite Hk.
    - intros ns' key' fp' Hin. rewrite !field_is_index, !Hk by done.
      destruct (Hw _ _ _ Hin) as (-> & -> & Ep').
      assert (tool = idempotent_write) as ->.
      { destruct (decide (tool = idempotent_write)) as [|Hne]; [done|].
        specialize (Hran Hne). rewrite Forall_forall in Hran. by apply Hran in Hin. }
      change (target_of idempotent_write) with recipient_target in Ep.
      rewrite Hk, Ek by done. cbn. split_and!; congruence. }
  apply wp_bind. eapply wp_moves; [apply timestamp_saving| |]; unfold saving; cbn; [|by intros; apply Hend].
  intros fin s3 [w3 l3] H3. cbn in H3. destruct r as [out|er].
  - eapply wp_moves; [apply settle_known_saving| |]; unfold saving; cbn; intros; apply Hend; by etrans.
  - eapply wp_moves; [apply settle_unknown_saving| |]; unfold saving; cbn; intros; apply Hend; by etrans.
Qed.

Lemma dispatch_spec call tool args s (w : W) (l : list Trace) :
  wp (dispatch config call tool args : M T string)
    (fun _ _ wt => ahead tool l (snd wt)) (fun _ _ wt => ahead tool l (snd wt)) s (w, l).
Proof.
  assert (forall {A} (m : M T A) (Q : A -> Session -> T -> Prop) s1 w1 l1, moves saving m ->
    grows is_saved l l1 -> (forall a s2 w2 l2, grows is_saved l l2 -> Q a s2 (w2, l2)) ->
    wp m Q (fun _ _ wt => ahead tool l (snd wt)) s1 (w1, l1)) as Hs.
  { intros A m Q s1 w1 l1 Hm H1 HQ. eapply wp_moves; [exact Hm| |]; unfold saving; cbn.
    - intros a s2 [w2 l2] H2. apply HQ. by etrans.
    - intros er s2 wt2 H2. apply saving_ahead. by etrans. }
  unfold dispatch. wp_step. wp_step. cbv zeta. apply wp_bind, Hs; [apply open_execution_saving|reflexivity|].
  intros e s1 w1 l1 H1. wp_step. wp_step. wp_step. apply wp_lift.
  destruct (check_identity _ _ _ _ _) as [[]|er] eqn:Ei; [|by apply saving_ahead].
  destruct (terminal e). { apply wp_lift. destruct (ok_or _ _); by apply saving_ahead. }
  apply wp_bind, Hs; [apply settle_former_saving|done|]. intros [] s2 w2 l2 H2.
  assert (forall n s3 w3 l3, grows is_saved l l3 ->
    wp (dispatch_or_block (command_of s) e (namespace_of (command_of s)) tool args n : M T string)
      (fun _ _ wt => ahead tool l (snd wt)) (fun _ _ wt => ahead tool l (snd wt)) s3 (w3, l3)) as Hd.
  { intros n s3 w3 l3 H3. unfold dispatch_or_block. destruct (unrecoverable e tool).
    { apply Hs; [apply block_recovery_saving|done|]. intros. by apply saving_ahead. }
    destruct (_ <=? _); [by apply saving_ahead|]. destruct (_ && _); [by apply saving_ahead|].
    eapply wp_mono; [by eapply dispatch_attempt_spec| |]; cbn; intros; by eapply saving_then_ahead. }
  destruct (needs_verification e tool); [|by apply Hd]. cbv zeta.
  apply wp_bind, Hs; [apply verify_receipt_saving|done|]. intros [text|] s3 w3 l3 H3; [|by apply Hd].
  apply wp_ret. by apply saving_ahead.
Qed.
End steps.

(** ** The recipient *)
(** What the recipient's receipt table promises: the transaction reads the
    committed receipt or the one it inserts, and only a commit publishes it. *)
Class RecipientTable (W : Type) `{Host W} := {
  stored : W -> string -> string -> option (string * value);
  insert_reads ns k fp request result w r w1 :
    receipt_insert ns k fp request result w = (Ok r, w1) ->
    r = default (fp, result) (stored w ns k) /\ (forall ns' k', stored w1 ns' k' = stored w ns' k')
    /\ forall w2, receipt_commit w1 = (Ok tt, w2) ->
         stored w2 ns k = Some r
         /\ forall ns' k', (ns', k') <> (ns, k) -> stored w2 ns' k' = stored w ns' k';
  insert_fails ns k fp request result w e w1 ns' k' :
    receipt_insert ns k fp request result w = (Err e, w1) -> stored w1 ns' k' = stored w ns' k';
  rollback_discards w ns k : stored (receipt_rollback w) ns k = stored w ns k
}.

Section recipient.
Context {W : Type} `{P : Platform} `{H : Host W} `{!RecipientTable W}.

Lemma recipient_ok ns key args out (w w' : W) :
  recipient ns key args w = (Ok out, w') ->
  exists fp res, payload idempotent_write recipient_target args = Ok fp
    /\ stored w' ns key = Some (fp, res) /\ canonical res = Ok out
    /\ (forall r, stored w ns key = Some r -> r = (fp, res))
    /\ forall ns' k', (ns', k') <> (ns, key) -> stored w' ns' k' = stored w ns' k'.
Proof.
  unfold recipient. destruct (payload _ _ args) as [fp|] eqn:Ep; [|done]. cbv zeta.
  destruct (receipt_insert _ _ _ _ _ w) as [[[st res]|e] w1] eqn:Ei; [|done].
  apply insert_reads in Ei as (Er & _ & Hc).
  destruct (String.eqb_spec st fp) as [->|]; cbn [negb]; [|done].
  destruct (receipt_commit w1) as [[[]|e] w2] eqn:Ec; [|done]. destruct (Hc w2 eq_refl) as [Hs Ho].
  intros [= Hout <-]. exists fp, res. split_and!; try done.
  intros r Hr. rewrite Hr in Er. by cbn in Er.
Qed.

Lemma recipient_mismatch ns key args fp fp0 res0 (w : W) r w' :
  stored w ns key = Some (fp0, res0) -> payload idempotent_write recipient_target args = Ok fp -> fp0 <> fp ->
  recipient ns key args w = (r, w') ->
  is_ok r = false /\ forall ns' k', stored w' ns' k' = stored w ns' k'.
Proof.
  intros Hs Hp Hne. unfold recipient. rewrite Hp. cbv zeta.
  destruct (receipt_insert _ _ _ _ _ w) as [[[st res]|e] w1] eqn:Ei.
  - apply insert_reads in Ei as (Er & Hw & _). rewrite Hs in Er. injection Er as -> ->.
    rewrite (proj2 (String.eqb_neq _ _) Hne). cbn [negb]. intros [= <- <-]. split; [done|].
    intros. by rewrite rollback_discards.
  - intros [= <- <-]. split; [done|]. intros. rewrite rollback_discards. by eapply insert_fails.
Qed.
End recipient.

(** ** The dispatch bound *)
(** The attempts counted on an execution stay within its policy. *)
Definition within_policy (e : value) : Prop :=
  i64_min <= attempts_of e <= Z.max 0 (max_attempts_of e).
Definition bounded (s : Session) : Prop := Forall within_policy (executions s).

Lemma index_set_other k k' x v : k <> k' -> index (set k' x v) k = index v k.
Proof.
  intros Hk. destruct v; try done; [|by apply index_set_ne].
  unfold index. cbn. by rewrite eqb_ne.
Qed.
Lemma within_policy_set k x e :
  k <> "attempts" -> k <> "policy" -> within_policy e -> within_policy (set k x e).
Proof.
  intros K1 K2. unfold within_policy, attempts_of, max_attempts_of. by rewrite !index_set_other.
Qed.
Lemma attempts_of_set z e : is_object e = true -> z <= i64_max -> attempts_of (set "attempts" (num z) e) = z.
Proof.
  intros Ho Hz. unfold attempts_of. rewrite index_set_eq by done. unfold num.
  destruct (Z.ltb_spec z 0); cbn; [done|]. by replace (z <=? i64_max) with true by lia.
Qed.
Lemma wrap64_le z : i64_min <= z -> wrap64 z <= z.
Proof.
  intros Hz. unfold wrap64. pose proof (Z.mod_le (z + 2 ^ 63) (2 ^ 64)) as Hm.
  unfold i64_min in Hz. specialize (Hm ltac:(lia) ltac:(lia)). lia.
Qed.
Lemma within_policy_attempt e : within_policy e -> is_object e = true -> attempts_of e < max_attempts_of e ->
  within_policy (set "attempts" (num (add64 (attempts_of e) 1)) (set "status" (Str "started") e)).
Proof.
  unfold within_policy, add64. intros Hw Ho Hlt. pose proof (wrap64_range (attempts_of e + 1)) as Hr.
  pose proof (wrap64_le (attempts_of e + 1) ltac:(lia)) as Hle.
  rewrite attempts_of_set; [|by apply is_object_set|lia].
  assert (max_attempts_of (set "attempts" (num (wrap64 (attempts_of e + 1))) (set "status" (Str "started") e))
    = max_attempts_of e) as -> by (unfold max_attempts_of; by rewrite !index_set_other).
  lia.
Qed.

Section bounded.
Context {W : Type} `{P : Platform} `{H : Host W} (config : Config).

Definition bounding (s s' : Session) : Prop := bounded s -> bounded s'.
#[local] Instance bounding_preorder : PreOrder bounding.
Proof. unfold bounding. split; [by intros ?|]. intros ? ? ? ? ?. tauto. Qed.

Lemma stage_bounded e s : within_policy e -> bounding s (stage_execution e s).
Proof.
  unfold bounding, bounded. cbn. intros He. induction 1 as [|v l Hv Hl IH]; cbn.
  - constructor; [done|constructor].
  - destruct (same_execution e v); constructor; done.
Qed.
Lemma modify_bounding f : (forall s, executions (f s) = executions s) -> keeps (W := W) bounding (modify f).
Proof. intros Hf. apply keeps_modify; [apply _|]. intros s. unfold bounding, bounded. by rewrite Hf. Qed.
#[local] Hint Resolve modify_bounding : frame.
#[local] Hint Extern 1 (forall s, executions _ = executions s) => reflexivity : frame.
Lemma audit_bounding k p : keeps (W := W) bounding (audit k p).
Proof. unfold audit, archive_record, uuid, transcript_timestamp. frame. Qed.
#[local] Hint Resolve audit_bounding : frame.
Lemma action_checkpoint_bounding e : keeps (W := W) bounding (action_checkpoint e).
Proof.
  unfold action_checkpoint, commit_outboxes, transcript_timestamp. frame.
  - intros s w r s' w'. unfold emit_event. cbn. destruct (emit e s w). by intros [= _ <- _].
  - intros s w r s' w' [= _ <- _]. unfold acknowledge_checkpoint, bounding, bounded.
    destruct (if checkpoint_ack s then _ else _); by intros.
Qed.
#[local] Hint Resolve action_checkpoint_bounding : frame.
Lemma stage_bounding e : within_policy e -> keeps (W := W) bounding (modify (stage_execution e)).
Proof. intros He. apply keeps_modify; [apply _|]. intros s. by apply stage_bounded. Qed.

(** Every computation below is stated over sessions that are within bounds. *)
Lemma wp_bounding {A} (m : M W A) (Q : A -> Session -> W -> Prop) s (w : W) :
  keeps bounding m -> bounded s -> (forall a s' w', bounded s' -> Q a s' w') ->
  wp m Q (fun _ s' _ => bounded s') s w.
Proof. intros Hm Hb HQ. eapply wp_keeps; [exact Hm| |]; unfold bounding; naive_solver. Qed.

Lemma policy_created call tool args (c : value) s u key fp :
  within_policy (let e := Object
    [("execution_id", Str u); ("run_id", of_opt_str (run_id s));
     ("command_id", of_opt_str (run_command_id s)); ("namespace", Str (namespace_of c));
     ("target", Str (target_of tool)); ("call_id", Str call); ("tool", Str tool); ("arguments", args);
     ("policy", policy_of config tool); ("idempotency_key", Str key); ("payload_sha256", Str fp);
     ("key_algorithm", Str "agent-action-v1"); ("attempts", num 0); ("status", Str "pending");
     ("result", Null)] in
   if String.eqb tool idempotent_write
   then set "recipient" (Object [("target", Str recipient_target); ("key_scope", Str "deployment");
                                 ("retention_seconds", Null); ("outcome_query", Bool true)]) e
   else e).
Proof.
  cbv zeta. destruct (String.eqb tool idempotent_write); [apply within_policy_set; [done..|]|];
    (split; [discriminate|apply Z.le_max_l]).
Qed.

Lemma open_execution_bounded c call tool args s (w : W) :
  bounded s ->
  wp (open_execution config c call tool args) (fun e s' _ => bounded s' /\ within_policy e)
    (fun _ s' _ => bounded s') s w.
Proof.
  intros Hb. unfold open_execution. wp_step. wp_step.
  destruct (find_first _ _) as [e|] eqn:Ef.
  { wp_step. split; [done|]. apply find_first_some in Ef as [Hin _]. unfold bounded in Hb.
    rewrite Forall_forall in Hb. by apply Hb. }
  unfold create_execution, uuid. apply wp_bind, wp_world. intros u w1 _. wp_step. wp_step. cbv zeta.
  wp_step. wp_step. destruct (action _ _ _) as [key|]; [|done].
  wp_step. wp_step. destruct (payload _ _ _) as [fp|]; [|done].
  pose proof (policy_created call tool args c s u key fp) as Hp. cbv zeta in Hp.
  match type of Hp with within_policy ?x => set (e := x) in * end.
  apply wp_bind, wp_bounding; [by apply stage_bounding|done|]. intros [] s2 w2 H2.
  apply wp_bind, wp_bounding; [apply audit_bounding|done|]. intros [] s3 w3 H3.
  apply wp_bind, wp_bounding; [apply action_checkpoint_bounding|done|]. intros [] s4 w4 H4.
  by apply wp_ret.
Qed.

Lemma push_attempt_bounding a : keeps (W := W) bounding (push_attempt a).
Proof. unfold push_attempt. frame. Qed.
Lemma timestamp_bounding : keeps (W := W) bounding transcript_timestamp.
Proof. unfold transcript_timestamp. frame. Qed.
#[local] Hint Resolve push_attempt_bounding timestamp_bounding : frame.
Lemma settle_former_bounding e : keeps (W := W) bounding (settle_former_attempts e).
Proof. unfold settle_former_attempts, settle_started. frame. Qed.
#[local] Hint Extern 3 (keeps _ (modify (stage_execution _))) => apply stage_bounding : frame.
#[local] Hint Resolve within_policy_set : frame.

Lemma verify_receipt_bounding c e ns n : within_policy e -> keeps (W := W) bounding (verify_receipt c e ns n).
Proof.
  intros He. unfold verify_receipt, unknown_receipt, uuid, world_result. frame.
  apply stage_bounding. by repeat apply within_policy_set.
Qed.
Lemma block_recovery_bounding e : within_policy e -> keeps (W := W) bounding (block_recovery e).
Proof. intros He. unfold block_recovery. frame. apply stage_bounding. by apply within_policy_set. Qed.
Lemma settle_known_bounding a e f r : within_policy e -> keeps (W := W) bounding (settle_known a e f r).
Proof. intros He. unfold settle_known. frame. apply stage_bounding. by repeat apply within_policy_set. Qed.
Lemma settle_unknown_bounding a e f r : within_policy e -> keeps (W := W) bounding (settle_unknown a e f r).
Proof. intros He. unfold settle_unknown. frame. apply stage_bounding. by apply within_policy_set. Qed.

Lemma dispatch_attempt_bounded c e ns tool args n s (w : W) :
  within_policy e -> is_object e = true -> attempts_of e < max_attempts_of e -> bounded s ->
  wp (dispatch_attempt c e ns tool args n) (fun _ s' _ => bounded s') (fun _ s' _ => bounded s') s w.
Proof.
  intros He Ho Hlt Hb. unfold dispatch_attempt. apply wp_bind.
  apply wp_mono with (Q := fun ae s' _ => bounded s' /\ within_policy (snd ae)) (E := fun _ s' _ => bounded s');
    [| |done].
  - unfold start_attempt. apply wp_bind, wp_bounding; [apply timestamp_bounding|done|]. intros now s1 w1 H1.
    unfold uuid. apply wp_bind, wp_world. intros u w2 _. wp_step. wp_step. cbv zeta.
    assert (within_policy (if is_none (get "started_at" (set "attempts" (num (add64 (attempts_of e) 1))
        (set "status" (Str "started") e)))
      then set "started_at" (Str now) (set "attempts" (num (add64 (attempts_of e) 1)) (set "status" (Str "started") e))
      else set "attempts" (num (add64 (attempts_of e) 1)) (set "status" (Str "started") e))) as He'.
    { pose proof (within_policy_attempt e He Ho Hlt). destruct (is_none _); [by apply within_policy_set|done]. }
    match type of He' with within_policy ?x => set (e' := x) in * end.
    apply wp_bind, wp_bounding; [apply push_attempt_bounding|done|]. intros [] s3 w3 H3.
    apply wp_bind, wp_bounding; [by apply stage_bounding|done|]. intros [] s4 w4 H4.
    apply wp_bind, wp_bounding; [apply audit_bounding|done|]. intros [] s5 w5 H5.
    apply wp_bind, wp_bounding; [apply action_checkpoint_bounding|done|]. intros [] s6 w6 H6.
    by apply wp_ret.
  - intros [a e'] s1 w1 [H1 He']. cbn in He'. unfold world_result. apply wp_bind, wp_world. intros r w2 _.
    apply wp_bind, wp_bounding; [apply timestamp_bounding|done|]. intros f s3 w3 H3.
    destruct r; (apply wp_bounding; [|done|done]); [by apply settle_known_bounding|by apply settle_unknown_bounding].
Qed.

Lemma dispatch_bounded call tool args s (w : W) :
  bounded s -> wp (dispatch config call tool args) (fun _ s' _ => bounded s') (fun _ s' _ => bounded s') s w.
Proof.
  intros Hb. unfold dispatch. wp_step. wp_step. cbv zeta. apply wp_bind.
  eapply wp_mono; [by apply open_execution_bounded| |done]. intros e s1 w1 [H1 He]. wp_step. wp_step. wp_step. wp_step.
  destruct (check_identity _ _ _ _ _) as [[]|] eqn:Ei; [|done].
  assert (is_object e = true) as Ho by (by apply check_identity_ok in Ei as [? _]).
  destruct (terminal e). { apply wp_lift. by destruct (ok_or _ _). }
  apply wp_bind, wp_bounding; [apply settle_former_bounding|done|]. intros [] s2 w2 H2.
  assert (forall n s3 w3, bounded s3 -> wp (dispatch_or_block (command_of s) e (namespace_of (command_of s)) tool args n)
    (fun _ s' (_ : W) => bounded s') (fun _ s' _ => bounded s') s3 w3) as Hd.
  { intros n s3 w3 H3. unfold dispatch_or_block.
    destruct (unrecoverable e tool). { apply wp_bounding; [by apply block_recovery_bounding|done|done]. }
    destruct (Z.leb_spec (max_attempts_of e) (attempts_of e)); [done|]. destruct (_ && _); [done|].
    apply dispatch_attempt_bounded; [done|done|lia|done]. }
  destruct (needs_verification e tool); [|by apply Hd]. cbv zeta.
  apply wp_bind, wp_bounding; [by apply verify_receipt_bounding|done|]. intros [text|] s3 w3 H3; [|by apply Hd].
  by apply wp_ret.
Qed.
End bounded.

(** * Properties *)
Section properties.
Context {W : Type} `{P : Platform} `{H : Host W} (config : Config).

(** C5: write-ahead.  On every path of a dispatch, errors included, whatever
    effect is performed comes after a committed checkpoint whose snapshot holds
    the action as started, with its frozen namespace, key and payload, and the
    started attempt; before and after it only checkpoints are made; and at most
    one receipt is written. *)
Theorem effects_follow_their_record call tool args s s' r (w w' : W) (l l' : list Trace) :
  dispatch config call tool args (s, (w, l)) = (r, (s', (w', l'))) ->
  exists t, l' = (l ++ t)%list /\ write_ahead tool t.
Proof.
  intros E. pose proof (dispatch_spec config call tool args s w l) as D. unfold wp in D.
  rewrite E in D. by destruct r.
Qed.


(** C22: the recipient applies an action at most once.  A success leaves one
    receipt under the key, for the payload of these arguments, and every other
    receipt alone; a receipt that was already there is returned unchanged. *)
Theorem recipient_applies_once `{!RecipientTable W} ns key args out (w w' : W) :
  recipient ns key args w = (Ok out, w') ->
  exists fp res, payload idempotent_write recipient_target args = Ok fp
    /\ stored w' ns key = Some (fp, res) /\ canonical res = Ok out
    /\ (forall r, stored w ns key = Some r -> r = (fp, res))
    /\ forall ns' k', (ns', k') <> (ns, key) -> stored w' ns' k' = stored w ns' k'.
Proof. apply recipient_ok. Qed.

(** C28: a key already used for another payload is refused and nothing changes
    at the recipient. *)
Theorem recipient_refuses_other_payload `{!RecipientTable W} ns key args fp fp0 res0 (w : W) r w' :
  stored w ns key = Some (fp0, res0) -> payload idempotent_write recipient_target args = Ok fp -> fp0 <> fp ->
  recipient ns key args w = (r, w') ->
  is_ok r = false /\ forall ns' k', stored w' ns' k' = stored w ns' k'.
Proof. apply recipient_mismatch. Qed.

(** C23: the number of attempts recorded on an action never exceeds the bound
    of its recovery policy, whatever the outcome of the dispatch. *)
Theorem dispatch_attempts_bounded call tool args s s' r (w w' : W) :
  dispatch config call tool args (s, w) = (r, (s', w')) ->
  Forall within_policy (executions s) -> Forall within_policy (executions s').
Proof.
  intros E Hb. pose proof (dispatch_bounded config call tool args s w Hb) as D. unfold wp in D.
  rewrite E in D. by destruct r.
Qed.
End properties.

(** ** On the recorded host *)
Definition sample_stored (w : World) (ns k : string) : option (string * value) := receipts w !! (ns, k).
Lemma sample_insert_reads ns k fp (request result : value) (w : World) r w1 :
  receipt_insert ns k fp request result w = (Ok r, w1) ->
  r = default (fp, result) (sample_stored w ns k)
  /\ (forall ns' k', sample_stored w1 ns' k' = sample_stored w ns' k')
  /\ forall w2, receipt_commit w1 = (Ok tt, w2) ->
       sample_stored w2 ns k = Some r
       /\ forall ns' k', (ns', k') <> (ns, k) -> sample_stored w2 ns' k' = sample_stored w ns' k'.
Proof.
  intros [= <- <-]. split_and!; [done|done|]. intros w2 [= <-]. unfold sample_stored. cbn. split.
  - by rewrite lookup_insert_eq.
  - intros ns' k' Hne. by rewrite lookup_insert_ne.
Qed.
#[export] Instance sample_table : RecipientTable World := {|
  stored := sample_stored;
  insert_reads := sample_insert_reads;
  insert_fails ns k fp request result w e w1 ns' k' H := ltac:(discriminate H);
  rollback_discards w ns k := eq_refl
|}.

Definition write_args : value := Object [("value", Str "v")].
Notation recorded_write := (recipient (P := sample_platform) "run" "key-1" write_args (quiet_world [])).
Definition written_text : string := match fst recorded_write with Ok t => t | Err _ => "" end.
Definition written_world : World := snd recorded_write.

Lemma recipient_applies_once_witness :
  exists res, stored written_world "run" "key-1" = Some ("sha256:89", res).
Proof.
  destruct (recipient_applies_once (P := sample_platform) "run" "key-1" write_args written_text
    (quiet_world []) written_world) as (fp & res & Hp & Hs & _).
  - vm_compute. reflexivity.
  - exists res. rewrite Hs. vm_compute in Hp. injection Hp as <-. reflexivity.
Defined.

Lemma recipient_refuses_other_payload_witness :
  stored (snd (recipient (P := sample_platform) "run" "key-1" (Object []) written_world)) "run" "key-1"
  = stored written_world "run" "key-1".
Proof.
  refine (proj2 (recipient_refuses_other_payload (P := sample_platform) "run" "key-1" (Object []) "sha256:78"
    "sha256:89" _ written_world _ _ _ _ _ _) "run" "key-1").
  - vm_compute. reflexivity.
  - vm_compute. reflexivity.
  - discriminate.
  - apply surjective_pairing.
Defined.

Notation recorded_dispatch :=
  (dispatch (P := sample_platform) (W := World * list Trace) sample_config "call_1" idempotent_write (Object [])
     (fresh_session, (quiet_world [], []))).
Definition dispatched : Session * (World * list Trace) := snd recorded_dispatch.

Lemma effects_follow_their_record_witness :
  is_ok (fst recorded_dispatch) = true
  /\ (exists t, snd (snd dispatched) = ([] ++ t)%list /\ write_ahead idempotent_write t).
Proof.
  split; [vm_compute; reflexivity|].
  apply (effects_follow_their_record (P := sample_platform) sample_config "call_1" idempotent_write (Object [])
    fresh_session (fst dispatched) (fst recorded_dispatch) (quiet_world []) (fst (snd dispatched)) []).
  unfold dispatched. destruct recorded_dispatch as [r [s' [w' l']]]. reflexivity.
Defined.

Definition settled_session : Session := fst dispatched.
Definition settled_execution : value :=
  unwrap_or (find_first (field_is "call_id" "call_1") (executions settled_session)) Null.

Lemma dispatch_attempts_bounded_witness :
  executions settled_session <> [] /\ Forall within_policy (executions settled_session).
Proof.
  split; [vm_compute; discriminate|].
  apply (dispatch_attempts_bounded (P := sample_platform) sample_config "call_1" idempotent_write (Object [])
    fresh_session settled_session (fst recorded_dispatch) (quiet_world [], []) (snd dispatched)).
  - unfold settled_session, dispatched. destruct recorded_dispatch as [r [s' wt']]. reflexivity.
  - constructor.
Defined.
