(* ===== verification/Cancel.v ===== *)
(** * A cancelled run takes no more action

    A client cancels a run by a flag on its row of the database; the run learns of
    it at its next checkpoint, which is refused.  [Section halting] shows for
    any host whose checkpoints are refused in this way that the engine then
    performs no effect and takes no further decision, whatever part of the run
    the cancellation meets: every effect comes after a checkpoint of its own.
    [Section server] shows that the checkpoints of a server are such: a
    recorded cancellation is never withdrawn, neither by the commits of the run
    nor by the other tasks and workers, and [emit_run] and [emit_stream] refuse
    every checkpoint once it is there. *)
From S2P Require Import Prelude Text Json Encoding Session Logic Context Diagnostics Prompt Tools Checkpoint Workflow Actions Wire Compaction Store StoreLogic Rows Snapshot Http Config Retention Requests Commit CommitFacts SaveFacts Responses Handlers Run Server Stream Service Frames WorldFrame Invariant Sample Authority Dispatch.
Local Open Scope string_scope.
Local Open Scope Z_scope.

(** The run of a session. *)
Definition naming (s s' : Session) : Prop := id s' = id s /\ run_id s' = run_id s.
#[export] Instance naming_preorder : PreOrder naming.
Proof. unfold naming. split; [done|]. intros ? ? ? [? ?] [? ?]. split; congruence. Qed.
Lemma working_naming {W A} (m : M W A) : keeps working m -> keeps naming m.
Proof. apply keeps_weaken. by intros s s' (? & ? & _). Qed.

(** ** The engine *)
Section halting.
Context {W : Type} `{P : Platform} `{H : Host W} (config : Config) (standing : Session -> W -> Prop).
Notation T := (W * list Trace)%type.
Hypothesis same_run : forall s s' w, naming s s' -> standing s w -> standing s' w.
Hypothesis refuses : forall e s w, standing s w -> is_err (fst (emit e s w)) = true.
Hypothesis lasting : host_steps (fun w w' => forall s, standing s w -> standing s w').

(** Only checkpoints are logged from a standing cancellation on. *)
Definition halted (a b : Session * T) : Prop := standing (fst a) (fst (snd a)) ->
  standing (fst b) (fst (snd b)) /\ grows is_saved (snd (snd a)) (snd (snd b)).
#[local] Instance halted_preorder : PreOrder halted.
Proof.
  split; [intros a Ha; split; [exact Ha|reflexivity]|]. intros a b c H1 H2 Ha.
  destruct (H1 Ha) as [Hb L1]. destruct (H2 Hb) as [Hc L2]. split; [done|by etrans].
Qed.
(** A computation that fails under it. *)
Definition stopped {A} (m : M T A) : Prop := moves halted m
  /\ forall sw r sw', m sw = (r, sw') -> standing (fst sw) (fst (snd sw)) -> is_err r = true.

Lemma stopped_bind {A C} (m : M T A) (f : A -> M T C) : moves halted m -> (forall a, stopped (f a)) -> stopped (m ≫= f).
Proof using All.
  intros Hm Hf. split; [apply (moves_bind halted); [done|intros a; apply Hf]|].
  intros sw r sw'. rewrite bind_run. destruct (m sw) as [[a|e] sw1] eqn:E; [|by intros [= <- _]].
  intros E1 Hs. apply Hm in E. destruct (E Hs) as [Hs1 _]. by eapply (proj2 (Hf a)).
Qed.
Lemma stopped_first {A C} (m : M T A) (f : A -> M T C) : stopped m -> stopped (m ≫= f).
Proof using All.
  intros [Hm He]. assert (forall sw r sw', (m ≫= f) sw = (r, sw') -> standing (fst sw) (fst (snd sw)) ->
    is_err r = true /\ halted sw sw') as Hb.
  { intros sw r sw'. rewrite bind_run. destruct (m sw) as [[a|e] sw1] eqn:E; intros E1 Hs;
      pose proof (He _ _ _ E Hs) as Hr; [done|]. injection E1 as <- <-. split; [done|by eapply Hm]. }
  split; [intros sw r sw' E Hs; by apply (Hb _ _ _ E)|]. intros sw r sw' E Hs. by eapply Hb.
Qed.
Lemma stopped_halted {A} (m : M T A) : stopped m -> moves halted m.
Proof. by intros []. Qed.

(** *** What neither logs nor renames *)
Definition mild (a b : T) : Prop := (forall s, standing s (fst a) -> standing s (fst b)) /\ snd b = snd a.
#[local] Instance mild_preorder : PreOrder mild.
Proof. unfold mild. split; [done|]. intros a b c [H1 E1] [H2 E2]. split; [auto|congruence]. Qed.
Lemma mild_world {A} (f : W -> A * W) : (forall w s, standing s w -> standing s (snd (f w))) ->
  forall wt, mild wt (snd (on_world f wt)).
Proof using All. intros Hf [w l]. unfold on_world, mild. cbn. specialize (Hf w). by destruct (f w). Qed.
Lemma mild_steps : engine_steps (H := traced_host) mild.
Proof using All.
  pose proof (step_engine _ lasting) as [H1 H2 H3 H4 H5].
  split; intros; try (apply mild_world; auto). split; [intros s; apply H5|done].
Qed.
Lemma halted_mild {A} (m : M T A) : keeps naming m -> moves (over mild) m -> moves halted m.
Proof using All.
  intros Hk Hm [s wt] r [s' wt'] E Hs. destruct (Hm _ _ _ E) as [H1 E1]. apply Hk in E. cbn in *.
  split; [eapply same_run; [done|auto]|]. by rewrite E1.
Qed.
Lemma halted_modify f : (forall s, naming s (f s)) -> moves halted (modify (W := T) f).
Proof using All. intros Hf. apply halted_mild; [by apply keeps_modify; [apply _|]|by apply safe_modify; apply _]. Qed.
#[local] Hint Extern 1 (moves halted (modify _)) => apply halted_modify; intros; repeat case_match; done : moves.
Lemma halted_world {A} (f : W -> A * W) : (forall w s, standing s w -> standing s (snd (f w))) ->
  moves halted (world (on_world f) : M T A).
Proof using All.
  intros Hf. apply halted_mild; [apply keeps_world; apply _|]. apply safe_world; [apply _|]. by apply mild_world.
Qed.
#[local] Hint Resolve working_naming keeps_quiet_working keeps_calm_working keeps_compacting_working : frame.
Lemma uuid_halted : moves halted (uuid (W := T)).
Proof using All. apply halted_mild; [frame|apply uuid_safe; [apply _|apply mild_steps]]. Qed.
Lemma timestamp_halted : moves halted (transcript_timestamp (W := T)).
Proof using All. apply halted_mild; [frame|apply timestamp_safe; [apply _|apply mild_steps]]. Qed.
Lemma archive_halted k v : moves halted (archive_record (W := T) k v).
Proof using All. apply halted_mild; [frame|apply archive_record_safe; [apply _|apply mild_steps]]. Qed.
Lemma append_message_halted m : moves halted (append_message (W := T) m).
Proof using All. apply halted_mild; [frame|apply append_message_safe; [apply _|apply mild_steps]]. Qed.
Lemma stage_halted : moves halted (stage (W := T)).
Proof using All. apply halted_mild; [frame|apply stage_safe; [apply _|apply mild_steps]]. Qed.
Lemma decide_halted ms : moves halted (decide (W := T) config ms).
Proof using All. apply halted_mild; [frame|apply decide_safe; [apply _|apply mild_steps]]. Qed.
Lemma compact_halted : moves halted (compact (W := T) config).
Proof using All. apply halted_mild; [frame|apply compact_safe; [apply _|apply mild_steps]]. Qed.
Lemma commit_outboxes_halted : moves halted (commit_outboxes (W := T)).
Proof using All.
  apply halted_mild; [frame|]. apply safe_same; [apply _|apply commit_worldless].
Qed.
#[local] Hint Resolve uuid_halted timestamp_halted archive_halted append_message_halted stage_halted decide_halted
  compact_halted commit_outboxes_halted : moves.

(** *** Checkpoints *)
Lemma emit_stopped e : stopped (emit_event (W := T) e).
Proof using All.
  assert (forall sw r sw', emit_event (W := T) e sw = (r, sw') -> standing (fst sw) (fst (snd sw)) ->
    is_err r = true /\ halted sw sw') as He.
  { intros [s [w l]] r [s' [w' l']] E Hs. revert E. unfold emit_event. cbn. unfold logging. cbn.
    pose proof (refuses e s w Hs) as Hr. pose proof (step_emit _ lasting e s w s Hs) as Hl.
    destruct (emit e s w) as [x w1]. intros [= <- <- <- <-]. split; [exact Hr|].
    intros _. split; [exact Hl|by apply grows_one]. }
  split; [intros sw r sw' E Hs; by apply (He _ _ _ E)|]. intros sw r sw' E Hs. by eapply He.
Qed.
Lemma action_checkpoint_stopped e : stopped (action_checkpoint (W := T) e).
Proof using All.
  unfold action_checkpoint. apply stopped_bind; [moves|intros b]. apply stopped_bind; [moves|intros _].
  apply stopped_first, emit_stopped.
Qed.
Lemma checkpoint_stopped e : stopped (checkpoint (W := T) e).
Proof using All.
  unfold checkpoint. apply stopped_bind; [moves|intros b]. apply stopped_bind; [moves|intros _].
  - apply halted_modify. intros s. unfold settle_run. by case_ifs.
  - apply stopped_bind; [moves|intros _]. apply stopped_first, emit_stopped.
Qed.
Lemma action_checkpoint_halted e : moves halted (action_checkpoint (W := T) e).
Proof using All. apply stopped_halted, action_checkpoint_stopped. Qed.
Lemma checkpoint_halted e : moves halted (checkpoint (W := T) e).
Proof using All. apply stopped_halted, checkpoint_stopped. Qed.
#[local] Hint Resolve action_checkpoint_halted checkpoint_halted : moves.

(** *** Actions *)
Lemma push_attempt_halted a : moves halted (push_attempt (W := T) a).
Proof using All. unfold push_attempt. moves. Qed.
Lemma audit_halted k v : moves halted (audit (W := T) k v).
Proof using All. apply archive_halted. Qed.
#[local] Hint Resolve push_attempt_halted audit_halted : moves.
Lemma open_execution_halted c call tool args : moves halted (open_execution (W := T) config c call tool args).
Proof using All. unfold open_execution, create_execution. moves. Qed.
Lemma settle_former_halted e : moves halted (settle_former_attempts (W := T) e).
Proof using All. unfold settle_former_attempts, settle_started. moves. Qed.
Lemma query_receipt_halted ns key : moves halted (world_result (receipt_query (W := T) ns key)).
Proof using All. apply halted_world. intros w. apply (step_query _ lasting). Qed.
#[local] Hint Resolve query_receipt_halted : moves.
Lemma verify_receipt_halted c e ns n : moves halted (verify_receipt (W := T) c e ns n).
Proof using All. unfold verify_receipt, unknown_receipt. moves. Qed.
Lemma block_recovery_halted e : moves halted (block_recovery (W := T) e).
Proof using All. unfold block_recovery. moves. Qed.
#[local] Hint Resolve open_execution_halted settle_former_halted verify_receipt_halted block_recovery_halted : moves.
Lemma start_attempt_stopped c e n : stopped (start_attempt (W := T) c e n).
Proof using All.
  unfold start_attempt. do 6 (apply stopped_bind; [moves|intros ?]). apply stopped_first, action_checkpoint_stopped.
Qed.
(** The effect is never reached. *)
Lemma dispatch_attempt_halted c e ns tool args n : moves halted (dispatch_attempt (W := T) c e ns tool args n).
Proof using All. apply stopped_halted, stopped_first, start_attempt_stopped. Qed.
#[local] Hint Resolve dispatch_attempt_halted : moves.
Lemma dispatch_or_block_halted c e ns tool args n : moves halted (dispatch_or_block (W := T) c e ns tool args n).
Proof using All. unfold dispatch_or_block. moves. Qed.
#[local] Hint Resolve dispatch_or_block_halted : moves.
Lemma dispatch_halted call tool args : moves halted (dispatch (W := T) config call tool args).
Proof using All. unfold dispatch. moves. Qed.
#[local] Hint Resolve dispatch_halted : moves.

(** *** The run *)
Lemma absorb_halted c n a o : moves halted (modify (W := T) (absorb config c n a o)).
Proof using All.
  apply halted_modify. intros s. destruct (absorb_absorbed config c n a o s) as (? & ? & _). by split.
Qed.
#[local] Hint Resolve absorb_halted : moves.
Lemma settle_call_halted ph call : moves halted (settle_call (W := T) config ph call).
Proof using All. unfold settle_call, append_correlated_tool_result. moves. Qed.
#[local] Hint Resolve settle_call_halted : moves.
Lemma settle_calls_halted fuel ph b : moves halted (settle_calls (W := T) config fuel ph b).
Proof using All. revert b. induction fuel; intros; cbn [settle_calls]; moves; auto. Qed.
Lemma step_invalid_halted : moves halted (step_invalid (W := T) config).
Proof using All.
  apply halted_mild; [frame|]. apply safe_same; [apply _|].
  intros [s w] r sw'. unfold step_invalid. destruct (increment_invalid _ _). by intros [= _ <-].
Qed.
#[local] Hint Resolve settle_calls_halted step_invalid_halted : moves.
Lemma report_limit_halted b : moves halted (report_limit (W := T) b).
Proof using All. unfold report_limit. moves. Qed.
Lemma observe_progress_halted b : moves halted (observe_progress (W := T) config b).
Proof using All. unfold observe_progress. moves. Qed.
#[local] Hint Resolve report_limit_halted observe_progress_halted : moves.
Lemma settle_pending_halted : moves halted (settle_pending (W := T) config).
Proof using All. unfold settle_pending. moves. Qed.
Lemma report_diagnostics_halted ds : moves halted (report_diagnostics (W := T) ds).
Proof using All. unfold report_diagnostics. moves. Qed.
#[local] Hint Resolve settle_pending_halted report_diagnostics_halted : moves.
Lemma renew_calls_halted known calls : moves halted (renew_calls (W := T) known calls).
Proof using All. induction calls; cbn [renew_calls]; moves; auto. Qed.
Lemma query_historical_halted session ids : moves halted (query_historical (W := T) session ids).
Proof using All.
  unfold query_historical, world_result. apply moves_bind; [apply _| |intros ?; moves].
  apply halted_world. intros w. apply (step_calls _ lasting).
Qed.
#[local] Hint Resolve renew_calls_halted query_historical_halted : moves.
Lemma handle_invalid_halted d b : moves halted (handle_invalid (W := T) config d b).
Proof using All. unfold handle_invalid. moves. Qed.
Lemma handle_final_halted d b : moves halted (handle_final (W := T) config d b).
Proof using All. unfold handle_final. moves. Qed.
Lemma handle_tools_halted d b : moves halted (handle_tools (W := T) config d b).
Proof using All. unfold handle_tools. moves. Qed.
#[local] Hint Resolve handle_invalid_halted handle_final_halted handle_tools_halted : moves.
Lemma take_decision_halted : moves halted (take_decision (W := T) config).
Proof using All. unfold take_decision. moves. Qed.
Lemma advance_phase_halted : moves halted (advance_phase (W := T) config).
Proof using All.
  unfold advance_phase. apply moves_bind; [apply _| |intros [t|]; moves]. apply halted_mild.
  - apply working_naming. intros s w r s' w'. cbn [fst snd]. pose proof (advance_working config s) as Ha.
    destruct (advance config s). by intros [= _ <- _].
  - apply safe_same; [apply _|]. intros [s w] r sw'. cbn [fst snd]. destruct (advance config s). by intros [= _ <-].
Qed.
Lemma compact_step_halted : moves halted (compact_step (W := T) config).
Proof using All. unfold compact_step. moves. Qed.
#[local] Hint Resolve take_decision_halted advance_phase_halted compact_step_halted : moves.
Lemma run_loop_halted fuel limit : moves halted (run_loop (W := T) config fuel limit).
Proof using All. induction fuel; cbn [run_loop]; moves; auto. Qed.
(** An iteration ends before the next decision. *)
Lemma run_loop_counts fuel limit s wt r s' wt' : standing s (fst wt) ->
  run_loop (W := T) config fuel limit (s, wt) = (r, (s', wt')) -> step_count s' = step_count s.
Proof using All.
  intros Hs. destruct fuel as [|fuel]; cbn [run_loop]; [by intros [= _ <- _]|].
  rewrite bind_run, get_session_run. destruct (negb _); [by intros [= _ <- _]|].
  rewrite bind_run. destruct (advance_phase config (s, wt)) as [x1 [s1 wt1]] eqn:E1.
  apply (advance_phase_halted) in E1 as H1. destruct (H1 Hs) as [Hs1 _].
  apply advance_phase_working in E1 as (_ & _ & _ & N1 & _).
  destruct x1 as [[]|e]; [|by intros [= _ <- _]].
  rewrite bind_run. destruct (compact_step config (s1, wt1)) as [x2 [s2 wt2]] eqn:E2.
  apply (compact_step_halted) in E2 as H2. destruct (H2 Hs1) as [Hs2 _].
  apply compact_step_working in E2 as (_ & _ & _ & N2 & _).
  destruct x2 as [[]|e]; [intros [= _ <- _]; congruence| |intros [= _ <- _]; congruence].
  rewrite bind_run, gets_run, bind_run. destruct (checkpoint _ (s2, wt2)) as [x3 [s3 wt3]] eqn:E3.
  pose proof (proj2 (checkpoint_stopped _) _ _ _ E3 Hs2) as Hr.
  apply (keeps_quiet_working _ (checkpoint_quiet _)) in E3 as (_ & _ & _ & N3 & _).
  destruct x3 as [[]|e]; [done|]. intros [= _ <- _]. congruence.
Qed.
End halting.

(** ** The commits of a run *)
Section commits.
Context `{P : Platform} `{B : Backend} `{F : Files} `{Sr : Serde}.

(** A commit leaves the session the one it was, and its run too. *)
Notation kept m := (tkeeps (same_on names_of) m).
#[local] Hint Resolve core_names parse_uuid_core append_event_core final_fence_core guard_core check_previous_core
  commit_transcript_names commit_records_names : tframe.
Lemma seal_names i cid kid fp c config e rev_ : kept (commit_seal i cid kid fp c config e rev_).
Proof.
  unfold commit_seal, answer_command, finish. tframe.
  intros sd r sd'. destruct (store_session _ _ _ _ _ _ _). by intros [= _ <-].
Qed.
Lemma commit_new_names i cid kid fp c config e p : kept (commit_new i cid kid fp c config e p).
Proof. pose proof seal_names. unfold commit_new. cbv zeta. tframe. Qed.
#[local] Hint Resolve commit_new_names : tframe.
Lemma commit_body_names i cid fp config e : kept (commit_body i cid fp config e).
Proof. unfold commit_body, revision_of. tframe. Qed.
Lemma transaction_names {A} (m : T A) : kept m -> kept (transaction m).
Proof.
  intros Hm [s d] r sd'. unfold transaction. cbn [fst snd]. destruct (m (s, intervene d)) as [x [s1 d1]] eqn:E.
  apply Hm in E. unfold same_on, names_of in *. cbn in E. destruct x; [destruct (network _)|]; by intros [= _ <-].
Qed.
Lemma prepared_names s d s' d' : prepared (s, d) (s', d') -> names s' = names s.
Proof. intros [E _]. apply names_identity. cbn in E. unfold anchor_of in E. congruence. Qed.
Lemma stage_transcript_names : kept (engine Protocol stage_transcript).
Proof. intros [s d] r [s' d'] E. eapply moves_engine in E; [|apply stage_transcript_prepared]. exact (prepared_names _ _ _ _ E). Qed.
Lemma settle_commit_names x s : names (settle_commit x s) = names s.
Proof. by destruct x. Qed.
#[local] Hint Resolve stage_transcript_names transaction_names commit_body_names : tframe.
Lemma save_inner_names config e : kept (save_inner config e).
Proof. unfold save_inner. tframe. apply tkeeps_update. intros s d. apply settle_commit_names. Qed.
Lemma attempt_save_names n staged config e sd r s' d' :
  attempt_save n staged config e sd = (r, (s', d')) -> names s' = names staged.
Proof.
  revert sd. induction n as [|n IH]; intros sd; cbn [attempt_save];
    destruct (save_inner config e (staged, snd sd)) as [[x|x] [s1 d1]] eqn:E; pose proof (save_inner_names _ _ _ _ _ E) as E1;
    unfold same_on, names_of in E1; cbn in E1; try by intros [= _ <- _].
  destruct (is_transient x); [apply IH|by intros [= _ <- _]].
Qed.
Lemma save_names text config e s d r s' d' : save text config e (s, d) = (r, (s', d')) -> names s' = names s.
Proof.
  intros [[Hp _]|(staged & d1 & Hp & _ & _ & E)]%save_run; [by eapply prepared_names|].
  apply prepared_names in Hp. rewrite <- Hp. unfold conclude_save in E.
  destruct (attempt_save 2 staged config e (staged, d1)) as [[x|x] [s2 d2]] eqn:E2; apply attempt_save_names in E2 as E3;
    injection E as _ <- _; [by rewrite <- E3|by rewrite <- E3].
Qed.
Lemma save_run_id text config e s d r s' d' : save text config e (s, d) = (r, (s', d')) -> naming s s'.
Proof. intros E%save_names. unfold names in E. split; congruence. Qed.
End commits.

(** ** The checkpoints of a server *)
(** The cancellation of the session's run is recorded. *)
Definition cancelled `{B : Backend} (s : Session) (d : Db) : Prop := exists run i k, run_id s = Some run
  /\ uuid_cast (id s) = Some i /\ uuid_cast run = Some k /\ (i, k) ∈ cancelled_runs d.
Lemma cancelled_named `{B : Backend} s s' d : naming s s' -> cancelled s d -> cancelled s' d.
Proof. intros [E1 E2] (run & i & k & H). exists run, i, k. by rewrite E1, E2. Qed.
Lemma host_steps_weaken {W} `{H : Host W} (R R' : W -> W -> Prop) :
  (forall w w', R w w' -> R' w w') -> host_steps R -> host_steps R'.
Proof. intros Hw [[] ]. split; [split|..]; auto. Qed.

Section server.
Context `{P : Platform} `{B : Backend} {Ho : FaithfulOthers B} `{F : Files} `{Sr : Serde} `{Sc : Schedule}
  {X : Type} `{HX : Host X}.
Variable text : db_error -> string.
Hypothesis readers : forall x u v, uuid_parse x = Some u -> uuid_cast x = Some v -> u = v.
Hypothesis others_faithful : forall n d, faithful d (others n d).

Definition standing (s : Session) (w : RunWorld X) : Prop := all_numbered (tables_of w) /\ cancelled s (tables_of w).
Lemma standing_named s s' w : naming s s' -> standing s w -> standing s' w.
Proof using. intros Hn [H1 H2]. split; [done|by eapply cancelled_named]. Qed.
Lemma faithful_standing w w' s : server_faithful w w' -> standing s w -> standing s w'.
Proof using.
  intros Hf [Hn (run & i & k & H1 & H2 & H3 & H4)]. destruct (Hf Hn) as [Hn' K]. split; [done|].
  exists run, i, k. split_and!; [done..|]. by apply (kept_cancels _ _ K).
Qed.

(** A query of one statement sees the tables as the others have left them. *)
Lemma query_sees {A} (g : Db -> A) s d r sd' : statement (fun _ d => (g d, d)) (s, d) = (r, sd') ->
  (exists d1, same_tables (intervene d) d1 /\ r = Ok (g d1)) \/ exists e, r = Err e.
Proof using.
  destruct sd' as [s' d']. intros [[_ He]|(a & d1 & E & _ & [->|He])]%transaction_cases; [by right| |by right].
  left. injection E as <- _ _. eexists. split; [|done]. apply same_tables_iff. by destruct (intervene d).
Qed.
Lemma intervene_cancelled s d : all_numbered d -> cancelled s d -> cancelled s (intervene d).
Proof using Ho.
  intros Hn (run & i & k & H1 & H2 & H3 & H4). exists run, i, k. split_and!; [done..|].
  by apply (kept_cancels _ _ (proj2 (intervene_faithful d Hn))).
Qed.
Lemma same_cancelled s d d' : same_tables d d' -> cancelled s d -> cancelled s d'.
Proof using.
  rewrite same_tables_iff. intros (_ & _ & _ & _ & _ & E & _) (run & i & k & H1 & H2 & H3 & H4).
  exists run, i, k. by rewrite (cancelled_same d d').
Qed.
Lemma cancel_requested_seen s run w : standing s w -> run_id s = Some run ->
  fst (query text (cancel_requested (id s) run) w) = Ok true \/ is_err (fst (query text (cancel_requested (id s) run) w)) = true.
Proof using Ho.
  intros [Hn Hc] Hr. pose proof (intervene_cancelled _ _ Hn Hc) as Hi.
  destruct Hc as (run' & i & k & H1 & H2 & H3 & _). rewrite Hr in H1. injection H1 as <-.
  unfold query, tables_only. destruct (cancel_requested (id s) run (no_session, tables_of w)) as [r [s1 d1]] eqn:E. cbn [fst].
  unfold cancel_requested, bind_key, bind_uuid in E. rewrite H2, H3 in E. cbn in E.
  unfold mbind, T_bind, from_result in E. cbn in E.
  match type of E with context [statement ?f (no_session, tables_of w)] =>
    destruct (statement f (no_session, tables_of w)) as [x [s2 d2]] eqn:E2 end.
  eapply query_sees in E2 as [(d3 & Hs & ->)|[e ->]]; [|injection E as <- _ _; by right].
  apply (same_cancelled _ _ _ Hs) in Hi as (run' & i' & k' & H1' & H2' & H3' & H4').
  rewrite Hr in H1'. injection H1' as <-. rewrite H2 in H2'. injection H2' as <-. rewrite H3 in H3'. injection H3' as <-.
  apply cancelled_runs_spec in H4' as (row & Hrow & Hflag). rewrite Hrow in E. cbn in E. injection E as <- _ _.
  left. cbn. by rewrite Hflag.
Qed.
Lemma stream_cancelled_seen s run w : standing s w -> run_id s = Some run ->
  fst (query text (stream_cancelled run) w) = Ok true \/ is_err (fst (query text (stream_cancelled run) w)) = true.
Proof using Ho.
  intros [Hn Hc] Hr. pose proof (intervene_cancelled _ _ Hn Hc) as Hi.
  destruct Hc as (run' & i & k & H1 & H2 & H3 & _). rewrite Hr in H1. injection H1 as <-.
  unfold query, tables_only. destruct (stream_cancelled run (no_session, tables_of w)) as [r [s1 d1]] eqn:E. cbn [fst].
  unfold stream_cancelled, bind_key, bind_uuid in E. rewrite H3 in E. cbn in E.
  unfold mbind, T_bind, from_result in E. cbn in E.
  eapply query_sees in E as [(d3 & Hs & ->)|[e ->]]; [|by right]. left. cbn. f_equal.
  apply (same_cancelled _ _ _ Hs) in Hi as (run' & i' & k' & H1' & H2' & H3' & H4').
  rewrite Hr in H1'. injection H1' as <-. rewrite H3 in H3'. injection H3' as <-.
  apply cancelled_runs_spec in H4' as (row & Hrow & Hflag). apply existsb_exists. exists ((i', k), row).
  split; [apply list_elem_of_In; by apply elem_of_map_to_list|]. cbn. by rewrite String.eqb_refl.
Qed.
(** The session that was committed is the one whose run is looked up. *)
Lemma checkpoint_standing c e s w s' w' : standing s w -> save_checkpoint text c e s w = (Ok s', w') -> standing s' w'.
Proof using Ho readers others_faithful.
  intros Hs E. pose proof (qsafe_checkpoint readers text others_faithful c e s w) as Hf. rewrite E in Hf.
  eapply standing_named; [|by eapply faithful_standing]. unfold save_checkpoint in E.
  destruct (save text c e _) as [[ack|x] [s1 d1]] eqn:E1; [|done]. injection E as <- _.
  apply save_run_id in E1. exact E1.
Qed.
Lemma emit_run_refuses c e s w : standing s w -> is_err (fst (emit_run text c e s w)) = true.
Proof using Ho readers others_faithful.
  intros Hs. unfold emit_run, mbind, Db_bind. destruct (save_checkpoint text c e s w) as [[s1|x] w1] eqn:E; [|done].
  apply (checkpoint_standing _ _ _ _ _ _ Hs) in E as H1. pose proof H1 as (_ & run & _ & _ & Hr & _). rewrite Hr.
  pose proof (cancel_requested_seen s1 run w1 H1 Hr) as Hq.
  destruct (query text (cancel_requested (id s1) run) w1) as [r w2]. cbn in Hq. destruct Hq as [->|Hq]; [done|by destruct r].
Qed.
Lemma emit_stream_refuses c e s w : standing s w -> is_err (fst (emit_stream text c e s w)) = true.
Proof using Ho readers others_faithful.
  intros Hs. unfold emit_stream, mbind, Db_bind. destruct (save_checkpoint text c e s w) as [[s1|x] w1] eqn:E; [|done].
  apply (checkpoint_standing _ _ _ _ _ _ Hs) in E as H1. pose proof H1 as (_ & run & _ & _ & Hr & _). rewrite Hr.
  pose proof (stream_cancelled_seen s1 run w1 H1 Hr) as Hq.
  destruct (query text (stream_cancelled run) w1) as [r w2]. cbn in Hq. destruct Hq as [->|Hq]; [done|by destruct r].
Qed.
Lemma host_lasting emit_ : (forall e s, qsafe (emit_ e s)) ->
  host_steps (H := run_host text emit_) (fun w w' => forall s, standing s w -> standing s w').
Proof using Ho.
  intros He. eapply host_steps_weaken; [|by apply (host_faithful text emit_)].
  intros w w' Hf s. by apply faithful_standing.
Qed.
End server.

(** * Properties *)
Section properties.
Context `{P : Platform} `{B : Backend} `{F : Files} `{Sr : Serde} `{Sc : Schedule} {X : Type} `{HX : Host X}.

#[local] Notation logged_host text emit_ := (traced_host (H := run_host text emit_)).

(** C6: once the cancellation of a run is recorded, the run takes no more action,
    whatever the network, the other tasks and the other processes do: each of
    its checkpoints is refused, for a run and for a stream alike; the rest of a batch
    of tool calls, of a decision and of the loop performs no effect and leaves the
    cancellation recorded; and the loop takes no further decision. *)
Theorem cancelled_run_acts_no_more text env emit_ c config fuel limit s (w : RunWorld X) l :
  readers_agree -> others_are_tasks text env -> emit_ = emit_run text c \/ emit_ = emit_stream text c ->
  all_numbered (tables_of w) -> cancelled s (tables_of w) ->
  (forall e, is_err (fst (emit_ e s w)) = true)
  /\ (forall m : M (RunWorld X * list Trace) unit, m ∈ [settle_pending (H := logged_host text emit_) config;
           take_decision (H := logged_host text emit_) config; run_loop (H := logged_host text emit_) config fuel limit] ->
       forall r s' w' l', m (s, (w, l)) = (r, (s', (w', l'))) -> cancelled s' (tables_of w') /\ grows is_saved l l')
  /\ (forall r s' wt', run_loop (H := logged_host text emit_) config fuel limit (s, (w, l)) = (r, (s', wt')) ->
       step_count s' = step_count s).
Proof.
  intros Hu Ht He Hn Hc. pose proof (others_are_faithful Hu text env Ht) as Ho.
  assert (forall n d, faithful d (others n d)) as Hout by (intros; by eapply tasks_faithful, (proj1 Ht)).
  assert (forall e s, qsafe (emit_ e s)) as Hq
    by (intros; destruct He as [-> | ->]; [by apply emit_run_safe|by apply emit_stream_safe]).
  assert (forall e s w, standing s w -> is_err (fst (emit_ e s w)) = true) as Hr
    by (intros; destruct He as [-> | ->]; [by apply emit_run_refuses|by apply emit_stream_refuses]).
  pose proof (host_lasting text emit_ Hq) as Hl. assert (standing s w) as Hs by by split.
  split; [intros e; by apply Hr|]. split.
  - intros m Hm r s' w' l' E. assert (moves (halted standing) m) as Hh.
    { rewrite !elem_of_cons, elem_of_nil in Hm. destruct Hm as [->|[->|[->|[]]]].
      - by apply (settle_pending_halted (H := run_host text emit_) config standing standing_named Hr Hl).
      - by apply (take_decision_halted (H := run_host text emit_) config standing standing_named Hr Hl).
      - by apply (run_loop_halted (H := run_host text emit_) config standing standing_named Hr Hl). }
    destruct (Hh _ _ _ E Hs) as [[_ H1] H2]. by split.
  - intros r s' wt' E. by apply (run_loop_counts (H := run_host text emit_) config standing standing_named Hr Hl fuel limit s (w, l) r s' wt' Hs E).
Qed.
End properties.

(** ** On the small database *)
(** A run in the middle of a batch, whose cancellation was requested. *)
Definition write_call : value :=
  Object [("id", Str "call_1"); ("name", Str idempotent_write); ("arguments", Object [("value", Str "v")])].
Definition running_session : Session :=
  created_session <| run_id := Some "run-1" |> <| run_status := "running" |> <| run_started_at := Some "t0" |>
    <| pending_tool_calls := [write_call] |>.
Definition running_row : RunRow := {|
  run_owner := "session-1"; run_fence := 0; run_row_status := "running"; run_row_started_at := "t0";
  run_row_ended_at := None; run_row_reason := None; run_last_step := 0; run_cancel_requested := false;
  run_metadata := Null; run_command := None |}.
Definition running_db : Db := upsert_run ("session-1", "run-1") running_row admitted_db.
Definition stopped_db : Db := snd (request_cancel (is_run "session-1" (Some "run-1")) running_db).
Definition world_on (d : Db) : RunWorld World := {|
  server := {| db := d; held_locks := ∅; outside := quiet_world [] |};
  run_revision := 0; run_ack := empty_ack; run_sent := ([], 0%nat); checkpoints := 0 |}.
Definition alone : Schedule := {| others n d := d; connected n := true |}.
Notation sample_emit := (emit_run (P := sample_platform) (B := lossy_backend 0) (F := store_files) (Sr := next_serde)
  (Sc := alone) (X := World) show_error (config_json sample_config)).
Notation batch_on d := (settle_pending (P := sample_platform) (H := traced_host (H := run_host (B := lossy_backend 0)
  show_error sample_emit)) sample_config (running_session, (world_on d, []))).
Definition logged {A} (x : A * (Session * (RunWorld World * list Trace))) : list Trace := snd (snd (snd x)).
Lemma logged_ended {A B C D} (x : A * (B * (C * D))) :
  x = (fst x, (fst (snd x), (fst (snd (snd x)), snd (snd (snd x))))).
Proof. by destruct x as [? [? [? ?]]]. Qed.
Lemma stopped_numbered : all_numbered (tables_of (world_on stopped_db)).
Proof. intros i. destruct (admitted_all_numbered i) as (n & H0 & Hd). exists n. split; [done|exact (numbered_same i n admitted_db (tables_of (world_on stopped_db)) eq_refl Hd)]. Qed.
Lemma stopped_cancelled : cancelled (B := lossy_backend 0) running_session (tables_of (world_on stopped_db)).
Proof.
  exists "run-1", "session-1", "run-1". split_and!; [done..|]. apply cancelled_runs_spec.
  exists (running_row <| run_cancel_requested := true |>). split; [vm_compute; reflexivity|done].
Qed.
(** Without the cancellation the call is carried out; with it the batch ends at
    its first checkpoint, and nothing was written. *)
Lemma cancelled_run_acts_no_more_witness :
  length (List.filter is_write (logged (batch_on running_db))) = 1%nat
  /\ fst (batch_on stopped_db) = Err "run_cancelled" /\ grows is_saved [] (logged (batch_on stopped_db)).
Proof.
  split; [vm_compute; reflexivity|]. split; [vm_compute; reflexivity|].
  refine (proj2 (proj1 (proj2 (cancelled_run_acts_no_more (P := sample_platform) (B := lossy_backend 0) (F := store_files)
    (Sr := next_serde) (Sc := alone) (X := World) show_error one_namespace sample_emit (config_json sample_config)
    sample_config 0 0 running_session (world_on stopped_db) [] (sample_readers_agree 0)
    (conj (fun n d => rtc_refl _ d) (fun n d => rtc_refl _ d)) (or_introl eq_refl) stopped_numbered stopped_cancelled))
    _ _ _ _ _ _ (logged_ended _))).
  left.
Defined.
