(* ===== verification/RunFacts.v ===== *)
(** * Correctness of a run

    A run ends: it takes at most as many decisions as it is allowed and leaves
    the session neither active nor running.  A run that completes does so with
    an answer that satisfies every configured requirement, over the evidence
    and artifacts the session holds at its end. *)
From S2P Require Import Prelude Text Json Encoding Session Logic Context Diagnostics Outcome Workflow Prompt Tools Checkpoint Actions Wire Compaction Run Frames Sample.
Local Open Scope string_scope.
Local Open Scope Z_scope.

(** The part of the session a final answer is judged against. *)
Definition evidence_only (s : Session) : Session :=
  (default_session "" "" "") <| workflow := workflow s |>
    <| completion_artifacts := completion_artifacts s |>.

Section facts.
Context {W : Type} `{P : Platform} `{H : Host W} (config : Config).

(** The session holds an answer that meets every requirement. *)
Definition verified (s : Session) : Prop :=
  exists x, final_answer s = Some x /\ completion_errors config s x = [] /\ complete config s = true.

Lemma completion_errors_evidence s x :
  completion_errors config s x = completion_errors config (evidence_only s) x.
Proof. reflexivity. Qed.
Lemma complete_evidence s : complete config s = complete config (evidence_only s).
Proof. reflexivity. Qed.

Lemma verified_frame s s' :
  task s' = task s -> final_answer s' = final_answer s -> verified s -> verified s'.
Proof.
  unfold task. intros E Ef (x & Hx & Hc & Hw). injection E as _ _ _ _ _ _ Ew Ea _. exists x.
  assert (evidence_only s' = evidence_only s) as Es by (unfold evidence_only; by rewrite Ew, Ea).
  rewrite Ef, completion_errors_evidence, complete_evidence, Es. done.
Qed.

Definition same_step (s s' : Session) : Prop := step_count s' = step_count s.
#[local] Instance same_step_preorder : PreOrder same_step.
Proof. unfold same_step. split; [done|]. intros ? ? ? ? ?. congruence. Qed.
Lemma keeps_same_step {A} (m : M W A) : keeps working m -> keeps same_step m.
Proof. apply keeps_weaken. by intros s s' (_ & _ & _ & E & _). Qed.
#[local] Hint Resolve keeps_same_step : frame.

(** ** One decision *)
Lemma handle_final_spec d b s (w : W) :
  wp (handle_final config d b)
    (fun _ s' _ => step_count s' = step_count s
       /\ (status s <> "complete" -> status s' = "complete" -> verified s'))
    (fun _ _ _ => True) s w.
Proof.
  unfold handle_final. cbv zeta. set (x := unwrap_or _ _). wp_step. wp_step.
  destruct (completion_errors config s x) as [|e errors] eqn:Ee.
  - destruct (complete config s) eqn:Ec; cbn [when_]; [|by apply wp_ret].
    wp_step. wp_step. set (s1 := s <| consecutive_invalid_responses := 0 |> <| status := "complete" |>
      <| run_status := "complete" |> <| final_answer := Some x |>).
    apply wp_bind. eapply wp_keeps; [apply msg_append_compacting| |done].
    intros [] s2 w2 (E1 & _ & _ & E2 & E3). wp_step. wp_step. eapply wp_keeps; [apply checkpoint_quiet| |done].
    intros [] s' w' [(F1 & _ & _ & _ & _ & F2 & _) _]. cbn in F1, F2.
    assert (task s' = task s) as Et by (rewrite F1; etransitivity; [exact E1|done]).
    split; [by unfold task in Et; injection Et|]. intros _ _.
    apply (verified_frame s1); [exact Et|congruence|].
    exists x. split_and!; [done| |].
    + by rewrite completion_errors_evidence.
    + by rewrite complete_evidence.
  - eapply (wp_keeps working); [frame| |done]. intros [] s' w' (_ & _ & _ & E & Hc). split; [done|]. tauto.
Qed.

Lemma take_decision_spec s (w : W) :
  wp (take_decision config)
    (fun _ s' _ => step_count s' = add64 (step_count s) 1
       /\ (status s <> "complete" -> status s' = "complete" -> verified s'))
    (fun _ _ _ => True) s w.
Proof.
  unfold take_decision. wp_step. wp_step. cbv zeta. apply wp_bind.
  eapply wp_keeps; [apply keeps_quiet_working, decide_quiet| |done].
  intros d s1 w1 (_ & _ & _ & E1 & C1). apply wp_bind.
  eapply (wp_keeps working); [frame| |done].
  intros [] s2 w2 (_ & _ & _ & E2 & C2). wp_step. wp_step. apply wp_bind.
  eapply wp_keeps; [apply archive_record_quiet| |done].
  intros [] s3 w3 H3. apply quiet_calm, calm_working in H3 as (_ & _ & _ & E3 & C3). cbn in E3, C3.
  assert (step_count s3 = add64 (step_count s) 1) as E by congruence.
  assert (status s <> "complete" -> status s3 <> "complete") as C by tauto.
  set (d' := remove _ d). destruct (field_is "type" "invalid" d'); [|destruct (field_is "type" "final" d')].
  - eapply (wp_keeps working); [frame| |done]. intros [] s' w' (_ & _ & _ & E' & C'). split; [lia|]. tauto.
  - eapply wp_mono; [apply handle_final_spec| |done]. intros [] s' w' [E' V]. split; [lia|]. tauto.
  - eapply (wp_keeps working); [frame| |done]. intros [] s' w' (_ & _ & _ & E' & C'). split; [lia|]. tauto.
Qed.

Lemma compact_step_spec s (w : W) :
  wp (compact_step config) (fun stop s' _ => working s s' /\ (stop = true -> status s' = "failed"))
    (fun _ _ _ => True) s w.
Proof.
  assert (forall {A} (m : M W A) Q, keeps working m -> forall s1 w1, working s s1 ->
    (forall a s2 w2, working s s2 -> Q a s2 w2) -> wp m Q (fun _ _ _ => True) s1 w1) as Hw.
  { intros A m Q Hm s1 w1 H1 HQ. eapply wp_keeps; [exact Hm| |done]. intros a s2 w2 H2. apply HQ.
    by etrans. }
  unfold compact_step. apply wp_bind, Hw; [frame|done|]. intros start s1 w1 H1.
  apply wp_bind, Hw; [frame|done|]. intros compacted s2 w2 H2.
  apply wp_bind, Hw; [frame|done|]. intros failure s3 w3 H3.
  apply wp_bind, Hw; [frame|done|]. intros ds s4 w4 H4.
  apply wp_bind, Hw; [frame|done|]. intros [] s5 w5 H5.
  destruct failure as [message|]; [|by apply wp_ret].
  wp_step. wp_step. apply wp_bind. eapply wp_keeps; [apply checkpoint_quiet| |done].
  intros [] s6 w6 H6. wp_step. destruct H6 as [H6 E6]. split; [|done].
  etransitivity; [exact H5|]. apply calm_working in H6 as (?&?&?&?&H6).
  split_and!; [done..|]. intros Hs. rewrite Hs in E6. done.
Qed.

(** ** The loop *)
Lemma next_step n limit : i64_min <= n -> n < limit -> limit <= i64_max -> add64 n 1 = n + 1.
Proof. intros. apply wrap64_id. lia. Qed.
Lemma run_loop_spec fuel limit s (w : W) :
  (status s = "complete" -> verified s) ->
  wp (run_loop config fuel limit)
    (fun _ s' _ => (status s' = "complete" -> verified s')
       /\ (i64_min <= step_count s -> limit <= i64_max ->
            step_count s <= step_count s' <= Z.max (step_count s) limit
            /\ ((run_fuel s limit <= fuel)%nat -> status s' = "active" -> limit <= step_count s')))
    (fun _ _ _ => True) s w.
Proof.
  revert s w. induction fuel as [|fuel IH]; intros s w HV; cbn [run_loop].
  { apply wp_ret. split; [done|]. unfold run_fuel. lia. }
  wp_step. wp_step. destruct (String.eqb_spec (status s) "active") as [Ea|Ea]; cbn [negb andb].
  2:{ apply wp_ret. split; [done|]. intros _ _. split; [lia|done]. }
  destruct (Z.ltb_spec (step_count s) limit) as [Hl|Hl]; cbn [negb andb].
  2:{ apply wp_ret. split; [done|]. intros _ _. split; [lia|done]. }
  apply wp_bind. eapply wp_keeps; [apply advance_phase_working| |done].
  intros [] s1 w1 (_ & _ & _ & E1 & C1). apply wp_bind.
  eapply wp_mono; [apply compact_step_spec| |done]. intros stop s2 w2 [(_ & _ & _ & E2 & C2) Hstop].
  destruct stop.
  { apply wp_ret. rewrite (Hstop eq_refl). split; [done|]. intros _ _. split; [lia|done]. }
  wp_step. wp_step. apply wp_bind. eapply wp_keeps; [apply keeps_quiet_working, checkpoint_quiet| |done].
  intros [] s3 w3 (_ & _ & _ & E3 & C3). apply wp_bind.
  eapply wp_mono; [apply take_decision_spec| |done]. intros [] s4 w4 [E4 V4].
  assert (status s4 = "complete" -> verified s4) as V.
  { apply V4. intros Hc. apply C3, C2, C1 in Hc. congruence. }
  eapply wp_mono; [by apply IH| |done]. intros [] s5 w5 (V5 & B5). split; [done|]. intros Hmin Hmax.
  rewrite (next_step (step_count s3) limit) in E4 by lia. destruct B5 as [B5 F5]; [lia..|].
  split; [lia|]. intros Hf. apply F5. unfold run_fuel in *. lia.
Qed.

Lemma run_loop_fuel fuel fuel' limit s (w : W) : i64_min <= step_count s -> limit <= i64_max ->
  (run_fuel s limit <= fuel)%nat -> (run_fuel s limit <= fuel')%nat ->
  run_loop config fuel limit (s, w) = run_loop config fuel' limit (s, w).
Proof.
  intros Hmin Hmax. revert fuel' s w Hmin. induction fuel as [|fuel IH]; intros fuel' s w Hmin Hf Hf'.
  - destruct fuel' as [|fuel']; [done|]. cbn [run_loop].
    mrun.
    replace (step_count s <? limit) with false by (unfold run_fuel in Hf; lia).
    by rewrite andb_false_r.
  - destruct fuel' as [|fuel'].
    { cbn [run_loop]. rewrite !bind_run, get_session_run.
      replace (step_count s <? limit) with false by (unfold run_fuel in Hf'; lia).
      by rewrite andb_false_r. }
    cbn [run_loop]. rewrite !bind_run, get_session_run.
    destruct (String.eqb (status s) "active" && (step_count s <? limit)) eqn:Eg; [|done].
    apply andb_true_iff in Eg as [_ Hl%Z.ltb_lt]. cbn [negb]. mrun.
    destruct (advance_phase config (s, w)) as [[[]|e] [s1 w1]] eqn:E1; [|done].
    apply advance_phase_working in E1 as (_ & _ & _ & E1 & _). mrun.
    destruct (compact_step config (s1, w1)) as [[[]|e] [s2 w2]] eqn:E2; [done| |done].
    apply compact_step_working in E2 as (_ & _ & _ & E2 & _). mrun.
    destruct (checkpoint _ (s2, w2)) as [[[]|e] [s3 w3]] eqn:E3; [|done].
    apply (keeps_quiet_working _ (checkpoint_quiet _)) in E3 as (_ & _ & _ & E3 & _). mrun.
    destruct (take_decision config (s3, w3)) as [[[]|e] [s4 w4]] eqn:E4; [|done].
    apply (wp_ok _ _ _ _ _ _ _ _ (take_decision_spec s3 w3)) in E4 as [E4 _].
    rewrite (next_step (step_count s3) limit) in E4 by lia. apply IH; unfold run_fuel in *; lia.
Qed.

(** ** The run *)
(** Beginning a run gives it a new identity. *)
Definition beginning (s s' : Session) : Prop :=
  step_count s' = step_count s /\ status s' = status s /\ workflow s' = workflow s.
#[local] Instance beginning_preorder : PreOrder beginning.
Proof. unfold beginning. split; [done|]. intros ? ? ? (?&?&?) (?&?&?). split_and!; congruence. Qed.
Lemma quiet_beginning {A} (m : M W A) : keeps quiet m -> keeps beginning m.
Proof. apply keeps_weaken. intros s s' [(E & _) Es]. unfold task in E. by injection E. Qed.
#[local] Hint Resolve quiet_beginning : frame.
Lemma begin_run_beginning : keeps (W := W) beginning (begin_run config).
Proof. unfold begin_run. frame. all: apply keeps_modify; [apply _|]; intros s; by case_ifs. Qed.

Lemma finish_run_quiet : keeps (W := W) quiet finish_run.
Proof.
  unfold finish_run. frame.
  all: apply keeps_modify; [apply _|]; intros s; case_ifs; same_fields.
Qed.

Lemma finish_run_settles s (w : W) :
  status s <> "active" -> wp finish_run (fun _ s' _ => run_status s' <> "running") (fun _ _ _ => True) s w.
Proof.
  intros Ha. unfold finish_run. wp_step. wp_step.
  match goal with |- context [wp _ _ _ (if ?b then ?x else s)] => set (s1 := if b then x else s) end. assert (run_status s1 <> "running") as Hr.
  { unfold s1. rewrite (proj2 (String.eqb_neq _ _) Ha). cbn [negb andb].
    destruct (String.eqb_spec (run_status s) "running"); [|done]. cbn. by destruct (String.eqb _ "complete"). }
  wp_step. wp_step. rewrite (proj2 (String.eqb_neq _ _) Hr). cbn [negb when_].
  wp_step. eapply wp_mono with (Q := fun (_ : unit) s' (_ : W) => run_status s' = run_status s1)
    (E := fun _ _ _ => True); [| |done].
  - unfold transcript_timestamp. repeat wp_step; try done. by apply wp_world.
  - intros [] s2 w2 E. wp_step. by destruct (is_none _); cbn; rewrite E.
Qed.

Lemma finish_run_spec s (w : W) :
  wp finish_run (fun _ s' _ => quiet s s' /\ (status s <> "active" -> run_status s' <> "running")) (fun _ _ _ => True) s w.
Proof.
  pose proof (finish_run_settles s w) as H1. unfold wp in *.
  destruct (finish_run (s, w)) as [[[]|e] [s5 w5]] eqn:E; [|done]. split; [by eapply finish_run_quiet|done].
Qed.
(** What follows the loop when the limit was reached. *)
Lemma settle_limit_spec limit cap s (w : W) :
  wp (when_ (String.eqb (status s) "active" && (limit <=? step_count s)) (reach_limit cap))
    (fun _ s' _ => step_count s' = step_count s /\ (status s' = "complete" -> status s = "complete" /\ task s' = task s
         /\ final_answer s' = final_answer s)
       /\ ((status s = "active" -> limit <= step_count s) -> status s' <> "active"))
    (fun _ _ _ => True) s w.
Proof.
  destruct (String.eqb_spec (status s) "active") as [Ea|Ea]; cbn [andb when_]; [|by apply wp_ret].
  destruct (Z.leb_spec limit (step_count s)) as [Hl|Hl]; cbn [when_].
  - unfold reach_limit. wp_step. wp_step. eapply wp_keeps; [apply checkpoint_quiet| |done].
    intros [] s4 w4 [(E4 & _) Es]. cbn in Es. rewrite Es. split_and!; [|done|done]. by unfold task in E4; injection E4.
  - apply wp_ret. split_and!; [done|done|]. intros H1. specialize (H1 Ea). lia.
Qed.
Lemma run_spec max s (w : W) :
  status s <> "complete" ->
  wp (run config max)
    (fun _ s' _ => (status s' = "complete" -> verified s')
       /\ (i64_min <= step_count s -> status s' <> "active" /\ run_status s' <> "running"
            /\ step_count s <= step_count s' <= Z.max (step_count s) (add64 (step_count s) (run_allowance config max))))
    (fun _ _ _ => True) s w.
Proof.
  intros Hs. unfold run. cbv zeta. set (limit := add64 (step_count s) (run_allowance config max)).
  assert (limit <= i64_max) as Hmax by apply wrap64_range.
  wp_step. wp_step. fold limit.
  apply wp_bind. eapply wp_keeps; [apply begin_run_beginning| |done].
  intros [] s1 w1 (E1 & C1 & _). wp_step. wp_step. apply wp_bind.
  eapply (wp_keeps working); [frame| |done]. intros [] s2 w2 (_ & _ & _ & E2 & C2).
  wp_step. wp_step. apply wp_bind.
  eapply wp_mono; [apply run_loop_spec; intros Hc; apply C2 in Hc; congruence| |done].
  intros [] s3 w3 (V3 & B3). wp_step. wp_step.
  apply wp_bind. eapply wp_mono; [apply settle_limit_spec| |done]. intros [] s4 w4 (E4 & V4 & A4).
  eapply wp_mono; [apply finish_run_spec| |done]. intros [] s5 w5 [[(E5 & _ & _ & _ & _ & F5 & _) S5] R5].
  assert (step_count s5 = step_count s4) as T5 by (by unfold task in E5; injection E5). rewrite S5. split.
  - intros Hc. destruct (V4 Hc) as (Hc3 & E34 & F34). eapply (verified_frame s3); [congruence|congruence|by apply V3].
  - intros Hmin. destruct B3 as [B3 F3]; [lia|done|]. specialize (F3 ltac:(lia)).
    assert (status s4 <> "active") as H4 by by apply A4. split_and!; [done|by apply R5|lia|lia].
Qed.
End facts.

(** * Properties *)
Section properties.
Context {W : Type} `{P : Platform} `{H : Host W} (config : Config).

(** C3: a run that completes does so with an answer that meets every
    configured requirement (nonempty, workflow finished, presentation, schema,
    deliverables), judged against the workflow and artifacts the session holds
    when the run ends. *)
Theorem run_completion_verified max s s' (w w' : W) :
  status s <> "complete" ->
  run config max (s, w) = (Ok tt, (s', w')) -> status s' = "complete" ->
  exists x, final_answer s' = Some x /\ completion_errors config s' x = [] /\ complete config s' = true.
Proof. intros Hs E. by apply (wp_ok _ _ _ _ _ _ _ _ (run_spec config max s w Hs)) in E as [V _]; auto. Qed.

(** C12: a run that is not stopped by an error ends: the session is no longer
    active nor running, and the decisions taken stay within the allowance. *)
Theorem run_settles_within_allowance max s s' (w w' : W) :
  status s <> "complete" -> i64_min <= step_count s ->
  run config max (s, w) = (Ok tt, (s', w')) ->
  status s' <> "active" /\ run_status s' <> "running"
  /\ step_count s <= step_count s'
     <= Z.max (step_count s) (add64 (step_count s) (run_allowance config max)).
Proof.
  intros Hs Hn E. apply (wp_ok _ _ _ _ _ _ _ _ (run_spec config max s w Hs)) in E as [_ H1]. by apply H1.
Qed.

(** C36: the fuel of the run loop is enough: every iteration that goes on
    takes exactly one decision, so more fuel than the decisions left below the
    limit changes nothing.  Counter and limit are [i64]s. *)
Theorem run_loop_fuel_enough limit extra s (w : W) :
  i64_min <= step_count s -> limit <= i64_max ->
  run_loop config (run_fuel s limit + extra) limit (s, w)
  = run_loop config (run_fuel s limit) limit (s, w).
Proof. intros. apply run_loop_fuel; [done..|lia|lia]. Qed.
End properties.

(** A whole run on the recorded host: the model first calls the recipient's
    tool, then answers. *)
Definition recorded_replies : list http_result := [HttpResponse 200 "call"; HttpResponse 200 "final"].
Notation recorded_run :=
  (run (P := sample_platform) sample_config None (fresh_session, quiet_world recorded_replies)).
Definition recorded_end : Session := fst (snd recorded_run).
Definition recorded_world : World := snd (snd recorded_run).

Lemma recorded_run_ends : recorded_run = (Ok tt, (recorded_end, recorded_world)).
Proof. unfold recorded_end, recorded_world. apply ended_ok. vm_compute. reflexivity. Qed.

Lemma recorded_end_complete : status recorded_end = "complete".
Proof. vm_compute. reflexivity. Qed.

Lemma run_completion_verified_witness :
  exists x, final_answer recorded_end = Some x
     /\ completion_errors (P := sample_platform) sample_config recorded_end x = []
     /\ complete sample_config recorded_end = true.
Proof.
  exact (run_completion_verified (P := sample_platform) sample_config None fresh_session recorded_end
           (quiet_world recorded_replies) recorded_world ltac:(discriminate) recorded_run_ends
           recorded_end_complete).
Defined.

Lemma run_settles_within_allowance_witness :
  status recorded_end <> "active" /\ run_status recorded_end <> "running"
  /\ step_count fresh_session <= step_count recorded_end
     <= Z.max (step_count fresh_session)
          (add64 (step_count fresh_session) (run_allowance sample_config None)).
Proof.
  exact (run_settles_within_allowance (P := sample_platform) sample_config None fresh_session recorded_end
           (quiet_world recorded_replies) recorded_world ltac:(discriminate) ltac:(vm_compute; discriminate) recorded_run_ends).
Defined.

Lemma run_loop_fuel_enough_witness :
  run_fuel fresh_session 8 = 8%nat
  /\ run_loop (P := sample_platform) sample_config (8 + 5) 8 (fresh_session, quiet_world recorded_replies)
     = run_loop (P := sample_platform) sample_config 8 8 (fresh_session, quiet_world recorded_replies).
Proof.
  split; [vm_compute; reflexivity|].
  exact (run_loop_fuel_enough (P := sample_platform) sample_config 8 5 fresh_session (quiet_world recorded_replies)
           ltac:(vm_compute; discriminate) ltac:(vm_compute; discriminate)).
Defined.
