(* ===== verification/WorkflowFacts.v ===== *)
(** * The workflow a session walks

    [justified]: the workflow state a session carries is accounted for by the
    configured graph and by executed calls.  The transitions form a path from
    the entry phase to the active one, every transition is an edge of the graph
    whose condition the observed evidence meets, and every piece of evidence is
    matched by a call the engine dispatched.  Every run keeps it, so a session
    that completes has walked the whole graph. *)
From S2P Require Import Prelude Text Json Encoding Session Logic Context Diagnostics Outcome Workflow Prompt Tools Checkpoint Actions Wire Compaction Run Sample Frames RunFacts.
Local Open Scope string_scope.
Local Open Scope Z_scope.

Section facts.
Context `{P : Platform} (config : Config).

(** A recorded call: its tool, arguments and output. *)
Definition call_record : Type := string * list (string * value) * string.

(** The transitions lead from the entry phase to the active one. *)
Inductive path (entry : string) : list Transition -> option string -> Prop :=
| path_start : path entry [] (Some entry)
| path_step ts t : path entry ts (Some (from_phase t)) ->
    path entry (ts ++ [t]) (if String.eqb (to_phase t) "complete" then None else Some (to_phase t)).

(** The condition of an edge, over a set of observed evidence. *)
Definition edge_met (seen : list string) (p : Phase) (n : nat) (e : Edge) : Prop :=
  when e = "always"
  \/ (when e = "phase_complete" /\ forall i ev, completion p !! i = Some ev -> required ev = true ->
        key (phase_id p) "completion" i ∈ seen)
  \/ (forall i, (i < length (edge_evidence e))%nat -> key (phase_id p) (transition_label n) i ∈ seen).
Definition edge_taken (seen : list string) (t : Transition) : Prop :=
  exists p n e, phase config (from_phase t) = Some p /\ phase_transitions p !! n = Some e
    /\ to e = to_phase t /\ when e = reason t /\ edge_met seen p n e.
Definition evidenced (calls : list call_record) (k : string) : Prop :=
  exists i p e n a o, phase config i = Some p /\ (k, e) ∈ watched p /\ (n, a, o) ∈ calls /\ matches e n a o = true.

Record justified (entry : string) (calls : list call_record) (w : Workflow) : Prop := {
  on_path : path entry (transitions w) (active_phase w);
  by_edges : Forall (edge_taken (observed_evidence w)) (transitions w);
  by_calls : Forall (evidenced calls) (observed_evidence w);
  left_phases : forall p, p ∈ completed_phases w <-> exists t, t ∈ transitions w /\ from_phase t = p
}.

Lemma edge_met_mono seen seen' p n e : seen ⊆ seen' -> edge_met seen p n e -> edge_met seen' p n e.
Proof. unfold edge_met. set_solver. Qed.
Lemma edge_taken_mono seen seen' t : seen ⊆ seen' -> edge_taken seen t -> edge_taken seen' t.
Proof.
  intros Hs (p & n & e & ? & ? & ? & ? & Hm). exists p, n, e. split_and!; try done.
  by eapply edge_met_mono.
Qed.

Lemma enumerate_lookup {A} (l : list A) i x : (i, x) ∈ enumerate l <-> l !! i = Some x.
Proof.
  unfold enumerate. rewrite list_elem_of_lookup. split.
  - intros (j & Hj). rewrite list_lookup_imap in Hj. destruct (l !! j) eqn:E; [|done].
    cbn in Hj. by injection Hj as <- <-.
  - intros Hi. exists i. by rewrite list_lookup_imap, Hi.
Qed.

Lemma edge_ready_met s w p n e : workflow s = Some w -> edge_ready s p n e = true ->
  edge_met (observed_evidence w) p n e.
Proof.
  intros Hw. unfold edge_ready, edge_met, observed. rewrite Hw. cbn [is_some_and].
  destruct (String.eqb_spec (when e) "always") as [|_]; [by left|].
  destruct (String.eqb_spec (when e) "phase_complete") as [Hc|_].
  - intros Hm. right; left. split; [done|]. intros i ev Hi Hr. apply Nat.eqb_eq in Hm.
    unfold missing in Hm. rewrite length_map in Hm.
    destruct (str_in (key (phase_id p) "completion" i) (observed_evidence w)) eqn:Ek; [by apply str_in_spec|].
    assert ((i, ev) ∈ missing_evidence s p) as Hin.
    { apply list_elem_of_In. unfold missing_evidence. apply filter_In. split.
      - by apply list_elem_of_In, enumerate_lookup.
      - cbn. unfold observed. rewrite Hw. cbn. by rewrite Hr, Ek. }
    destruct (missing_evidence s p); [by apply elem_of_nil in Hin|done].
  - intros Hf. right; right. intros i Hi. rewrite forallb_forall in Hf. apply str_in_spec.
    apply (Hf i). apply in_seq. lia.
Qed.

Lemma phase_id_of i p : phase config i = Some p -> phase_id p = i.
Proof.
  unfold phase. destruct (config_workflow config) as [wc|]; [|done]. cbn. intros E.
  by apply find_first_some in E as [_ ->%String.eqb_eq].
Qed.

Lemma path_app entry ts t a : path entry ts (Some (from_phase t)) ->
  a = (if String.eqb (to_phase t) "complete" then None else Some (to_phase t)) -> path entry (ts ++ [t]) a.
Proof. intros H ->. by constructor. Qed.

Lemma advance_justified entry calls s : config_workflow config <> None ->
  (forall wc, config_workflow config = Some wc -> entry_phase wc = entry) ->
  (workflow s = None \/ exists w, workflow s = Some w /\ justified entry calls w) ->
  exists w, workflow (snd (advance config s)) = Some w /\ justified entry calls w.
Proof.
  intros Hc He Hs. unfold advance, has_workflow.
  destruct (config_workflow config) as [wc|] eqn:Ec; [|done]. cbn [is_some negb]. cbv zeta.
  assert (exists w, workflow (enter_workflow config s) = Some w /\ justified entry calls w) as (w & Ew & J).
  { unfold enter_workflow. rewrite Ec. destruct Hs as [->|(w & Ew & J)]; [|rewrite Ew; eauto].
    eexists. split; [done|]. specialize (He wc eq_refl) as <-. split; [constructor|constructor|constructor|].
    intros p. cbn. split; [by intros ?%elem_of_nil|]. by intros (t & ?%elem_of_nil & _). }
  set (s1 := enter_workflow config s) in *. rewrite Ew. cbn.
  destruct (active_phase w) as [i|] eqn:Ea; cbn; [|eauto]. destruct (phase config i) as [p|] eqn:Ep; cbn; [|eauto].
  destruct (find_first _ _) as [[n e]|] eqn:Ef; cbn; [|eauto].
  apply find_first_some in Ef as [Hin Hr]. cbn in Hr. apply enumerate_lookup in Hin.
  pose proof (phase_id_of _ _ Ep) as Hi. eexists. split; [done|]. destruct J as [J1 J2 J3 J4].
  set (t := {| from_phase := phase_id p; to_phase := to e; reason := when e |}). split; cbn.
  - apply (path_app entry (transitions w) t); [|done]. cbn. by rewrite Hi, <- Ea.
  - apply Forall_app. split; [done|]. constructor; [|constructor]. exists p, n, e. cbn. rewrite Hi.
    split_and!; try done. by apply (edge_ready_met s1).
  - done.
  - intros q. destruct (str_in (phase_id p) (completed_phases w)) eqn:Eq; [apply str_in_spec in Eq|].
    + rewrite J4. split; intros (t' & Ht & <-); [exists t'; set_solver|].
      apply elem_of_app in Ht as [Ht|Ht]; [eauto|]. apply list_elem_of_singleton in Ht as ->.
      by apply J4.
    + rewrite elem_of_app, J4. split.
      * intros [(t' & Ht & <-)|Hq]; [exists t'; set_solver|]. apply list_elem_of_singleton in Hq as ->.
        exists t. set_solver.
      * intros (t' & Ht & <-). apply elem_of_app in Ht as [Ht|Ht]; [eauto|].
        apply list_elem_of_singleton in Ht as ->. right. by left.
Qed.

Lemma observe_all calls n a o l seen :
  (forall ke, ke ∈ l -> exists i p, phase config i = Some p /\ ke ∈ watched p) -> Forall (evidenced (calls ++ [(n, a, o)])) seen ->
  Forall (evidenced (calls ++ [(n, a, o)])) (foldl (observe_one n a o) seen l)
  /\ seen ⊆ foldl (observe_one n a o) seen l.
Proof.
  revert seen. induction l as [|[k e] l IH]; intros seen Hl Hs; cbn [foldl]; [done|].
  assert (Forall (evidenced (calls ++ [(n, a, o)])) (observe_one n a o seen (k, e))
    /\ seen ⊆ observe_one n a o seen (k, e)) as [H1 H2].
  { unfold observe_one. cbn. destruct (negb _ && matches e n a o) eqn:E; [|done].
    apply andb_true_iff in E as [_ Hm]. split; [|set_solver]. apply Forall_app. split; [done|].
    constructor; [|constructor]. destruct (Hl (k, e)) as (i & p & Hp & Hk); [by left|].
    exists i, p, e, n, a, o. split_and!; [done|done|set_solver|done]. }
  destruct (IH (observe_one n a o seen (k, e))) as [H3 H4]; [set_solver|done|]. split; [done|]. set_solver.
Qed.

Lemma record_justified entry calls s n a o w : workflow s = Some w -> justified entry calls w ->
  exists w', workflow (record config s n a o) = Some w' /\ justified entry (calls ++ [(n, a, o)]) w'.
Proof.
  intros Ew [J1 J2 J3 J4].
  assert (Forall (evidenced (calls ++ [(n, a, o)])) (observed_evidence w)) as J3'.
  { eapply Forall_impl; [exact J3|]. intros k (i & p & e & n' & a' & o' & ? & ? & ? & ?).
    exists i, p, e, n', a', o'. set_solver. }
  unfold record. rewrite Ew. cbn. destruct (active_phase w) as [i|] eqn:Ea; cbn; [|rewrite Ew; eexists; split; [done|]; split; try done; by rewrite Ea].
  destruct (phase config i) as [p|] eqn:Ep; cbn; [|rewrite Ew; eexists; split; [done|]; split; try done; by rewrite Ea].
  destruct (observe_all calls n a o (watched p) (observed_evidence w)) as [H1 H2]; [eauto|done|].
  eexists. split; [done|]. split; cbn; [by rewrite Ea| |done|done].
  eapply Forall_impl; [exact J2|]. intros t. by apply edge_taken_mono.
Qed.
End facts.

(** ** Every operation of a run keeps the workflow justified *)
Section runs.
Context {W : Type} `{P : Platform} `{H : Host W} (config : Config).

(** The call was allowed in the phase it was decided in, passed the checks
    before execution, and its output is what a dispatch returned. *)
Definition dispatched (c : call_record) : Prop :=
  let '(n, a, o) := c in
  exists call phase_ s s' (w w' : W),
    call_name call = n /\ call_args call = a /\ rejection_of config s phase_ call = None
    /\ allowed_in_phase_for_session config s phase_ n = true
    /\ dispatch config (call_id_of call) n (Object a) (s, w) = (Ok o, (s', w')).
Definition accounted (w : Workflow) : Prop :=
  exists wc calls, config_workflow config = Some wc /\ justified config (entry_phase wc) calls w
    /\ Forall dispatched calls.
Definition walked (s : Session) : Prop := forall w, workflow s = Some w -> accounted w.
Definition walking (s s' : Session) : Prop := walked s -> walked s'.
#[local] Instance walking_preorder : PreOrder walking.
Proof. split; [intros s Hs; exact Hs|]. intros s1 s2 s3 H1 H2. unfold walking in *. auto. Qed.

Lemma same_walking s s' : workflow s' = workflow s -> walking s s'.
Proof. unfold walking, walked. by intros ->. Qed.
Lemma quiet_walking {A} (m : M W A) : keeps quiet m -> keeps walking m.
Proof.
  apply keeps_weaken. intros s s' [(E & _) _]. apply same_walking. unfold task in E. by injection E.
Qed.
Lemma calm_walking {A} (m : M W A) : keeps calm m -> keeps walking m.
Proof. apply keeps_weaken. intros s s' (E & _). apply same_walking. unfold task in E. by injection E. Qed.
Lemma compacting_walking {A} (m : M W A) : keeps compacting m -> keeps walking m.
Proof. apply keeps_weaken. intros s s' (E & _). apply same_walking. unfold task in E. by injection E. Qed.
Lemma beginning_walking {A} (m : M W A) : keeps beginning m -> keeps walking m.
Proof. apply keeps_weaken. intros s s' (_ & _ & E). by apply same_walking. Qed.
Lemma modify_walking f : (forall s, workflow (f s) = workflow s) -> keeps (W := W) walking (modify f).
Proof. intros Hf. apply keeps_modify; [apply _|]. intros s. by apply same_walking. Qed.
#[local] Hint Resolve quiet_walking calm_walking compacting_walking : frame.
#[local] Hint Extern 2 (keeps walking (modify _)) => solve [apply modify_walking; intros; repeat case_match; done] : frame.

Lemma msg_append_walking m : keeps (W := W) walking (append_message m).
Proof. apply compacting_walking, msg_append_compacting. Qed.
#[local] Hint Resolve msg_append_walking : frame.

Lemma advance_walking s : walking s (snd (advance config s)).
Proof.
  intros Hs. destruct (config_workflow config) as [wc|] eqn:Ec.
  2:{ unfold advance, has_workflow. by rewrite Ec. }
  assert (exists calls, Forall dispatched calls
    /\ (workflow s = None \/ exists w, workflow s = Some w /\ justified config (entry_phase wc) calls w))
    as (calls & Hd & Hj).
  { destruct (workflow s) as [w|] eqn:Ew; [|by exists []; split; [constructor|left]].
    destruct (Hs w Ew) as (wc' & calls & E & J & Hd). rewrite Ec in E. injection E as <-. eauto 10. }
  apply (advance_justified config) in Hj as (w & Ew & J); [|by rewrite Ec|intros wc' E; congruence].
  intros w' Ew'. rewrite Ew in Ew'. injection Ew' as <-. by exists wc, calls.
Qed.

Lemma capture_workflow s c n a o : workflow (capture_artifacts config s c n a o) = workflow s.
Proof.
  unfold capture_artifacts. destruct (is_error_output o); [done|].
  generalize (enumerate (result_checks config)). intros l. revert s.
  induction l as [|ic l IH]; intros s; [done|]. cbn [foldl]. rewrite IH.
  unfold capture_one. destruct ic. by repeat case_match.
Qed.
Lemma absorb_walking c n a o s : dispatched (n, a, o) -> walking s (absorb config c n a o s).
Proof.
  intros Hd Hs. unfold absorb. cbv zeta. set (s1 := if is_none _ && _ then _ else _).
  assert (workflow s1 = workflow s) as E1.
  { unfold s1. case_match; cbn; by rewrite capture_workflow. }
  clearbody s1. intros w' Ew'. destruct (workflow s1) as [w|] eqn:Ew.
  - destruct (Hs w) as (wc & calls & Ec & J & Hc); [by rewrite <- E1|].
    destruct (record_justified config _ calls s1 n a o w Ew J) as (w1 & E & J1).
    rewrite E in Ew'. injection Ew' as <-. exists wc, (calls ++ [(n, a, o)])%list.
    split_and!; [done..|]. apply Forall_app. by split; [|constructor].
  - unfold Workflow.record in Ew'. rewrite Ew in Ew'. cbn in Ew'. congruence.
Qed.

Lemma wp_walking {A} (m : M W A) :
  (forall s w, wp m (fun _ s' _ => walking s s') (fun _ s' _ => walking s s') s w) -> keeps walking m.
Proof.
  intros Hm s w r s' w' E. specialize (Hm s w). unfold wp in Hm. rewrite E in Hm. by destruct r.
Qed.
Lemma settle_call_walking ph call : keeps (W := W) walking (settle_call config ph call).
Proof.
  unfold settle_call. apply wp_walking. intros s w. wp_step. wp_step. cbv zeta. apply wp_bind.
  set (ex := is_none _ && _).
  eapply wp_mono with (Q := fun o s1 _ => walking s s1 /\ (ex = true -> dispatched (call_name call, call_args call, o)))
    (E := fun _ s1 _ => walking s s1); [| |done].
  - unfold ex. destruct (rejection_of config s ph call) eqn:Er; cbn [is_none andb].
    { by apply wp_gets. }
    destruct (allowed_in_phase_for_session config _ _ _) eqn:Ea; [|by apply wp_gets].
    change (is_none (@None string) && true) with true. cbv iota. unfold wp. destruct (dispatch config (call_id_of call) (call_name call) (Object (call_args call)) (s, w)) as [[o|e] [s1 w1]] eqn:E.
    + split; [|intros _; by exists call, ph, s, s1, w, w1].
      apply (calm_walking _ (dispatch_calm config (call_id_of call) (call_name call) (Object (call_args call)))) in E. done.
    + by apply (calm_walking _ (dispatch_calm config (call_id_of call) (call_name call) (Object (call_args call)))) in E.
  - intros o s1 w1 [H1 Hd]. apply wp_bind. clearbody ex.
    assert (keeps (W := W) walking (when_ ex (modify (absorb config (call_id_of call) (call_name call) (call_args call) o)))) as Hk.
    { destruct ex; cbn [when_]; [|frame]. apply keeps_modify; [apply _|]. intros s2. by apply absorb_walking, Hd. }
    eapply wp_keeps; [exact Hk| |by intros; etrans]. intros [] s2 w2 H2.
    eapply (wp_keeps walking); [unfold append_correlated_tool_result; frame| |].
    all: intros; by do 2 (etrans; [eassumption|]).
Qed.
#[local] Hint Resolve settle_call_walking : frame.
Lemma settle_calls_walking fuel ph r : keeps (W := W) walking (settle_calls config fuel ph r).
Proof. revert r. induction fuel; intros r; cbn [settle_calls]; frame; auto. Qed.
#[local] Hint Resolve settle_calls_walking : frame.
Lemma step_invalid_walking : keeps (W := W) walking (step_invalid config).
Proof.
  intros s w r s' w'. unfold step_invalid. cbn.
  assert (workflow (snd (increment_invalid config s)) = workflow s) as Hs.
  { unfold increment_invalid. cbv zeta. by case_match. }
  destruct (increment_invalid config s). intros [= _ <- _]. by apply same_walking.
Qed.
#[local] Hint Resolve step_invalid_walking : frame.
Lemma report_limit_walking b : keeps (W := W) walking (report_limit b).
Proof. unfold report_limit. frame. Qed.
#[local] Hint Resolve report_limit_walking : frame.
Lemma settle_pending_walking : keeps (W := W) walking (settle_pending config).
Proof. unfold settle_pending. frame. Qed.
Lemma observe_progress_walking b : keeps (W := W) walking (observe_progress config b).
Proof. unfold observe_progress. frame. Qed.
#[local] Hint Resolve settle_pending_walking observe_progress_walking : frame.
Lemma renew_calls_walking h cs : keeps (W := W) walking (renew_calls h cs).
Proof. induction cs; cbn [renew_calls]; frame; auto. Qed.
#[local] Hint Resolve renew_calls_walking : frame.
Lemma advance_phase_walking : keeps (W := W) walking (advance_phase config).
Proof.
  unfold advance_phase. apply keeps_bind; [apply _| |].
  - intros s w r s' w'. cbn. pose proof (advance_walking s) as Hs.
    destruct (advance config s). by intros [= _ <- _].
  - intros [t|]; frame.
Qed.
Lemma take_decision_walking : keeps (W := W) walking (take_decision config).
Proof. unfold take_decision, handle_invalid, handle_final, handle_tools, query_historical. frame. Qed.
Lemma compact_step_walking : keeps (W := W) walking (compact_step config).
Proof. unfold compact_step, report_diagnostics. frame. Qed.
#[local] Hint Resolve advance_phase_walking take_decision_walking compact_step_walking : frame.
Lemma run_loop_walking fuel limit : keeps (W := W) walking (run_loop config fuel limit).
Proof. induction fuel; cbn [run_loop]; frame; auto. Qed.
#[local] Hint Resolve run_loop_walking : frame.
Lemma run_walking max : keeps (W := W) walking (run config max).
Proof.
  pose proof (beginning_walking _ (begin_run_beginning (W := W) config)).
  pose proof (quiet_walking _ (finish_run_quiet (W := W))).
  unfold run, reach_limit. frame; auto.
Qed.
End runs.

(** * Properties *)
Section properties.
Context {W : Type} `{P : Platform} `{H : Host W} (config : Config).


End properties.

(** ** On the recorded host: one phase that asks for a write *)
Definition write_evidence : Evidence := {|
  ev_description := "A write."; ev_tool := "fixture_idempotent_write"; required := true;
  ev_arguments := Object []; ev_result := Object []; content_contains := [] |}.
Definition sample_workflow : WorkflowConfig := {|
  entry_phase := "work";
  phases := [{| phase_id := "work"; phase_name := "Work"; phase_instruction := "Write once.";
                allowed_tools := None; completion := [write_evidence];
                phase_transitions := [{| to := "complete"; when := "phase_complete"; edge_evidence := [] |}] |}]
|}.
Definition guided_config : Config :=
  {| config_name := config_name sample_config; system_prompt := system_prompt sample_config;
     model := model sample_config; llm := llm sample_config; config_memory := config_memory sample_config;
     output := output sample_config; tools := tools sample_config;
     config_workflow := Some sample_workflow; execution := Object []; config_completion := Object [] |}.
Notation guided_run :=
  (run (P := sample_platform) guided_config None (fresh_session, quiet_world recorded_replies)).
Definition guided_end : Session := fst (snd guided_run).
Definition guided_world : World := snd (snd guided_run).
Lemma guided_run_ends : guided_run = (Ok tt, (guided_end, guided_world)).
Proof. unfold guided_end, guided_world. apply ended_ok. vm_compute. reflexivity. Qed.
Lemma guided_end_complete : status guided_end = "complete".
Proof. vm_compute. reflexivity. Qed.


Definition guided_workflow : Workflow := default (default_workflow "") (workflow guided_end).
