(* ===== verification/ConfigFacts.v ===== *)
(** * What a validated configuration guarantees

    [validate_schema] accepts exactly the schemas of the inductive relation
    [schema_ok]; a validated workflow keeps every run inside its graph and its
    allowed tools among the declared ones; completing a configuration with its
    defaults is idempotent, so that a stored configuration keeps its identity;
    environment references are replaced in one pass; a configuration that is
    read lies below the root. *)
From S2P Require Import Prelude Text Json Encoding Session Logic Context Ledger Diagnostics Outcome Workflow Prompt Tools Checkpoint Actions Wire Compaction Config Run Sample Frames RunFacts WorkflowFacts.
Local Open Scope string_scope.
Local Open Scope Z_scope.

(** ** Schemas *)
Section schemas.
Context `{P : Platform}.

Lemma at_key_assoc {A} k (f : value -> A) m : at_key k f m = f <$> assoc k m.
Proof. induction m as [|[k' x] m IH]; [done|]. cbn. by destruct (String.eqb k k'). Qed.

Lemma bind_unit_ok {E} (m r : result E unit) : (_ ← m; r) = Ok tt <-> m = Ok tt /\ r = Ok tt.
Proof. destruct m as [[]|]; cbn; naive_solver. Qed.

Lemma otherwise_ok {E} (o : option (result E unit)) :
  otherwise o = Ok tt <-> forall r, o = Some r -> r = Ok tt.
Proof. destruct o; cbn; naive_solver. Qed.

(** The keywords of one schema object, its subschemas apart. *)
Record keywords_ok (obj : entries) : Prop := {
  known_keywords : forall k, k ∈ keys obj -> k ∈ ALLOWED;
  required_names : forall r, assoc "required" obj = Some r ->
    exists l, r = Array l /\ forall v, v ∈ l -> is_string v = true;
  enum_values : forall e, assoc "enum" obj = Some e -> exists v l, e = Array (v :: l);
  finite_bounds : forall k b, k ∈ ["minimum"; "maximum"; "exclusiveMinimum"; "exclusiveMaximum"] ->
    assoc k obj = Some b -> exists f, as_f64 b = Some f /\ f64_finite f = true;
  natural_lengths : forall k b, k ∈ ["minLength"; "maxLength"; "minItems"; "maxItems"] ->
    assoc k obj = Some b -> exists n, as_u64 b = Some n;
  pattern_compiles : forall p, assoc "pattern" obj = Some p ->
    exists t, p = Str t /\ regex_is_match t "" <> None;
  known_type : forall t, assoc "type" obj = Some (Str t) -> t ∈ schema_types
}.
Inductive schema_ok : value -> Prop :=
| schema_object obj :
    keywords_ok obj ->
    (forall ps, assoc "properties" obj = Some (Object ps) -> forall k s, (k, s) ∈ ps -> schema_ok s) ->
    (forall items, assoc "items" obj = Some items -> schema_ok items) ->
    (forall extra, assoc "additionalProperties" obj = Some extra ->
       is_boolean extra = true \/ (is_object extra = true /\ schema_ok extra)) ->
    schema_ok (Object obj).

Lemma check_schema_required_ok obj path : check_schema_required obj path = Ok tt <->
  forall r, assoc "required" obj = Some r -> exists l, r = Array l /\ forall v, v ∈ l -> is_string v = true.
Proof.
  unfold check_schema_required. rewrite fail_if_ok, is_some_and_false.
  split; intros H r Hr; specialize (H r Hr).
  - apply negb_false_iff in H. destruct r; try done. cbn in H. eexists; split; [done|].
    intros v Hv%list_elem_of_In. by eapply forallb_forall in H.
  - destruct H as (l & -> & H). apply negb_false_iff. cbn. apply forallb_forall.
    intros v Hv%list_elem_of_In. by apply H.
Qed.
Lemma check_schema_enum_ok obj path : check_schema_enum obj path = Ok tt <->
  forall e, assoc "enum" obj = Some e -> exists v l, e = Array (v :: l).
Proof.
  unfold check_schema_enum. rewrite fail_if_ok, is_some_and_false.
  split; intros H r Hr; specialize (H r Hr).
  - destruct r as [| | | |[|v l]|]; try done. by exists v, l.
  - by destruct H as (v & l & ->).
Qed.
Lemma check_schema_bounds_ok obj path : check_schema_bounds obj path = Ok tt <->
  forall k b, k ∈ ["minimum"; "maximum"; "exclusiveMinimum"; "exclusiveMaximum"] ->
    assoc k obj = Some b -> exists f, as_f64 b = Some f /\ f64_finite f = true.
Proof.
  unfold check_schema_bounds. rewrite for_each_ok. setoid_rewrite fail_if_ok.
  setoid_rewrite is_some_and_false. split; intros H k.
  - intros b Hk Hb. specialize (H k Hk b Hb). apply orb_false_iff in H as [Hn Hf].
    destruct (as_f64 b) as [f|]; [|done]. exists f. split; [done|]. by apply negb_false_iff.
  - intros Hk b Hb. destruct (H k b Hk Hb) as (f & Hf & Hfin). rewrite Hf. cbn. rewrite Hfin.
    by destruct b.
Qed.
Lemma check_schema_lengths_ok obj path : check_schema_lengths obj path = Ok tt <->
  forall k b, k ∈ ["minLength"; "maxLength"; "minItems"; "maxItems"] ->
    assoc k obj = Some b -> exists n, as_u64 b = Some n.
Proof.
  unfold check_schema_lengths. rewrite for_each_ok. setoid_rewrite fail_if_ok.
  setoid_rewrite is_some_and_false. split; intros H k.
  - intros b Hk Hb. specialize (H k Hk b Hb). destruct (as_u64 b); [eauto|done].
  - intros Hk b Hb. by destruct (H k b Hk Hb) as (n & ->).
Qed.
Lemma check_schema_pattern_ok obj path : check_schema_pattern obj path = Ok tt <->
  forall p, assoc "pattern" obj = Some p -> exists t, p = Str t /\ regex_is_match t "" <> None.
Proof.
  unfold check_schema_pattern. destruct (assoc "pattern" obj) as [p|]; [|naive_solver].
  split.
  - intros H p' [= <-]. destruct p; try done. apply fail_if_ok in H. eexists; split; [done|].
    by destruct (regex_is_match s "").
  - intros H. destruct (H p eq_refl) as (t & -> & Ht). apply fail_if_ok. by destruct (regex_is_match t "").
Qed.
Lemma check_schema_type_ok obj path : check_schema_type obj path = Ok tt <->
  forall t, assoc "type" obj = Some (Str t) -> t ∈ schema_types.
Proof.
  unfold check_schema_type. destruct (assoc "type" obj) as [v|]; [|naive_solver]. cbn -[str_in].
  destruct v; cbn -[str_in]; try (split; [intros _ t [=]|done]).
  rewrite fail_if_ok, negb_false_iff, str_in_spec. naive_solver.
Qed.

Lemma unknown_keyword_none (obj : entries) :
  find_first (fun k => negb (str_in k ALLOWED)) (keys obj) = None <-> forall k, k ∈ keys obj -> k ∈ ALLOWED.
Proof.
  rewrite find_first_none. split; intros H k Hk; specialize (H k Hk).
  - by apply negb_false_iff, str_in_spec in H.
  - by apply negb_false_iff, str_in_spec.
Qed.

Lemma keywords_ok_iff obj path : keywords_ok obj <->
  find_first (fun k => negb (str_in k ALLOWED)) (keys obj) = None
  /\ check_schema_required obj path = Ok tt /\ check_schema_enum obj path = Ok tt
  /\ check_schema_bounds obj path = Ok tt /\ check_schema_lengths obj path = Ok tt
  /\ check_schema_pattern obj path = Ok tt /\ check_schema_type obj path = Ok tt.
Proof.
  rewrite unknown_keyword_none, check_schema_required_ok, check_schema_enum_ok, check_schema_bounds_ok,
    check_schema_lengths_ok, check_schema_pattern_ok, check_schema_type_ok.
  split; [by intros []|]. intros (?&?&?&?&?&?&?). by constructor.
Qed.

(** One level of the schema, the subschemas as recursive calls. *)
Lemma validate_schema_object obj path : validate_schema (Object obj) path = Ok tt <->
  keywords_ok obj
  /\ (forall ps, assoc "properties" obj = Some (Object ps) -> forall k s, (k, s) ∈ ps ->
        validate_schema s (path +:+ ".properties." +:+ k) = Ok tt)
  /\ (forall items, assoc "items" obj = Some items -> validate_schema items (path +:+ ".items") = Ok tt)
  /\ (forall extra, assoc "additionalProperties" obj = Some extra -> is_boolean extra = true
        \/ (is_object extra = true /\ validate_schema extra (path +:+ ".additionalProperties") = Ok tt)).
Proof.
  rewrite (keywords_ok_iff obj path). cbn [validate_schema].
  destruct (find_first _ (keys obj)); [naive_solver|].
  rewrite !bind_unit_ok, !at_key_assoc, !otherwise_ok. split.
  - intros (Hp & Hi & Ha & Hks). split; [by split|]. split_and!.
    + intros ps Eps k s Hin. specialize (Hp _ ltac:(by rewrite Eps)). rewrite for_each_ok in Hp. by apply (Hp (k, s)).
    + intros items Ei. by specialize (Hi _ ltac:(by rewrite Ei)).
    + intros extra Ex. specialize (Ha _ ltac:(by rewrite Ex)).
      destruct extra; try discriminate Ha; [by left|by right].
  - intros ((_ & Hks) & Hp & Hi & Ha). split_and!; [| | |apply Hks..].
    all: intros r (x & Ex & ->)%fmap_Some.
    + destruct x; try done. apply for_each_ok. intros [k s] Hin. by eapply Hp.
    + by apply Hi.
    + destruct (Ha x Ex) as [Hb|[Hb Hv]]; destruct x; done.
Qed.

Lemma validate_schema_deep v : (forall path, validate_schema v path = Ok tt <-> schema_ok v)
  /\ forall ps k s, v = Object ps -> (k, s) ∈ ps -> forall path, validate_schema s path = Ok tt <-> schema_ok s.
Proof.
  induction v as [| | | | | obj IH] using value_rect_strong; (split; [intros path|]); try done;
    try (split; [done|by inversion 1]).
  2:{ intros ps k s [= <-] Hin. exact (proj1 (IH k s Hin)). }
  rewrite validate_schema_object.
  assert (forall k x, assoc k obj = Some x -> forall path, validate_schema x path = Ok tt <-> schema_ok x) as Hin.
  { intros k x Hx. exact (proj1 (IH k x (assoc_in _ _ _ Hx))). }
  assert (forall ps, assoc "properties" obj = Some (Object ps) -> forall k s, (k, s) ∈ ps -> forall path,
    validate_schema s path = Ok tt <-> schema_ok s) as Hps.
  { intros ps Eps%assoc_in k s. by apply (proj2 (IH _ _ Eps) ps). }
  split.
  - intros (Hk & Hp & Hi & Ha). constructor; [done| | |].
    + intros ps Eps k s Hin'. eapply Hps; eauto.
    + intros items Ei. eapply Hin; eauto.
    + intros extra Ex. destruct (Ha _ Ex) as [|[? ?]]; [by left|]. right. split; [done|]. eapply Hin; eauto.
  - inversion 1 as [? Hk Hp Hi Ha]; subst. split; [done|]. split_and!.
    + intros ps Eps k s Hin'. eapply Hps; eauto.
    + intros items Ei. eapply Hin; eauto.
    + intros extra Ex. destruct (Ha _ Ex) as [|[? ?]]; [by left|]. right. split; [done|]. eapply Hin; eauto.
Qed.
Lemma validate_schema_ok v path : validate_schema v path = Ok tt <-> schema_ok v.
Proof. apply validate_schema_deep. Qed.
End schemas.

(** ** Workflows *)
Section workflows.
Context `{P : Platform} (c : Config).

Lemma check_phase_ok ids p : check_phase c ids p = Ok tt ->
  (forall n, n ∈ unwrap_or (allowed_tools p) (map ev_tool (completion p)) -> n ∈ names c)
  /\ (forall e, e ∈ phase_transitions p -> to e = "complete" \/ to e ∈ ids).
Proof.
  unfold check_phase. rewrite !bind_unit_ok. intros (Ht & He & Hg).
  unfold known_evidence in He. rewrite for_each_ok in Ht. rewrite for_each_ok in He. rewrite for_each_ok in Hg. split.
  - intros n. destruct (allowed_tools p); cbn in *; intros Hn.
    + apply Ht, fail_if_ok, negb_false_iff, str_in_spec in Hn. done.
    + apply list_elem_of_fmap in Hn as (e & -> & Hin). apply He, fail_if_ok, negb_false_iff, str_in_spec in Hin. done.
  - intros e Hin. apply Hg in Hin. unfold check_edge in Hin. rewrite !bind_unit_ok in Hin.
    destruct Hin as (Hto & _). apply fail_if_ok, andb_false_iff in Hto.
    rewrite !negb_false_iff, String.eqb_eq, str_in_spec in Hto. done.
Qed.

(** The part of [validate_config] the runs rely on. *)
Record graph_ok (w : WorkflowConfig) : Prop := {
  distinct_phases : NoDup (map phase_id (phases w));
  entry_configured : entry_phase w ∈ map phase_id (phases w);
  phases_closed : forall p, p ∈ phases w ->
    (forall n, n ∈ unwrap_or (allowed_tools p) (map ev_tool (completion p)) -> n ∈ names c)
    /\ (forall e, e ∈ phase_transitions p -> to e = "complete" \/ to e ∈ map phase_id (phases w))
}.
Lemma validated_graph w : validate_config c = Ok tt -> config_workflow c = Some w -> graph_ok w.
Proof.
  unfold validate_config. intros Hv Hw.
  do 5 (apply bind_unit_ok in Hv as [_ Hv]).
  apply bind_ok in Hv as (labels & _ & Hv). do 2 (apply bind_unit_ok in Hv as [_ Hv]).
  rewrite Hw in Hv. unfold check_workflow in Hv. rewrite !bind_unit_ok, !fail_if_ok, !negb_false_iff in Hv.
  destruct Hv as (Hd & He & Hp). split.
  - by apply all_distinct_spec.
  - by apply str_in_spec.
  - intros p Hin. rewrite for_each_ok in Hp. by apply check_phase_ok, Hp.
Qed.

Lemma phase_configured w i : config_workflow c = Some w -> i ∈ map phase_id (phases w) ->
  exists p, phase c i = Some p /\ phase_id p = i /\ p ∈ phases w.
Proof.
  intros Hw Hi. unfold phase. rewrite Hw. cbn.
  destruct (find_first (fun p => String.eqb (phase_id p) i) (phases w)) as [p|] eqn:E.
  - apply find_first_some in E as [Hin Hid%String.eqb_eq]. eauto.
  - apply list_elem_of_fmap in Hi as (p & -> & Hin). rewrite find_first_none in E.
    specialize (E p Hin). cbn in E. by rewrite String.eqb_refl in E.
Qed.
Lemma phase_member w i p : config_workflow c = Some w -> phase c i = Some p -> p ∈ phases w /\ phase_id p = i.
Proof.
  intros Hw. unfold phase. rewrite Hw. cbn. intros [Hin Hid%String.eqb_eq]%find_first_some. done.
Qed.

(** A path over configured edges ends inside the graph. *)
Lemma path_in_graph w seen ts i : config_workflow c = Some w -> graph_ok w ->
  path (entry_phase w) ts (Some i) -> Forall (edge_taken c seen) ts -> i ∈ map phase_id (phases w).
Proof.
  intros Hw [_ He Hc] Hp Hf. inversion Hp as [|ts' t _ Hts Hact]; subst; [done|].
  apply Forall_app in Hf as [_ Hf]. apply Forall_cons in Hf as [(p & n & e & Hph & Hn & Hto & _) _].
  destruct (phase_member w _ p Hw Hph) as [Hin _]. apply list_elem_of_lookup_2 in Hn.
  destruct (proj2 (Hc p Hin) e Hn) as [Hcomp|Hid]; rewrite Hto in *.
  - rewrite Hcomp in Hact. discriminate Hact.
  - destruct (String.eqb_spec (to_phase t) "complete"); [done|]. by injection Hact as <-.
Qed.

Lemma dedup_subset (l : list string) x : x ∈ dedup String.eqb l -> x ∈ l.
Proof.
  induction l as [|a [|b l] IH]; [done|done|]. cbn [dedup].
  destruct (String.eqb a b); intros Hx; [right; auto|].
  apply elem_of_cons in Hx as [->|Hx]; [left|right; auto].
Qed.
End workflows.

(** ** Completion with the defaults *)
Lemma obj_insert_same {A} k (v : A) m : assoc k m = Some v -> obj_insert k v m = m.
Proof.
  induction m as [|[k' v'] m IH]; cbn; [done|]. destruct (String.eqb k k'); [by intros [= ->]|].
  intros H. by rewrite IH.
Qed.
Lemma obj_insert_twice {A} k (v w : A) m : obj_insert k v (obj_insert k w m) = obj_insert k v m.
Proof.
  induction m as [|[k' v'] m IH]; cbn; [by rewrite String.eqb_refl|].
  destruct (String.eqb k k') eqn:E; cbn; rewrite E; [done|]. by rewrite IH.
Qed.
Lemma assoc_app {A} k (m m' : list (string * A)) : assoc k (m ++ m') = opt_or (assoc k m) (assoc k m').
Proof. induction m as [|[k' v] m IH]; [done|]. cbn. by destruct (String.eqb k k'). Qed.

(** Which keys are present. *)
Definition has (k : string) (m : entries) : bool := is_some (assoc k m).
Lemma has_insert k k' v m : has k (obj_insert k' v m) = String.eqb k k' || has k m.
Proof.
  unfold has. destruct (String.eqb_spec k k') as [->|Hn]; [by rewrite assoc_insert_eq|by rewrite assoc_insert_ne].
Qed.
Lemma has_entry_or k k' v m : has k (entry_or k' v m) = String.eqb k k' || has k m.
Proof.
  unfold entry_or. fold (has k' m). destruct (has k' m) eqn:E.
  - by destruct (String.eqb_spec k k') as [->|_].
  - unfold has. rewrite assoc_app. destruct (assoc k m); cbn; [by rewrite orb_true_r|].
    by destruct (String.eqb k k').
Qed.
Lemma has_alter_entry k k' f m : has k (alter_entry k' f m) = has k m.
Proof.
  unfold alter_entry. destruct (assoc k' m) eqn:E; [|done]. rewrite has_insert.
  destruct (String.eqb_spec k k') as [->|_]; [|done]. unfold has. by rewrite E.
Qed.
Lemma entry_or_present k v m : has k m = true -> entry_or k v m = m.
Proof. unfold entry_or, has. by intros ->. Qed.
Lemma alter_entry_twice k f m : (forall v, f (f v) = f v) -> alter_entry k f (alter_entry k f m) = alter_entry k f m.
Proof.
  intros Hf. unfold alter_entry. destruct (assoc k m) eqn:E; [|by rewrite E].
  by rewrite assoc_insert_eq, obj_insert_twice, Hf.
Qed.
Lemma in_object_twice f v : (forall m, f (f m) = f m) -> in_object f (in_object f v) = in_object f v.
Proof. intros Hf. destruct v; cbn; by rewrite ?Hf. Qed.
Lemma in_array_twice f v : (forall m, f (f m) = f m) -> in_array f (in_array f v) = in_array f v.
Proof. intros Hf. destruct v; cbn; try done. rewrite map_map. f_equal. by apply map_ext. Qed.
#[local] Hint Rewrite has_alter_entry has_entry_or String.eqb_refl orb_true_r : has.

(** Drops the defaults of keys that [u] already put in place. *)
Ltac present u :=
  repeat match goal with
  | |- context [entry_or ?k ?v (u ?m)] =>
      rewrite (entry_or_present k v (u m)) by (unfold u; autorewrite with has; done)
  end.
Lemma entry_or_twice k v m : entry_or k v (entry_or k v m) = entry_or k v m.
Proof. apply entry_or_present. by autorewrite with has. Qed.
Lemma complete_execution_twice e : complete_execution (complete_execution e) = complete_execution e.
Proof.
  unfold complete_execution at 1. present complete_execution. apply alter_entry_twice. intros v.
  apply in_array_twice. intros x. apply in_object_twice, entry_or_twice.
Qed.
Lemma complete_check_twice e : complete_check (complete_check e) = complete_check e.
Proof. unfold complete_check at 1. by present complete_check. Qed.
Lemma complete_completion_twice e : complete_completion (complete_completion e) = complete_completion e.
Proof.
  unfold complete_completion at 1. present complete_completion. apply alter_entry_twice. intros v.
  apply in_array_twice. intros x. apply in_object_twice, complete_check_twice.
Qed.

Lemma expect_object_some k f m m' : expect_object k f m = Some m' ->
  exists e, (assoc k m = Some (Object e) \/ (assoc k m = None /\ e = []))
    /\ assoc k m' = Some (Object (f e)) /\ forall j, j <> k -> assoc j m' = assoc j m.
Proof.
  unfold expect_object, entry_or. destruct (assoc k m) as [x|] eqn:E; cbn [is_some].
  - rewrite E. destruct x; try done. intros [= <-]. exists m0. split; [by left|].
    split; [apply assoc_insert_eq|]. intros. by apply assoc_insert_ne.
  - rewrite assoc_app, E. cbn. rewrite String.eqb_refl. intros [= <-]. exists []. split; [by right|].
    split; [apply assoc_insert_eq|]. intros j Hj. rewrite assoc_insert_ne, assoc_app by done. cbn.
    rewrite eqb_ne by done. by destruct (assoc j m).
Qed.
Lemma expect_object_id k f e m : assoc k m = Some (Object (f e)) -> f (f e) = f e -> expect_object k f m = Some m.
Proof.
  intros E Hf. unfold expect_object. rewrite entry_or_present, E by (unfold has; by rewrite E).
  by rewrite Hf, obj_insert_same.
Qed.
Lemma complete_config_value_twice v v' : complete_config_value v = Some v' -> complete_config_value v' = Some v'.
Proof.
  destruct v as [| | | | |m]; try done. cbn [complete_config_value].
  destruct (expect_object "execution" complete_execution m) as [m1|] eqn:E1; [|done]. cbn.
  destruct (expect_object "completion" complete_completion m1) as [m2|] eqn:E2; [|done]. cbn. intros [= <-].
  apply expect_object_some in E1 as (e1 & _ & A1 & _). apply expect_object_some in E2 as (e2 & _ & A2 & K2).
  cbn [complete_config_value]. rewrite (expect_object_id "execution" complete_execution e1 m2);
    [|by rewrite K2|apply complete_execution_twice].
  cbn. by rewrite (expect_object_id "completion" complete_completion e2 m2); [|done|apply complete_completion_twice].
Qed.
Lemma complete_config_value_json c : is_some (complete_config_value (config_json c))
  = is_object (execution c) && is_object (config_completion c).
Proof.
  unfold config_json. cbn. destruct (execution c), (config_completion c); reflexivity.
Qed.

(** ** Environment references *)
Section expansion.
Context (env_var : string -> option string).

Lemma expand_from_acc fuel r s : expand_from env_var fuel r s = r +:+ expand_from env_var fuel "" s.
Proof.
  revert r s. induction fuel as [|n IH]; intros r s; cbn [expand_from]; [done|].
  destruct (find_str "${" s); [|done]. destruct (find_str "}" _); [|by rewrite app_assoc_str].
  set (q := unwrap_or _ _). rewrite (IH ((r +:+ _) +:+ q)), (IH (("" +:+ _) +:+ q)).
  by rewrite app_str_nil, !app_assoc_str.
Qed.
Lemma expand_from_fuel fuel fuel' r s : (String.length s <= fuel)%nat -> (String.length s <= fuel')%nat ->
  expand_from env_var fuel r s = expand_from env_var fuel' r s.
Proof.
  revert fuel' r s. induction fuel as [|n IH]; intros fuel' r s H H'.
  - destruct s; [|cbn in H; lia]. by destruct fuel'.
  - destruct fuel' as [|n']; [destruct s; [done|cbn in H'; lia]|]. cbn [expand_from].
    destruct (find_str "${" s) as [i|]; [|done].
    destruct (find_str "}" (drop_bytes (i + 2) s)) as [j|] eqn:E; [|done].
    assert (0 < String.length s)%nat by (destruct s; [by destruct (i + 2)%nat|cbn; lia]).
    apply IH; rewrite !length_drop_bytes; lia.
Qed.

Lemma find_reference pre rest : contains_str pre "${" = false ->
  find_str "${" (pre +:+ "${" +:+ rest) = Some (String.length pre).
Proof.
  induction pre as [|a pre IH]; [by destruct rest|]. unfold contains_str. intros Hn.
  rewrite app_str_cons. cbn [find_str String.length] in *.
  destruct (starts_with (String a pre) "${") eqn:E; [done|].
  destruct (starts_with (String a (pre +:+ "${" +:+ rest)) "${") eqn:E'.
  - exfalso. revert E E'. unfold starts_with. cbn [String.prefix].
    destruct (Ascii.ascii_dec _ a); [|done]. destruct pre as [|b pre]; [by cbn|]. rewrite app_str_cons.
    cbn [String.prefix]. destruct (Ascii.ascii_dec _ b); [|done]. by destruct pre.
  - rewrite IH; [done|]. unfold contains_str. by destruct (find_str "${" pre).
Qed.
Lemma find_brace pre rest : contains_str pre "}" = false ->
  find_str "}" (pre +:+ "}" +:+ rest) = Some (String.length pre).
Proof.
  induction pre as [|a pre IH]; [by destruct rest|]. unfold contains_str. intros Hn.
  rewrite app_str_cons. cbn [find_str String.length] in *.
  destruct (starts_with (String a pre) "}") eqn:E; [done|].
  replace (starts_with (String a (pre +:+ "}" +:+ rest)) "}") with false.
  - rewrite IH; [done|]. unfold contains_str. by destruct (find_str "}" pre).
  - revert E. unfold starts_with. cbn [String.prefix]. destruct (Ascii.ascii_dec _ a); [|done].
    by destruct pre.
Qed.
Lemma drop_more n m s : drop_bytes n (drop_bytes m s) = drop_bytes (m + n) s.
Proof. revert s. induction m as [|m IH]; intros [|a s]; cbn; try done; by destruct n. Qed.

Lemma expand_string_plain s : contains_str s "${" = false -> expand_string env_var s = s.
Proof.
  unfold expand_string, contains_str. intros H. destruct s as [|a s]; [done|].
  cbn [String.length expand_from]. by destruct (find_str "${" (String a s)).
Qed.
Lemma expand_string_reference pre e post : contains_str pre "${" = false -> contains_str e "}" = false ->
  expand_string env_var (pre +:+ "${" +:+ e +:+ "}" +:+ post)
  = pre +:+ unwrap_or (expand_reference env_var e) ("${" +:+ e +:+ "}") +:+ expand_string env_var post.
Proof.
  intros Hp He. set (s := pre +:+ "${" +:+ e +:+ "}" +:+ post).
  assert (drop_bytes (String.length pre) s = "${" +:+ e +:+ "}" +:+ post) as D0 by apply drop_bytes_app.
  assert (drop_bytes (String.length pre + 2) s = e +:+ "}" +:+ post) as D2.
  { by rewrite <- drop_more, D0. }
  assert (exists n, String.length s = S n /\ (String.length post <= n)%nat) as (n & L & Hn).
  { exists (String.length s - 1)%nat. unfold s. rewrite !length_app_str. cbn. lia. }
  unfold expand_string at 1. rewrite L. cbn [expand_from].
  assert (find_str "${" s = Some (String.length pre)) as -> by by apply find_reference.
  assert (take_bytes (String.length pre) s = pre) as -> by apply take_bytes_app.
  rewrite D2, find_brace, D0 by done.
  rewrite take_bytes_app, app_str_nil, expand_from_acc.
  replace (take_bytes (3 + String.length e) ("${" +:+ e +:+ "}" +:+ post)) with ("${" +:+ e +:+ "}").
  2:{ symmetry. replace ("${" +:+ e +:+ "}" +:+ post) with (("${" +:+ e +:+ "}") +:+ post) by (by rewrite !app_assoc_str).
      replace (3 + String.length e)%nat with (String.length ("${" +:+ e +:+ "}")) by (rewrite !length_app_str; cbn; lia).
      apply take_bytes_app. }
  rewrite app_assoc_str. do 2 f_equal. unfold expand_string.
  replace (drop_bytes (String.length e + 1) (e +:+ "}" +:+ post)) with post.
  2:{ by rewrite <- drop_more, drop_bytes_app. }
  by apply expand_from_fuel.
Qed.
Lemma expand_string_unterminated pre rest : contains_str pre "${" = false -> contains_str rest "}" = false ->
  expand_string env_var (pre +:+ "${" +:+ rest) = pre +:+ "${" +:+ rest.
Proof.
  intros Hp Hr. unfold expand_string. destruct (String.length _) as [|n] eqn:E; [by rewrite app_str_nil|].
  cbn [expand_from]. rewrite find_reference, <- drop_more, !drop_bytes_app, take_bytes_app by done.
  change (drop_bytes 2 ("${" +:+ rest)) with rest. unfold contains_str in Hr.
  by destruct (find_str "}" rest).
Qed.
End expansion.

(** * Properties *)
Section properties.
Context `{P : Platform}.

(** C37: the check on tool parameters accepts a value exactly when it is a
    schema: an object with supported keywords only, well-formed keyword values,
    patterns that compile, and subschemas that are schemas in turn. *)
Theorem validate_schema_iff v path : validate_schema v path = Ok tt <-> schema_ok v.
Proof. apply validate_schema_ok. Qed.


(** Completing a configuration a second time changes nothing, so a stored
    configuration has the identity of the one it was completed from. *)
Theorem completed_config_keeps_identity v v' : complete_config_value v = Some v' ->
  complete_config_value v' = Some v' /\ resolved_value v' = resolved_value v.
Proof.
  intros E. pose proof (complete_config_value_twice v v' E) as E'. split; [done|].
  unfold resolved_value. by rewrite E, E'.
Qed.

(** Environment references are replaced in one pass from left to right:
    what a variable expands to is not expanded again, a reference that is not a
    variable name stays as it is written, and a text without a complete
    reference is kept. *)
Theorem expand_string_single_pass env_var pre e post rest :
  contains_str pre "${" = false -> contains_str e "}" = false -> contains_str rest "}" = false ->
  expand_string env_var pre = pre
  /\ expand_string env_var (pre +:+ "${" +:+ rest) = pre +:+ "${" +:+ rest
  /\ expand_string env_var (pre +:+ "${" +:+ e +:+ "}" +:+ post)
     = pre +:+ unwrap_or (expand_reference env_var e) ("${" +:+ e +:+ "}") +:+ expand_string env_var post.
Proof.
  intros. split_and!;
    [by apply expand_string_plain|by apply expand_string_unterminated|by apply expand_string_reference].
Qed.

(** C39: a configuration that is read lies below the canonical root, is a YAML
    file named without parent references, and has passed the gate; its digest
    is that of the bytes read. *)
Theorem cfg_confined `{Files} env_var root_ r c snapshot_ digest_ :
  cfg env_var root_ r = Ok (c, snapshot_, digest_) ->
  is_absolute r = false /\ ".." ∉ components r /\ validate_config c = Ok tt
  /\ complete_config_value (config_json c) = Some snapshot_
  /\ exists root p b, canonicalize root_ = Ok root /\ canonicalize (join_path root_ r) = Ok p
     /\ components root `prefix_of` components p /\ is_file p = true
     /\ (exists x, extension p = Some x /\ to_ascii_lowercase x ∈ ["yaml"; "yml"])
     /\ read_file p = Ok b /\ digest_ = sha256_hex b.
Proof.
  unfold cfg. intros E.
  apply bind_ok in E as ([] & Habs & E). apply fail_if_ok, orb_false_iff in Habs as [_ Habs].
  apply bind_ok in E as (root & Hroot & E).
  apply bind_ok in E as ([] & Hup & E). apply fail_if_ok in Hup.
  apply bind_ok in E as (p & Hp & E).
  apply bind_ok in E as ([] & Hin & E). apply fail_if_ok, negb_false_iff, andb_true_iff in Hin as [_ Hin].
  apply bind_ok in E as ([] & Hf & E). apply fail_if_ok, orb_false_iff in Hf as [Hf Hx].
  apply bind_ok in E as (b & Hb & E). apply bind_ok in E as (yaml & _ & E).
  apply bind_ok in E as (agent & _ & E). apply bind_ok in E as (c' & _ & E).
  apply bind_ok in E as ([] & Hv & E). apply bind_ok in E as (snap & Hc & [= -> -> <-]).
  apply negb_false_iff in Hf, Hx. destruct (extension p) as [x|] eqn:Ex; [|done].
  cbn [is_some_and] in Hx. apply str_in_spec in Hx. split; [done|]. split.
  { intros Hu%str_in_spec. unfold str_in in Hu. congruence. }
  split; [by destruct (validate_config c) as [[]|]|]. split; [by destruct (complete_config_value _); inversion Hc|].
  exists root, p, b. split_and!; eauto. apply bool_decide_eq_true in Hin. rewrite Hin. apply prefix_take.
Qed.
End properties.

(** ** Witnesses *)
Lemma guided_config_valid : validate_config (P := sample_platform) guided_config = Ok tt.
Proof. vm_compute. reflexivity. Qed.
Definition short_config : value := Object [("llm", Object []); ("execution", Object [("tool_policy", Str "none")])].
Lemma completed_config_keeps_identity_witness : exists v',
  complete_config_value short_config = Some v' /\ v' <> short_config
  /\ complete_config_value v' = Some v' /\ resolved_value v' = resolved_value short_config.
Proof.
  eexists. split; [vm_compute; reflexivity|]. split; [discriminate|].
  apply completed_config_keeps_identity. vm_compute. reflexivity.
Defined.
Definition sample_env (k : string) : option string :=
  if String.eqb k "HOST" then Some "db.${PORT}" else None.
Lemma expand_string_single_pass_witness :
  expand_string sample_env "http://${HOST}:${PORT:-80}/" = "http://db.${PORT}:80/".
Proof.
  etrans; [apply (expand_string_single_pass sample_env "http://" "HOST" ":${PORT:-80}/" ""); reflexivity|].
  vm_compute. reflexivity.
Defined.
Definition sample_files : Files := {|
  canonicalize := Ok;
  is_file _ := true;
  read_file p := Ok p;
  join_path root r := root +:+ "/" +:+ r;
  yaml_read _ := Ok (Object [("agent", Object [])]);
  config_of _ := Ok guided_config
|}.
Lemma cfg_confined_witness : exists c snapshot_ digest_,
  cfg (P := sample_platform) (H := sample_files) sample_env "/etc/agent" "team/a.yml" = Ok (c, snapshot_, digest_)
  /\ components "/etc/agent" `prefix_of` components "/etc/agent/team/a.yml".
Proof.
  eexists _, _, _. split; [vm_compute; reflexivity|].
  destruct (cfg_confined (P := sample_platform) (H := sample_files) sample_env "/etc/agent" "team/a.yml" _ _ _ ltac:(vm_compute; reflexivity))
    as (_ & _ & _ & _ & root & p & b & [= <-] & [= <-] & Hp & _).
  exact Hp.
Defined.

(** ** What the gate lets through *)
(** The sum of the reserved tokens and the margin is taken modulo 2^64: two
    absurd reserves pass a gate that refuses a reserve as large as the window. *)
Definition with_reserve (reserved margin : Z) : Memory :=
  let m := config_memory guided_config in
  {| max_tokens := max_tokens m; max_steps := max_steps m; raw_turns_to_keep := raw_turns_to_keep m;
     hybrid_reflection := hybrid_reflection m; run_max_steps := run_max_steps m;
     compaction_interval_steps := compaction_interval_steps m;
     context_window_tokens := context_window_tokens m; reserved_output_tokens := reserved;
     safety_margin_tokens := margin; max_summary_tokens := max_summary_tokens m;
     summary_output_tokens := summary_output_tokens m;
     compaction_max_attempts := compaction_max_attempts m; compaction_max_passes := compaction_max_passes m;
     compaction_min_growth_tokens := compaction_min_growth_tokens m;
     compaction_min_interval_steps := compaction_min_interval_steps m;
     optional_compaction_min_pressure_ratio := optional_compaction_min_pressure_ratio m;
     optional_compaction_min_reclaimable_tokens := optional_compaction_min_reclaimable_tokens m;
     optional_compaction_min_reduction_tokens := optional_compaction_min_reduction_tokens m;
     optional_compaction_min_reduction_ratio := optional_compaction_min_reduction_ratio m |}.
Definition with_parts (m : Memory) (e : value) : Config :=
  {| config_name := "c"; system_prompt := ""; model := "m"; llm := llm guided_config; config_memory := m;
     output := output guided_config; tools := []; config_workflow := None; execution := e;
     config_completion := Object [] |}.
Lemma oversized_reserve_accepted :
  validate_config (P := sample_platform) (with_parts (with_reserve (2 ^ 62) (2 ^ 62)) (Object [])) = Ok tt
  /\ is_ok (validate_config (P := sample_platform)
       (with_parts (with_reserve (context_window_tokens (config_memory guided_config)) 0) (Object []))) = false.
Proof. split; vm_compute; reflexivity. Qed.
(** A mapping that is present but null passes the gate and then stops the
    completion with a panic. *)
Lemma unmapped_execution_panics :
  validate_config (P := sample_platform) (with_parts (with_reserve 1024 256) Null) = Ok tt
  /\ complete_config_value (config_json (with_parts (with_reserve 1024 256) Null)) = None.
Proof. split; [vm_compute; reflexivity|]. reflexivity. Qed.
