(* ===== verification/ArchiveFacts.v ===== *)
(** * An exported archive is accepted by the verification ([retention.rs])

    [export] writes the documents of a session one to a line and [verify]
    reads them back; both keep a tally of the lines, the rows and the largest
    identities.  The two tallies agree, so an archive that was written is
    accepted, and the manifest that [verify] returns holds the digests that
    [write_retention] recomputes before it deletes anything. *)
From S2P Require Import Prelude Text Json Encoding Session Logic Diagnostics Store Rows Config Retention Sample Authority.
From Stdlib Require Import Ascii Sorted Permutation.
Local Open Scope string_scope.
Local Open Scope Z_scope.

(** * Lines of an archive *)
Lemma line_sort `{P : Platform} v : line (sort_json v) = line v.
Proof. unfold line, canonical_json. by rewrite sort_json_idem. Qed.


(** * The two tallies *)

Definition row_document (e : string * value) : value := Object [("table", Str (fst e)); ("row", snd e)].
(** The rows of an archive, each with its table, in the order they are written. *)
Definition archive_rows (rows : string -> list value) : list (string * value) :=
  flat_map (fun t => map (pair t) (rows t)) TABLES.

(** Row [b] may follow row [a]: identities climb, per table and per family. *)
Definition climbs (a b : string * value) : Prop :=
  (fst a = events_table -> fst b = events_table ->
   unwrap_or (get_i64 "event_id" (snd a)) 0 <= unwrap_or (get_i64 "event_id" (snd b)) 0)
  /\ (fst a = diagnostics_table -> fst b = diagnostics_table ->
      get_str "family" (snd a) = get_str "family" (snd b) ->
      unwrap_or (get_i64 "ordinal" (snd a)) 0 <= unwrap_or (get_i64 "ordinal" (snd b)) 0).
(** The tally has seen nothing that row [e] would have to precede. *)
Definition reached (t : Tally) (e : string * value) : Prop :=
  (fst e = events_table -> last_event t <= unwrap_or (get_i64 "event_id" (snd e)) 0)
  /\ (fst e = diagnostics_table -> forall f, get_str "family" (snd e) = Some f ->
      unwrap_or (assoc f (last_ordinals t)) 0 <= unwrap_or (get_i64 "ordinal" (snd e)) 0).
(** What [verify] asks of a row: an object of this session, with an identity
    where the table has one. *)
Record archivable (session : string) (e : string * value) : Prop := {
  archivable_table : fst e ∈ TABLES;
  archivable_row : exists m, snd e = Object m /\ NoDup (keys m)
                             /\ assoc "session_id" m = Some (Str session);
  archivable_event : fst e = events_table -> is_some (get_i64 "event_id" (snd e)) = true;
  archivable_record : fst e = diagnostics_table ->
    is_some (get_i64 "ordinal" (snd e)) = true
    /\ exists f, get_str "family" (snd e) = Some f /\ f ∈ FAMILIES
}.

Section tallies.
Context `{P : Platform} `{F : Files}.

Definition export_tally (t : Tally) (e : string * value) : Tally :=
  snd (export_row (fst e) (snd e) ("", t)).

Lemma export_row_split e st :
  export_row (fst e) (snd e) st = (fst st +:+ line (row_document e), export_tally (snd st) e).
Proof. destruct st as [text t]. unfold export_tally, export_row. by destruct (String.eqb _ _). Qed.

Lemma export_rows_fold l st :
  foldl (fun st e => export_row (fst e) (snd e) st) st l
  = (fst st +:+ concat_str (map (fun e => line (row_document e)) l), foldl export_tally (snd st) l).
Proof.
  revert st. induction l as [|e l IH]; intros [text t]; cbn [foldl map concat_str].
  - cbn. by rewrite app_nil_r_str.
  - rewrite export_row_split, IH. cbn [fst snd]. by rewrite app_assoc_str.
Qed.

Lemma export_archive_text archive session rev rows :
  let header := export_header archive session rev in
  let t := foldl export_tally (empty_tally (line header)) (archive_rows rows) in
  export_archive archive session rev rows
  = concat_str (map line (header :: map row_document (archive_rows rows)
                          ++ [Object [("manifest", manifest_of t)]])).
Proof.
  cbn zeta. unfold export_archive. fold (export_header archive session rev).
  assert (forall st, foldl (export_table rows) st TABLES
    = foldl (fun st e => export_row (fst e) (snd e) st) st (archive_rows rows)) as ->.
  { intros st. unfold archive_rows. rewrite foldl_flat_map. revert st.
    induction TABLES as [|t ts IH]; intros st; cbn; [done|].
    rewrite IH. unfold export_table. by rewrite foldl_map. }
  rewrite export_rows_fold. cbn [fst snd map concat_str].
  rewrite map_app, concat_str_app, map_map. cbn [map concat_str].
  by rewrite app_nil_r_str, app_assoc_str.
Qed.
End tallies.

(** ** Reading a row back *)
Section verifying.
Context `{P : Platform} `{F : Files}.

Lemma get_str_sort k m : NoDup (keys m) -> get_str k (sort_json (Object m)) = get_str k (Object m).
Proof.
  intros H. unfold get_str. rewrite get_sort_json by done. cbn.
  by destruct (assoc k m) as [[]|].
Qed.

Lemma get_i64_sort k m : NoDup (keys m) -> get_i64 k (sort_json (Object m)) = get_i64 k (Object m).
Proof.
  intros H. unfold get_i64. rewrite get_sort_json by done. cbn.
  by destruct (assoc k m) as [[]|].
Qed.

Lemma sort_row_document e :
  sort_json (row_document e) = Object [("row", sort_json (snd e)); ("table", Str (fst e))].
Proof. done. Qed.

Lemma verify_row_export session header t e :
  archivable session e -> reached t e ->
  index header "session_id" = Str session ->
  verify_row header (sort_json (row_document e)) t = Ok (export_tally t e).
Proof.
  intros [Ht (m & Hm & Hnd & Hid) Hev Hrec] [Re Rd] Hh. unfold verify_row.
  rewrite line_sort, sort_row_document. destruct e as [table row]. cbn [fst snd] in *. subst row.
  cbn -[str_in TABLES line record_line events_table diagnostics_table sort_json FAMILIES].
  rewrite (proj2 (str_in_spec _ _) Ht), Hh.
  unfold index at 1. rewrite get_sort_json, Hid by done. cbn [fmap option_fmap option_map unwrap_or sort_json value_eqb].
  rewrite String.eqb_refl. cbn -[str_in TABLES line record_line events_table diagnostics_table sort_json FAMILIES].
  unfold export_tally, export_row. cbn [fst snd].
  change (Object (sort_by _ _)) with (sort_json (Object m)).
  rewrite !get_i64_sort, get_str_sort by done.
  destruct (String.eqb_spec table events_table) as [->|_]; cbn [String.eqb].
  - change (String.eqb events_table diagnostics_table) with false. cbn iota.
    specialize (Hev eq_refl). specialize (Re eq_refl).
    destruct (get_i64 "event_id" (Object m)) as [n|]; [|done]. cbn in Re |- *.
    f_equal. unfold record_line, upd. destruct t. cbn in *. f_equal. lia.
  - cbn [mbind result_bind]. destruct (String.eqb_spec table diagnostics_table) as [->|_]; [|done].
    destruct (Hrec eq_refl) as (Ho & f & Hf & Hin). specialize (Rd eq_refl f Hf).
    rewrite Hf. destruct (get_i64 "ordinal" (Object m)) as [n|]; [|done].
    cbn -[FAMILIES str_in] in Rd |- *. rewrite (proj2 (str_in_spec _ _) Hin). cbn.
    f_equal. unfold record_line, upd. destruct t. cbn in *. do 2 f_equal. lia.
Qed.
Lemma last_event_step t e :
  last_event (export_tally t e)
  = if String.eqb (fst e) events_table then unwrap_or (get_i64 "event_id" (snd e)) 0 else last_event t.
Proof. unfold export_tally, export_row, record_line, upd. by case_ifs. Qed.

Lemma last_ordinals_step t e :
  last_ordinals (export_tally t e)
  = if String.eqb (fst e) diagnostics_table
    then obj_insert (unwrap_or (get_str "family" (snd e)) "") (unwrap_or (get_i64 "ordinal" (snd e)) 0)
           (last_ordinals t)
    else last_ordinals t.
Proof. unfold export_tally, export_row, record_line, upd. by case_ifs. Qed.

Lemma reached_step session t a b :
  archivable session a -> climbs a b -> reached t b -> reached (export_tally t a) b.
Proof.
  intros Ha [Ce Cd] [Re Rd]. split.
  - intros Hb. rewrite last_event_step.
    destruct (String.eqb_spec (fst a) events_table); [by apply Ce|by apply Re].
  - intros Hb f Hf. rewrite last_ordinals_step.
    destruct (String.eqb_spec (fst a) diagnostics_table) as [E|_]; [|by apply Rd].
    destruct (archivable_record _ _ Ha E) as (_ & g & Hg & _). rewrite Hg. cbn [unwrap_or].
    destruct (String.eqb_spec f g) as [->|Hne].
    + rewrite assoc_insert_eq. cbn. apply Cd; congruence.
    + rewrite assoc_insert_ne by done. by apply Rd.
Qed.

Lemma verify_rows session header rest l t manifest :
  manifest = None ->
  Forall (archivable session) l -> StronglySorted climbs l -> Forall (reached t) l ->
  Forall (fun e => prints (row_document e) /\ readable (row_document e) = true) l ->
  index header "session_id" = Str session ->
  verify_lines header (map (fun e => canonical_json (row_document e)) l ++ rest) t manifest
  = verify_lines header rest (foldl export_tally t l) manifest.
Proof.
  intros ->. revert t. induction l as [|e l IH]; intros t Ha Hs Hr Hp Hh; [done|].
  apply Forall_cons in Ha as [Ha Hal]. apply StronglySorted_inv in Hs as [Hs Hc].
  apply Forall_cons in Hr as [Hr Hrl]. apply Forall_cons in Hp as [[Hpr Hre] Hpl].
  cbn [map app verify_lines]. rewrite parse_strict_canonical by done. cbn [mbind result_bind].
  change (get "manifest" (sort_json (row_document e))) with (@None value).
  cbn [is_some fail_if mbind result_bind].
  rewrite (verify_row_export session) by done. cbn [mbind result_bind foldl].
  apply IH; try done.
  rewrite Forall_forall in *. intros b Hb. eapply reached_step; [done|by apply Hc|by apply Hrl].
Qed.
(** ** The manifest *)

Definition counted (n : Z) (e : string * Z) : Prop := 0 <= snd e <= n.
Record tally_ok (n : Z) (t : Tally) : Prop := {
  ok_lines : keys (table_lines t) = TABLES;
  ok_counts : keys (row_counts t) = TABLES;
  ok_count : Forall (counted n) (row_counts t);
  ok_event : 0 <= last_event t <= i64_max;
  ok_families : NoDup (keys (last_ordinals t));
  ok_ordinals : Forall (counted i64_max) (last_ordinals t)
}.

Lemma as_i64_le v n : representable v = true -> as_i64 v = Some n -> 0 <= n -> 0 <= n <= i64_max.
Proof.
  unfold as_i64. intros Hv H Hn. destruct v as [| |[]| | |]; try done; cbn in *; case_ifs; simplify_eq; lia.
Qed.

Lemma get_i64_le k v :
  representable v = true -> 0 <= unwrap_or (get_i64 k v) 0 -> 0 <= unwrap_or (get_i64 k v) 0 <= i64_max.
Proof.
  assert (0 <= 0 <= i64_max) as H0 by (unfold i64_max; lia).
  unfold get_i64, get. intros Hv. destruct v as [| | | | |m]; try done.
  destruct (assoc k m) as [x|] eqn:Hx; [|done]. cbn in Hv. rewrite forallb_forall in Hv.
  apply assoc_in, list_elem_of_In, Hv in Hx.
  destruct (as_i64 x) eqn:E; [|done]. by eapply as_i64_le.
Qed.

Lemma keys_alter {A} k (f : A -> A) m : keys (alter_assoc k f m) = keys m.
Proof. unfold keys, alter_assoc. rewrite map_map. apply map_ext. intros e. by case_ifs. Qed.

Lemma table_lines_step t e :
  table_lines (export_tally t e) = alter_assoc (fst e) (fun l => l +:+ line (row_document e)) (table_lines t).
Proof. unfold export_tally, export_row, record_line, upd. by case_ifs. Qed.

Lemma row_counts_step t e :
  row_counts (export_tally t e) = alter_assoc (fst e) (fun n => n + 1) (row_counts t).
Proof. unfold export_tally, export_row, record_line, upd. by case_ifs. Qed.

Lemma tally_ok_step session n t e :
  tally_ok n t -> archivable session e -> readable (row_document e) = true -> reached t e ->
  tally_ok (n + 1) (export_tally t e).
Proof.
  intros [Hl Hc Hn He Hf Ho] Ha Hread [Re Rd].
  assert (representable (snd e) = true) as Hrow.
  { unfold readable in Hread. cbn in Hread. rewrite !andb_true_r in Hread. by apply andb_true_iff in Hread as [? _]. }
  split.
  - by rewrite table_lines_step, keys_alter.
  - by rewrite row_counts_step, keys_alter.
  - rewrite row_counts_step. unfold alter_assoc. apply Forall_fmap. eapply Forall_impl; [exact Hn|].
    intros x Hx. unfold counted in *. cbn. case_ifs; cbn; lia.
  - rewrite last_event_step. destruct (String.eqb_spec (fst e) events_table) as [E|]; [|done].
    apply get_i64_le; [done|]. specialize (Re E). lia.
  - rewrite last_ordinals_step. case_ifs; [by apply obj_insert_nodup|done].
  - rewrite last_ordinals_step. destruct (String.eqb_spec (fst e) diagnostics_table) as [E|]; [|done].
    destruct (archivable_record _ _ Ha E) as (_ & f & Hg & _). specialize (Rd E f Hg).
    apply forall_obj_insert; [done|]. intros k. unfold counted. cbn [snd]. apply get_i64_le; [done|].
    destruct (assoc f (last_ordinals t)) as [o|] eqn:Eo; cbn in Rd; [|done].
    apply assoc_in in Eo. rewrite Forall_forall in Ho. specialize (Ho _ Eo). unfold counted in Ho. cbn in Ho. lia.
Qed.

Lemma tally_ok_fold session n l t :
  tally_ok n t -> Forall (archivable session) l ->
  Forall (fun e => readable (row_document e) = true) l -> StronglySorted climbs l -> Forall (reached t) l ->
  tally_ok (n + Z.of_nat (length l)) (foldl export_tally t l).
Proof.
  revert n t. induction l as [|e l IH]; intros n t Ht Ha Hd Hs Hr; cbn [foldl length].
  - by rewrite Z.add_0_r.
  - apply Forall_cons in Ha as [Ha Hal]. apply Forall_cons in Hd as [Hd Hdl]. apply StronglySorted_inv in Hs as [Hs Hc].
    apply Forall_cons in Hr as [Hr Hrl].
    replace (n + Z.of_nat (S (length l))) with (n + 1 + Z.of_nat (length l)) by lia.
    apply IH; [by eapply tally_ok_step|done|done|done|].
    rewrite Forall_forall in *. intros b Hb. eapply reached_step; [done|by apply Hc|by apply Hrl].
Qed.

Lemma tally_ok_empty header_line : tally_ok 0 (empty_tally header_line).
Proof.
  split; try done; try constructor; try by repeat constructor.
Qed.

Lemma readable_num z : 0 <= z <= i64_max -> readable (num z) = true.
Proof. intros H. unfold readable, num, i64_max in *. cbn. case_ifs; [lia|]. cbn. unfold i64_max. lia. Qed.

Lemma readable_object (m : list (string * value)) :
  NoDup (keys m) -> Forall (fun e => readable (snd e) = true) m -> readable (Object m) = true.
Proof.
  intros Hnd Hm. unfold readable. cbn. rewrite (proj2 (all_distinct_spec _) Hnd). cbn.
  clear Hnd. induction Hm as [|e m He Hm IH]; [done|]. cbn in *. unfold readable in He.
  rewrite !andb_true_iff in *. tauto.
Qed.

Lemma readable_counts n m :
  NoDup (keys m) -> Forall (counted n) m -> n <= i64_max ->
  readable (Object (map (fun e => (fst e, num (snd e))) m)) = true.
Proof.
  intros Hnd Hm Hn. apply readable_object; [by rewrite keys_map_snd|].
  apply Forall_fmap. eapply Forall_impl; [exact Hm|]. intros e He. unfold counted in He. cbn.
  apply readable_num. lia.
Qed.

Lemma tables_distinct : NoDup TABLES.
Proof. apply all_distinct_spec. reflexivity. Qed.

Lemma readable_manifest n t : tally_ok n t -> n <= i64_max ->
  readable (Object [("manifest", manifest_of t)]) = true.
Proof.
  intros [Hl Hc Hn He Hf Ho] Hmax.
  assert (readable (Object (counts_json t)) = true).
  { eapply readable_counts; [rewrite Hc; apply tables_distinct|exact Hn|done]. }
  assert (readable (Object (digests t)) = true).
  { apply readable_object.
    - unfold digests. rewrite (keys_map_snd (fun l => Str (sha256_hex l))), Hl. apply tables_distinct.
    - apply Forall_fmap. by apply Forall_true. }
  assert (readable (watermarks t) = true).
  { apply readable_object; [apply all_distinct_spec; reflexivity|].
    repeat constructor; cbn; [by apply readable_num|by eapply readable_counts]. }
  apply readable_object; [apply all_distinct_spec; reflexivity|]. repeat constructor; cbn [snd].
  apply readable_object; [apply all_distinct_spec; reflexivity|]. by repeat constructor.
Qed.

Lemma sort_manifest t :
  sort_json (manifest_of t)
  = Object [("counts", sort_json (Object (counts_json t))); ("sha256", Str (sha256_hex (all_lines t)));
            ("table_sha256", sort_json (Object (digests t))); ("watermarks", sort_json (watermarks t))].
Proof. done. Qed.

Lemma manifest_matches_sorted n t :
  tally_ok n t -> n <= i64_max -> manifest_matches (sort_json (manifest_of t)) t = true.
Proof.
  intros Ht Hn. pose proof (readable_manifest n t Ht Hn) as H.
  unfold readable in H. apply andb_true_iff in H as [_ H]. cbn -[watermarks] in H.
  rewrite !andb_true_r in H. rewrite !andb_true_iff in H. destruct H as (Hc & Hd & Hw).
  rewrite sort_manifest. unfold manifest_matches, index. cbn [get assoc String.eqb Ascii.eqb Bool.eqb unwrap_or].
  rewrite !value_eqb_sort by (cbn -[watermarks]; rewrite ?andb_true_iff; tauto).
  cbn. by rewrite String.eqb_refl.
Qed.
End verifying.

(** ** What the tally of an export holds *)
Section final_tally.
Context `{P : Platform} `{F : Files}.

(** The tally has reached row [e]. *)
Definition covers (t : Tally) (e : string * value) : Prop :=
  (fst e = events_table -> unwrap_or (get_i64 "event_id" (snd e)) 0 <= last_event t)
  /\ (fst e = diagnostics_table -> forall f, get_str "family" (snd e) = Some f ->
      exists n, assoc f (last_ordinals t) = Some n /\ unwrap_or (get_i64 "ordinal" (snd e)) 0 <= n).

Lemma covers_self session t e : archivable session e -> covers (export_tally t e) e.
Proof.
  intros Ha. split.
  - intros E. rewrite last_event_step, E. cbn. lia.
  - intros E f Hf. rewrite last_ordinals_step, E, Hf. cbn. eexists. split; [apply assoc_insert_eq|lia].
Qed.

Lemma covers_step session t a e :
  archivable session a -> reached t a -> covers t e -> covers (export_tally t a) e.
Proof.
  intros Ha [Re Rd] [Ce Cd]. split.
  - intros E. specialize (Ce E). rewrite last_event_step.
    destruct (String.eqb_spec (fst a) events_table) as [Ea|_]; [|done]. specialize (Re Ea). lia.
  - intros E f Hf. destruct (Cd E f Hf) as (n & Hn & Hle). rewrite last_ordinals_step.
    destruct (String.eqb_spec (fst a) diagnostics_table) as [Ea|_]; [|by exists n].
    destruct (archivable_record _ _ Ha Ea) as (_ & g & Hg & _). specialize (Rd Ea g Hg).
    rewrite Hg. cbn [unwrap_or]. destruct (String.eqb_spec f g) as [->|Hne].
    + rewrite assoc_insert_eq. eexists. split; [done|]. rewrite Hn in Rd. cbn in Rd. lia.
    + rewrite assoc_insert_ne by done. by exists n.
Qed.

Lemma covers_fold session l t e :
  Forall (archivable session) l -> StronglySorted climbs l -> Forall (reached t) l ->
  covers t e \/ e ∈ l -> covers (foldl export_tally t l) e.
Proof.
  revert t. induction l as [|a l IH]; intros t Ha Hs Hr He; cbn [foldl].
  - destruct He as [?|He]; [done|by apply elem_of_nil in He].
  - apply Forall_cons in Ha as [Ha Hal]. apply StronglySorted_inv in Hs as [Hs Hc].
    apply Forall_cons in Hr as [Hr Hrl]. apply IH; [done|done| |].
    + rewrite Forall_forall in *. intros b Hb. eapply reached_step; [done|by apply Hc|by apply Hrl].
    + destruct He as [He|[->|He]%elem_of_cons]; [left; by eapply covers_step|left; by eapply covers_self|by right].
Qed.

Lemma assoc_alter {A} k k' (f : A -> A) m :
  assoc k' (alter_assoc k f m) = (if String.eqb k k' then f else fun x => x) <$> assoc k' m.
Proof.
  unfold alter_assoc. induction m as [|[k0 x] m IH]; cbn; [done|].
  destruct (String.eqb_spec k k0) as [<-|Hk]; cbn.
  - rewrite (String.eqb_sym k' k). by destruct (String.eqb k k') eqn:E.
  - destruct (String.eqb_spec k' k0) as [->|]; [|done]. by rewrite eqb_ne.
Qed.

(** The lines and the number of the rows of one table. *)
Lemma table_fold table l t ls n :
  assoc table (table_lines t) = Some ls -> assoc table (row_counts t) = Some n ->
  let mine := List.filter (fun e => String.eqb (fst e) table) l in
  assoc table (table_lines (foldl export_tally t l))
  = Some (ls +:+ concat_str (map (fun e => line (row_document e)) mine))
  /\ assoc table (row_counts (foldl export_tally t l)) = Some (n + Z.of_nat (length mine)).
Proof.
  revert t ls n. induction l as [|e l IH]; intros t ls n Hl Hn; cbn [foldl List.filter map concat_str length].
  - rewrite app_nil_r_str, Z.add_0_r. done.
  - edestruct (IH (export_tally t e)) as [-> ->].
    { rewrite table_lines_step, assoc_alter, Hl. done. }
    { rewrite row_counts_step, assoc_alter, Hn. done. }
    destruct (String.eqb (fst e) table); cbn [map concat_str length]; [|done].
    rewrite app_assoc_str. split; [done|]. f_equal. lia.
Qed.

Lemma filter_archive_rows rows table :
  table ∈ TABLES ->
  List.filter (fun e => String.eqb (fst e) table) (archive_rows rows) = map (pair table) (rows table).
Proof.
  intros Hin. unfold archive_rows.
  assert (forall t, List.filter (fun e : string * value => String.eqb (fst e) table) (map (pair t) (rows t))
    = if String.eqb t table then map (pair t) (rows t) else []) as Hf.
  { intros t. induction (rows t) as [|x l IH]; cbn; [by case_ifs|].
    rewrite IH. by destruct (String.eqb t table). }
  pose proof tables_distinct as Hnd. revert Hin Hnd.
  induction TABLES as [|t ts IH]; intros Hin Hnd; [by apply elem_of_nil in Hin|].
  apply NoDup_cons in Hnd as [Ht Hnd]. cbn. rewrite List.filter_app, Hf.
  destruct (String.eqb_spec t table) as [->|Hne].
  - assert (List.filter (fun e => String.eqb (fst e) table) (flat_map (fun t => map (pair t) (rows t)) ts) = [])
      as ->; [|apply app_nil_r].
    clear IH Hin Hnd. induction ts as [|t ts IH]; cbn; [done|]. apply not_elem_of_cons in Ht as [Hne Ht].
    rewrite List.filter_app, Hf, IH by done. by rewrite eqb_ne.
  - apply IH; [|done]. by apply elem_of_cons in Hin as [->|].
Qed.
End final_tally.

(** * The archive as a whole *)
Section whole_archive.
Context `{P : Platform} `{B : Backend} `{F : Files}.
Hypothesis json_text_one_line : forall v, one_line (json_text v) = true.
Hypothesis f64_text_safe : forall f, line_safe (f64_text f) = true.

Definition final_tally (archive session : string) (rev : Z) (rows : string -> list value) : Tally :=
  foldl export_tally (empty_tally (line (export_header archive session rev))) (archive_rows rows).
(** The documents of the archive, one to a line. *)
Definition archive_documents (archive session : string) (rev : Z) (rows : string -> list value) : list value :=
  export_header archive session rev :: map row_document (archive_rows rows)
    ++ [Object [("manifest", manifest_of (final_tally archive session rev rows))]].
(** What [verify] returns: the header with the manifest's entries. *)
Definition receipt (archive session : string) (rev : Z) (t : Tally) : value :=
  Object [("archive_id", Str archive); ("format", Str "sda-archive-2"); ("session_id", Str session);
          ("snapshot_revision", num rev); ("counts", sort_json (Object (counts_json t)));
          ("sha256", Str (sha256_hex (all_lines t))); ("table_sha256", sort_json (Object (digests t)));
          ("watermarks", sort_json (watermarks t))].

Lemma sort_header archive session rev :
  sort_json (export_header archive session rev)
  = Object [("archive_id", Str archive); ("format", Str "sda-archive-2"); ("session_id", Str session);
            ("snapshot_revision", num rev)].
Proof. done. Qed.

Lemma readable_header archive session rev :
  0 <= rev <= i64_max -> readable (export_header archive session rev) = true.
Proof.
  intros H. apply readable_object; [apply all_distinct_spec; reflexivity|].
  repeat constructor; cbn [snd]. by apply readable_num.
Qed.

Lemma check_header_export archive session rev a s :
  1 <= rev <= i64_max -> uuid_parse archive = Some a -> uuid_parse session = Some s ->
  check_header (sort_json (export_header archive session rev)) = Ok tt.
Proof.
  intros Hr Ha Hs. rewrite sort_header. unfold check_header.
  assert (get_i64 "snapshot_revision" (Object [("archive_id", Str archive); ("format", Str "sda-archive-2");
            ("session_id", Str session); ("snapshot_revision", num rev)]) = Some rev) as ->.
  { unfold get_i64, num. cbn -[i64_max]. destruct (rev <? 0) eqn:E; [lia|].
    cbn -[i64_max]. by replace (rev <=? i64_max) with true by lia. }
  cbn -[Z.ltb]. replace (rev <? 1) with false by lia. cbn. rewrite Ha, Hs. done.
Qed.

Lemma lines_of_archive archive session rev rows :
  lines (export_archive archive session rev rows)
  = map canonical_json (archive_documents archive session rev rows).
Proof using json_text_one_line f64_text_safe.
  rewrite export_archive_text. fold (final_tally archive session rev rows).
  fold (archive_documents archive session rev rows).
  rewrite <- (lines_of_file (map canonical_json (archive_documents archive session rev rows))).
  - by rewrite map_map.
  - apply forallb_forall. intros l (v & <- & Hv)%in_map_iff.
    assert (exists m, v = Object m) as [m ->]; [|by apply canonical_json_file_line].
    unfold archive_documents in Hv. destruct Hv as [<-|Hv]; [by eexists|].
    apply in_app_iff in Hv as [(e & <- & _)%in_map_iff|[<-|[]]]; by eexists.
Qed.

(** An archive that was written is accepted: the verification returns the
    tally of the export. *)
Lemma verify_exported archive session rev rows a s :
  let t := final_tally archive session rev rows in
  1 <= rev <= i64_max -> uuid_parse archive = Some a -> uuid_parse session = Some s ->
  Z.of_nat (length (archive_rows rows)) <= i64_max ->
  Forall (archivable session) (archive_rows rows) ->
  Forall (fun e => readable (row_document e) = true) (archive_rows rows) ->
  StronglySorted climbs (archive_rows rows) ->
  Forall (reached (empty_tally "")) (archive_rows rows) ->
  Forall prints (archive_documents archive session rev rows) ->
  verify_text (export_archive archive session rev rows) = Ok (receipt archive session rev t).
Proof using json_text_one_line f64_text_safe.
  intros t Hrev Ha Hs Hlen Harch Hread Hsort Hreach Hprint.
  assert (tally_ok (Z.of_nat (length (archive_rows rows))) t) as Ht.
  { unfold t, final_tally. rewrite <- (Z.add_0_l (Z.of_nat _)).
    eapply tally_ok_fold; eauto using tally_ok_empty. }
  unfold verify_text. rewrite lines_of_archive. unfold archive_documents in *. cbn [map].
  apply Forall_cons in Hprint as [Hph Hprint]. apply Forall_app in Hprint as [Hpr Hpm].
  apply Forall_cons in Hpm as [Hpm _]. apply (proj1 (List.Forall_map row_document _ _)) in Hpr.
  rewrite parse_strict_canonical by (done || (apply readable_header; lia)). cbn [mbind result_bind].
  rewrite (check_header_export _ _ _ a s) by done. cbn [mbind result_bind].
  rewrite line_sort, map_app, map_map.
  rewrite (verify_rows session); [|done|done|done|done| |done].
  2: { rewrite Forall_forall in *. intros e He. split; [by apply Hpr|by apply Hread]. }
  fold (final_tally archive session rev rows). fold t. fold t in Hpm.
  cbn [map verify_lines].
  rewrite parse_strict_canonical by (done || by eapply readable_manifest). cbn [mbind result_bind].
  change (get "manifest" (sort_json (Object [("manifest", manifest_of t)])))
    with (Some (sort_json (manifest_of t))).
  cbn [is_some fail_if mbind result_bind snd fst ok_or].
  erewrite manifest_matches_sorted by done. cbn [negb]. rewrite sort_manifest, sort_header. done.
Qed.
End whole_archive.

Lemma get_i64_counted k n m :
  NoDup (keys m) -> Forall (counted n) m -> n <= i64_max ->
  get_i64 k (sort_json (Object (map (fun e => (fst e, num (snd e))) m))) = assoc k m.
Proof.
  intros Hnd Hm Hn. rewrite get_i64_sort by (by rewrite keys_map_snd).
  unfold get_i64. cbn [get]. rewrite (assoc_map_snd k num). destruct (assoc k m) as [z|] eqn:E; [|done].
  cbn [fmap option_fmap option_map]. apply assoc_in in E. rewrite Forall_forall in Hm.
  specialize (Hm _ E). unfold counted in Hm. cbn in Hm. apply as_i64_num. lia.
Qed.

Lemma empty_tally_table header_line table : table ∈ TABLES ->
  assoc table (table_lines (empty_tally header_line)) = Some ""
  /\ assoc table (row_counts (empty_tally header_line)) = Some 0.
Proof.
  intros Ht. unfold empty_tally. cbn [table_lines row_counts].
  induction TABLES as [|t ts IH]; [by apply elem_of_nil in Ht|]. cbn.
  destruct (String.eqb_spec table t) as [->|Hne]; [done|].
  apply IH. by apply elem_of_cons in Ht as [->|].
Qed.

(** * The rows of a session *)
Section session_archive.
Context `{P : Platform} `{B : Backend} `{F : Files}.
Context (session : string) (other : string -> list value) (d : Db).
Notation rows := (fun table => session_rows session table other d).

(** Identities are assigned from 1, by a sequence of the database and by the
    engine. *)
Definition numbered_telemetry : Prop :=
  Forall (fun e => 0 <= event_id e <= i64_max) (session_events d)
  /\ forall s f n x, diagnostics d !! (s, f, n) = Some x -> 0 <= n <= i64_max.

(** The events of the session, in the order of their identities. *)
Lemma event_rows_elem v :
  v ∈ rows events_table <->
  exists e, e ∈ session_events d /\ event_session e = session /\ v = event_json e.
Proof.
  unfold session_rows. rewrite String.eqb_refl, list_elem_of_fmap. split.
  - intros (e & -> & He). rewrite sort_by_perm in He.
    apply list_elem_of_In, filter_In in He as [He%list_elem_of_In Hs%String.eqb_eq]. by exists e.
  - intros (e & He & Hs & ->). exists e. split; [done|]. rewrite sort_by_perm.
    apply list_elem_of_In, filter_In. split; [by apply list_elem_of_In|by apply String.eqb_eq].
Qed.

Lemma diagnostic_rows_elem f r :
  r ∈ diagnostic_rows session f d <-> diagnostics d !! (session, f, fst r) = Some (snd r).
Proof.
  destruct r as [n x]. unfold diagnostic_rows. rewrite sort_by_perm.
  unfold filter_map. rewrite list_elem_of_In, in_flat_map. split.
  - intros ([[[s g] m] y] & Hin%list_elem_of_In%elem_of_map_to_list & Hy).
    destruct (String.eqb_spec s session) as [->|], (String.eqb_spec g f) as [->|]; cbn in Hy; try done.
    by destruct Hy as [[= -> ->]|[]].
  - intros H. exists ((session, f, n), x). split; [by apply list_elem_of_In, elem_of_map_to_list|].
    rewrite !String.eqb_refl. by left.
Qed.

Lemma diagnostic_table_elem v :
  v ∈ rows diagnostics_table <->
  exists f r, f ∈ FAMILIES /\ r ∈ diagnostic_rows session f d /\ v = diagnostic_json session f r.
Proof.
  unfold session_rows. cbn [String.eqb Ascii.eqb Bool.eqb diagnostics_table events_table].
  rewrite list_elem_of_In, in_flat_map. split.
  - intros (f & Hf%list_elem_of_In & Hv%list_elem_of_In). rewrite sort_by_perm in Hf.
    apply list_elem_of_fmap in Hv as (r & -> & Hr). by exists f, r.
  - intros (f & r & Hf & Hr & ->). exists f. split.
    + apply list_elem_of_In. by rewrite sort_by_perm.
    + apply list_elem_of_In, list_elem_of_fmap. by exists r.
Qed.

Lemma archive_rows_elem e : e ∈ archive_rows rows <-> fst e ∈ TABLES /\ snd e ∈ rows (fst e).
Proof.
  unfold archive_rows. rewrite list_elem_of_In, in_flat_map. split.
  - intros (t & Ht%list_elem_of_In & He%list_elem_of_In).
    apply list_elem_of_fmap in He as (r & -> & Hr). done.
  - intros [Ht Hr]. exists (fst e). split; [by apply list_elem_of_In|].
    apply list_elem_of_In, list_elem_of_fmap. exists (snd e). by destruct e.
Qed.

Lemma other_rows t : t <> events_table -> t <> diagnostics_table -> rows t = other t.
Proof. intros H1 H2. unfold session_rows. by rewrite !eqb_ne by done. Qed.
Section well_formed.
Hypothesis numbered : numbered_telemetry.
Hypothesis others : forall t v, t <> events_table -> t <> diagnostics_table -> v ∈ other t ->
  exists m, v = Object m /\ assoc "session_id" m = Some (Str session).
Hypothesis rows_readable : Forall (fun e => readable (row_document e) = true) (archive_rows rows).

Lemma row_event v : v ∈ rows events_table ->
  exists e, v = event_json e /\ event_session e = session /\ 0 <= event_id e
            /\ get_i64 "event_id" v = Some (event_id e).
Proof using numbered.
  intros (e & He & Hs & ->)%event_rows_elem. destruct numbered as [Hn _].
  rewrite Forall_forall in Hn. specialize (Hn e He). exists e. split_and!; try done; [lia|].
  unfold get_i64. cbn -[num as_i64]. by apply as_i64_num.
Qed.

Lemma row_diagnostic v : v ∈ rows diagnostics_table ->
  exists f r, v = diagnostic_json session f r /\ f ∈ FAMILIES /\ 0 <= fst r
              /\ get_i64 "ordinal" v = Some (fst r) /\ get_str "family" v = Some f.
Proof using numbered.
  intros (f & r & Hf & Hr & ->)%diagnostic_table_elem. destruct numbered as [_ Hn].
  apply diagnostic_rows_elem, Hn in Hr. exists f, r. split_and!; try done; [lia|].
  unfold get_i64. cbn -[num as_i64]. by apply as_i64_num.
Qed.

Lemma rows_archivable : Forall (archivable session) (archive_rows rows).
Proof using numbered others rows_readable.
  rewrite Forall_forall in *. intros [t v] He. specialize (rows_readable _ He).
  apply archive_rows_elem in He as [Ht Hv]. cbn [fst snd] in *. split; cbn [fst snd]; [done| | |].
  - assert (exists m, v = Object m /\ assoc "session_id" m = Some (Str session)) as (m & -> & Hm).
    { destruct (decide (t = events_table)) as [->|]; [|destruct (decide (t = diagnostics_table)) as [->|]].
      - apply row_event in Hv as (e & -> & <- & _). by eexists.
      - apply row_diagnostic in Hv as (f & r & -> & _). by eexists.
      - rewrite other_rows in Hv by done. by eapply others. }
    exists m. split_and!; [done| |done].
    unfold readable in rows_readable. cbn in rows_readable. rewrite !andb_true_iff, all_distinct_spec in rows_readable.
    tauto.
  - intros ->. by apply row_event in Hv as (e & _ & _ & _ & ->).
  - intros ->. apply row_diagnostic in Hv as (f & r & _ & Hf & _ & -> & ->). split; [done|by exists f].
Qed.

Lemma rows_reached header_line : Forall (reached (empty_tally header_line)) (archive_rows rows).
Proof using numbered.
  rewrite Forall_forall. intros [t v] [Ht Hv]%archive_rows_elem. cbn [fst snd] in *. split; cbn [fst snd].
  - intros ->. by apply row_event in Hv as (e & _ & _ & He & ->).
  - intros -> f _. by apply row_diagnostic in Hv as (g & r & _ & _ & Hr & -> & _).
Qed.

Lemma event_table_climbs : StronglySorted climbs (map (pair events_table) (rows events_table)).
Proof using numbered.
  unfold session_rows. rewrite String.eqb_refl, map_map.
  set (l := sort_by _ _). eapply (strongly_sorted_map (fun a b => (event_id a <=? event_id b) = true)).
  - apply sort_by_sorted; intros; lia.
  - assert (forall e, e ∈ l -> get_i64 "event_id" (event_json e) = Some (event_id e)) as Hid.
    { intros e He. unfold l in He. rewrite sort_by_perm in He.
      apply list_elem_of_In, filter_In in He as [He%list_elem_of_In _]. destruct numbered as [Hn _].
      rewrite Forall_forall in Hn. specialize (Hn e He).
      unfold get_i64. cbn -[num as_i64]. by apply as_i64_num. }
    intros a b Ha Hb Hle. split; [|done]. intros _ _. cbn [snd]. rewrite !Hid by done. cbn. lia.
Qed.

Lemma diagnostic_table_climbs : StronglySorted climbs (map (pair diagnostics_table) (rows diagnostics_table)).
Proof using numbered.
  assert (forall f r, r ∈ diagnostic_rows session f d ->
    get_i64 "ordinal" (diagnostic_json session f r) = Some (fst r)) as Hid.
  { intros f r Hr%diagnostic_rows_elem. destruct numbered as [_ Hn]. apply Hn in Hr.
    unfold get_i64. cbn -[num as_i64]. by apply as_i64_num. }
  unfold session_rows. cbn [String.eqb Ascii.eqb Bool.eqb diagnostics_table events_table].
  eapply (strongly_sorted_map (fun v w => get_str "family" v = get_str "family" w ->
    unwrap_or (get_i64 "ordinal" v) 0 <= unwrap_or (get_i64 "ordinal" w) 0)); [|by intros v w _ _ H; split].
  apply strongly_sorted_flat_map.
  - intros f _. eapply (strongly_sorted_map (fun a b => (fst a <=? fst b) = true)).
    + apply sort_by_sorted; intros; lia.
    + intros a b Ha Hb Hle _. rewrite !Hid by done. cbn. lia.
  - intros f g v w Hne _ _ (a & -> & _)%list_elem_of_fmap (b & -> & _)%list_elem_of_fmap. cbn. congruence.
  - rewrite sort_by_perm. apply all_distinct_spec. reflexivity.
Qed.

Lemma rows_climb : StronglySorted climbs (archive_rows rows).
Proof using numbered.
  apply strongly_sorted_flat_map; [| |apply tables_distinct].
  - intros t Ht. destruct (decide (t = events_table)) as [->|]; [|destruct (decide (t = diagnostics_table)) as [->|]].
    + apply event_table_climbs.
    + apply diagnostic_table_climbs.
    + eapply strongly_sorted_map; [apply strongly_sorted_any|]. intros v w _ _ _. by split; cbn; intros ->.
  - intros t t' a b Hne _ _ (v & -> & _)%list_elem_of_fmap (w & -> & _)%list_elem_of_fmap.
    split; cbn; congruence.
Qed.
(** *** The receipt and the rows it was made from *)
Section receipt.
Context (archive : string) (rev : Z).
Hypothesis few : Z.of_nat (length (archive_rows rows)) <= i64_max.
Notation t := (final_tally archive session rev rows).
Notation r := (receipt archive session rev t).

Lemma final_tally_ok : tally_ok (Z.of_nat (length (archive_rows rows))) t.
Proof using numbered others rows_readable.
  unfold final_tally. rewrite <- (Z.add_0_l (Z.of_nat _)).
  eapply tally_ok_fold; eauto using tally_ok_empty, rows_archivable, rows_climb, rows_reached.
Qed.

Lemma final_tally_covers e : e ∈ archive_rows rows -> covers t e.
Proof using numbered others rows_readable.
  intros He. eapply covers_fold; eauto using rows_archivable, rows_climb, rows_reached.
Qed.

Lemma receipt_table table : table ∈ TABLES ->
  index (index r "table_sha256") table = Str (rows_digest table (rows table))
  /\ get_i64 table (index r "counts") = Some (Z.of_nat (length (rows table))).
Proof using numbered others rows_readable few.
  intros Ht. pose proof final_tally_ok as [Hl Hc Hn _ _ _].
  destruct (empty_tally_table (line (export_header archive session rev)) table Ht) as [El Ec].
  destruct (table_fold table (archive_rows rows) _ _ _ El Ec) as [Fl Fc].
  rewrite filter_archive_rows in Fl, Fc by done. rewrite length_map in Fc.
  change (foldl _ _ _) with t in Fl, Fc. split.
  - change (index r "table_sha256") with (sort_json (Object (digests t))). unfold index.
    rewrite get_sort_json.
    + unfold digests. rewrite (assoc_map_snd table (fun l => Str (sha256_hex l))), Fl. cbn.
      by rewrite map_map.
    + unfold digests. rewrite (keys_map_snd (fun l => Str (sha256_hex l))), Hl. apply tables_distinct.
  - change (index r "counts") with (sort_json (Object (counts_json t))).
    unfold counts_json. erewrite get_i64_counted; [by rewrite Fc| |done|done].
    rewrite Hc. apply tables_distinct.
Qed.

(** The telemetry below the watermarks is all the telemetry. *)
Lemma receipt_events :
  archived_events session (index r "watermarks") d = rows events_table.
Proof using numbered others rows_readable.
  unfold archived_events. pose proof final_tally_ok as [_ _ _ He _ _].
  assert (get_i64 "events" (index r "watermarks") = Some (last_event t)) as ->.
  { change (index r "watermarks") with (sort_json (watermarks t)). unfold watermarks.
    rewrite get_i64_sort by (apply all_distinct_spec; reflexivity). by apply as_i64_num. }
  unfold session_rows at 2. rewrite String.eqb_refl. do 2 f_equal.
  apply filter_ext_in. intros e Hin. destruct (String.eqb_spec (event_session e) session) as [Hs|]; [|done].
  cbn [is_some_and andb]. apply Z.leb_le.
  assert ((events_table, event_json e) ∈ archive_rows rows) as Hrow.
  { apply archive_rows_elem. split; [by apply str_in_spec|]. apply event_rows_elem.
    exists e. split; [by apply list_elem_of_In|done]. }
  destruct (final_tally_covers _ Hrow) as [Hc _]. specialize (Hc eq_refl). cbn [snd] in Hc.
  apply archive_rows_elem in Hrow as [_ Hrow]. destruct (row_event _ Hrow) as (e' & _ & _ & _ & Hid).
  destruct numbered as [Hn _]. rewrite Forall_forall in Hn. apply list_elem_of_In, Hn in Hin.
  unfold get_i64 in Hc. cbn -[num as_i64] in Hc. by rewrite as_i64_num in Hc.
Qed.

Lemma receipt_diagnostics :
  archived_diagnostics session (index (index r "watermarks") "diagnostics") d = rows diagnostics_table.
Proof using numbered others rows_readable.
  pose proof final_tally_ok as [_ _ _ _ Hf Ho].
  assert (forall f, get_i64 f (index (index r "watermarks") "diagnostics") = assoc f (last_ordinals t)) as Hmarks.
  { intros f. by eapply get_i64_counted. }
  revert Hmarks. generalize (index (index r "watermarks") "diagnostics"). intros marks Hmarks.
  unfold archived_diagnostics, session_rows at 1.
  cbn [String.eqb Ascii.eqb Bool.eqb diagnostics_table events_table].
  rewrite !flat_map_concat_map. f_equal. apply map_ext_in. intros f Hin. f_equal.
  rewrite <- (filter_true (diagnostic_rows session f d)) at 2.
  apply filter_ext_in. intros p Hp%list_elem_of_In.
  assert ((diagnostics_table, diagnostic_json session f p) ∈ archive_rows rows) as Hrow.
  { apply archive_rows_elem. split; [by apply str_in_spec|]. apply diagnostic_table_elem.
    exists f, p. split; [|done]. apply list_elem_of_In in Hin. by rewrite sort_by_perm in Hin. }
  destruct (final_tally_covers _ Hrow) as [_ Hc]. destruct (Hc eq_refl f eq_refl) as (n & Hn & Hle).
  rewrite Hmarks, Hn. cbn [unwrap_or].
  apply diagnostic_rows_elem in Hp. destruct numbered as [_ Hnum]. apply Hnum in Hp.
  unfold get_i64 in Hle. cbn -[num as_i64] in Hle. rewrite as_i64_num in Hle by done. cbn in Hle. lia.
Qed.
End receipt.
End well_formed.
End session_archive.

(** * Export, verification and pruning agree *)

(** C21: an archive that [export] wrote is accepted by [verify].  The receipt
    names the archive, the revision of the snapshot and, for every table, the
    number of rows and the digest of exactly the rows that were exported; and
    the telemetry that [write_retention] collects under the watermarks of the
    receipt is the telemetry that was exported, so that as long as nothing was
    added its digests are the archived ones and pruning is not refused.  The
    hypotheses are serde_json's (it prints a document on one line and reads
    back what it printed, for the documents of this archive), the widths of the
    columns, and that every other table gives rows of the session. *)
Theorem exported_archive_verifies `{P : Platform} `{B : Backend}
    (archive session : string) (rev : Z) (other : string -> list value) (d : Db) (a s : string) :
  let rows table := session_rows session table other d in
  (forall v, one_line (json_text v) = true) -> (forall f, line_safe (f64_text f) = true) ->
  Forall prints (archive_documents archive session rev rows) ->
  1 <= rev <= i64_max -> uuid_parse archive = Some a -> uuid_parse session = Some s ->
  Z.of_nat (length (archive_rows rows)) <= i64_max ->
  numbered_telemetry d ->
  (forall t v, t <> events_table -> t <> diagnostics_table -> v ∈ other t ->
     exists m, v = Object m /\ assoc "session_id" m = Some (Str session)) ->
  Forall (fun e => readable (row_document e) = true) (archive_rows rows) ->
  exists r, verify_text (export_archive archive session rev rows) = Ok r
  /\ get_str "archive_id" r = Some archive /\ get_i64 "snapshot_revision" r = Some rev
  /\ (forall table, table ∈ TABLES ->
        index (index r "table_sha256") table = Str (rows_digest table (rows table))
        /\ get_i64 table (index r "counts") = Some (Z.of_nat (length (rows table))))
  /\ rows_digest events_table (archived_events session (index r "watermarks") d)
     = rows_digest events_table (rows events_table)
  /\ rows_digest diagnostics_table
       (archived_diagnostics session (index (index r "watermarks") "diagnostics") d)
     = rows_digest diagnostics_table (rows diagnostics_table).
Proof.
  intros rows Hj Hf Hp Hrev Ha Hs Hlen Hnum Ho Hr.
  exists (receipt archive session rev (final_tally archive session rev rows)). split_and!.
  - eapply verify_exported; eauto using rows_archivable, rows_climb, rows_reached.
  - done.
  - unfold get_i64. cbn -[num as_i64 i64_max]. apply as_i64_num. lia.
  - intros table Ht. by apply receipt_table.
  - f_equal. by apply receipt_events.
  - f_equal. by apply receipt_diagnostics.
Qed.

(** ** A session with telemetry, archived *)

(** A printer that leaves out newlines, and the reader of the documents [docs]. *)
Fixpoint without_newlines (s : string) : string :=
  match s with
  | EmptyString => ""
  | String a s' => if no_newline a then String a (without_newlines s') else without_newlines s'
  end.
Definition printing_platform (docs : Platform -> list value) : Platform :=
  let base (read : string -> result string value) := {|
    sha256_hex := sha256_hex (Platform := sample_platform);
    json_text v := without_newlines (plain_text v);
    f64_text f := show_Z (f64_trunc f) +:+ ".0";
    json_read := read;
    regex_is_match := regex_is_match (Platform := sample_platform);
    regex_find_iter := regex_find_iter (Platform := sample_platform);
    regex_captures := regex_captures (Platform := sample_platform);
    regex_error := regex_error (Platform := sample_platform);
    regex_replace_all := regex_replace_all (Platform := sample_platform);
    regex_escape := regex_escape (Platform := sample_platform);
    to_lowercase := to_lowercase (Platform := sample_platform);
    char_to_uppercase := char_to_uppercase (Platform := sample_platform);
    is_alphanumeric := is_alphanumeric (Platform := sample_platform);
    debug_str := debug_str (Platform := sample_platform);
    debug_value := debug_value (Platform := sample_platform);
    uuid_parse := uuid_parse (Platform := sample_platform) |} in
  let silent := base (fun _ => Err "no document") in
  base (fun s => match List.find (fun v => String.eqb (canonical_json (P := silent) v) s) (docs silent) with
                 | Some v => Ok (sort_json v)
                 | None => Err "no document"
                 end).
Definition telemetry_db : Db :=
  empty_db <| session_events := [{| event_id := 7; event_created_at := 3; event_session := "s1";
                                    event_value := Str "two"; event_revision := 2; event_commit := "c2";
                                    event_command := "k" |};
                                 {| event_id := 4; event_created_at := 1; event_session := "s1";
                                    event_value := Str "one"; event_revision := 1; event_commit := "c1";
                                    event_command := "k" |}] |>
           <| diagnostics := {[("s1", "compaction_events", 1) := Str "first"; ("s1", "compaction_events", 2) := Str "second"]} |>.
Definition other_tables (table : string) : list value :=
  if String.eqb table "agent_sessions" then [Object [("session_id", Str "s1"); ("revision", num 2)]] else [].
Definition telemetry_rows (table : string) : list value :=
  session_rows (B := lossy_backend 0) "s1" table other_tables telemetry_db.
Definition archive_platform : Platform :=
  printing_platform (fun P => archive_documents (P := P) "a1" "s1" 2 telemetry_rows).

Lemma without_newlines_one_line s : one_line (without_newlines s) = true.
Proof.
  unfold one_line. induction s as [|a s IH]; cbn; [done|]. by destruct (no_newline a) eqn:E; cbn; rewrite ?E.
Qed.

Lemma whole_text_safe z : line_safe (show_Z z +:+ ".0") = true.
Proof.
  unfold line_safe. rewrite all_bytes_app. pose proof (show_Z_safe z) as H. unfold line_safe in H. by rewrite H.
Qed.

Lemma exported_archive_verifies_witness :
  exists r, verify_text (P := archive_platform) (B := lossy_backend 0)
              (export_archive (P := archive_platform) "a1" "s1" 2 telemetry_rows) = Ok r
  /\ get_i64 "agent_session_events" (index r "counts") = Some 2.
Proof.
  destruct (exported_archive_verifies (P := archive_platform) (B := lossy_backend 0)
              "a1" "s1" 2 other_tables telemetry_db "a1" "s1") as (r & Hr & _ & _ & Ht & _).
  - intros v. apply without_newlines_one_line.
  - intros f. apply whole_text_safe.
  - change (Forall (prints (P := archive_platform)) (archive_documents (P := archive_platform) "a1" "s1" 2 telemetry_rows)).
    repeat constructor; unfold prints; vm_compute; reflexivity.
  - unfold i64_max. lia.
  - reflexivity.
  - reflexivity.
  - vm_compute. discriminate.
  - split; [repeat constructor; vm_compute; discriminate|].
    intros s f n x H. unfold i64_max.
    change (({[("s1", "compaction_events", 1) := Str "first"; ("s1", "compaction_events", 2) := Str "second"]}
             : gmap (string * string * Z) value) !! (s, f, n) = Some x) in H.
    apply lookup_insert_Some in H as [[[= <- <- <-] _]|[_ [[= <- <- <-] _]%lookup_singleton_Some]]; lia.
  - intros t v _ _ Hv. unfold other_tables in Hv. destruct (String.eqb t "agent_sessions"); [|by apply elem_of_nil in Hv].
    apply list_elem_of_singleton in Hv as ->. eexists. split; reflexivity.
  - repeat constructor; vm_compute; reflexivity.
  - exists r. split; [exact Hr|]. apply (Ht "agent_session_events"). apply str_in_spec. reflexivity.
Defined.
